(* ===== verification/_CoqProject ===== *)
-Q . S2P
Prelude.v
Memlib.v
Mm.v
MmSpec.v
MmThms.v
MmProps.v
Cio.v
Db.v
DbRep.v
DbChain.v
DbThms.v
DbProps.v
Threads.v
Mq.v
MqThms.v
MqProps.v
Rwlock.v
RwlockProps.v
Sem.v
SemProps.v
Rio.v
RioProps.v
Sbuf.v
Inet.v
InetProps.v
Dbl.v
Date.v
DateThms.v
DateProps.v
Vector.v
VectorProps.v
Dlist.v
DlistProps.v
Dtree.v
DtreeThms.v
DtreeProps.v
ByteOrder.v
Print.v
Ipp.v
Printd.v
PrintdThms.v
IppThms.v
PrintdProps.v
PrintProps.v
Gai.v
GaiThms.v
GaiProps.v
Sockets.v
SocketsProps.v
Foo.v
FooThms.v
FooProps.v
Strcli.v
StrcliProps.v
Echo.v
EchoProps.v
Web.v
WebProps.v
Proxy.v
ProxyProps.v
