(* ===== verification/Prelude.v ===== *)
(** * Verified parts of the zinzhi sources

    The repository collects C and C++ programs on systems programming.  This development
    models those of its parts that compute: a storage allocator, a database library, a
    print spooler, a web proxy, network servers and clients, a monitor of directory trees,
    message queues, locks and semaphores built from mutexes, condition variables and mapped
    files, input and output loops, name and address conversion, calendar arithmetic and two
    container templates.  Paths below are relative to src/.

    ** Method

    Each function of the source is a function here, with the same name where the language
    allows it and the same order of reads, writes, tests and early returns.  State is
    passed explicitly; this file has the state and error monad [M] that the longer
    programs use, with its notation, its weakest precondition [wp], and lemmas on lists,
    bytes and machine integers.  An error path is a value: an error number, an exception,
    a fault, or the end of the process.  Threads that share an object are a step relation
    whose steps are the pieces of a call between two points at which another thread can
    run; theorems about them are invariants of all reachable states.

    The code the sources call and do not contain (malloc of the heap, [gmtime], the
    timing of other processes, the results of [read] and [write], the resolver, the kernel's
    inotify calls) enters as arguments.

    ** Parts

    - The allocator csapp/code/vm/malloc.  [Memlib] is memlib.c, the simulated memory
      system.  [Mm] is mm.c on byte memory.  [MmSpec] relates it to a list of blocks,
      [MmThms] to a map of live allocations through the class [Allocator], [MmProps] has
      the theorems: [mm_malloc] implements first fit with splitting and growth, [mm_free]
      coalesces, [mm_realloc] keeps contents, any client that frees what it holds runs
      without a fault, and the consistency checker accepts every such heap.
    - The database apue.3e/db/db.c.  [Cio] is what the components use of C strings,
      decimal conversion and files.  [Db] is db.c, both files as byte lists, with the
      record locks of lib/lockreg.c.  [DbRep] describes the bytes of the files, [DbChain]
      the hash chains and the free list, [DbThms] the functions, [DbProps] the theorems:
      fetch, store and delete implement a finite map, a scan reads every record once, a
      closed database opens again with the same records, and a sequence of operations on
      a new database returns what a map returns.
    - Message queues, unpv22e/my_pxmsg_mmap.  [Mq] has the calls on the mapped file,
      [MqThms] the linked lists in it, [MqProps] the threads: sends and receives are those
      of a bounded priority queue under every interleaving, and no call finds the queue
      inconsistent.
    - Read-write locks, unpv22e/my_rwlock and my_rwlock_cancel: [Rwlock], [RwlockProps].
      Mutual exclusion, preference for writers, no lost wake-up without cancellation, and
      the wake-ups and errors that the versions with cancellation handlers lose.
    - Semaphores, unpv22e/my_pxsem_mmap, my_pxsem_fifo and my_pxsem_svsem: the modules of
      [Sem], and [SemProps].  All three are instances of one interface, against which a
      client with a critical section is proved.
    - Input and output: [Rio] has the Rio package of csapp/code/src/csapp.c and the [readn],
      [writen] and line readers of unpv13e/lib, apue.3e/lib and tlpi-dist/sockets, and
      [RioProps] what they transfer when system calls are short or interrupted.
    - The bounded buffer csapp/code/conc/sbuf.c, statement by statement: [Sbuf].
    - Address conversion and checksum, unpv13e/libfree: [Inet], [InetProps].
    - Calendars, cpp-code/date: [Dbl] is double arithmetic, [Date] has the classes, the
      event calendar and the conversions of mjd/mjd.c, [DateThms] the lemmas, [DateProps]
      the theorems: day numbers and dates convert back and forth in both calendars in
      spite of rounding, arithmetic steps through the days, weekdays, months and years are
      right, a calendar is a set of events, and the searches of mjd.c end.
    - The print spooler of apue.3e/printer.  [Print] is the client print.c, util.c and
      sockets/clconn2.c; [Ipp] has the messages to and from the printer; [Printd] is the
      daemon printd.c, with its job list in a heap of nodes, the spool directory, and the
      client, printer and signal threads.  [ByteOrder] is [htons] and [htonl].  [PrintdThms]
      and [IppThms] have the lemmas, [PrintdProps] and [PrintProps] the theorems: accepted
      jobs are kept until they are printed, under every interleaving and every error, and
      over a crash; a client is told the truth; what goes to the printer is well formed, its
      answer is understood, and a printer that accepts jobs gets all of them.
    - The monitor of directory trees tlpi-dist/inotify/inotify_dtree.c: [Dtree], with the
      kernel as a class of operations, [DtreeThms], and [DtreeProps]: the cache of watched
      directories stays well formed whatever the kernel does, and follows the file system if
      the kernel behaves as documented.
    - Names and sockets.  [Gai] is unpv13e/libgai, [GaiThms] and [GaiProps] show what list
      [getaddrinfo] returns, that its memory is freed, and that it reads back what
      [getnameinfo] prints.  [Sockets] has the functions of unpv13e/lib that open a socket for
      a name, and those on socket addresses; [SocketsProps] shows which address is used and
      that nothing else stays open or allocated.
    - The web proxy c-proxy/my/proxy.c: [Proxy], over [Rio], and [ProxyProps]: which parts of an
      address are used, what the end server and the browser get for a request and what is
      logged, and that the queue between the accepting and the serving threads is first in,
      first out while it has room.
    - Network programs with several descriptors, whose loops over [select] or [poll] get what
      the kernel answers as an argument.  [Strcli] is unpv13e/nonblock/strclinonb.c, [Echo] has
      tcpservselect01.c and tcpservpoll01.c of unpv13e/tcpcliserv, [Web] is the client web.c of
      unpv13e/nonblock.  [StrcliProps]: bytes pass once and in order inside the buffers.
      [EchoProps]: a turn serves each ready connection once, and the tables agree with the open
      connections.  [WebProps]: the counters are right, every file is fetched, and the program
      ends.
    - Reference counting, apue.3e/threads/mutex2.c and mutex3.c: [Foo], [FooThms], [FooProps].
      Counts are the numbers of references under every interleaving, nothing is used after it
      was freed, and the two locks of mutex2.c do not deadlock.
    - Containers: [Vector] and [VectorProps] for cpp-code/vector/lab1_1.5/vector.h, [Dlist]
      and [DlistProps] for cpp-code/list/List.h.  Both behave as lists under every sequence
      of calls; [Vector]'s merge sort sorts; [Dlist] frees the memory it took.
    - [Threads] counts the threads in a given state, for the components with threads.

    Beside the theorems each file of properties has lemmas that show where the code does
    not do what it says: lost wake-ups, overruns, counts that are off by one.

    ** Bounds and fuel

    Machine integers are kept at their width where the code depends on it: sizes and
    addresses of the allocator, the counts of the semaphores, the hash of the database,
    the accumulator of the checksum.  Elsewhere they are integers, and the theorems bound
    their arguments so that no value leaves the type: a request up to [max_request], a
    database of at most 9660 operations (file offsets have seven digits), 131068 bytes of
    checksum, day numbers up to 70000000, Julian Day numbers up to 2000000000.  [Vector]
    sizes are taken to be below 2^31.

    A loop that is not structural takes fuel, and running out of it is an outcome of its
    own, different from every result.  The callers compute the fuel: the length of the
    heap or of the files bounds the walks over blocks, chains and records, since these
    advance through distinct positions; the schedule of system calls and the number of
    bytes bound the input and output loops; the number of elements bounds the loops over
    lists; the size of its buffer bounds the parser of the printer's answer, and two rounds
    suffice to read the events of a change of a directory tree; the objects of the heap bound
    the walks over a hash chain, the unstarted files the loop that starts connections, and the
    bytes of the response the loop of the proxy.  The theorems assert a result, so that they
    also say that the fuel suffices and the loop ends.  An event loop runs over the list of
    what the kernel answers.  The retry loops of the open functions have the source's own
    limit of attempts where it has one, and their fuel as an argument where it does not.

    ** Not modelled

    - Programs that are a sequence of system calls: the other client and server programs of
      unpv13e, the process, terminal, signal and socket examples of apue.3e, tlpi-dist and
      csapp, the doors and RPC programs of unpv22e.  What they do is what the kernel does.
    - The start of the proxy and of the echo servers, before their loops; the home page of web.c;
      the reader of gcf-input, whose data goes to a database server.
    - Wrappers that call one function and print a message on error.
    - The resolver, and unpv13e/libfree/getaddrinfo.c, an older version of libgai in one file.
    - The log, the dump and the signal handling of inotify_dtree.c beyond the state they read
      or set; [setreuid], the daemon's start-up sequence and the syslog messages of printd.c.
    - Failures of system calls inside an open or a create beyond those named at the
      definitions; memory ordering below the level of mutexes and semaphores; signals
      that interrupt a call, other than the interruption of [read], [write] and [semop].
    - Concurrent processes on one database: the locks are tracked, and the functions run
      alone.
    - The command line and the output of mjd.c; the move constructor of [Vector], which
      does not compile; the test drivers.
    - Java, Erlang, shell and editor files. *)

From stdpp Require Import base tactics numbers list gmap.
From Stdlib Require Import ZArith Lia.

#[global] Open Scope Z_scope.
#[export] Set Warnings "-clear-no-such-hyp".

(** ** Machine integers

    A [w]-bit C integer is a [Z] together with the conversion C applies when a
    value is stored in it: reduction modulo [2^w] for the unsigned types, and
    the two's complement representative for the signed ones. *)

Definition u8 (x : Z) : Z := x mod 2 ^ 8.
Definition u16 (x : Z) : Z := x mod 2 ^ 16.
Definition u32 (x : Z) : Z := x mod 2 ^ 32.
Definition u64 (x : Z) : Z := x mod 2 ^ 64.
Definition i8 (x : Z) : Z := (x + 2 ^ 7) mod 2 ^ 8 - 2 ^ 7.
Definition i32 (x : Z) : Z := (x + 2 ^ 31) mod 2 ^ 32 - 2 ^ 31.
Definition i64 (x : Z) : Z := (x + 2 ^ 63) mod 2 ^ 64 - 2 ^ 63.

Definition INT_MAX : Z := 2 ^ 31 - 1.

Lemma u16_id x : 0 <= x < 2 ^ 16 → u16 x = x.
Proof. intros; unfold u16; by apply Z.mod_small. Qed.
Lemma u32_id x : 0 <= x < 2 ^ 32 → u32 x = x.
Proof. intros; unfold u32; by apply Z.mod_small. Qed.
Lemma u64_id x : 0 <= x < 2 ^ 64 → u64 x = x.
Proof. intros; unfold u64; by apply Z.mod_small. Qed.
Lemma i32_id x : - 2 ^ 31 <= x < 2 ^ 31 → i32 x = x.
Proof. intros; unfold i32; rewrite Z.mod_small; lia. Qed.
Lemma i64_id x : - 2 ^ 63 <= x < 2 ^ 63 → i64 x = x.
Proof. intros; unfold i64; rewrite Z.mod_small; lia. Qed.
Lemma u32_range x : 0 <= u32 x < 2 ^ 32.
Proof. unfold u32; apply Z.mod_pos_bound; lia. Qed.
Lemma u64_range x : 0 <= u64 x < 2 ^ 64.
Proof. unfold u64; apply Z.mod_pos_bound; lia. Qed.

(** ** A state and error monad

    C code is modelled as a function from a state to a new state and an
    outcome.  [Done a] is a normal return.  [Fail e] is the end of the process
    at that point (an [err_dump], a memory fault, an exhausted loop bound); the
    state reached so far is kept, because files and shared memory outlive the
    process. *)

Inductive outcome (E A : Type) : Type :=
  | Done (a : A)
  | Fail (e : E).
Arguments Done {E A} a.
Arguments Fail {E A} e.

Definition M (S E A : Type) : Type := S → S * outcome E A.

Definition ret {S E A} (a : A) : M S E A := λ s, (s, Done a).
Definition fail {S E A} (e : E) : M S E A := λ s, (s, Fail e).
Definition bind {S E A B} (m : M S E A) (k : A → M S E B) : M S E B := λ s,
  match m s with
  | (s', Done a) => k a s'
  | (s', Fail e) => (s', Fail e)
  end.
Definition get {S E} : M S E S := λ s, (s, Done s).
Definition gets {S E A} (f : S → A) : M S E A := λ s, (s, Done (f s)).
Definition modify {S E} (f : S → S) : M S E unit := λ s, (f s, Done tt).

Declare Scope prog_scope.
Delimit Scope prog_scope with prog.
Notation "'let!' x ':=' m 'in' k" := (bind m (λ x, k))
  (at level 10, x binder, m at level 100, k at level 200,
   format "'[v' 'let!'  x  ':='  m  'in' '/' k ']'") : prog_scope.
Notation "m ;;; k" := (bind m (λ _, k))
  (at level 100, k at level 200, right associativity,
   format "'[v' m ;;; '/' k ']'") : prog_scope.
#[global] Open Scope prog_scope.

(** Running a sequence: what the first part does determines the rest. *)
Lemma bind_done {S E A B} (m : M S E A) (k : A → M S E B) s s' a :
  m s = (s', Done a) → bind m k s = k a s'.
Proof. unfold bind. by intros ->. Qed.
Lemma bind_fail {S E A B} (m : M S E A) (k : A → M S E B) s s' e :
  m s = (s', Fail e) → bind m k s = (s', Fail e).
Proof. unfold bind. by intros ->. Qed.
Lemma bind_modify {S E B} (f : S → S) (k : unit → M S E B) s :
  bind (modify f) k s = k tt (f s).
Proof. done. Qed.
Lemma bind_gets {S E A B} (f : S → A) (k : A → M S E B) s : bind (gets f) k s = k (f s) s.
Proof. done. Qed.
Lemma bind_get {S E B} (k : S → M S E B) s : bind get k s = k s s.
Proof. done. Qed.
Lemma bind_ret {S E A B} (a : A) (k : A → M S E B) s : bind (ret a) k s = k a s.
Proof. done. Qed.
Lemma bind_assoc {S E A B C} (m : M S E A) (k : A → M S E B) (j : B → M S E C) s :
  bind (bind m k) j s = bind m (λ a, bind (k a) j) s.
Proof. unfold bind. by destruct (m s) as [s' [a|e]]. Qed.

(** *** Total correctness of a program

    [wp m Q s]: run from [s], the program [m] returns normally, and its result
    and final state satisfy [Q]. *)

Definition wp {S E A} (m : M S E A) (Q : A → S → Prop) (s : S) : Prop :=
  match m s with
  | (s', Done a) => Q a s'
  | (_, Fail _) => False
  end.

Section wp.
Context {S E : Type}.

Lemma wp_ret {A} (a : A) (Q : A → S → Prop) s : Q a s → wp (E:=E) (ret a) Q s.
Proof. done. Qed.

Lemma wp_bind {A B} (m : M S E A) (k : A → M S E B) Q s :
  wp m (λ a, wp (k a) Q) s → wp (bind m k) Q s.
Proof. unfold wp, bind. by destruct (m s) as [s' [a|e]]. Qed.

Lemma wp_bind_inv {A B} (m : M S E A) (k : A → M S E B) Q s :
  wp (bind m k) Q s → wp m (λ a, wp (k a) Q) s.
Proof. unfold wp, bind. by destruct (m s) as [s' [a|e]]. Qed.

Lemma wp_mono {A} (m : M S E A) (Q R : A → S → Prop) s :
  wp m Q s → (∀ a s', Q a s' → R a s') → wp m R s.
Proof. unfold wp. destruct (m s) as [s' [a|e]]; eauto. Qed.

Lemma wp_get (Q : S → S → Prop) s : Q s s → wp (E:=E) get Q s.
Proof. done. Qed.

Lemma wp_gets {A} (f : S → A) (Q : A → S → Prop) s :
  Q (f s) s → wp (E:=E) (gets f) Q s.
Proof. done. Qed.

Lemma wp_modify (f : S → S) (Q : unit → S → Prop) s :
  Q tt (f s) → wp (E:=E) (modify f) Q s.
Proof. done. Qed.

Lemma wp_run {A} (m : M S E A) (Q : A → S → Prop) s s' a :
  m s = (s', Done a) → Q a s' → wp m Q s.
Proof. unfold wp. by intros ->. Qed.

Lemma wp_elim {A} (m : M S E A) (Q : A → S → Prop) s :
  wp m Q s → ∃ a s', m s = (s', Done a) ∧ Q a s'.
Proof. unfold wp. destruct (m s) as [s' [a|e]]; naive_solver. Qed.
End wp.

(** [wp_step] opens the next primitive of a program; [wp_call L] runs a called
    function by its specification [L], leaving its postcondition to use. *)

Ltac wp_step :=
  lazymatch goal with
  | |- wp (bind _ _) _ _ => apply wp_bind; wp_step
  | |- wp (ret _) _ _ => apply wp_ret
  | |- wp get _ _ => apply wp_get
  | |- wp (gets _) _ _ => apply wp_gets
  | |- wp (modify _) _ _ => apply wp_modify
  | |- wp (match ?x with _ => _ end) _ _ => idtac
  | |- _ => idtac
  end.
Ltac wp_call L := wp_step; eapply wp_mono; [eapply L|cbn beta].
