(* ===== verification/Memlib.v ===== *)
(** The simulated memory system of csapp/code/vm/malloc/memlib.c: a byte
    memory, the break pointer the heap ends at, and [mem_sbrk].  The address
    [Malloc] returned for the simulated heap and [MAX_HEAP] (config.h, which
    the repository does not contain) are arguments. *)

From stdpp Require Import base tactics numbers list gmap.
From Stdlib Require Import ZArith Lia.
From S2P Require Import Prelude.

(** ** Byte memory *)

(** A byte that was never written has some value; the model reads it as 0, and
    no theorem depends on it because every statement is about an arbitrary
    initial memory. *)
Definition rd (m : gmap Z Z) (a : Z) : Z := default 0 (m !! a).
Definition wr (m : gmap Z Z) (a v : Z) : gmap Z Z := <[a := v]> m.

(** A 4-byte little-endian word, what a cast to [unsigned int] reads. *)
Definition get4 (m : gmap Z Z) (p : Z) : Z :=
  rd m p + 2 ^ 8 * rd m (p + 1) + 2 ^ 16 * rd m (p + 2) + 2 ^ 24 * rd m (p + 3).
Definition put4 (m : gmap Z Z) (p v : Z) : gmap Z Z :=
  wr (wr (wr (wr m p (v mod 2 ^ 8)) (p + 1) (v / 2 ^ 8 mod 2 ^ 8))
       (p + 2) (v / 2 ^ 16 mod 2 ^ 8)) (p + 3) (v / 2 ^ 24 mod 2 ^ 8).

Lemma rd_wr_eq m a v : rd (wr m a v) a = v.
Proof. unfold rd, wr. by rewrite lookup_insert_eq. Qed.
Lemma rd_wr_ne m a b v : a ≠ b → rd (wr m a v) b = rd m b.
Proof. intros. unfold rd, wr. by rewrite lookup_insert_ne. Qed.

Lemma rd_put4_ne m p v a : a < p ∨ p + 4 <= a → rd (put4 m p v) a = rd m a.
Proof. intros. unfold put4. rewrite !rd_wr_ne; try done; lia. Qed.

Lemma get4_put4_eq m p v : 0 <= v < 2 ^ 32 → get4 (put4 m p v) p = v.
Proof.
  intros Hv. unfold get4, put4.
  rewrite (rd_wr_eq _ (p + 3)).
  rewrite (rd_wr_ne _ (p + 3) (p + 2)), (rd_wr_eq _ (p + 2)) by lia.
  rewrite (rd_wr_ne _ (p + 3) (p + 1)), (rd_wr_ne _ (p + 2) (p + 1)),
    (rd_wr_eq _ (p + 1)) by lia.
  rewrite (rd_wr_ne _ (p + 3) p), (rd_wr_ne _ (p + 2) p),
    (rd_wr_ne _ (p + 1) p), (rd_wr_eq _ p) by lia.
  Z.div_mod_to_equations; lia.
Qed.

Lemma get4_frame m m' p :
  (∀ a, p <= a < p + 4 → rd m' a = rd m a) → get4 m' p = get4 m p.
Proof. intros H. unfold get4. by rewrite !H by lia. Qed.

Lemma get4_put4_ne m p q v :
  q + 4 <= p ∨ p + 4 <= q → get4 (put4 m p v) q = get4 m q.
Proof. intros. apply get4_frame. intros. apply rd_put4_ne. lia. Qed.

(** Bytes copied one after the other from [src] to [dst]. *)
Fixpoint copy_bytes (m : gmap Z Z) (dst src : Z) (n : nat) : gmap Z Z :=
  match n with
  | O => m
  | S n' => copy_bytes (wr m dst (rd m src)) (dst + 1) (src + 1) n'
  end.

Lemma copy_bytes_frame n : ∀ m dst src a,
  a < dst ∨ dst + Z.of_nat n <= a → rd (copy_bytes m dst src n) a = rd m a.
Proof.
  induction n as [|n IH]; intros m dst src a Ha; [done|].
  cbn [copy_bytes]. rewrite IH by lia. apply rd_wr_ne. lia.
Qed.

Lemma copy_bytes_spec n : ∀ m dst src i,
  dst + Z.of_nat n <= src ∨ src + Z.of_nat n <= dst →
  0 <= i < Z.of_nat n → rd (copy_bytes m dst src n) (dst + i) = rd m (src + i).
Proof.
  induction n as [|n IH]; intros m dst src i Hd Hi; [lia|].
  cbn [copy_bytes]. destruct (decide (i = 0)) as [->|Hne].
  - rewrite !Z.add_0_r, copy_bytes_frame by lia. apply rd_wr_eq.
  - replace (dst + i) with (dst + 1 + (i - 1)) by lia. rewrite IH by lia.
    replace (src + 1 + (i - 1)) with (src + i) by lia. apply rd_wr_ne. lia.
Qed.

(** ** The memory system *)

Definition ENOMEM : Z := 12.

Record memsys := MemSys {
  mem : gmap Z Z;       (** the bytes of the address space *)
  mem_heap : Z;         (** first byte of the heap *)
  mem_brk : Z;          (** last byte of the heap plus 1 *)
  mem_max_addr : Z;     (** max legal heap address plus 1 *)
  errno : Z }.

(** The only way a modelled memory access can go wrong, and the exhaustion of
    the bound put on a search loop. *)
Inductive fault := Segv (a : Z) | OutOfFuel.

Definition with_mem (s : memsys) (m : gmap Z Z) : memsys :=
  MemSys m (mem_heap s) (mem_brk s) (mem_max_addr s) (errno s).

(** [heap] is the address [Malloc(MAX_HEAP)] returned, [m] whatever the memory
    holds. *)
Definition mem_init (m : gmap Z Z) (heap MAX_HEAP : Z) : memsys :=
  MemSys m heap heap (heap + MAX_HEAP) 0.

Definition mem_sbrk (incr : Z) : M memsys fault Z :=
  let! s := get in
  let old_brk := mem_brk s in
  if (incr <? 0) || (mem_max_addr s <? mem_brk s + incr) then
    modify (λ s, MemSys (mem s) (mem_heap s) (mem_brk s) (mem_max_addr s) ENOMEM);;;
    ret (-1)
  else
    modify (λ s, MemSys (mem s) (mem_heap s) (mem_brk s + incr) (mem_max_addr s) (errno s));;;
    ret old_brk.

Definition mem_deinit : M memsys fault unit := ret tt.

Definition mem_reset_brk : M memsys fault unit :=
  modify (λ s, MemSys (mem s) (mem_heap s) (mem_heap s) (mem_max_addr s) (errno s)).

Definition mem_heap_lo : M memsys fault Z := gets mem_heap.
Definition mem_heap_hi : M memsys fault Z := gets (λ s, mem_brk s - 1).
Definition mem_heapsize : M memsys fault Z := gets (λ s, u64 (mem_brk s - mem_heap s)).

(** A dereference is legal inside [mem_heap, mem_brk). *)
Definition in_heap (s : memsys) (a n : Z) : bool :=
  (mem_heap s <=? a) && (a + n <=? mem_brk s).

Definition load4 (p : Z) : M memsys fault Z := λ s,
  if in_heap s p 4 then (s, Done (get4 (mem s) p)) else (s, Fail (Segv p)).
Definition store4 (p v : Z) : M memsys fault unit := λ s,
  if in_heap s p 4 then (with_mem s (put4 (mem s) p v), Done tt)
  else (s, Fail (Segv p)).
Definition memcpy (dst src n : Z) : M memsys fault unit := λ s,
  if in_heap s src n && in_heap s dst n
  then (with_mem s (copy_bytes (mem s) dst src (Z.to_nat n)), Done tt)
  else (s, Fail (Segv dst)).
