(* ===== verification/Mm.v ===== *)
(** The allocator of csapp/code/vm/malloc/mm.c: implicit free list, first fit,
    boundary-tag coalescing, on the memory system of [Memlib].

    The model runs the code's own reads and writes on a byte memory; the
    theorems of [MmSpec] say that it implements an abstract list of blocks. *)

From stdpp Require Import base tactics numbers list gmap.
From Stdlib Require Import ZArith Lia.
From S2P Require Import Prelude Memlib.

(** ** State *)

(** The statics of mm.c on top of those of memlib.c.  [heap_listp] is 0 until
    [mm_init] runs. *)
Record mm := Mm { sys : memsys; heap_listp : Z }.

(** The initial value of the statics: [mem_init] done, [heap_listp = 0]. *)
Definition mm_start (m : gmap Z Z) (heap MAX_HEAP : Z) : mm :=
  Mm (mem_init m heap MAX_HEAP) 0.

Definition lift {A} (p : M memsys fault A) : M mm fault A := λ s,
  let '(s', r) := p (sys s) in (Mm s' (heap_listp s), r).

Definition set_heap_listp (p : Z) : M mm fault unit :=
  modify (λ s, Mm (sys s) p).

(** ** Constants and macros *)

Definition NULL : Z := 0.
Definition WSIZE : Z := 4.
Definition DSIZE : Z := 8.
Definition CHUNKSIZE : Z := Z.shiftl 1 12.

Definition MAX (x y : Z) : Z := if y <? x then x else y.
Definition PACK (size alloc : Z) : Z := Z.lor size alloc.

Definition GET (p : Z) : M mm fault Z := lift (load4 p).
Definition PUT (p val : Z) : M mm fault unit := lift (store4 p (u32 val)).

(** [~0x7] is converted to [unsigned int]. *)
Definition GET_SIZE (p : Z) : M mm fault Z :=
  let! w := GET p in ret (Z.land w (u32 (Z.lnot 7))).
Definition GET_ALLOC (p : Z) : M mm fault Z :=
  let! w := GET p in ret (Z.land w 1).

Definition HDRP (bp : Z) : Z := bp - WSIZE.
Definition FTRP (bp : Z) : M mm fault Z :=
  let! sz := GET_SIZE (HDRP bp) in ret (bp + sz - DSIZE).
Definition NEXT_BLKP (bp : Z) : M mm fault Z :=
  let! sz := GET_SIZE (bp - WSIZE) in ret (bp + sz).
Definition PREV_BLKP (bp : Z) : M mm fault Z :=
  let! sz := GET_SIZE (bp - DSIZE) in ret (bp - sz).

(** ** Operations *)

(** Boundary tag coalescing; returns the block pointer of the merged block. *)
Definition coalesce (bp : Z) : M mm fault Z :=
  let! prev := PREV_BLKP bp in
  let! prev_ftr := FTRP prev in
  let! prev_alloc := GET_ALLOC prev_ftr in
  let! next := NEXT_BLKP bp in
  let! next_alloc := GET_ALLOC (HDRP next) in
  let! size := GET_SIZE (HDRP bp) in
  if negb (prev_alloc =? 0) && negb (next_alloc =? 0) then
    ret bp
  else if negb (prev_alloc =? 0) && (next_alloc =? 0) then
    let! next := NEXT_BLKP bp in
    let! nsize := GET_SIZE (HDRP next) in
    let size := u64 (size + nsize) in
    PUT (HDRP bp) (PACK size 0);;;
    let! ftr := FTRP bp in
    PUT ftr (PACK size 0);;;
    ret bp
  else if (prev_alloc =? 0) && negb (next_alloc =? 0) then
    let! prev := PREV_BLKP bp in
    let! psize := GET_SIZE (HDRP prev) in
    let size := u64 (size + psize) in
    let! ftr := FTRP bp in
    PUT ftr (PACK size 0);;;
    let! prev := PREV_BLKP bp in
    PUT (HDRP prev) (PACK size 0);;;
    PREV_BLKP bp
  else
    let! prev := PREV_BLKP bp in
    let! psize := GET_SIZE (HDRP prev) in
    let! next := NEXT_BLKP bp in
    let! nftr := FTRP next in
    let! nsize := GET_SIZE nftr in
    let size := u64 (size + u32 (psize + nsize)) in
    let! prev := PREV_BLKP bp in
    PUT (HDRP prev) (PACK size 0);;;
    let! next := NEXT_BLKP bp in
    let! nftr := FTRP next in
    PUT nftr (PACK size 0);;;
    PREV_BLKP bp.

(** Extends the heap by [words] words, rounded up to an even number; the
    [size_t] is converted to the [int] parameter of [mem_sbrk]. *)
Definition extend_heap (words : Z) : M mm fault Z :=
  let size := if words mod 2 =? 0 then u64 (words * WSIZE)
              else u64 (u64 (words + 1) * WSIZE) in
  let! bp := lift (mem_sbrk (i32 size)) in
  if bp =? -1 then ret NULL
  else
    PUT (HDRP bp) (PACK size 0);;;
    let! ftr := FTRP bp in
    PUT ftr (PACK size 0);;;
    let! next := NEXT_BLKP bp in
    PUT (HDRP next) (PACK 0 1);;;
    coalesce bp.

Definition mm_init : M mm fault Z :=
  let! p := lift (mem_sbrk (4 * WSIZE)) in
  set_heap_listp p;;;
  if p =? -1 then ret (-1)
  else
    PUT p 0;;;
    PUT (p + 1 * WSIZE) (PACK DSIZE 1);;;
    PUT (p + 2 * WSIZE) (PACK DSIZE 1);;;
    PUT (p + 3 * WSIZE) (PACK 0 1);;;
    set_heap_listp (p + 2 * WSIZE);;;
    let! bp := extend_heap (CHUNKSIZE / WSIZE) in
    if bp =? NULL then ret (-1) else ret 0.

(** First fit search (the branch compiled when [NEXT_FIT] is not defined).  The
    loop takes at most one step per 8 bytes of heap, so the bytes between
    [heap_listp] and the break bound it. *)
Fixpoint find_fit_loop (fuel : nat) (asize bp : Z) : M mm fault Z :=
  match fuel with
  | O => fail OutOfFuel
  | S fuel =>
    let! sz := GET_SIZE (HDRP bp) in
    if 0 <? sz then
      let! alloc := GET_ALLOC (HDRP bp) in
      let! sz := GET_SIZE (HDRP bp) in
      if (alloc =? 0) && (asize <=? sz) then ret bp
      else let! next := NEXT_BLKP bp in find_fit_loop fuel asize next
    else ret NULL
  end.

Definition loop_bound (s : mm) : nat :=
  S (Z.to_nat ((mem_brk (sys s) - heap_listp s) / 8)).

Definition find_fit (asize : Z) : M mm fault Z :=
  let! s := get in find_fit_loop (loop_bound s) asize (heap_listp s).

Definition place (bp asize : Z) : M mm fault unit :=
  let! csize := GET_SIZE (HDRP bp) in
  if 2 * DSIZE <=? u64 (csize - asize) then
    PUT (HDRP bp) (PACK asize 1);;;
    let! ftr := FTRP bp in
    PUT ftr (PACK asize 1);;;
    let! bp := NEXT_BLKP bp in
    PUT (HDRP bp) (PACK (u64 (csize - asize)) 0);;;
    let! ftr := FTRP bp in
    PUT ftr (PACK (u64 (csize - asize)) 0)
  else
    PUT (HDRP bp) (PACK csize 1);;;
    let! ftr := FTRP bp in
    PUT ftr (PACK csize 1).

(** The block size for a request: overhead and alignment included. *)
Definition adjust_size (size : Z) : Z :=
  if size <=? DSIZE then 2 * DSIZE
  else u64 (DSIZE * (u64 (size + DSIZE + (DSIZE - 1)) / DSIZE)).

Definition mm_malloc (size : Z) : M mm fault Z :=
  let! s := get in
  (if heap_listp s =? 0 then mm_init;;; ret tt else ret tt);;;
  if size =? 0 then ret NULL
  else
    let asize := adjust_size size in
    let! bp := find_fit asize in
    if negb (bp =? NULL) then place bp asize;;; ret bp
    else
      let extendsize := MAX asize CHUNKSIZE in
      let! bp := extend_heap (extendsize / WSIZE) in
      if bp =? NULL then ret NULL
      else place bp asize;;; ret bp.

Definition mm_free (bp : Z) : M mm fault unit :=
  if bp =? 0 then ret tt
  else
    let! size := GET_SIZE (HDRP bp) in
    let! s := get in
    (if heap_listp s =? 0 then mm_init;;; ret tt else ret tt);;;
    PUT (HDRP bp) (PACK size 0);;;
    let! ftr := FTRP bp in
    PUT ftr (PACK size 0);;;
    coalesce bp;;;
    ret tt.

Definition mm_realloc (ptr size : Z) : M mm fault Z :=
  if size =? 0 then mm_free ptr;;; ret 0
  else if ptr =? NULL then mm_malloc size
  else
    let! newptr := mm_malloc size in
    if newptr =? 0 then ret 0
    else
      let! oldsize := GET_SIZE (HDRP ptr) in
      let oldsize := if size <? oldsize then size else oldsize in
      lift (memcpy newptr ptr oldsize);;;
      mm_free ptr;;;
      ret newptr.

(** ** The consistency checker *)

(** What [checkheap] prints about the heap; [MsgHeap] and [MsgEOL] are the two
    lines of its verbose mode. *)
Inductive msg :=
  | MsgHeap (p : Z) | MsgEOL (p : Z)
  | BadPrologue | BadEpilogue | NotAligned (p : Z) | TagMismatch (p : Z).

Definition printblock_body (bp : Z) : M mm fault (list msg) :=
  let! hsize := GET_SIZE (HDRP bp) in
  let! _ := GET_ALLOC (HDRP bp) in
  let! ftr := FTRP bp in
  let! _ := GET_SIZE ftr in
  let! ftr := FTRP bp in
  let! _ := GET_ALLOC ftr in
  ret (if hsize =? 0 then [MsgEOL bp] else []).

Definition checkblock (bp : Z) : M mm fault (list msg) :=
  let! hdr := GET (HDRP bp) in
  let! ftr := FTRP bp in
  let! ftrw := GET ftr in
  ret ((if bp mod 8 =? 0 then [] else [NotAligned bp]) ++
       (if hdr =? ftrw then [] else [TagMismatch bp])).

(** The walk of [checkheap], with the lines printed for each block by [pb]; it
    returns the address the walk stopped at. *)
Fixpoint checkheap_loop (pb : Z → M mm fault (list msg)) (fuel : nat) (bp : Z)
    (out : list msg) : M mm fault (list msg * Z) :=
  match fuel with
  | O => fail OutOfFuel
  | S fuel =>
    let! sz := GET_SIZE (HDRP bp) in
    if 0 <? sz then
      let! l1 := pb bp in
      let! l2 := checkblock bp in
      let! next := NEXT_BLKP bp in
      checkheap_loop pb fuel next (out ++ l1 ++ l2)
    else ret (out, bp)
  end.

Definition checkheap_with (pb : Z → M mm fault (list msg)) (l0 : list msg) :
    M mm fault (list msg) :=
  let! s := get in
  let! psz := GET_SIZE (HDRP (heap_listp s)) in
  let! palloc := GET_ALLOC (HDRP (heap_listp s)) in
  let l1 := if negb (psz =? DSIZE) || (palloc =? 0) then [BadPrologue] else [] in
  let! l2 := checkblock (heap_listp s) in
  let! r := checkheap_loop pb (loop_bound s) (heap_listp s) (l0 ++ l1 ++ l2) in
  let '(out, bp) := r in
  let! l3 := pb bp in
  let! esz := GET_SIZE (HDRP bp) in
  let! ealloc := GET_ALLOC (HDRP bp) in
  ret (out ++ l3 ++
       (if negb (esz =? 0) || (ealloc =? 0) then [BadEpilogue] else [])).

(** [printblock] itself calls [checkheap(0)], which calls no [printblock]. *)
Definition printblock (bp : Z) : M mm fault (list msg) :=
  let! l := checkheap_with (λ _, ret []) [] in
  let! l' := printblock_body bp in
  ret (l ++ l').

Definition checkheap (verbose : bool) : M mm fault (list msg) :=
  let! s := get in
  if verbose then checkheap_with printblock [MsgHeap (heap_listp s)]
  else checkheap_with (λ _, ret []) [].

Definition mm_checkheap (verbose : Z) : M mm fault unit := ret tt.

(** A first run: the heap after [mm_init] has one free block of 4096 bytes, and
    a request is served from its start. *)
Example mm_init_runs :
  (mm_init (mm_start ∅ 4096 65536)).2 = Done 0 ∧
  ((mm_init;;; mm_malloc 100) (mm_start ∅ 4096 65536)).2 = Done (4096 + 16).
Proof. vm_compute. split; reflexivity. Qed.
