(* ===== verification/MmSpec.v ===== *)
(** Correctness of the allocator model of [Mm].

    [rep s bs] says that the memory of [s] holds exactly the blocks [bs] between
    the prologue and the epilogue, with matching boundary tags; [wf] adds that
    no two neighbours are free.  The abstract allocator ([first_fit], [split],
    [merge]) works on such lists, and every operation of the code is shown to
    implement it without touching a byte outside the blocks it handles. *)

From stdpp Require Import base tactics numbers list gmap.
From Stdlib Require Import ZArith Lia.
From S2P Require Import Prelude Memlib Mm.

(** ** Abstract blocks *)

(** Size in bytes, header and footer included, and the allocated bit. *)
Abbreviation blk := (Z * bool)%type.

Fixpoint total (bs : list blk) : Z :=
  match bs with [] => 0 | b :: bs => b.1 + total bs end.

Definition ok_size (sz : Z) : Prop := 16 <= sz ∧ sz mod 8 = 0.
Definition ok_blk (b : blk) : Prop := ok_size b.1.

(** No two neighbouring free blocks. *)
Fixpoint coalesced (bs : list blk) : Prop :=
  match bs with
  | (_, false) :: (((_, false) :: _) as bs') => False
  | _ :: bs' => coalesced bs'
  | [] => True
  end.

(** The first free block of at least [asize] bytes, with what surrounds it. *)
Fixpoint first_fit (asize : Z) (bs : list blk) : option (list blk * Z * list blk) :=
  match bs with
  | [] => None
  | (sz, al) :: bs' =>
    if negb al && (asize <=? sz) then Some ([], sz, bs')
    else match first_fit asize bs' with
         | Some (pre, c, post) => Some ((sz, al) :: pre, c, post)
         | None => None
         end
  end.

(** A free block of [csize] bytes after [asize] bytes were placed at its start. *)
Definition split (asize csize : Z) : list blk :=
  if 16 <=? csize - asize then [(asize, true); (csize - asize, false)]
  else [(csize, true)].

(** A block of [sz] free bytes between [pre] and [post] joined with its free
    neighbours: what stands before it, its size, what stands after it. *)
Definition merge (pre : list blk) (sz : Z) (post : list blk) : list blk * Z * list blk :=
  let '(pre', sz) := match last pre with
                     | Some (psz, false) => (removelast pre, psz + sz)
                     | _ => (pre, sz)
                     end in
  let '(sz, post') := match post with
                      | (nsz, false) :: post' => (sz + nsz, post')
                      | _ => (sz, post)
                      end in
  (pre', sz, post').

(** The abstract [malloc]: a fit if there is one, otherwise a heap grown by at
    least 4096 bytes if [room] allows it. *)
Definition amalloc (room size : Z) (bs : list blk) : option (list blk * Z * list blk) :=
  let asize := adjust_size size in
  match first_fit asize bs with
  | Some r => Some r
  | None => let ext := Z.max asize 4096 in
            if room <? ext then None else Some (merge bs ext [])
  end.

(** ** Representation *)

Definition mbytes (s : mm) : gmap Z Z := mem (sys s).
Definition tag (m : gmap Z Z) (p sz : Z) (al : bool) : Prop := get4 m p = sz + Z.b2z al.

(** The blocks [bs] lie in memory from block pointer [p] on. *)
Fixpoint blocks (m : gmap Z Z) (p : Z) (bs : list blk) : Prop :=
  match bs with
  | [] => True
  | (sz, al) :: bs' =>
    8 <= sz ∧ sz mod 8 = 0 ∧ tag m (p - 4) sz al ∧ tag m (p + sz - 8) sz al ∧
    blocks m (p + sz) bs'
  end.

(** The block pointer of the first block after the prologue. *)
Definition first_bp (s : mm) : Z := heap_listp s + 8.

Record rep (s : mm) (bs : list blk) : Prop := Rep {
  rep_pos : 0 < mem_heap (sys s);
  rep_align : mem_heap (sys s) mod 8 = 0;
  rep_listp : heap_listp s = mem_heap (sys s) + 8;
  rep_brk : mem_brk (sys s) = first_bp s + total bs;
  rep_max : mem_brk (sys s) <= mem_max_addr (sys s);
  rep_int : mem_max_addr (sys s) - mem_heap (sys s) < 2 ^ 31;
  rep_blocks : blocks (mbytes s) (heap_listp s) ((8, true) :: bs);
  rep_epilogue : tag (mbytes s) (mem_brk (sys s) - 4) 0 true;
  rep_sizes : Forall ok_blk bs }.

Definition wf (s : mm) (bs : list blk) : Prop := rep s bs ∧ coalesced bs.

(** Bytes outside [lo, hi) are as before. *)
Definition same_outside (lo hi : Z) (m m' : gmap Z Z) : Prop :=
  ∀ a, a < lo ∨ hi <= a → rd m' a = rd m a.

(** ** Lemmas on block lists *)

Lemma total_app bs1 bs2 : total (bs1 ++ bs2) = total bs1 + total bs2.
Proof. induction bs1 as [|b bs1 IH]; simpl; lia. Qed.

Lemma blocks_app m p bs1 bs2 :
  blocks m p (bs1 ++ bs2) ↔ blocks m p bs1 ∧ blocks m (p + total bs1) bs2.
Proof.
  revert p. induction bs1 as [|[sz al] bs1 IH]; intros p; simpl.
  - rewrite Z.add_0_r. tauto.
  - rewrite IH. replace (p + sz + total bs1) with (p + (sz + total bs1)) by lia. tauto.
Qed.

Lemma blocks_total m p bs : blocks m p bs → 8 * Z.of_nat (length bs) <= total bs.
Proof.
  revert p. induction bs as [|[sz al] bs IH]; intros p; simpl; [lia|].
  intros (? & ? & _ & _ & H). apply IH in H. lia.
Qed.

Lemma blocks_frame m m' p bs :
  (∀ a, p - 4 <= a < p + total bs - 4 → rd m' a = rd m a) →
  blocks m p bs → blocks m' p bs.
Proof.
  revert p. induction bs as [|[sz al] bs IH]; intros p Hf; [done|].
  simpl in *. intros (? & ? & Ht1 & Ht2 & Hb).
  pose proof (blocks_total _ _ _ Hb).
  unfold tag in *. split_and!; try done.
  - rewrite <- Ht1. apply get4_frame. intros. apply Hf. lia.
  - rewrite <- Ht2. apply get4_frame. intros. apply Hf. lia.
  - apply IH; [|done]. intros a Ha. apply Hf. lia.
Qed.

Lemma ok_total bs : Forall ok_blk bs → 0 <= total bs ∧ total bs mod 8 = 0.
Proof.
  induction 1 as [|[sz al] bs [H1 H2] _ IH]; simpl in *; [done|].
  destruct IH. split; [lia|]. Z.div_mod_to_equations; lia.
Qed.

Lemma first_fit_Some asize bs pre c post :
  first_fit asize bs = Some (pre, c, post) →
  bs = pre ++ (c, false) :: post ∧ asize <= c.
Proof.
  revert pre. induction bs as [|[sz al] bs IH]; intros pre; simpl; [done|].
  destruct (negb al && (asize <=? sz)) eqn:E.
  - intros [= <- <- <-]. destruct al; simpl in E; [done|]. split; [done|lia].
  - destruct (first_fit asize bs) as [[[pre' c'] post']|]; [|done].
    intros [= <- <- <-]. by destruct (IH _ eq_refl) as [-> ?].
Qed.

Lemma merge_cases pre sz post :
  (∃ pre0 psz, pre = pre0 ++ [(psz, false)] ∧
     ((∃ nsz post', post = (nsz, false) :: post' ∧
        merge pre sz post = (pre0, psz + sz + nsz, post')) ∨
      ((post = [] ∨ ∃ nsz post', post = (nsz, true) :: post') ∧
        merge pre sz post = (pre0, psz + sz, post)))) ∨
  ((pre = [] ∨ ∃ pre0 psz, pre = pre0 ++ [(psz, true)]) ∧
     ((∃ nsz post', post = (nsz, false) :: post' ∧
        merge pre sz post = (pre, sz + nsz, post')) ∨
      ((post = [] ∨ ∃ nsz post', post = (nsz, true) :: post') ∧
        merge pre sz post = (pre, sz, post)))).
Proof.
  unfold merge. induction pre as [|[psz []] pre0 _] using rev_ind.
  - right. split; [by left|]. destruct post as [|[nsz []] post']; simpl; naive_solver.
  - right. split; [by right; eauto|]. rewrite last_snoc.
    destruct post as [|[nsz []] post']; simpl; naive_solver.
  - left. exists pre0, psz. split; [done|]. rewrite last_snoc, removelast_last.
    destruct post as [|[nsz []] post']; simpl; naive_solver.
Qed.

(** ** Reading and writing tags *)

Lemma land_size w : 0 <= w < 2 ^ 32 → Z.land w (u32 (Z.lnot 7)) = 8 * (w / 8).
Proof.
  intros Hw. change (u32 (Z.lnot 7)) with (Z.ldiff (Z.ones 32) (Z.ones 3)).
  rewrite Z.ldiff_land, Z.land_assoc, <- Z.ldiff_land, Z.land_ones, Z.mod_small by lia.
  rewrite Z.ldiff_ones_r, Z.shiftl_mul_pow2, Z.shiftr_div_pow2 by lia.
  change (2 ^ 3) with 8. lia.
Qed.

Lemma land_alloc w : Z.land w 1 = w mod 2.
Proof. change 1 with (Z.ones 1). rewrite Z.land_ones by lia. done. Qed.

Lemma pack_lor sz al : 0 <= sz → sz mod 8 = 0 → PACK sz (Z.b2z al) = sz + Z.b2z al.
Proof.
  intros Hsz Hm. unfold PACK. rewrite <- Z.lxor_lor, <- Z.add_nocarry_lxor; [done| |].
  all: destruct al; simpl; [|by rewrite Z.land_0_r].
  all: rewrite land_alloc; Z.div_mod_to_equations; lia.
Qed.

Lemma in_heap_true s a n :
  mem_heap s <= a → a + n <= mem_brk s → in_heap s a n = true.
Proof. intros. unfold in_heap. lia. Qed.

(** The state with its memory replaced. *)
Definition setm (s : mm) (m : gmap Z Z) : mm := Mm (with_mem (sys s) m) (heap_listp s).

Section tags.
Context (s : mm).
Implicit Types (Q : Z → mm → Prop) (p sz : Z).

Lemma wp_GET p Q :
  mem_heap (sys s) <= p → p + 4 <= mem_brk (sys s) →
  Q (get4 (mbytes s) p) s → wp (GET p) Q s.
Proof.
  intros. unfold wp, GET, lift, load4. rewrite in_heap_true by done.
  by destruct s.
Qed.

Lemma wp_GET_SIZE p sz al Q :
  mem_heap (sys s) <= p → p + 4 <= mem_brk (sys s) →
  tag (mbytes s) p sz al → 0 <= sz < 2 ^ 32 → sz mod 8 = 0 →
  Q sz s → wp (GET_SIZE p) Q s.
Proof.
  intros ?? Ht ?? HQ. apply wp_bind, wp_GET, wp_ret; [done..|].
  rewrite Ht, land_size; [|destruct al; simpl; Z.div_mod_to_equations; lia].
  replace (8 * ((sz + Z.b2z al) / 8)) with sz; [done|].
  destruct al; simpl; Z.div_mod_to_equations; lia.
Qed.

Lemma wp_GET_ALLOC p sz al Q :
  mem_heap (sys s) <= p → p + 4 <= mem_brk (sys s) →
  tag (mbytes s) p sz al → sz mod 8 = 0 → Q (Z.b2z al) s → wp (GET_ALLOC p) Q s.
Proof.
  intros ?? Ht ? HQ. apply wp_bind, wp_GET, wp_ret; [done..|].
  rewrite Ht, land_alloc.
  replace ((sz + Z.b2z al) mod 2) with (Z.b2z al); [done|].
  destruct al; simpl; Z.div_mod_to_equations; lia.
Qed.

Lemma wp_FTRP p sz al Q :
  mem_heap (sys s) <= p - 4 → p <= mem_brk (sys s) →
  tag (mbytes s) (p - 4) sz al → 0 <= sz < 2 ^ 32 → sz mod 8 = 0 →
  Q (p + sz - 8) s → wp (FTRP p) Q s.
Proof.
  intros. apply wp_bind. eapply wp_GET_SIZE; unfold HDRP, WSIZE, DSIZE; eauto; lia.
Qed.

Lemma wp_NEXT_BLKP p sz al Q :
  mem_heap (sys s) <= p - 4 → p <= mem_brk (sys s) →
  tag (mbytes s) (p - 4) sz al → 0 <= sz < 2 ^ 32 → sz mod 8 = 0 →
  Q (p + sz) s → wp (NEXT_BLKP p) Q s.
Proof.
  intros. apply wp_bind. eapply wp_GET_SIZE; unfold HDRP, WSIZE, DSIZE; eauto; lia.
Qed.

Lemma wp_PREV_BLKP p sz al Q :
  mem_heap (sys s) <= p - 8 → p - 4 <= mem_brk (sys s) →
  tag (mbytes s) (p - 8) sz al → 0 <= sz < 2 ^ 32 → sz mod 8 = 0 →
  Q (p - sz) s → wp (PREV_BLKP p) Q s.
Proof.
  intros. apply wp_bind. eapply wp_GET_SIZE; unfold HDRP, WSIZE, DSIZE; eauto; lia.
Qed.

Lemma wp_PUT p v (Q : unit → mm → Prop) :
  mem_heap (sys s) <= p → p + 4 <= mem_brk (sys s) →
  Q tt (setm s (put4 (mbytes s) p (u32 v))) → wp (PUT p v) Q s.
Proof.
  intros. unfold wp, PUT, lift, store4. by rewrite in_heap_true by done.
Qed.

Lemma wp_PUT_tag p sz al (Q : unit → mm → Prop) :
  mem_heap (sys s) <= p → p + 4 <= mem_brk (sys s) →
  0 <= sz < 2 ^ 32 → sz mod 8 = 0 →
  Q tt (setm s (put4 (mbytes s) p (sz + Z.b2z al))) →
  wp (PUT p (PACK sz (Z.b2z al))) Q s.
Proof.
  intros ???? HQ. apply wp_PUT; [done..|]. rewrite pack_lor, u32_id by
    (destruct al; simpl; Z.div_mod_to_equations; lia). done.
Qed.
End tags.

Lemma get4_put4_at m p q v : q = p → 0 <= v < 2 ^ 32 → get4 (put4 m p v) q = v.
Proof. intros -> ?. by apply get4_put4_eq. Qed.

Ltac mm_simpl :=
  cbn [setm sys with_mem mem mem_heap mem_brk mem_max_addr errno heap_listp] in *.

(** Proves what a tag holds in a memory with words written to it. *)
Ltac solve_tag :=
  unfold mbytes, tag in *;
  mm_simpl;
  repeat first
    [ rewrite get4_put4_ne by lia
    | rewrite get4_put4_at by (first [lia | simpl; Z.div_mod_to_equations; lia]) ];
  first
    [ lia
    | simpl; lia
    | match goal with
      | H : get4 ?m ?q' = _ |- get4 ?m ?q = _ =>
        replace q with q' by lia; rewrite H; first [done | simpl; lia]
      end ].

(** ** The search *)

Lemma find_fit_loop_spec fuel asize s p bs :
  blocks (mbytes s) p bs → tag (mbytes s) (p + total bs - 4) 0 true →
  mem_heap (sys s) <= p - 4 → p + total bs <= mem_brk (sys s) → total bs < 2 ^ 31 →
  (length bs < fuel)%nat →
  wp (find_fit_loop fuel asize p)
     (λ r s', s' = s ∧ r = match first_fit asize bs with
                           | Some (pre, _, _) => p + total pre | None => NULL end) s.
Proof.
  revert p bs. induction fuel as [|fuel IH]; intros p bs Hb He Hlo Hhi Htot Hf; [lia|].
  cbn [find_fit_loop]. destruct bs as [|[sz al] bs]; cbn [total] in *.
  - rewrite Z.add_0_r in He. unfold HDRP, WSIZE.
    apply wp_bind. eapply wp_GET_SIZE; [| |exact He|..]; try lia; done.
  - cbn [blocks fst] in *. destruct Hb as (? & ? & Ht & _ & Hb).
    pose proof (blocks_total _ _ _ Hb) as Hlen.
    assert (Hp : p <= mem_brk (sys s)) by lia.
    unfold HDRP, WSIZE.
    apply wp_bind. eapply wp_GET_SIZE; [| |exact Ht|..]; [lia..|].
    replace (0 <? sz) with true by lia.
    apply wp_bind. eapply wp_GET_ALLOC; [| |exact Ht|..]; [lia..|].
    apply wp_bind. eapply wp_GET_SIZE; [| |exact Ht|..]; [lia..|].
    cbn [first_fit]. replace (Z.b2z al =? 0) with (negb al) by (by destruct al).
    destruct (negb al && (asize <=? sz)).
    + apply wp_ret. simpl. split; [done|lia].
    + apply wp_bind. eapply wp_NEXT_BLKP; [| |exact Ht|..]; [lia..|].
      eapply wp_mono; [apply (IH (p + sz) bs); try done; try lia|].
      * by replace (p + sz + total bs - 4) with (p + (sz + total bs) - 4) by lia.
      * simpl in Hf; lia.
      * cbn beta. intros r s' [-> ->]. split; [done|].
        destruct (first_fit asize bs) as [[[pre c] post]|]; simpl; lia.
Qed.

Lemma rep_total s bs : rep s bs → 0 <= total bs < 2 ^ 31 - 16 ∧ total bs mod 8 = 0.
Proof.
  intros H. destruct (ok_total _ (rep_sizes _ _ H)).
  destruct H. unfold first_bp in *. lia.
Qed.

Lemma find_fit_spec asize s bs :
  rep s bs →
  wp (find_fit asize)
     (λ r s', s' = s ∧ r = match first_fit asize bs with
                           | Some (pre, _, _) => first_bp s + total pre
                           | None => NULL end) s.
Proof.
  intros Hrep. pose proof (rep_total _ _ Hrep).
  destruct Hrep as [Hpos Hal Hlp Hbrk Hmax Hint Hbl Hep Hsz].
  unfold find_fit. apply wp_bind, wp_get.
  pose proof (blocks_total _ _ _ Hbl) as Hlen. unfold first_bp in *.
  eapply wp_mono; [apply (find_fit_loop_spec _ _ _ _ ((8, true) :: bs));
    cbn [total fst] in *; try done; try lia|].
  - by replace (heap_listp s + (8 + total bs) - 4) with (mem_brk (sys s) - 4) by lia.
  - unfold loop_bound. cbn [length] in *. Z.div_mod_to_equations; lia.
  - cbn beta. intros r s' [-> ->]. split; [done|]. simpl.
    destruct (first_fit asize bs) as [[[pre c] post]|]; simpl; lia.
Qed.

(** ** Replacing a run of blocks *)

Lemma rep_replace s m' pre mid mid' post :
  rep s (pre ++ mid ++ post) →
  total mid' = total mid → Forall ok_blk mid' →
  blocks m' (first_bp s + total pre) mid' →
  same_outside (first_bp s + total pre - 4) (first_bp s + total pre + total mid - 4)
    (mbytes s) m' →
  rep (setm s m') (pre ++ mid' ++ post).
Proof.
  intros [? ? ? Hbrk ? ? Hbl Hep Hsz] Htot Hok Hmid Hout.
  rewrite !Forall_app in Hsz. destruct Hsz as (Hok1 & Hok2 & Hok3).
  pose proof (ok_total _ Hok1). pose proof (ok_total _ Hok2). pose proof (ok_total _ Hok3).
  unfold first_bp in *. rewrite !total_app in *.
  split; cbn [setm sys with_mem mem mem_heap mem_brk mem_max_addr heap_listp]; try done.
  - unfold first_bp. rewrite !total_app. cbn [setm heap_listp]. lia.
  - change (mbytes (setm s m')) with m'.
    change ((8, true) :: pre ++ mid ++ post) with (((8, true) :: pre) ++ mid ++ post) in Hbl.
    change ((8, true) :: pre ++ mid' ++ post) with (((8, true) :: pre) ++ mid' ++ post).
    rewrite !blocks_app in Hbl |- *. rewrite Htot. cbn [total fst] in *.
    destruct Hbl as (Hb1 & Hb2 & Hb3). split_and!.
    + eapply blocks_frame; [|exact Hb1]. intros a Ha. apply Hout. cbn [total fst] in Ha. lia.
    + by rewrite Z.add_assoc.
    + eapply blocks_frame; [|exact Hb3]. intros a Ha. apply Hout. lia.
  - unfold tag in *. rewrite <- Hep. apply get4_frame.
    intros a Ha. apply Hout. lia.
  - by rewrite !Forall_app.
Qed.

(** ** Coalescing *)

(** [run L sz al] executes one tag access whose tag holds [sz] and [al]. *)
Ltac mm_side :=
  unfold HDRP, WSIZE, DSIZE in *; mm_simpl;
  first [ lia | (Z.div_mod_to_equations; lia) | solve [solve_tag] | done ].
Ltac run L sz al :=
  lazymatch goal with |- wp (bind _ _) _ _ => apply wp_bind | _ => idtac end;
  apply (L _ _ sz al); [mm_side.. | ].

Ltac same_bytes :=
  let a := fresh "a" in let Ha := fresh "Ha" in
  intros a Ha; unfold mbytes; mm_simpl; repeat rewrite rd_put4_ne by mm_side; done.

Section coalesce.
Context (s : mm) (bp psz sz nsz : Z) (pa na : bool).
Let m := mbytes s.
Let lo := if pa then bp else bp - psz.
Let size := (if pa then 0 else psz) + sz + (if na then 0 else nsz).

Hypothesis Hpsz : 8 <= psz ∧ psz mod 8 = 0.
Hypothesis Hsz : 16 <= sz ∧ sz mod 8 = 0.
Hypothesis Hnsz : 0 <= nsz ∧ nsz mod 8 = 0.
Hypothesis Hsum : psz + sz + nsz < 2 ^ 31.
Hypothesis Hlo : mem_heap (sys s) <= bp - psz - 4.
Hypothesis Hhi : bp + sz + (if na then 0 else nsz) <= mem_brk (sys s).
Hypothesis Hp1 : tag m (bp - psz - 4) psz pa.
Hypothesis Hp2 : tag m (bp - 8) psz pa.
Hypothesis Hc1 : tag m (bp - 4) sz false.
Hypothesis Hc2 : tag m (bp + sz - 8) sz false.
Hypothesis Hn1 : tag m (bp + sz - 4) nsz na.
Hypothesis Hn2 : na = false → 16 <= nsz ∧ tag m (bp + sz + nsz - 8) nsz false.

Lemma coalesce_local :
  wp (coalesce bp) (λ r s', ∃ m', s' = setm s m' ∧ r = lo ∧
    tag m' (lo - 4) size false ∧ tag m' (lo + size - 8) size false ∧
    same_outside (lo - 4) (lo + size - 4) m m') s.
Proof using All.
  unfold coalesce. subst m.
  assert (bp + sz <= mem_brk (sys s)) by (destruct na; lia).
  run wp_PREV_BLKP psz pa. run wp_FTRP psz pa. run wp_GET_ALLOC psz pa.
  run wp_NEXT_BLKP sz false. run wp_GET_ALLOC nsz na. run wp_GET_SIZE sz false.
  destruct pa, na; cbn [Z.b2z Z.eqb negb andb]; subst lo size.
  - apply wp_ret. exists (mbytes s). split_and!; [by destruct s as [[]]|..]; try done; mm_side.
  - destruct Hn2 as [Hn16 Ht]; [done|].
    run wp_NEXT_BLKP sz false. run wp_GET_SIZE nsz false. rewrite u64_id by lia.
    run wp_PUT_tag (sz + nsz) false. run wp_FTRP (sz + nsz) false.
    run wp_PUT_tag (sz + nsz) false. apply wp_ret. eexists.
    split_and!; [reflexivity|done|mm_side|mm_side|].
    same_bytes.
  - run wp_PREV_BLKP psz false. run wp_GET_SIZE psz false. rewrite u64_id by lia.
    run wp_FTRP sz false. run wp_PUT_tag (sz + psz) false.
    run wp_PREV_BLKP psz false. run wp_PUT_tag (sz + psz) false.
    run wp_PREV_BLKP psz false. eexists.
    split_and!; [reflexivity|done|mm_side|mm_side|].
    same_bytes.
  - destruct Hn2 as [Hn16 Ht]; [done|].
    run wp_PREV_BLKP psz false. run wp_GET_SIZE psz false.
    run wp_NEXT_BLKP sz false. run wp_FTRP nsz false. run wp_GET_SIZE nsz false.
    rewrite u32_id, u64_id by lia.
    run wp_PREV_BLKP psz false. run wp_PUT_tag (sz + (psz + nsz)) false.
    run wp_NEXT_BLKP sz false. run wp_FTRP nsz false.
    run wp_PUT_tag (sz + (psz + nsz)) false.
    run wp_PREV_BLKP psz false. eexists.
    split_and!; [reflexivity|done|mm_side|mm_side|].
    same_bytes.
Qed.
End coalesce.

(** The tags on both sides of a block: its neighbours, the prologue or the
    epilogue. *)
Definition prev_blk (pre : list blk) : blk := default (8, true) (last pre).
Definition next_blk (post : list blk) : blk :=
  match post with [] => (0, true) | b :: _ => b end.

Lemma rep_prev s pre mid :
  rep s (pre ++ mid) →
  let '(psz, pa) := prev_blk pre in let bp := first_bp s + total pre in
  8 <= psz ∧ psz mod 8 = 0 ∧ mem_heap (sys s) <= bp - psz - 4 ∧
  tag (mbytes s) (bp - psz - 4) psz pa ∧ tag (mbytes s) (bp - 8) psz pa ∧
  psz <= 8 + total pre.
Proof.
  intros [? ? Hl _ _ _ Hb _ Hs]. unfold first_bp in *. unfold prev_blk.
  apply Forall_app in Hs as [Hs _].
  induction pre as [|[psz pa] pre _] using rev_ind; cbn [last default fst total].
  - simpl in Hb. destruct Hb as (_ & _ & Ht1 & Ht2 & _).
    split_and!; try done; try lia; solve_tag.
  - rewrite last_snoc, total_app. cbn [default id total fst].
    apply Forall_app in Hs as [Hs Hs2]. apply Forall_singleton in Hs2 as [Hz1 Hz2].
    cbn [fst] in *. pose proof (ok_total _ Hs).
    rewrite <- app_assoc, app_comm_cons, blocks_app in Hb. destruct Hb as [_ Hb].
    cbn [app blocks total fst] in Hb. destruct Hb as (_ & _ & Ht1 & Ht2 & _).
    split_and!; try done; try lia; solve_tag.
Qed.

Lemma rep_next s pre sz al post :
  rep s (pre ++ (sz, al) :: post) →
  let '(nsz, na) := next_blk post in let bp := first_bp s + total pre in
  0 <= nsz ∧ nsz mod 8 = 0 ∧ bp + sz + (if na then 0 else nsz) <= mem_brk (sys s) ∧
  tag (mbytes s) (bp - 4) sz al ∧ tag (mbytes s) (bp + sz - 8) sz al ∧
  tag (mbytes s) (bp + sz - 4) nsz na ∧
  (na = false → 16 <= nsz ∧ tag (mbytes s) (bp + sz + nsz - 8) nsz false) ∧
  nsz <= total post.
Proof.
  intros [? ? Hl Hbrk _ _ Hb He Hs]. unfold first_bp in *.
  apply Forall_app in Hs as [_ Hs]. apply Forall_cons in Hs as [_ Hs].
  rewrite total_app in Hbrk. rewrite app_comm_cons, blocks_app in Hb.
  destruct Hb as [_ Hb]. cbn [blocks total fst] in Hb, Hbrk.
  destruct Hb as (? & ? & Ht1 & Ht2 & Hb).
  destruct post as [|[nsz na] post]; cbn [next_blk total fst] in *.
  - split_and!; try done; try lia; try solve_tag.
  - apply Forall_cons in Hs as [[? ?] Hs]. cbn [fst] in *. pose proof (ok_total _ Hs).
    cbn [blocks] in Hb. destruct Hb as (_ & _ & Ht3 & Ht4 & _).
    split_and!; try done; try lia; try solve_tag.
    + destruct na; lia.
    + intros ->. split; [lia|solve_tag].
Qed.

Lemma rep_one s m' pre mid sz al post :
  rep s (pre ++ mid ++ post) → total mid = sz → ok_size sz →
  tag m' (first_bp s + total pre - 4) sz al →
  tag m' (first_bp s + total pre + sz - 8) sz al →
  same_outside (first_bp s + total pre - 4) (first_bp s + total pre + sz - 4)
    (mbytes s) m' →
  rep (setm s m') (pre ++ (sz, al) :: post).
Proof.
  intros Hrep <- [? ?] ? ? ?. apply (rep_replace _ _ _ mid [(total mid, al)]); try done.
  - simpl. lia.
  - by apply Forall_singleton.
  - simpl. split_and!; try done. lia.
Qed.

Ltac add0 := repeat rewrite Z.add_0_r in *; repeat rewrite Z.add_0_l in *.

(** [coalesce] joins the free block at [bp] with its free neighbours. *)
Lemma coalesce_spec s pre sz post bp :
  rep s (pre ++ (sz, false) :: post) → bp = first_bp s + total pre →
  wp (coalesce bp) (λ r s', let '(pre', sz', post') := merge pre sz post in
    ∃ m', s' = setm s m' ∧ r = first_bp s + total pre' ∧
      rep s' (pre' ++ (sz', false) :: post') ∧
      same_outside (r - 4) (r + sz' - 4) (mbytes s) m') s.
Proof.
  intros Hrep ->.
  pose proof (rep_prev _ _ _ Hrep) as Hp. pose proof (rep_next _ _ _ _ _ Hrep) as Hn.
  pose proof (rep_total _ _ Hrep) as Htot. rewrite total_app in Htot. cbn [total fst] in Htot.
  pose proof (rep_sizes _ _ Hrep) as Hs.
  rewrite Forall_app, Forall_cons in Hs. destruct Hs as (Hs1 & [Hs2 Hs2'] & Hs3).
  cbn [fst] in *.
  destruct (prev_blk pre) as [psz pa] eqn:Epa, (next_blk post) as [nsz na] eqn:Ena.
  destruct Hp as (? & ? & ? & ? & ? & ?), Hn as (? & ? & ? & ? & ? & ? & ? & ?).
  eapply wp_mono; [apply (coalesce_local s _ psz sz nsz pa na); try done; lia|].
  cbn beta. intros r s' (m' & -> & -> & Ht1 & Ht2 & Hout).
  destruct (merge_cases pre sz post) as
    [(pre0 & psz' & -> & [(nsz' & post' & -> & ->)|[Hpost ->]])
    |[Hpre [(nsz' & post' & -> & ->)|[Hpost ->]]]].
  all: unfold prev_blk in Epa; rewrite ?last_snoc in Epa; simpl in Epa, Ena; simplify_eq.
  - exists m'. rewrite total_app in *. cbn [total fst] in *.
    rewrite <- app_assoc in Hrep.
    assert (first_bp s + (total pre0 + (psz + 0)) - psz = first_bp s + total pre0) as Ea by lia.
    rewrite Ea in *. split_and!; try done.
    by apply (rep_one _ _ _ [(psz, false); (sz, false); (nsz, false)]); simpl; try done;
      [lia|split; [lia|Z.div_mod_to_equations; lia]].
  - assert (na = true) as -> by (destruct Hpost as [->|(? & ? & ->)]; simpl in Ena; congruence).
    exists m'. rewrite total_app in *. cbn [total fst] in *. add0.
    rewrite <- app_assoc in Hrep.
    assert (first_bp s + (total pre0 + psz) - psz = first_bp s + total pre0) as Ea by lia.
    rewrite Ea in *. split_and!; try done.
    by apply (rep_one _ _ _ [(psz, false); (sz, false)]); simpl; try done;
      [lia|split; [lia|Z.div_mod_to_equations; lia]].
  - assert (pa = true) as ->.
    { destruct Hpre as [->|(? & ? & ->)]; rewrite ?last_snoc in Epa; simpl in Epa; congruence. }
    add0. exists m'. split_and!; try done.
    by apply (rep_one _ _ _ [(sz, false); (nsz, false)]); simpl; try done;
      [lia|split; [lia|Z.div_mod_to_equations; lia]].
  - assert (na = true) as -> by (destruct Hpost as [->|(? & ? & ->)]; simpl in Ena; congruence).
    assert (pa = true) as ->.
    { destruct Hpre as [->|(? & ? & ->)]; rewrite ?last_snoc in Epa; simpl in Epa; congruence. }
    add0. exists m'. split_and!; try done.
    by apply (rep_one _ _ _ [(sz, false)]); simpl; try done; lia.
Qed.

(** ** Placing a block *)

Lemma split_total asize csize : total (split asize csize) = csize.
Proof. unfold split. destruct (16 <=? csize - asize); simpl; lia. Qed.

Lemma split_ok asize csize :
  ok_size asize → ok_size csize → asize <= csize → Forall ok_blk (split asize csize).
Proof.
  intros [? ?] [? ?] ?. unfold split.
  destruct (16 <=? csize - asize) eqn:E; repeat constructor; simpl; try lia.
  Z.div_mod_to_equations; lia.
Qed.

Lemma place_spec s pre csize post bp asize :
  rep s (pre ++ (csize, false) :: post) → bp = first_bp s + total pre →
  ok_size asize → asize <= csize →
  wp (place bp asize) (λ _ s', ∃ m', s' = setm s m' ∧
    rep s' (pre ++ split asize csize ++ post) ∧
    same_outside (bp - 4) (bp + csize - 4) (mbytes s) m') s.
Proof.
  intros Hrep -> [Ha1 Ha2] Hle.
  pose proof (rep_prev _ _ _ Hrep) as Hp. pose proof (rep_next _ _ _ _ _ Hrep) as Hn.
  pose proof (rep_total _ _ Hrep) as Htot. rewrite total_app in Htot. cbn [total fst] in Htot.
  pose proof (rep_sizes _ _ Hrep) as Hs.
  rewrite Forall_app, Forall_cons in Hs. destruct Hs as (Hs1 & [Hs2 Hs2'] & Hs3).
  pose proof (ok_total _ Hs1) as Ho1. pose proof (ok_total _ Hs3) as Ho3. cbn [fst] in *.
  destruct (prev_blk pre) as [psz pa], (next_blk post) as [nsz na].
  destruct Hp as (? & ? & ? & _ & _ & ?), Hn as (? & ? & Hhi & Ht1 & Ht2 & _ & _ & ?).
  assert (first_bp s + total pre + csize <= mem_brk (sys s)) by (destruct na; lia).
  assert (Forall ok_blk (split asize csize)) as Hok by (apply split_ok; done).
  pose proof (rep_replace s) as Hrr. set (bp := first_bp s + total pre) in *.
  unfold place. run wp_GET_SIZE csize false. unfold split in *. rewrite u64_id by lia.
  change (2 * DSIZE) with 16.
  destruct (16 <=? csize - asize) eqn:E.
  - run wp_PUT_tag asize true. run wp_FTRP asize true. run wp_PUT_tag asize true.
    run wp_NEXT_BLKP asize true.
    assert ((csize - asize) mod 8 = 0) by (Z.div_mod_to_equations; lia).
    run wp_PUT_tag (csize - asize) false. run wp_FTRP (csize - asize) false.
    apply (wp_PUT_tag _ _ (csize - asize) false); [mm_side..|]. eexists.
    split_and!; [reflexivity| |same_bytes].
    apply (Hrr _ _ [(csize, false)]); try done; [simpl; lia| |simpl; same_bytes].
    simpl. split_and!; try done; try lia; mm_side.
  - run wp_PUT_tag csize true. run wp_FTRP csize true.
    apply (wp_PUT_tag _ _ csize true); [mm_side..|]. eexists.
    split_and!; [reflexivity| |same_bytes].
    apply (Hrr _ _ [(csize, false)]); try done; [|simpl; same_bytes].
    simpl. split_and!; try done; try lia; mm_side.
Qed.

(** ** Growing the heap *)

(** The state with the break moved up by [n] and memory [m]. *)
Definition grow (s : mm) (n : Z) (m : gmap Z Z) : mm :=
  Mm (MemSys m (mem_heap (sys s)) (mem_brk (sys s) + n) (mem_max_addr (sys s))
        (errno (sys s))) (heap_listp s).

(** The state a failed [mem_sbrk] leaves. *)
Definition no_memory (s : mm) : mm :=
  Mm (MemSys (mem (sys s)) (mem_heap (sys s)) (mem_brk (sys s)) (mem_max_addr (sys s))
        ENOMEM) (heap_listp s).

Lemma rep_grow s bs size m' :
  rep s bs → ok_size size → mem_brk (sys s) + size <= mem_max_addr (sys s) →
  same_outside (mem_brk (sys s) - 4) (mem_brk (sys s) + size) (mbytes s) m' →
  tag m' (mem_brk (sys s) - 4) size false →
  tag m' (mem_brk (sys s) + size - 8) size false →
  tag m' (mem_brk (sys s) + size - 4) 0 true →
  rep (grow s size m') (bs ++ [(size, false)]).
Proof.
  intros Hrep [? ?] ? Hout ???. pose proof (rep_total _ _ Hrep).
  destruct Hrep as [? ? ? Hbrk ? ? Hbl ? Hsz].
  split; unfold first_bp in *; cbn [grow sys mem_heap mem_brk mem_max_addr heap_listp]; try done.
  - rewrite total_app. simpl. lia.
  - change (mbytes (grow s size m')) with m'. rewrite app_comm_cons, blocks_app. split.
    + eapply blocks_frame; [|exact Hbl]. cbn [total fst]. intros a Ha. apply Hout. lia.
    + simpl. replace (heap_listp s + (8 + total bs)) with (mem_brk (sys s)) by lia.
      split_and!; try done. lia.
  - apply Forall_app. by repeat constructor.
Qed.

Lemma mem_sbrk_run s n :
  0 <= n < 2 ^ 31 →
  lift (mem_sbrk (i32 n)) s =
    if mem_max_addr (sys s) <? mem_brk (sys s) + n then (no_memory s, Done (-1))
    else (grow s n (mbytes s), Done (mem_brk (sys s))).
Proof.
  intros Hn. rewrite i32_id by lia. unfold lift, mem_sbrk, bind, get.
  replace (n <? 0) with false by lia. simpl.
  by destruct (mem_max_addr (sys s) <? mem_brk (sys s) + n).
Qed.

Lemma extend_heap_spec s bs size words :
  rep s bs → ok_size size → size < 2 ^ 31 → size = 4 * words →
  wp (extend_heap words) (λ r s',
    if mem_max_addr (sys s) <? mem_brk (sys s) + size then r = NULL ∧ s' = no_memory s
    else let '(pre, sz, post) := merge bs size [] in
      ∃ m', s' = grow s size m' ∧ r = first_bp s + total pre ∧
        rep s' (pre ++ (sz, false) :: post) ∧
        same_outside (r - 4) (mem_brk (sys s) + size) (mbytes s) m') s.
Proof.
  intros Hrep [Hs1 Hs2] Hs3 Hw. pose proof (rep_total _ _ Hrep) as Htot.
  unfold extend_heap.
  replace (words mod 2 =? 0) with true by (symmetry; apply Z.eqb_eq; Z.div_mod_to_equations; lia).
  replace (words * WSIZE) with size by (unfold WSIZE; lia). rewrite u64_id by lia.
  apply wp_bind. unfold wp at 1. rewrite mem_sbrk_run by lia.
  destruct (mem_max_addr (sys s) <? mem_brk (sys s) + size) eqn:Emax.
  { replace (-1 =? -1) with true by done. by apply wp_ret. }
  destruct (Hrep) as [? ? ? Hbrk ? ? _ _ _]. unfold first_bp in Hbrk.
  set (s1 := grow s size (mbytes s)). set (bp := mem_brk (sys s)).
  replace (bp =? -1) with false by lia.
  assert (mem_heap (sys s1) <= bp - 4) by (simpl; lia).
  assert (mem_brk (sys s1) = bp + size) by done.
  run wp_PUT_tag size false. run wp_FTRP size false. run wp_PUT_tag size false.
  run wp_NEXT_BLKP size false. run wp_PUT_tag 0 true.
  set (m1 := put4 _ (HDRP (bp + size)) _).
  assert (rep (grow s size m1) (bs ++ [(size, false)])) as Hrep1.
  { apply rep_grow; try done; try lia; subst m1 s1; unfold HDRP, WSIZE; try solve_tag.
    intros a Ha. unfold mbytes. mm_simpl. rewrite !rd_put4_ne by lia. done. }
  eapply wp_mono; [apply (coalesce_spec _ _ _ _ _ Hrep1); unfold first_bp; simpl; lia|].
  cbn beta. intros r s'. destruct (merge bs size []) as [[pre sz] post] eqn:Em.
  intros (m' & -> & -> & Hrep' & Hout). exists m'. split_and!; try done.
  intros a Ha.
  assert (first_bp s + total pre <= bp) as Hpre.
  { destruct (merge_cases bs size []) as
      [(pre0 & psz & -> & [(? & ? & [=] & ?)|[_ E]])|[_ [(? & ? & [=] & ?)|[_ E]]]];
      rewrite E in Em; simplify_eq; unfold first_bp; rewrite ?total_app in *; simpl in *.
    - pose proof (rep_sizes _ _ Hrep) as Hsz. apply Forall_app in Hsz as [_ Hsz].
      apply Forall_singleton in Hsz as [? ?]. simpl in *. lia.
    - lia. }
  rewrite Hout.
  - unfold m1, mbytes, HDRP, WSIZE. unfold grow. mm_simpl.
    unfold first_bp in *. cbn [grow heap_listp] in *. by rewrite !rd_put4_ne by lia.
  - simpl. pose proof (rep_brk _ _ Hrep') as Hb. rewrite total_app in Hb. simpl in Hb.
    unfold first_bp in *. simpl in *.
    assert (0 <= total post) by (apply ok_total; pose proof (rep_sizes _ _ Hrep') as Hz;
      rewrite Forall_app, Forall_cons in Hz; tauto). lia.
Qed.
