(* ===== verification/MmThms.v ===== *)
(** What the allocator of [Mm] promises its clients.

    [owns s am]: the heap [s] is well formed and [am] maps the pointers handed
    out and not yet freed to the number of payload bytes behind them.  [Allocator]
    states the contract in those terms; [mm_malloc], [mm_free] and [mm_realloc]
    are shown to meet it, and a client that issues any sequence of requests is
    verified against the contract alone. *)

From stdpp Require Import base tactics numbers list gmap.
From Stdlib Require Import ZArith Lia.
From S2P Require Import Prelude Memlib Mm MmSpec.

(** ** The allocations a block list stands for *)

Fixpoint amap (p : Z) (bs : list blk) : gmap Z Z :=
  match bs with
  | [] => ∅
  | (sz, al) :: bs' => if al then <[p := sz - 8]> (amap (p + sz) bs') else amap (p + sz) bs'
  end.

Definition owns (s : mm) (am : gmap Z Z) : Prop :=
  ∃ bs, wf s bs ∧ am = amap (first_bp s) bs.

(** The payload bytes of every allocation are as before. *)
Definition preserved (am : gmap Z Z) (m m' : gmap Z Z) : Prop :=
  ∀ q n i, am !! q = Some n → 0 <= i < n → rd m' (q + i) = rd m (q + i).

Lemma amap_bounds p bs q n :
  Forall ok_blk bs → amap p bs !! q = Some n →
  p <= q ∧ 8 <= n ∧ q + n + 8 <= p + total bs ∧ (q - p) mod 8 = 0.
Proof.
  intros Hok. revert p. induction Hok as [|[sz al] bs [H1 H2] Hok IH]; intros p; simpl in *; [done|].
  pose proof (ok_total _ Hok). destruct al.
  - rewrite lookup_insert_Some. intros [[<- <-]|[_ Hq]].
    + rewrite Z.sub_diag. split_and!; [lia..|done].
    + apply IH in Hq. split_and!; [lia..|]. Z.div_mod_to_equations; lia.
  - intros Hq. apply IH in Hq. split_and!; [lia..|]. Z.div_mod_to_equations; lia.
Qed.

Lemma amap_outside p bs q :
  Forall ok_blk bs → q < p ∨ p + total bs <= q → amap p bs !! q = None.
Proof.
  intros Hok Hq. destruct (amap p bs !! q) as [n|] eqn:E; [|done].
  apply amap_bounds in E; [lia|done].
Qed.

Lemma amap_app p b1 b2 : amap p (b1 ++ b2) = amap p b1 ∪ amap (p + total b1) b2.
Proof.
  revert p. induction b1 as [|[sz al] b1 IH]; intros p; simpl.
  - rewrite Z.add_0_r. symmetry. apply (left_id_L ∅ (∪)).
  - rewrite IH, Z.add_assoc. destruct al; [|done]. by rewrite insert_union_l.
Qed.

(** Two allocations never share a byte. *)
Lemma amap_disjoint p bs q1 n1 q2 n2 :
  Forall ok_blk bs → amap p bs !! q1 = Some n1 → amap p bs !! q2 = Some n2 →
  q1 = q2 ∨ q1 + n1 + 8 <= q2 ∨ q2 + n2 + 8 <= q1.
Proof.
  intros Hok. revert p. induction Hok as [|[sz al] bs [H1 H2] Hok IH]; intros p; simpl in *; [done|].
  destruct al; [|apply IH].
  rewrite !lookup_insert_Some. intros [[<- <-]|[? Hq1]] [[<- <-]|[? Hq2]].
  - by left.
  - apply amap_bounds in Hq2; [lia|done].
  - apply amap_bounds in Hq1; [lia|done].
  - by eapply IH.
Qed.

Lemma amap_true p pre c post :
  Forall ok_blk pre → ok_size c →
  amap p (pre ++ (c, true) :: post) = <[p + total pre := c - 8]> (amap p (pre ++ (c, false) :: post)).
Proof.
  intros Hpre [? ?]. rewrite !amap_app. simpl.
  rewrite insert_union_r; [done|]. apply amap_outside; [done|lia].
Qed.

Lemma amap_false p pre c post :
  Forall ok_blk (pre ++ (c, true) :: post) →
  amap p (pre ++ (c, false) :: post) = delete (p + total pre) (amap p (pre ++ (c, true) :: post)).
Proof.
  intros Hok. rewrite Forall_app, Forall_cons in Hok. destruct Hok as (Ho1 & [? ?] & Ho2).
  simpl in *. rewrite amap_true, delete_insert_eq; [|done..].
  rewrite delete_id; [done|]. rewrite amap_app. simpl. apply lookup_union_None.
  split; apply amap_outside; try done; lia.
Qed.

Lemma amap_split p pre a c post :
  Forall ok_blk pre → ok_size a → ok_size c → a <= c →
  amap p (pre ++ split a c ++ post) =
  <[p + total pre := (if 16 <=? c - a then a else c) - 8]> (amap p (pre ++ (c, false) :: post)).
Proof.
  intros Hpre Ha Hc Hle. unfold split. destruct (16 <=? c - a); cbn [app].
  - rewrite amap_true by done. f_equal. rewrite !amap_app. cbn [amap].
    by replace (p + total pre + a + (c - a)) with (p + total pre + c) by lia.
  - by apply amap_true.
Qed.

Lemma amap_merge p pre sz post pre' sz' post' :
  merge pre sz post = (pre', sz', post') →
  amap p (pre' ++ (sz', false) :: post') = amap p (pre ++ (sz, false) :: post) ∧
  total (pre' ++ (sz', false) :: post') = total (pre ++ (sz, false) :: post).
Proof.
  intros Hm.
  destruct (merge_cases pre sz post) as
    [(pre0 & psz & -> & [(nsz & post0 & -> & E)|[_ E]])|[_ [(nsz & post0 & -> & E)|[_ E]]]];
    rewrite E in Hm; simplify_eq; [| | |done].
  all: rewrite !amap_app, !total_app; cbn [amap total fst].
  all: split; [|lia].
  all: rewrite ?(right_id_L ∅ (∪)); do 2 f_equal; lia.
Qed.

Lemma preserved_outside p pre mid post m m' :
  Forall ok_blk (pre ++ mid ++ post) →
  (∀ b, b ∈ mid → b.2 = false) →
  same_outside (p + total pre - 4) (p + total pre + total mid - 4) m m' →
  preserved (amap p (pre ++ mid ++ post)) m m'.
Proof.
  intros Hok Hfree Hout q n i Hq Hi. rewrite !Forall_app in Hok. destruct Hok as (Ho1 & Ho2 & Ho3).
  assert (∀ p, amap p mid = ∅) as Hmid.
  { clear -Hfree. induction mid as [|[sz al] mid IH]; intros p; [done|]. simpl.
    assert (al = false) as -> by (by apply (Hfree (sz, al)); left).
    apply IH. intros b Hb. apply Hfree. by right. }
  rewrite !amap_app, Hmid, (left_id_L ∅ (∪)) in Hq.
  apply Hout. apply lookup_union_Some_raw in Hq as [Hq|[_ Hq]]; apply amap_bounds in Hq; try done; lia.
Qed.

Lemma preserved_trans am m1 m2 m3 :
  preserved am m1 m2 → preserved am m2 m3 → preserved am m1 m3.
Proof. intros H1 H2 q n i Hq Hi. by rewrite (H2 q n i), (H1 q n i). Qed.

Lemma preserved_mono am am' m m' : am ⊆ am' → preserved am' m m' → preserved am m m'.
Proof. intros Hs H q n i Hq. apply H. by eapply lookup_weaken. Qed.

(** ** Neighbours that are not free *)

Lemma coalesced_cons_true c bs : coalesced ((c, true) :: bs) ↔ coalesced bs.
Proof. done. Qed.

Lemma coalesced_cons_false c bs :
  coalesced ((c, false) :: bs) ↔ coalesced bs ∧ (next_blk bs).2 = true.
Proof. destruct bs as [|[n []] bs]; simpl; intuition congruence. Qed.

Lemma coalesced_true pre c post :
  coalesced (pre ++ (c, true) :: post) ↔ coalesced pre ∧ coalesced post.
Proof.
  induction pre as [|[p []] pre IH]; cbn [app].
  - rewrite coalesced_cons_true. simpl. tauto.
  - by rewrite !coalesced_cons_true.
  - rewrite !coalesced_cons_false, IH. destruct pre as [|[p' b] pre]; simpl; tauto.
Qed.

Lemma coalesced_false pre c post :
  coalesced (pre ++ (c, false) :: post) ↔
  coalesced pre ∧ coalesced post ∧ (prev_blk pre).2 = true ∧ (next_blk post).2 = true.
Proof.
  unfold prev_blk. induction pre as [|[p b] pre IH]; cbn [app].
  - rewrite coalesced_cons_false. simpl. tauto.
  - destruct b.
    + rewrite !coalesced_cons_true, IH. by destruct pre.
    + rewrite !coalesced_cons_false, IH. destruct pre as [|[p' b'] pre]; simpl; intuition congruence.
Qed.

Lemma coalesced_split pre a c post :
  coalesced (pre ++ (c, false) :: post) → coalesced (pre ++ split a c ++ post).
Proof.
  rewrite coalesced_false. intros (H1 & H2 & H3 & H4). unfold split.
  destruct (16 <=? c - a); cbn [app]; rewrite coalesced_true, ?coalesced_cons_false; tauto.
Qed.

Lemma coalesced_merge pre sz post pre' sz' post' :
  coalesced pre → coalesced post → merge pre sz post = (pre', sz', post') →
  coalesced (pre' ++ (sz', false) :: post').
Proof.
  intros Hpre Hpost Hm. rewrite coalesced_false. unfold prev_blk.
  destruct (merge_cases pre sz post) as
    [(pre0 & psz & -> & [(nsz & post0 & -> & E)|[H E]])|[H' [(nsz & post0 & -> & E)|[H E]]]];
    rewrite E in Hm; simplify_eq.
  all: repeat match goal with
       | H : coalesced (_ :: _) |- _ => rewrite coalesced_cons_false in H
       | H : coalesced (_ ++ [_]) |- _ => rewrite coalesced_false in H; unfold prev_blk in H
       | H : _ = [] ∨ _ |- _ => destruct H as [->|(? & ? & ->)]
       end; rewrite ?last_snoc; simpl; tauto.
Qed.

(** ** The operations *)

Lemma adjust_size_ok size :
  0 < size <= 2 ^ 31 - 4096 → ok_size (adjust_size size) ∧
  size + 8 <= adjust_size size <= 2 ^ 31 - 4080.
Proof.
  intros H. unfold adjust_size, ok_size, DSIZE. destruct (size <=? 8) eqn:E; [split; [split; [lia|done]|lia]|].
  rewrite (u64_id (size + 8 + (8 - 1))) by lia.
  pose proof (Z.div_mod (size + 8 + (8 - 1)) 8 ltac:(done)) as Hd.
  pose proof (Z.mod_pos_bound (size + 8 + (8 - 1)) 8 ltac:(done)) as Hm.
  rewrite u64_id by lia. rewrite Z.mul_comm, Z.mod_mul by done. lia.
Qed.

Lemma first_fit_ok asize bs pre c post :
  first_fit asize bs = Some (pre, c, post) → Forall ok_blk bs →
  Forall ok_blk pre ∧ ok_size c ∧ Forall ok_blk post.
Proof.
  intros H Hok. apply first_fit_Some in H as [-> _].
  by rewrite Forall_app, Forall_cons in Hok.
Qed.

Lemma find_fit_positive s bs pre : rep s bs → 0 <= total pre → first_bp s + total pre ≠ 0.
Proof. intros [] ?. unfold first_bp in *. lia. Qed.

Lemma heap_listp_nonzero s bs : rep s bs → (heap_listp s =? 0) = false.
Proof. intros []. lia. Qed.

Lemma merge_grow bs ext pre c post :
  Forall ok_blk bs → merge bs ext [] = (pre, c, post) → post = [] ∧ ext <= c.
Proof.
  intros Hok Hm.
  destruct (merge_cases bs ext []) as
    [(pre0 & psz & -> & [(? & ? & [=] & _)|[_ E]])|[_ [(? & ? & [=] & _)|[_ E]]]];
    rewrite E in Hm; simplify_eq; split; try done.
  apply Forall_app in Hok as [_ Hok]. apply Forall_singleton in Hok as [? _]. simpl in *. lia.
Qed.

(** [mm_malloc] implements the abstract [amalloc] on the block list. *)
Lemma mm_malloc_run s bs size :
  wf s bs → 0 < size <= 2 ^ 31 - 4096 →
  wp (mm_malloc size) (λ r s',
    match amalloc (mem_max_addr (sys s) - mem_brk (sys s)) size bs with
    | None => r = NULL ∧ s' = no_memory s
    | Some (pre, c, post) =>
      adjust_size size <= c ∧
      r = first_bp s + total pre ∧ first_bp s' = first_bp s ∧
      Forall ok_blk (pre ++ (c, false) :: post) ∧
      wf s' (pre ++ split (adjust_size size) c ++ post) ∧
      amap (first_bp s) (pre ++ (c, false) :: post) = amap (first_bp s) bs ∧
      preserved (amap (first_bp s) bs) (mbytes s) (mbytes s')
    end) s.
Proof.
  intros [Hrep Hco] Hsize. destruct (adjust_size_ok _ Hsize) as [Hok Ha].
  unfold mm_malloc. apply wp_bind, wp_get. rewrite (heap_listp_nonzero _ _ Hrep).
  apply wp_bind, wp_ret. replace (size =? 0) with false by lia.
  apply wp_bind. eapply wp_mono; [by apply find_fit_spec|].
  cbn beta. intros r s' [-> ->]. unfold amalloc.
  destruct (first_fit _ bs) as [[[pre c] post]|] eqn:Eff.
  - destruct (first_fit_ok _ _ _ _ _ Eff (rep_sizes _ _ Hrep)) as (Ho1 & Ho2 & Ho3).
    apply first_fit_Some in Eff as [-> Hle].
    replace (first_bp s + total pre =? NULL) with false.
    2: { symmetry. apply Z.eqb_neq. eapply find_fit_positive; [done|]. by apply ok_total. }
    apply wp_bind. eapply wp_mono; [by apply place_spec|].
    cbn beta. intros _ s' (m' & -> & Hrep' & Hout). apply wp_ret.
    split_and!; try done; [exact (rep_sizes _ _ Hrep)|by split; [|apply coalesced_split]|].
    apply (preserved_outside _ pre [(c, false)] post); [exact (rep_sizes _ _ Hrep)| |].
    + intros b Hb%list_elem_of_singleton. by subst.
    + cbn [total fst]. by rewrite Z.add_0_r.
  - set (ext := Z.max (adjust_size size) 4096).
    assert (MAX (adjust_size size) CHUNKSIZE = ext) as ->.
    { unfold MAX, ext. change CHUNKSIZE with 4096. destruct (_ <? _) eqn:?; lia. }
    assert (ok_size ext) as Hoke. { destruct Hok. unfold ok_size, ext. Z.div_mod_to_equations; lia. }
    apply wp_bind. eapply wp_mono.
    { apply (extend_heap_spec s bs ext); [done..|lia|]. destruct Hoke. unfold WSIZE.
      Z.div_mod_to_equations; lia. }
    cbn beta. intros r s'.
    replace (mem_max_addr (sys s) - mem_brk (sys s) <? ext)
      with (mem_max_addr (sys s) <? mem_brk (sys s) + ext) by lia.
    destruct (mem_max_addr (sys s) <? mem_brk (sys s) + ext).
    { intros [-> ->]. by apply wp_ret. }
    destruct (merge bs ext []) as [[pre c] post] eqn:Em.
    intros (m' & -> & -> & Hrep1 & Hout).
    pose proof (rep_sizes _ _ Hrep1) as Hsz. pose proof Hsz as Hsz'.
    rewrite Forall_app, Forall_cons in Hsz'. destruct Hsz' as (Ho1 & Ho2 & Ho3).
    replace (first_bp s + total pre =? NULL) with false.
    2: { symmetry. apply Z.eqb_neq. eapply find_fit_positive; [done|]. by apply ok_total. }
    destruct (merge_grow _ _ _ _ _ (rep_sizes _ _ Hrep) Em) as [-> Hext].
    assert (adjust_size size <= c) as Hle by lia.
    apply wp_bind. eapply wp_mono; [by apply (place_spec _ pre c [])|].
    cbn beta. intros _ s' (m2 & -> & Hrep2 & Hout2). apply wp_ret.
    assert (amap (first_bp s) (pre ++ [(c, false)]) = amap (first_bp s) bs) as Ham.
    { apply amap_merge with (p := first_bp s) in Em as [-> _]. rewrite amap_app. simpl.
      by rewrite (right_id_L ∅ (∪)). }
    split_and!; try done.
    + split; [done|]. apply coalesced_split. by apply (coalesced_merge bs ext []).
    + rewrite <- Ham. apply (preserved_trans _ _ m').
      * intros q n i Hq Hi. apply Hout. rewrite amap_app in Hq. simpl in Hq.
        rewrite (right_id_L ∅ (∪)) in Hq. apply amap_bounds in Hq; [lia|done].
      * apply (preserved_outside _ pre [(c, false)] []).
        -- by rewrite app_nil_r.
        -- intros b Hb%list_elem_of_singleton. by subst.
        -- cbn [total fst]. by rewrite Z.add_0_r.
Qed.

Lemma amap_lookup p bs q n :
  amap p bs !! q = Some n → ∃ pre post, bs = pre ++ (n + 8, true) :: post ∧ q = p + total pre.
Proof.
  revert p. induction bs as [|[sz al] bs IH]; intros p; simpl; [done|].
  destruct al; [rewrite lookup_insert_Some; intros [[<- <-]|[_ Hq]]|intros Hq].
  - exists [], bs. simpl. split; [repeat f_equal; lia|lia].
  - destruct (IH _ Hq) as (pre & post & -> & ->). exists ((sz, true) :: pre), post.
    simpl. split; [done|lia].
  - destruct (IH _ Hq) as (pre & post & -> & ->). exists ((sz, false) :: pre), post.
    simpl. split; [done|lia].
Qed.

(** [mm_free] on an allocated block: it is joined with its free neighbours. *)
Lemma mm_free_run s pre sz post :
  wf s (pre ++ (sz, true) :: post) →
  wp (mm_free (first_bp s + total pre)) (λ _ s',
    let '(pre', sz', post') := merge pre sz post in
    let am := amap (first_bp s) (pre ++ (sz, false) :: post) in
    ∃ m', s' = setm s m' ∧ wf s' (pre' ++ (sz', false) :: post') ∧
      amap (first_bp s) (pre' ++ (sz', false) :: post') = am ∧
      preserved am (mbytes s) m') s.
Proof.
  intros [Hrep Hco].
  pose proof (rep_prev _ _ _ Hrep) as Hp. pose proof (rep_next _ _ _ _ _ Hrep) as Hn.
  pose proof (rep_total _ _ Hrep) as Htot. rewrite total_app in Htot. cbn [total fst] in Htot.
  pose proof (rep_sizes _ _ Hrep) as Hs.
  rewrite Forall_app, Forall_cons in Hs. destruct Hs as (Hs1 & [Hs2 Hs2'] & Hs3).
  pose proof (ok_total _ Hs1) as Ho1. pose proof (ok_total _ Hs3) as Ho3. cbn [fst] in *.
  destruct (prev_blk pre) as [psz pa], (next_blk post) as [nsz na].
  destruct Hp as (? & ? & ? & _ & _ & ?), Hn as (? & ? & Hhi & Ht1 & Ht2 & _ & _ & ?).
  assert (first_bp s + total pre + sz <= mem_brk (sys s)) by (destruct na; lia).
  unfold mm_free.
  replace (first_bp s + total pre =? 0) with false
    by (symmetry; apply Z.eqb_neq; eapply find_fit_positive; [done|lia]).
  remember (first_bp s + total pre) as bp eqn:Ebp.
  run wp_GET_SIZE sz true. apply wp_bind, wp_get.
  rewrite (heap_listp_nonzero _ _ Hrep). apply wp_bind, wp_ret.
  run wp_PUT_tag sz false. run wp_FTRP sz false. run wp_PUT_tag sz false.
  set (m1 := put4 _ (bp + sz - 8) _).
  assert (same_outside (bp - 4) (bp + sz - 4) (mbytes s) m1) as Hout1 by (subst m1; same_bytes).
  assert (rep (setm s m1) (pre ++ (sz, false) :: post)) as Hrep1.
  { subst bp. apply (rep_one _ _ _ [(sz, true)]); try done; [simpl; lia|subst m1; mm_side..]. }
  apply wp_bind. eapply wp_mono; [apply (coalesce_spec _ _ _ _ _ Hrep1); done|].
  cbn beta. intros r s'. destruct (merge pre sz post) as [[pre' sz'] post'] eqn:Em.
  intros (m' & -> & -> & Hrep' & Hout). apply wp_ret. exists m'.
  pose proof (rep_sizes _ _ Hrep') as Hs'.
  apply coalesced_true in Hco as [Hc1 Hc2].
  destruct (amap_merge (first_bp s) _ _ _ _ _ _ Em) as [Ham _].
  split_and!; try done.
  - split; [done|]. by apply (coalesced_merge pre sz post).
  - apply (preserved_trans _ _ m1).
    + apply (preserved_outside _ pre [(sz, false)] post).
      * exact (rep_sizes _ _ Hrep1).
      * intros b Hb%list_elem_of_singleton. by subst.
      * cbn [total fst]. by rewrite Z.add_0_r, <- Ebp.
    + rewrite <- Ham. apply (preserved_outside _ pre' [(sz', false)] post'); [done| |].
      * intros b Hb%list_elem_of_singleton. by subst.
      * cbn [total fst]. by rewrite Z.add_0_r.
Qed.

(** ** The contract *)

Definition max_request : Z := 2 ^ 31 - 4096.

Lemma owns_facts s am p n :
  owns s am → am !! p = Some n →
  8 <= n ∧ p mod 8 = 0 ∧ mem_heap (sys s) + 16 <= p ∧ p + n + 8 <= mem_brk (sys s) ∧ p ≠ 0.
Proof.
  intros (bs & [Hrep _] & ->) Hp. apply amap_bounds in Hp as (? & ? & ? & ?); [|apply Hrep].
  pose proof (rep_total _ _ Hrep). destruct Hrep. unfold first_bp in *.
  split_and!; try lia. Z.div_mod_to_equations; lia.
Qed.

Lemma owns_disjoint s am p n q k :
  owns s am → am !! p = Some n → am !! q = Some k → p ≠ q →
  p + n + 8 <= q ∨ q + k + 8 <= p.
Proof.
  intros (bs & [Hrep _] & ->) Hp Hq Hne.
  destruct (amap_disjoint _ _ _ _ _ _ (rep_sizes _ _ Hrep) Hp Hq); [done|tauto].
Qed.

(** A write inside a payload does not disturb the allocator. *)
Lemma owns_payload s am p n m' :
  owns s am → am !! p = Some n → same_outside p (p + n) (mbytes s) m' → owns (setm s m') am.
Proof.
  intros (bs & [Hrep Hco] & ->) Hp Hout.
  apply amap_lookup in Hp as (pre & post & -> & ->).
  exists (pre ++ (n + 8, true) :: post). split; [split; [|done]|done].
  pose proof (rep_next _ _ _ _ _ Hrep) as Hn. destruct (next_blk post) as [nsz na].
  destruct Hn as (? & ? & Hhi & Ht1 & Ht2 & _ & _ & ?).
  pose proof (rep_sizes _ _ Hrep) as Hs. rewrite Forall_app, Forall_cons in Hs.
  destruct Hs as (Hs1 & [Hs2 Hs2'] & Hs3). cbn [fst] in *.
  apply (rep_one _ _ _ [(n + 8, true)]); try done; [simpl; lia|..].
  - unfold tag in *. rewrite <- Ht1. apply get4_frame. intros. apply Hout. lia.
  - unfold tag in *. rewrite <- Ht2. apply get4_frame. intros. apply Hout. lia.
  - intros a Ha. apply Hout. lia.
Qed.

(** The contract of [mm_malloc]: failure leaves everything as it was and only
    happens when the heap cannot grow; success returns a new aligned region of at
    least [size] bytes. *)
Lemma mm_malloc_contract s am size :
  owns s am → 0 < size <= max_request →
  wp (mm_malloc size) (λ p s',
    (p = NULL ∧ owns s' am ∧ mbytes s' = mbytes s ∧
       mem_max_addr (sys s) - mem_brk (sys s) < Z.max (adjust_size size) 4096) ∨
    (∃ n, size <= n ∧ p mod 8 = 0 ∧ am !! p = None ∧ owns s' (<[p := n]> am) ∧
       preserved am (mbytes s) (mbytes s'))) s.
Proof.
  intros (bs & Hwf & ->) Hsize. eapply wp_mono; [by apply mm_malloc_run|]. cbn beta.
  intros p s'. destruct (adjust_size_ok _ Hsize) as [Hok Ha].
  destruct (amalloc _ _ _) as [[[pre c] post]|] eqn:Eam.
  - intros (Hle & -> & Hfb & Hs & Hwf' & Ham & Hpres). right.
    pose proof Hs as Hs'. rewrite Forall_app, Forall_cons in Hs'. destruct Hs' as (Hs1 & Hs2 & Hs3).
    rewrite <- Ham. eexists. split_and!; [| | | |by rewrite Ham].
    2: { destruct Hwf as [[] _]. destruct (ok_total _ Hs1). unfold first_bp in *.
         Z.div_mod_to_equations; lia. }
    3: { exists (pre ++ split (adjust_size size) c ++ post). split; [done|].
         rewrite Hfb, (amap_split _ _ _ _ _ Hs1 Hok Hs2 Hle). reflexivity. }
    + cbn [fst]. destruct (16 <=? c - adjust_size size); lia.
    + rewrite amap_app. apply lookup_union_None. destruct Hs2 as [Hc _]. cbn [amap fst] in *.
      split; apply amap_outside; try done; lia.
  - intros [-> ->]. left. split_and!; [done| |done|].
    + exists bs. split; [|done]. destruct Hwf as [[] ?]. by split.
    + unfold amalloc in Eam. destruct (first_fit _ bs); [done|].
      destruct (_ <? _) eqn:E in Eam; [lia|done].
Qed.

Lemma mm_free_contract s am p n :
  owns s am → am !! p = Some n →
  wp (mm_free p) (λ _ s', owns s' (delete p am) ∧
    first_bp s' = first_bp s ∧ preserved (delete p am) (mbytes s) (mbytes s')) s.
Proof.
  intros (bs & Hwf & ->) Hp. apply amap_lookup in Hp as (pre & post & -> & ->).
  pose proof (rep_sizes _ _ (proj1 Hwf)) as Hs.
  eapply wp_mono; [by apply mm_free_run|]. cbn beta. intros _ s'.
  destruct (merge pre (n + 8) post) as [[pre' sz'] post'] eqn:Em.
  intros (m' & -> & Hwf' & Ham & Hpres). rewrite <- amap_false by done.
  split_and!; [|done|done]. eexists. split; [exact Hwf'|]. by rewrite <- Ham.
Qed.

(** ** Reallocation *)

Lemma memcpy_run s dst src n :
  0 <= n → mem_heap (sys s) <= src → src + n <= mem_brk (sys s) →
  mem_heap (sys s) <= dst → dst + n <= mem_brk (sys s) →
  lift (memcpy dst src n) s = (setm s (copy_bytes (mbytes s) dst src (Z.to_nat n)), Done tt).
Proof.
  intros. unfold lift, memcpy. by rewrite !in_heap_true by lia.
Qed.

Lemma mm_realloc_contract s am p n size :
  owns s am → am !! p = Some n → 0 < size <= max_request →
  wp (mm_realloc p size) (λ q s',
    (q = NULL ∧ owns s' am ∧ mbytes s' = mbytes s) ∨
    (∃ k, size <= k ∧ am !! q = None ∧ owns s' (<[q := k]> (delete p am)) ∧
       preserved (delete p am) (mbytes s) (mbytes s') ∧
       ∀ i, 0 <= i < Z.min size n → rd (mbytes s') (q + i) = rd (mbytes s) (p + i))) s.
Proof.
  intros Hown Hp Hsize. destruct (owns_facts _ _ _ _ Hown Hp) as (_ & _ & _ & _ & Hp0).
  unfold mm_realloc. replace (size =? 0) with false by lia.
  replace (p =? NULL) with false by (unfold NULL; lia).
  apply wp_bind. eapply wp_mono; [by apply mm_malloc_contract|].
  cbn beta. intros q s1 [(-> & Hown1 & Hm & _)|(k & Hk & _ & Hq & Hown1 & Hpres1)].
  { apply wp_ret. left. done. }
  assert (Hpq : p ≠ q) by congruence.
  assert (Hp1 : <[q:=k]> am !! p = Some n) by (by rewrite lookup_insert_ne).
  assert (Hq1 : <[q:=k]> am !! q = Some k) by apply lookup_insert_eq.
  destruct (owns_facts _ _ _ _ Hown1 Hp1) as (? & _ & ? & ? & _).
  destruct (owns_facts _ _ _ _ Hown1 Hq1) as (? & _ & ? & ? & Hq0).
  pose proof (owns_disjoint _ _ _ _ _ _ Hown1 Hp1 Hq1 Hpq) as Hdis.
  replace (q =? 0) with false by lia.
  destruct (Hown1) as (bs1 & [Hrep1 _] & Hbs1).
  rewrite Hbs1 in Hp1. apply amap_lookup in Hp1 as Hsplit.
  destruct Hsplit as (pre & post & -> & Hpe). rewrite <- Hbs1 in Hp1.
  pose proof (rep_next _ _ _ _ _ Hrep1) as Hn. destruct (next_blk post) as [nsz na].
  destruct Hn as (? & ? & Hhi & Ht1 & _ & _ & _ & ?). rewrite <- Hpe in *.
  pose proof (rep_total _ _ Hrep1) as Htot. rewrite total_app in Htot. cbn [total fst] in Htot.
  pose proof (rep_sizes _ _ Hrep1) as Hs. rewrite Forall_app, Forall_cons in Hs.
  destruct Hs as (Hs1 & [_ Hmod] & Hs3). cbn [fst] in Hmod.
  pose proof (ok_total _ Hs1). pose proof (ok_total _ Hs3).
  run wp_GET_SIZE (n + 8) true.
  set (len := if size <? n + 8 then size else n + 8).
  assert (0 <= len <= size ∧ len <= n + 8 ∧ Z.min size n <= len) as Hlen.
  { unfold len. destruct (size <? n + 8) eqn:?; lia. }
  apply wp_bind. eapply wp_run; [apply memcpy_run; lia|].
  set (m2 := copy_bytes (mbytes s1) q p (Z.to_nat len)).
  assert (owns (setm s1 m2) (<[q := k]> am)) as Hown2.
  { apply (owns_payload _ _ q k); [done..|]. intros a Ha. apply copy_bytes_frame. lia. }
  apply wp_bind. eapply wp_mono; [by eapply mm_free_contract|].
  cbn beta. intros _ s3 (Hown3 & _ & Hpres3). apply wp_ret. right. exists k.
  rewrite delete_insert_ne in * by done.
  assert (Hq3 : <[q := k]> (delete p am) !! q = Some k) by apply lookup_insert_eq.
  split_and!; try done.
  - intros a b i Ha Hi.
    assert (a ≠ q) by (intros ->; apply lookup_delete_Some in Ha as [_ Ha]; congruence).
    rewrite (Hpres3 a b i); [|by rewrite lookup_insert_ne|done].
    apply lookup_delete_Some in Ha as [_ Ha].
    assert (<[q := k]> am !! a = Some b) as Ha1 by (by rewrite lookup_insert_ne).
    pose proof (owns_disjoint _ _ _ _ _ _ Hown1 Ha1 Hq1 ltac:(done)).
    change (mbytes (setm s1 m2)) with m2. unfold m2.
    rewrite copy_bytes_frame by lia. by apply (Hpres1 a b).
  - intros i Hi. rewrite (Hpres3 q k i) by (done || lia). change (mbytes (setm s1 m2)) with m2.
    unfold m2. rewrite copy_bytes_spec by lia. apply (Hpres1 p n); [done|lia].
Qed.

(** ** Initialisation *)

Lemma mm_init_run m heap size :
  0 < heap → heap mod 8 = 0 → 16 <= size < 2 ^ 31 →
  wp mm_init (λ r s', heap_listp s' = heap + 8 ∧ mem_heap (sys s') = heap ∧
    mem_max_addr (sys s') = heap + size ∧
    (if size <? 16 + 4096 then r = -1 ∧ wf s' [] else r = 0 ∧ wf s' [(4096, false)]))
    (mm_start m heap size).
Proof.
  intros Hh Hal Hsize. unfold mm_init. apply wp_bind. unfold wp at 1.
  change (4 * WSIZE) with (i32 16). rewrite mem_sbrk_run by lia. cbn [mm_start mem_init sys mem_brk mem_max_addr].
  replace (heap + size <? heap + 16) with false by lia.
  apply wp_bind, wp_modify. replace (heap =? -1) with false by lia.
  set (s1 := Mm (sys (grow (mm_start m heap size) 16 (mbytes (mm_start m heap size)))) heap).
  assert (mem_heap (sys s1) = heap ∧ mem_brk (sys s1) = heap + 16) as [Eh Eb] by done.
  apply wp_bind, wp_PUT; [mm_side..|].
  run wp_PUT_tag 8 true. run wp_PUT_tag 8 true. run wp_PUT_tag 0 true.
  apply wp_bind, wp_modify. set (s2 := Mm _ (heap + 2 * WSIZE)).
  assert (rep s2 []) as Hrep2.
  { subst s2 s1. unfold WSIZE. split; unfold first_bp; simpl; try lia; try done.
    - split_and!; try done; unfold mbytes; simpl; solve_tag.
    - unfold mbytes. simpl. solve_tag. }
  apply wp_bind. eapply wp_mono; [apply (extend_heap_spec _ [] 4096); try done|].
  cbn beta. intros r s'. change (mem_max_addr (sys s2)) with (heap + size).
  change (mem_brk (sys s2)) with (heap + 16).
  replace (heap + size <? heap + 16 + 4096) with (size <? 16 + 4096) by lia.
  assert (heap_listp s2 = heap + 8) as El by done.
  destruct (size <? 16 + 4096).
  - intros [-> ->]. apply wp_ret. split_and!; try done.
    split; [|done]. destruct Hrep2. by split.
  - simpl. intros (m' & -> & -> & Hrep' & _). unfold first_bp at 1.
    replace (heap_listp s2 + 8 + 0 =? NULL) with false by (unfold NULL; lia).
    apply wp_ret. split_and!; try done.
Qed.

(** ** A client of the allocator, against its contract only *)

(** What an allocator over states [S] promises: [al_owns s am] relates a state to
    the live allocations, pointer to usable bytes. *)
Class Allocator (S E : Type) := {
  al_malloc : Z → M S E Z;
  al_free : Z → M S E unit;
  al_owns : S → gmap Z Z → Prop;
  al_limit : Z;
  al_malloc_ok s am n :
    al_owns s am → 0 < n <= al_limit →
    wp (al_malloc n) (λ p s', (p = 0 ∧ al_owns s' am) ∨
      ∃ k, n <= k ∧ p ≠ 0 ∧ am !! p = None ∧ al_owns s' (<[p := k]> am)) s;
  al_free_ok s am p :
    al_owns s am → is_Some (am !! p) →
    wp (al_free p) (λ _ s', al_owns s' (delete p am)) s;
  al_disjoint s am p n q k :
    al_owns s am → am !! p = Some n → am !! q = Some k → p ≠ q →
    p + n <= q ∨ q + k <= p }.

(** A request of a client that remembers the pointers it holds, latest first:
    allocate [n] bytes, or free the [i]-th pointer held (nothing if it holds fewer). *)
Inductive request := ReqMalloc (n : Z) | ReqFree (i : nat).

Section client.
Context {S E : Type} `{!Allocator S E}.

Definition client_step (held : list Z) (r : request) : M S E (list Z) :=
  match r with
  | ReqMalloc n =>
    let! p := al_malloc n in ret (if p =? 0 then held else p :: held)
  | ReqFree i =>
    match held !! i with
    | Some p => al_free p;;; ret (take i held ++ drop (Datatypes.S i) held)
    | None => ret held
    end
  end.

Fixpoint client_run (held : list Z) (rs : list request) : M S E (list Z) :=
  match rs with
  | [] => ret held
  | r :: rs => let! held := client_step held r in client_run held rs
  end.

Definition fits (r : request) : Prop :=
  match r with ReqMalloc n => 0 < n <= al_limit | ReqFree _ => True end.

(** The client holds exactly the live pointers, each once. *)
Definition holds (s : S) (held : list Z) : Prop :=
  NoDup held ∧ ∃ am, al_owns s am ∧ ∀ p, p ∈ held ↔ is_Some (am !! p).

Lemma client_step_ok s held r :
  holds s held → fits r → wp (client_step held r) (λ held' s', holds s' held') s.
Proof.
  intros (Hnd & am & Hown & Hin) Hfit. destruct r as [n|i]; simpl in *.
  - apply wp_bind. eapply wp_mono; [by apply al_malloc_ok|].
    cbn beta. intros p s' [[-> Hown']|(k & Hk & Hp & Hnone & Hown')]; apply wp_ret.
    + split; [done|]. by exists am.
    + replace (p =? 0) with false by lia. split.
      * apply NoDup_cons. split; [|done]. rewrite Hin, Hnone. by intros [? [=]].
      * exists (<[p := k]> am). split; [done|]. intros q.
        rewrite elem_of_cons, Hin, lookup_insert_is_Some'. naive_solver.
  - destruct (held !! i) as [p|] eqn:Ei.
    + apply wp_bind. eapply wp_mono.
      { apply (al_free_ok s am); [done|]. apply Hin. by eapply list_elem_of_lookup_2. }
      cbn beta. intros _ s' Hown'. apply wp_ret.
      rewrite <- (take_drop_middle _ _ _ Ei) in Hnd, Hin.
      apply NoDup_app in Hnd as (Hn1 & Hdis & Hn2). apply NoDup_cons in Hn2 as [Hpn Hn2].
      split.
      * apply NoDup_app. split_and!; [done| |done]. intros x Hx. by apply Hdis in Hx as [_ ?]%not_elem_of_cons.
      * exists (delete p am). split; [done|]. intros q.
        rewrite lookup_delete_is_Some, <- Hin, !elem_of_app, elem_of_cons.
        destruct (decide (q = p)) as [->|]; [|naive_solver].
        split; [|naive_solver]. intros [Hq|Hq]; [|done]. exfalso. apply (Hdis p Hq). by left.
    + apply wp_ret. split; [done|]. by exists am.
Qed.

Lemma client_run_ok rs : ∀ s held,
  holds s held → Forall fits rs → wp (client_run held rs) (λ held' s', holds s' held') s.
Proof.
  induction rs as [|r rs IH]; intros s held Hh Hf; simpl; [by apply wp_ret|].
  apply Forall_cons in Hf as [Hr Hf].
  apply wp_bind. eapply wp_mono; [by apply client_step_ok|]. eauto.
Qed.
End client.

(** [mm.c] implements the contract. *)
#[export] Program Instance mm_allocator : Allocator mm fault := {|
  al_malloc := mm_malloc; al_free := mm_free; al_owns := owns; al_limit := max_request |}.
Next Obligation.
  intros s am n Hown Hn. eapply wp_mono; [by apply mm_malloc_contract|]. cbn beta.
  intros p s' [(-> & ? & _)|(k & ? & _ & ? & Hown' & _)]; [by left|right].
  exists k. split_and!; try done. by eapply owns_facts; [done|apply lookup_insert_eq].
Qed.
Next Obligation.
  intros s am p Hown [n Hp]. eapply wp_mono; [by eapply mm_free_contract|]. by intros _ s' [? _].
Qed.
Next Obligation.
  intros s am p n q k Hown Hp Hq Hne.
  destruct (owns_disjoint _ _ _ _ _ _ Hown Hp Hq Hne); lia.
Qed.
