(* ===== verification/MmProps.v ===== *)
(** The properties of the allocator of csapp/code/vm/malloc, with an example heap
    on which their hypotheses hold, and the silence of its consistency checker. *)

From stdpp Require Import base tactics numbers list gmap.
From Stdlib Require Import ZArith Lia.
From S2P Require Import Prelude Memlib Mm MmSpec MmThms.

(** ** The checker on a well-formed heap *)

Lemma checkblock_run s p sz al :
  mem_heap (sys s) <= p - 4 → p <= mem_brk (sys s) → p + sz - 4 <= mem_brk (sys s) →
  mem_heap (sys s) <= p + sz - 8 →
  tag (mbytes s) (p - 4) sz al → tag (mbytes s) (p + sz - 8) sz al →
  0 <= sz < 2 ^ 32 → sz mod 8 = 0 → p mod 8 = 0 →
  wp (checkblock p) (λ l s', l = [] ∧ s' = s) s.
Proof.
  intros ???? Ht1 Ht2 ?? Hp. unfold checkblock, HDRP, WSIZE.
  apply wp_bind, wp_GET; [lia..|]. run wp_FTRP sz al.
  apply wp_bind, wp_GET; [lia..|]. apply wp_ret.
  rewrite Hp, Ht1, Ht2, !Z.eqb_refl. done.
Qed.

Lemma checkheap_loop_run pb fuel s p bs out :
  blocks (mbytes s) p bs → tag (mbytes s) (p + total bs - 4) 0 true →
  mem_heap (sys s) <= p - 4 → p + total bs <= mem_brk (sys s) → total bs < 2 ^ 31 →
  (length bs < fuel)%nat → p mod 8 = 0 →
  (∀ pre sz al post, bs = pre ++ (sz, al) :: post →
     wp (pb (p + total pre)) (λ l s', l = [] ∧ s' = s) s) →
  wp (checkheap_loop pb fuel p out) (λ r s', r = (out, p + total bs) ∧ s' = s) s.
Proof.
  revert p bs out. induction fuel as [|fuel IH]; intros p bs out Hb He Hlo Hhi Htot Hf Hp Hpb; [lia|].
  cbn [checkheap_loop]. unfold HDRP, WSIZE. destruct bs as [|[sz al] bs]; cbn [total fst blocks] in *.
  - rewrite Z.add_0_r in *. apply wp_bind.
    eapply wp_GET_SIZE; [| |exact He|..]; try lia; done.
  - destruct Hb as (? & ? & Ht & Ht' & Hb). pose proof (blocks_total _ _ _ Hb).
    run wp_GET_SIZE sz al. replace (0 <? sz) with true by lia.
    apply wp_bind. eapply wp_mono.
    { specialize (Hpb [] sz al bs eq_refl). cbn [total] in Hpb. rewrite Z.add_0_r in Hpb. exact Hpb. }
    cbn beta. intros l1 ? [-> ->].
    apply wp_bind. eapply wp_mono; [apply (checkblock_run s p sz al); try done; lia|].
    cbn beta. intros l2 ? [-> ->]. run wp_NEXT_BLKP sz al. rewrite !app_nil_r.
    replace (p + (sz + total bs)) with (p + sz + total bs) in * by lia.
    apply IH; try done; try lia.
    + simpl in Hf; lia.
    + Z.div_mod_to_equations; lia.
    + intros pre sz' al' post ->. specialize (Hpb ((sz, al) :: pre) sz' al' post eq_refl).
      cbn [total fst] in Hpb. by rewrite Z.add_assoc in Hpb.
Qed.

Lemma rep_blk_range s pre sz al post :
  rep s (pre ++ (sz, al) :: post) →
  let p := first_bp s + total pre in
  mem_heap (sys s) + 16 <= p ∧ p + sz <= mem_brk (sys s) ∧ p mod 8 = 0 ∧
  16 <= sz < 2 ^ 31 ∧ sz mod 8 = 0 ∧
  tag (mbytes s) (p - 4) sz al ∧ tag (mbytes s) (p + sz - 8) sz al.
Proof.
  intros Hrep. pose proof (rep_next _ _ _ _ _ Hrep) as Hn.
  pose proof (rep_total _ _ Hrep) as Htot. rewrite total_app in Htot. cbn [total fst] in Htot.
  pose proof (rep_sizes _ _ Hrep) as Hs. rewrite Forall_app, Forall_cons in Hs.
  destruct Hs as (Hs1 & [Hs2 Hs2'] & Hs3). pose proof (ok_total _ Hs1). pose proof (ok_total _ Hs3).
  destruct (next_blk post) as [nsz na]. cbn [fst] in *.
  destruct Hn as (? & ? & ? & ? & ? & _). destruct Hrep. unfold first_bp in *.
  split_and!; try done; try lia; [destruct na; lia|Z.div_mod_to_equations; lia].
Qed.

Lemma checkheap_with_run pb l0 lend s bs :
  rep s bs →
  (∀ pre sz al post, (8, true) :: bs = pre ++ (sz, al) :: post →
     wp (pb (heap_listp s + total pre)) (λ l s', l = [] ∧ s' = s) s) →
  wp (pb (mem_brk (sys s))) (λ l s', l = lend ∧ s' = s) s →
  wp (checkheap_with pb l0) (λ out s', out = l0 ++ lend ∧ s' = s) s.
Proof.
  intros Hrep Hpb Hend. pose proof (rep_total _ _ Hrep).
  destruct Hrep as [Hpos Hal Hlp Hbrk Hmax Hint Hbl Hep Hsz]. unfold first_bp in *.
  pose proof (blocks_total _ _ _ Hbl) as Hlen. cbn [length] in Hlen.
  pose proof Hbl as Hb. cbn [blocks] in Hb. destruct Hb as (_ & _ & Ht1 & Ht2 & _).
  unfold checkheap_with, HDRP, WSIZE. apply wp_bind, wp_get.
  run wp_GET_SIZE 8 true. run wp_GET_ALLOC 8 true.
  apply wp_bind. eapply wp_mono.
  { apply (checkblock_run s _ 8 true); try done; try lia. Z.div_mod_to_equations; lia. }
  cbn beta. intros l2 ? [-> ->].
  apply wp_bind. eapply wp_mono.
  { apply (checkheap_loop_run _ _ _ _ ((8, true) :: bs)); try done; cbn [total fst] in *; try lia.
    - by replace (heap_listp s + (8 + total bs) - 4) with (mem_brk (sys s) - 4) by lia.
    - unfold loop_bound. cbn [length] in *. Z.div_mod_to_equations; lia.
    - Z.div_mod_to_equations; lia. }
  cbn beta. intros ? ? [-> ->]. cbn [total fst].
  replace (heap_listp s + (8 + total bs)) with (mem_brk (sys s)) by lia.
  apply wp_bind. eapply wp_mono; [exact Hend|]. cbn beta. intros ? ? [-> ->].
  run wp_GET_SIZE 0 true. run wp_GET_ALLOC 0 true. apply wp_ret. simpl.
  by rewrite !app_nil_r.
Qed.

Lemma checkheap_quiet s bs :
  rep s bs → wp (checkheap_with (λ _, ret []) []) (λ out s', out = [] ∧ s' = s) s.
Proof. intros Hrep. apply (checkheap_with_run _ [] [] s bs); try done; intros; by apply wp_ret. Qed.

Lemma printblock_run s bs p sz al z a :
  rep s bs → mem_heap (sys s) <= p - 4 → p <= mem_brk (sys s) → p + sz - 4 <= mem_brk (sys s) →
  mem_heap (sys s) <= p + sz - 8 →
  tag (mbytes s) (p - 4) sz al → 0 <= sz < 2 ^ 32 → sz mod 8 = 0 →
  tag (mbytes s) (p + sz - 8) z a → 0 <= z < 2 ^ 32 → z mod 8 = 0 →
  wp (printblock p) (λ l s', l = (if sz =? 0 then [MsgEOL p] else []) ∧ s' = s) s.
Proof.
  intros Hrep ???? Ht1 ?? Ht2 ??.
  unfold printblock. apply wp_bind. eapply wp_mono; [by eapply checkheap_quiet|].
  cbn beta. intros ? ? [-> ->]. apply wp_bind. unfold printblock_body, HDRP, WSIZE.
  run wp_GET_SIZE sz al. run wp_GET_ALLOC sz al. run wp_FTRP sz al.
  run wp_GET_SIZE z a. run wp_FTRP sz al. run wp_GET_ALLOC z a.
  apply wp_ret, wp_ret. done.
Qed.

Lemma checkheap_run s bs verbose :
  rep s bs →
  wp (checkheap verbose) (λ out s', s' = s ∧ out =
    if verbose then [MsgHeap (heap_listp s); MsgEOL (mem_brk (sys s))] else []) s.
Proof.
  intros Hrep. unfold checkheap. apply wp_bind, wp_get. destruct verbose.
  2: { eapply wp_mono; [by eapply checkheap_quiet|]. by intros ? ? [-> ->]. }
  eapply wp_mono; [apply (checkheap_with_run _ _ [MsgEOL (mem_brk (sys s))] s bs); [done| |]|].
  - intros [|b pre] sz al post E; simplify_eq/=.
    + pose proof (rep_total _ _ Hrep). pose proof (rep_blocks _ _ Hrep) as Hb.
      cbn [blocks] in Hb. destruct Hb as (_ & _ & Ht1 & Ht2 & _).
      rewrite Z.add_0_r. eapply wp_mono; [apply (printblock_run s post _ 8 true 8 true); try done|].
      all: try (by intros). all: destruct Hrep; unfold first_bp in *; lia.
    + destruct (rep_blk_range _ _ _ _ _ Hrep) as (? & ? & ? & ? & ? & ? & ?). unfold first_bp in *.
      rewrite Z.add_assoc.
      eapply wp_mono; [apply (printblock_run s (pre ++ (sz, al) :: post) _ sz al sz al); try done; lia|].
      cbn beta. replace (sz =? 0) with false by lia. done.
  - pose proof (rep_total _ _ Hrep). rewrite <- (app_nil_r bs) in Hrep.
    pose proof (rep_prev _ _ _ Hrep) as Hp. destruct (prev_blk bs) as [psz pa].
    destruct Hp as (? & ? & ? & _ & Ht & ?). pose proof (rep_epilogue _ _ Hrep).
    rewrite app_nil_r in Hrep. pose proof (rep_brk _ _ Hrep) as Eb. rewrite <- Eb in Ht.
    eapply wp_mono; [apply (printblock_run s bs _ 0 true psz pa); try done|].
    all: try (by intros). all: destruct Hrep; unfold first_bp in *; rewrite ?Z.add_0_r; (done || lia).
  - by intros ? ? [-> ->].
Qed.

(** ** An example heap *)

(** A heap of 64 KiB at address 4096, initialised. *)
Definition ex_heap : mm := (mm_init (mm_start ∅ 4096 65536)).1.

Lemma ex_heap_wf : wf ex_heap [(4096, false)].
Proof.
  pose proof (mm_init_run ∅ 4096 65536 ltac:(done) ltac:(done) ltac:(done)) as H.
  unfold wp in H. unfold ex_heap. destruct (mm_init _) as [s' [r|]]; [|done].
  by destruct H as (_ & _ & _ & _ & ?).
Qed.

Lemma ex_heap_owns : owns ex_heap ∅.
Proof. exists [(4096, false)]. split; [exact ex_heap_wf|]. by vm_compute. Qed.

(** The same heap with one block of 24 payload bytes in use. *)
Definition ex_heap1 : mm := (mm_malloc 20 ex_heap).1.

Lemma ex_heap1_run : mm_malloc 20 ex_heap = (ex_heap1, Done 4112).
Proof. vm_compute. reflexivity. Qed.

Lemma ex_heap1_wf : wf ex_heap1 [(32, true); (4064, false)].
Proof.
  pose proof (mm_malloc_run _ _ 20 ex_heap_wf ltac:(done)) as H. unfold wp in H.
  rewrite ex_heap1_run in H.
  change (amalloc _ 20 [(4096, false)]) with (Some ([] : list blk, 4096, [] : list blk)) in H.
  by destruct H as (_ & _ & _ & _ & ? & _).
Qed.

Lemma ex_heap1_owns : owns ex_heap1 {[4112 := 24]}.
Proof. exists [(32, true); (4064, false)]. split; [exact ex_heap1_wf|]. by vm_compute. Qed.

(** ** Properties *)

(** C1: [mm_malloc] implements first fit on the list of blocks.  It takes the
    first free block large enough for the adjusted size, or else a block at the
    end of the heap grown by at least 4096 bytes and joined with a free last
    block; it splits the block when at least 16 bytes remain; it never accesses
    memory outside the heap, keeps the heap well formed and coalesced, and leaves
    every live payload as it was.  When the heap cannot grow it returns NULL and
    changes only [errno]. *)
Theorem mm_malloc_first_fit (s : mm) (bs : list blk) (size : Z) :
  wf s bs → 0 < size <= max_request →
  wp (mm_malloc size) (λ r s',
    match amalloc (mem_max_addr (sys s) - mem_brk (sys s)) size bs with
    | None => r = NULL ∧ s' = no_memory s
    | Some (pre, c, post) =>
      adjust_size size <= c ∧ r = first_bp s + total pre ∧
      wf s' (pre ++ split (adjust_size size) c ++ post) ∧
      preserved (amap (first_bp s) bs) (mbytes s) (mbytes s')
    end) s.
Proof.
  intros Hwf Hsize. eapply wp_mono; [by apply mm_malloc_run|]. cbn beta.
  intros r s'. destruct (amalloc _ _ _) as [[[pre c] post]|]; tauto.
Qed.

Lemma mm_malloc_first_fit_witness :
  wf ex_heap [(4096, false)] ∧
  wp (mm_malloc 20) (λ r s', r = 4112 ∧ wf s' [(32, true); (4064, false)]) ex_heap.
Proof.
  split; [exact ex_heap_wf|].
  eapply wp_mono; [apply (mm_malloc_first_fit ex_heap [(4096, false)] 20 ex_heap_wf); done|].
  intros r s'. change (amalloc _ 20 [(4096, false)]) with (Some ([] : list blk, 4096, [] : list blk)).
  change (first_bp ex_heap + total []) with 4112. intros (_ & -> & ? & _). by split.
Defined.

(** C2: the contract of [mm_malloc] towards its clients.  On success the pointer
    is 8-byte aligned, was not live, and has at least [size] usable bytes; all
    other allocations and their contents stay.  On failure nothing changes, and
    the memory left in the simulated heap was less than the block needed. *)
Theorem mm_malloc_correct (s : mm) (am : gmap Z Z) (size : Z) :
  owns s am → 0 < size <= max_request →
  wp (mm_malloc size) (λ p s',
    (p = NULL ∧ owns s' am ∧ mbytes s' = mbytes s ∧
       mem_max_addr (sys s) - mem_brk (sys s) < Z.max (adjust_size size) 4096) ∨
    (∃ n, size <= n ∧ p mod 8 = 0 ∧ am !! p = None ∧ owns s' (<[p := n]> am) ∧
       preserved am (mbytes s) (mbytes s') ∧
       ∀ q k, am !! q = Some k → p + n <= q ∨ q + k <= p)) s.
Proof.
  intros Hown Hsize. eapply wp_mono; [by apply mm_malloc_contract|]. cbn beta.
  intros p s' [?|(n & ? & ? & Hp & Hown' & ?)]; [by left|right; exists n].
  split_and!; try done. intros q k Hq.
  assert (p ≠ q) by congruence.
  destruct (owns_disjoint _ _ p n q k Hown'); try done; try lia; [apply lookup_insert_eq|].
  by rewrite lookup_insert_ne.
Qed.

Lemma mm_malloc_correct_witness :
  owns ex_heap1 {[4112 := 24]} ∧
  wp (mm_malloc 100) (λ p _, p = NULL ∨ 4136 <= p ∨ p + 100 <= 4112) ex_heap1.
Proof.
  split; [exact ex_heap1_owns|].
  eapply wp_mono; [apply (mm_malloc_correct _ _ 100 ex_heap1_owns); done|]. cbn beta.
  intros p s' [[-> _]|(n & ? & _ & _ & _ & _ & Hd)]; [by left|right].
  destruct (Hd 4112 24); [apply lookup_singleton_eq|lia|lia].
Defined.

(** C3: [mm_free] of a live pointer removes exactly that allocation, faults
    nowhere, and leaves the contents of all other allocations as they were. *)
Theorem mm_free_correct (s : mm) (am : gmap Z Z) (p n : Z) :
  owns s am → am !! p = Some n →
  wp (mm_free p) (λ _ s', owns s' (delete p am) ∧
    preserved (delete p am) (mbytes s) (mbytes s')) s.
Proof.
  intros Hown Hp. eapply wp_mono; [by eapply mm_free_contract|]. naive_solver.
Qed.

Lemma mm_free_correct_witness :
  owns ex_heap1 {[4112 := 24]} ∧ wp (mm_free 4112) (λ _ s', owns s' ∅) ex_heap1.
Proof.
  split; [exact ex_heap1_owns|].
  eapply wp_mono; [apply (mm_free_correct ex_heap1 {[4112 := 24]} 4112 24 ex_heap1_owns);
    apply lookup_singleton_eq|].
  intros _ s' [H _]. by rewrite delete_singleton_eq in H.
Defined.

(** C4: [mm_realloc] of a live pointer to a nonzero size moves the allocation:
    the new region has at least [size] bytes, its first [min size n] bytes are
    those of the old one, the old pointer is no longer live and every other
    allocation keeps its contents.  If no memory is left it returns NULL and the
    old block is untouched. *)
Theorem mm_realloc_correct (s : mm) (am : gmap Z Z) (p n size : Z) :
  owns s am → am !! p = Some n → 0 < size <= max_request →
  wp (mm_realloc p size) (λ q s',
    (q = NULL ∧ owns s' am ∧ mbytes s' = mbytes s) ∨
    (∃ k, size <= k ∧ am !! q = None ∧ owns s' (<[q := k]> (delete p am)) ∧
       preserved (delete p am) (mbytes s) (mbytes s') ∧
       ∀ i, 0 <= i < Z.min size n → rd (mbytes s') (q + i) = rd (mbytes s) (p + i))) s.
Proof. apply mm_realloc_contract. Qed.

Lemma mm_realloc_correct_witness :
  owns ex_heap1 {[4112 := 24]} ∧
  wp (mm_realloc 4112 60) (λ q s', q = NULL ∨ ∃ k, 60 <= k ∧ owns s' {[q := k]}) ex_heap1.
Proof.
  split; [exact ex_heap1_owns|].
  eapply wp_mono; [apply (mm_realloc_correct ex_heap1 {[4112 := 24]} 4112 24 60 ex_heap1_owns);
    [apply lookup_singleton_eq|done]|].
  intros q s' [[-> _]|(k & ? & _ & H & _)]; [by left|right]. exists k. split; [done|].
  by rewrite delete_singleton_eq in H.
Defined.

(** [mm_init] on a fresh memory system whose heap is aligned: it fails (with
    -1) exactly when the heap has no room for the prologue, the epilogue and one
    chunk, and otherwise leaves a well-formed heap with one free block of 4096
    bytes and no allocation. *)
Theorem mm_init_correct (m : gmap Z Z) (heap size : Z) :
  0 < heap → heap mod 8 = 0 → 16 <= size < 2 ^ 31 →
  wp mm_init (λ r s',
    (r = -1 ∧ size < 16 + 4096 ∧ wf s' []) ∨
    (r = 0 ∧ 16 + 4096 <= size ∧ wf s' [(4096, false)] ∧ owns s' ∅)) (mm_start m heap size).
Proof.
  intros H1 H2 H3. eapply wp_mono; [by apply mm_init_run|]. cbn beta.
  intros r s' (_ & _ & _ & H). destruct (size <? 16 + 4096) eqn:E.
  - left. split_and!; [apply H|lia|apply H].
  - right. split_and!; [apply H|lia|apply H|]. exists [(4096, false)]. split; [apply H|done].
Qed.

Lemma mm_init_correct_witness :
  0 < 4096 ∧ wp mm_init (λ r s', r = 0 ∧ owns s' ∅) (mm_start ∅ 4096 65536).
Proof.
  split; [done|].
  eapply wp_mono; [apply (mm_init_correct ∅ 4096 65536); done|].
  intros r s' [(_ & H & _)|(-> & _ & _ & ?)]; [lia|done].
Defined.

(** C5: a program that allocates and frees in any order, freeing only pointers it
    holds, never faults, whatever the sequence of requests: starting from a heap
    without allocations, after every request the pointers it holds are exactly
    the live ones, without repetition.  It is proved for every allocator that
    meets the [Allocator] contract and applied to mm.c. *)
Theorem mm_client_safe (s : mm) (rs : list request) :
  owns s ∅ → Forall fits rs →
  wp (client_run [] rs) (λ held s', holds s' held) s.
Proof.
  intros Hown Hfit. apply client_run_ok; [|done]. split; [constructor|].
  exists ∅. split; [done|]. intros p. rewrite lookup_empty, elem_of_nil. split; [done|by intros []].
Qed.

Lemma mm_client_safe_witness :
  owns ex_heap ∅ ∧
  wp (client_run [] [ReqMalloc 10; ReqMalloc 5000; ReqFree 1; ReqMalloc 1; ReqFree 0])
     (λ held s', holds s' held) ex_heap.
Proof.
  split; [exact ex_heap_owns|].
  apply (mm_client_safe ex_heap); [exact ex_heap_owns|].
  repeat constructor; simpl; unfold max_request; lia.
Defined.

(** The consistency checker accepts every well-formed heap: [checkheap] walks
    the whole heap without a fault, changes nothing, and prints no complaint; in
    verbose mode it prints the heap line and the end-of-list line only. *)
Theorem checkheap_accepts (s : mm) (bs : list blk) (verbose : bool) :
  wf s bs →
  wp (checkheap verbose) (λ out s', s' = s ∧ out =
    if verbose then [MsgHeap (heap_listp s); MsgEOL (mem_brk (sys s))] else []) s.
Proof. intros [Hrep _]. by eapply checkheap_run. Qed.

Lemma checkheap_accepts_witness :
  wf ex_heap1 [(32, true); (4064, false)] ∧
  wp (checkheap true) (λ out s', s' = ex_heap1 ∧ out = [MsgHeap 4104; MsgEOL 8208]) ex_heap1.
Proof.
  split; [exact ex_heap1_wf|].
  eapply wp_mono; [apply (checkheap_accepts ex_heap1 _ true ex_heap1_wf)|].
  intros out s' [-> ->]. split; [done|]. by vm_compute.
Defined.

(** Requests beyond [INT_MAX] are not rejected.  The adjusted size is
    converted to the [int] parameter of [mem_sbrk], so a request of [2^32] bytes
    to a 64 KiB heap is answered with a non-NULL pointer although the requested
    region ends far beyond the last legal heap address. *)
Theorem mm_malloc_large_request :
  wp (mm_init;;; mm_malloc (2 ^ 32)) (λ p s',
    p ≠ NULL ∧ mem_max_addr (sys s') < p + 2 ^ 32) (mm_start ∅ 4096 65536).
Proof. vm_compute. split; [by intros [=]|done]. Qed.
