(* ===== verification/Cio.v ===== *)
(** C strings, decimal conversions and files: what the components use of the C
    library and of the POSIX file calls.

    A [char] array is a list of byte values 0 to 255; a C string is the part in
    front of the first 0.  A file is its bytes and the offset of the open
    descriptor.  Files are reliable: a read returns what the file holds, a write
    writes everything. *)

From stdpp Require Import base tactics numbers list gmap strings.
From Stdlib Require Import ZArith Lia.
From S2P Require Import Prelude.

(** ** Lists by integer index *)

Definition zlen {A} (l : list A) : Z := Z.of_nat (length l).
Definition ztake {A} (n : Z) (l : list A) : list A := take (Z.to_nat n) l.
Definition zdrop {A} (n : Z) (l : list A) : list A := drop (Z.to_nat n) l.

Lemma zlen_nil {A} : zlen (@nil A) = 0. Proof. done. Qed.
Lemma zlen_cons {A} (x : A) l : zlen (x :: l) = 1 + zlen l.
Proof. unfold zlen. simpl. lia. Qed.
Lemma zlen_app {A} (l k : list A) : zlen (l ++ k) = zlen l + zlen k.
Proof. unfold zlen. rewrite length_app. lia. Qed.
Lemma zlen_nonneg {A} (l : list A) : 0 <= zlen l.
Proof. unfold zlen. lia. Qed.
Lemma zlen_replicate {A} n (x : A) : zlen (replicate n x) = Z.of_nat n.
Proof. unfold zlen. by rewrite length_replicate. Qed.
Lemma zlen_map {A B} (f : A → B) l : zlen (map f l) = zlen l.
Proof. unfold zlen. by rewrite length_map. Qed.
Lemma ztake_app {A} n (l k : list A) : n = zlen l → ztake n (l ++ k) = l.
Proof. intros ->. unfold ztake, zlen. rewrite Nat2Z.id. apply take_app_length. Qed.
Lemma zdrop_app {A} n (l k : list A) : n = zlen l → zdrop n (l ++ k) = k.
Proof. intros ->. unfold zdrop, zlen. rewrite Nat2Z.id. apply drop_app_length. Qed.
Lemma ztake_all {A} n (l : list A) : zlen l <= n → ztake n l = l.
Proof. intros. unfold ztake, zlen in *. apply take_ge. lia. Qed.
Create Rewrite HintDb zlen.
#[export] Hint Rewrite @zlen_nil @zlen_cons @zlen_app @zlen_replicate @zlen_map : zlen.

(** ** Characters *)

Definition bytes (s : string) : list Z := map (λ c, Z.of_nat (Ascii.nat_of_ascii c)) (String.list_ascii_of_string s).

Definition NUL : Z := 0.
Definition NEWLINE : Z := 10.
Definition SPACE : Z := 32.
Definition SEP : Z := 58.

Definition is_digit (c : Z) : bool := (48 <=? c) && (c <=? 57).
Definition is_space (c : Z) : bool := (c =? 32) || ((9 <=? c) && (c <=? 13)).

(** ** C strings *)

Fixpoint cstr (l : list Z) : list Z :=
  match l with
  | [] => []
  | c :: l => if c =? 0 then [] else c :: cstr l
  end.

(** [strchr] for a nonzero character: its index in the C string at [l]. *)
Fixpoint strchr (l : list Z) (c : Z) : option nat :=
  match l with
  | [] => None
  | x :: l => if x =? 0 then None else if x =? c then Some O else S <$> strchr l c
  end.

Definition no_nul (l : list Z) : Prop := Forall (λ c, c ≠ 0) l.

Lemma cstr_app l k : no_nul l → cstr (l ++ 0 :: k) = l.
Proof. induction 1 as [|c l Hc _ IH]; simpl; [done|]. rewrite IH. by replace (c =? 0) with false by lia. Qed.

Lemma cstr_id l : no_nul l → cstr l = l.
Proof. induction 1 as [|c l Hc _ IH]; simpl; [done|]. rewrite IH. by replace (c =? 0) with false by lia. Qed.

Lemma cstr_no_nul l : no_nul (cstr l).
Proof.
  induction l as [|c l IH]; simpl; [constructor|].
  destruct (c =? 0) eqn:E; constructor; [lia|done].
Qed.

Lemma strchr_app l k c : no_nul l → c ∉ l → c ≠ 0 → strchr (l ++ c :: k) c = Some (length l).
Proof.
  intros Hl. induction Hl as [|x l Hx _ IH]; intros Hc Hc0; simpl.
  - replace (c =? 0) with false by lia. by rewrite Z.eqb_refl.
  - apply not_elem_of_cons in Hc as [Hne Hc].
    replace (x =? 0) with false by lia. replace (x =? c) with false by lia. by rewrite IH.
Qed.

Lemma strchr_none l k c : no_nul l → c ∉ l → strchr (l ++ 0 :: k) c = None.
Proof.
  intros Hl. induction Hl as [|x l Hx _ IH]; intros Hc; simpl; [done|].
  apply not_elem_of_cons in Hc as [Hne Hc].
  replace (x =? 0) with false by lia. replace (x =? c) with false by lia. by rewrite IH.
Qed.

(** [buf[i] = c] *)
Definition poke (buf : list Z) (i : nat) (c : Z) : list Z := <[i := c]> buf.

Lemma poke_app l x k c i : i = length l → poke (l ++ x :: k) i c = l ++ c :: k.
Proof. intros ->. unfold poke. by rewrite insert_app_r_alt, Nat.sub_diag. Qed.

(** Bytes copied to the start of a buffer. *)
Definition overlay (buf src : list Z) : list Z := src ++ drop (length src) buf.

(** ** Decimal conversions *)

(** The digits of [n >= 0], most significant first ([%lld] and [%d] of a
    nonnegative value); [n < 10^20] covers every 64-bit integer. *)
Fixpoint dec_digits (fuel : nat) (n : Z) : list Z :=
  match fuel with
  | O => []
  | S fuel => if n <? 10 then [48 + n] else dec_digits fuel (n / 10) ++ [48 + n mod 10]
  end.

Definition dec (n : Z) : list Z :=
  if n <? 0 then 45 :: dec_digits 20 (- n) else dec_digits 20 n.

(** [%*d]: right-justified in a field of [w] characters. *)
Definition pad (w : nat) (l : list Z) : list Z := replicate (w - length l) SPACE ++ l.

(** [atol] and [atoi]: white space, an optional sign, digits up to the first
    other character.  Values out of range of the C type are undefined there; the
    model returns the number. *)
Fixpoint digits_value (acc : Z) (l : list Z) : Z :=
  match l with
  | [] => acc
  | c :: l => if is_digit c then digits_value (acc * 10 + (c - 48)) l else acc
  end.

Fixpoint skip_space (l : list Z) : list Z :=
  match l with
  | [] => []
  | c :: l' => if is_space c then skip_space l' else l
  end.

Definition atol (l : list Z) : Z :=
  match skip_space l with
  | c :: l' => if c =? 45 then - digits_value 0 l'
               else if c =? 43 then digits_value 0 l'
               else digits_value 0 (c :: l')
  | [] => 0
  end.

Definition all_digits (l : list Z) : Prop := Forall (λ c, is_digit c = true) l.

Lemma digits_value_app acc l k :
  all_digits l → digits_value acc (l ++ k) = digits_value (digits_value acc l) k.
Proof. intros Hl. revert acc. induction Hl as [|c l Hc _ IH]; intros acc; simpl; [done|]. by rewrite Hc. Qed.

Lemma dec_digits_spec fuel : ∀ n,
  0 <= n < 10 ^ Z.of_nat fuel →
  all_digits (dec_digits fuel n) ∧ digits_value 0 (dec_digits fuel n) = n.
Proof.
  induction fuel as [|fuel IH]; intros n Hn; [change (10 ^ Z.of_nat 0) with 1 in Hn|].
  { replace n with 0 by lia. by split; [constructor|]. }
  cbn [dec_digits]. destruct (n <? 10) eqn:E.
  - assert (is_digit (48 + n) = true) as Hd by (unfold is_digit; lia).
    split; [by repeat constructor|]. cbn [digits_value]. rewrite Hd. lia.
  - rewrite Nat2Z.inj_succ, Z.pow_succ_r in Hn by lia.
    destruct (IH (n / 10)) as [Hall Hval]; [Z.div_mod_to_equations; lia|].
    assert (is_digit (48 + n mod 10) = true) as Hd by (unfold is_digit; Z.div_mod_to_equations; lia).
    split; [apply Forall_app; split; [done|by repeat constructor]|].
    rewrite digits_value_app, Hval by done. cbn [digits_value]. rewrite Hd.
    Z.div_mod_to_equations; lia.
Qed.

Lemma dec_digits_length fuel k n :
  (0 < fuel)%nat → (0 < k)%nat → n < 10 ^ Z.of_nat k → (1 <= length (dec_digits fuel n) <= k)%nat.
Proof.
  revert k n. induction fuel as [|fuel IH]; intros k n Hf Hk Hn; [lia|].
  cbn [dec_digits]. destruct (n <? 10) eqn:E; [simpl; lia|].
  rewrite length_app. cbn [length].
  destruct k as [|[|k]]; [lia|change (10 ^ Z.of_nat 1) with 10 in Hn; lia|].
  destruct fuel as [|fuel]; [simpl; lia|].
  specialize (IH (S k) (n / 10) ltac:(lia) ltac:(lia)).
  rewrite Nat2Z.inj_succ, Z.pow_succ_r in Hn by lia.
  assert (n / 10 < 10 ^ Z.of_nat (S k)) as H by (Z.div_mod_to_equations; lia).
  specialize (IH H). lia.
Qed.

Definition dec_max : Z := 10 ^ 20.

Lemma dec_spec n : 0 <= n < dec_max → all_digits (dec n) ∧ digits_value 0 (dec n) = n.
Proof. intros Hn. unfold dec. replace (n <? 0) with false by lia. by apply dec_digits_spec. Qed.

Lemma dec_length k n : (0 < k)%nat → 0 <= n < 10 ^ Z.of_nat k → (1 <= length (dec n) <= k)%nat.
Proof.
  intros Hk Hn. unfold dec. replace (n <? 0) with false by lia. apply dec_digits_length; lia.
Qed.

Lemma dec_length_pos n : 0 <= n → (1 <= length (dec n))%nat.
Proof.
  intros Hn. unfold dec. replace (n <? 0) with false by lia.
  apply (dec_digits_length 20 (S (Z.to_nat n)) n); [lia..|].
  apply Z.lt_le_trans with (10 ^ n); [|apply Z.pow_le_mono_r; lia]. by apply Z.pow_gt_lin_r.
Qed.

Lemma digit_not c : is_digit c = true → c ≠ 0 ∧ c ≠ SEP ∧ c ≠ NEWLINE ∧ is_space c = false ∧ c ≠ 45 ∧ c ≠ 43.
Proof. unfold is_digit, is_space, SEP, NEWLINE. intros. split_and!; lia. Qed.

Lemma atol_digits l k c :
  all_digits l → l ≠ [] → is_digit c = false → atol (l ++ c :: k) = digits_value 0 l.
Proof.
  intros Hl Hne Hc. destruct l as [|x l]; [done|]. apply Forall_cons in Hl as [Hx Hl].
  destruct (digit_not _ Hx) as (_ & _ & _ & Hs & H1 & H2).
  unfold atol. cbn [app skip_space]. rewrite Hs.
  replace (x =? 45) with false by lia. replace (x =? 43) with false by lia.
  change (x :: l ++ c :: k) with ((x :: l) ++ c :: k).
  rewrite digits_value_app by (by constructor). cbn [digits_value]. by rewrite Hc.
Qed.

Lemma skip_space_replicate n l : skip_space (replicate n SPACE ++ l) = skip_space l.
Proof. induction n; simpl; auto. Qed.

Lemma atol_replicate n l : atol (replicate n SPACE ++ l) = atol l.
Proof. unfold atol. by rewrite skip_space_replicate. Qed.

(** A number written in a padded field, terminated by 0, reads back. *)
Lemma atol_pad w n k : 0 <= n < dec_max → atol (pad w (dec n) ++ 0 :: k) = n.
Proof.
  intros Hn. destruct (dec_spec n Hn) as [Hall Hval].
  assert (dec n ≠ []) as Hne by (pose proof (dec_length_pos n ltac:(lia)); by destruct (dec n); simpl in *; [lia|]).
  unfold pad. rewrite <- app_assoc, atol_replicate. by rewrite atol_digits.
Qed.

Lemma atol_dec n k : 0 <= n < dec_max → atol (dec n ++ 0 :: k) = n.
Proof.
  intros Hn. pose proof (atol_pad 0 n k Hn) as H. unfold pad in H. by rewrite Nat.sub_0_l in H.
Qed.

Lemma pad_length w l : (length l <= w)%nat → length (pad w l) = w.
Proof. intros. unfold pad. rewrite length_app, length_replicate. lia. Qed.

Lemma dec_no c n : 0 <= n < dec_max → is_digit c = false → c ∉ dec n.
Proof.
  intros Hn Hc Hin. destruct (dec_spec n Hn) as [Hall _]. unfold all_digits in Hall. rewrite Forall_forall in Hall.
  apply Hall in Hin. congruence.
Qed.

Lemma dec_no_nul n : 0 <= n < dec_max → no_nul (dec n).
Proof.
  intros Hn. destruct (dec_spec n Hn) as [Hall _]. eapply Forall_impl; [exact Hall|].
  intros c Hc. by apply digit_not in Hc as [? _].
Qed.

(** ** Files *)

Record file := File { fdata : list Z; fpos : Z }.

Inductive whence := SEEK_SET | SEEK_CUR | SEEK_END.

(** [lseek]: the resulting offset, or -1 without effect if it is negative. *)
Definition lseek (f : file) (off : Z) (w : whence) : file * Z :=
  let p := match w with
           | SEEK_SET => off
           | SEEK_CUR => fpos f + off
           | SEEK_END => zlen (fdata f) + off
           end in
  if p <? 0 then (f, -1) else (File (fdata f) p, p).

(** [read]: up to [n] bytes from the current offset, fewer at the end of file. *)
Definition fread (f : file) (n : Z) : file * list Z :=
  let b := ztake n (zdrop (fpos f) (fdata f)) in
  (File (fdata f) (fpos f + zlen b), b).

(** [write]: all bytes, at the current offset; a hole reads as zeros. *)
Definition fwrite (f : file) (b : list Z) : file :=
  let d := fdata f in
  let gap := replicate (Z.to_nat (fpos f - zlen d)) 0 in
  File (ztake (fpos f) (d ++ gap) ++ b ++ zdrop (fpos f + zlen b) d) (fpos f + zlen b).

Lemma fread_at A X B p n :
  p = zlen A → n = zlen X → fread (File (A ++ X ++ B) p) n = (File (A ++ X ++ B) (p + n), X).
Proof.
  intros -> ->. unfold fread. cbn [fpos fdata]. rewrite zdrop_app, ztake_app by done. done.
Qed.

Lemma fwrite_at A X B p Y :
  p = zlen A → zlen X = zlen Y →
  fwrite (File (A ++ X ++ B) p) Y = File (A ++ Y ++ B) (p + zlen Y).
Proof.
  intros -> Hl. unfold fwrite. cbn [fpos fdata].
  rewrite <- (app_assoc A), ztake_app by done. do 3 f_equal.
  rewrite app_assoc, zdrop_app; [done|]. rewrite zlen_app. lia.
Qed.

Lemma fwrite_end A p Y : p = zlen A → fwrite (File A p) Y = File (A ++ Y) (p + zlen Y).
Proof.
  intros ->. unfold fwrite. cbn [fpos fdata]. rewrite ztake_app by done.
  unfold zdrop, zlen. rewrite drop_ge by lia. by rewrite app_nil_r.
Qed.
