(* ===== verification/Db.v ===== *)
(** The database library of apue.3e/db/db.c: an index file of hash chains and a
    free list in ASCII, and a data file.

    Every function of db.c is a program over the [DB] structure and the two
    files.  [err_dump] and [err_quit] end the process: they are failures that
    keep the state.  The record locks of [fcntl] are tracked as the set of
    regions this process holds; the functions run without interference from
    other processes. *)

From stdpp Require Import base tactics numbers list gmap strings.
From Stdlib Require Import ZArith Lia.
From S2P Require Import Prelude Cio.

(** ** Constants *)

Definition IDXLEN_SZ : nat := 4.
Definition PTR_SZ : nat := 7.
Definition PTR_MAX : Z := 9999999.
Definition NHASH_DEF : Z := 137.
Definition FREE_OFF : Z := 0.
Definition HASH_OFF : Z := 7.

Definition DB_INSERT : Z := 1.
Definition DB_REPLACE : Z := 2.
Definition DB_STORE : Z := 3.

Definition IDXLEN_MIN : Z := 6.
Definition IDXLEN_MAX : Z := 1024.
Definition DATLEN_MIN : Z := 2.
Definition DATLEN_MAX : Z := 1024.

Definition EINVAL : Z := 22.
Definition ENOENT : Z := 2.

(** ** State *)

(** A record lock: on the index or the data file, start, length (0: to the end of
    the file), shared or exclusive. *)
Inductive which := IdxFd | DatFd.
Inductive ltype := F_RDLCK | F_WRLCK.
Record lock := Lock { l_fd : which; l_start : Z; l_len : Z; l_type : ltype }.

Record counts := Counts { cnt_delok : Z; cnt_delerr : Z; cnt_fetchok : Z; cnt_fetcherr : Z; cnt_nextrec : Z; cnt_stor1 : Z; cnt_stor2 : Z; cnt_stor3 : Z; cnt_stor4 : Z; cnt_storerr : Z }.

Record db := Db {
  idx : file        (** the index file, open on [idxfd] *);
  dat : file        (** the data file, open on [datfd] *);
  idxbuf : list Z        (** buffer for index record *);
  datbuf : list Z        (** buffer for data record *);
  idxoff : Z        (** offset in index file of index record *);
  idxlen : Z        (** length of index record *);
  datoff : Z        (** offset in data file of data record *);
  datlen : Z        (** length of data record *);
  ptrval : Z        (** contents of chain ptr in index record *);
  ptroff : Z        (** chain ptr offset pointing to this idx record *);
  chainoff : Z        (** offset of hash chain for this index record *);
  hashoff : Z        (** offset in index file of hash table *);
  nhash : Z        (** current hash table size *);
  cnt : counts        (** the statistics counters *);
  locks : list lock        (** record locks this process holds *);
  errno : Z }.

Definition set_idx (v : file) (d : db) : db :=
  Db v (dat d) (idxbuf d) (datbuf d) (idxoff d) (idxlen d) (datoff d) (datlen d) (ptrval d) (ptroff
    d) (chainoff d) (hashoff d) (nhash d) (cnt d) (locks d) (errno d).
Definition set_dat (v : file) (d : db) : db :=
  Db (idx d) v (idxbuf d) (datbuf d) (idxoff d) (idxlen d) (datoff d) (datlen d) (ptrval d) (ptroff
    d) (chainoff d) (hashoff d) (nhash d) (cnt d) (locks d) (errno d).
Definition set_idxbuf (v : list Z) (d : db) : db :=
  Db (idx d) (dat d) v (datbuf d) (idxoff d) (idxlen d) (datoff d) (datlen d) (ptrval d) (ptroff d)
    (chainoff d) (hashoff d) (nhash d) (cnt d) (locks d) (errno d).
Definition set_datbuf (v : list Z) (d : db) : db :=
  Db (idx d) (dat d) (idxbuf d) v (idxoff d) (idxlen d) (datoff d) (datlen d) (ptrval d) (ptroff d)
    (chainoff d) (hashoff d) (nhash d) (cnt d) (locks d) (errno d).
Definition set_idxoff (v : Z) (d : db) : db :=
  Db (idx d) (dat d) (idxbuf d) (datbuf d) v (idxlen d) (datoff d) (datlen d) (ptrval d) (ptroff d)
    (chainoff d) (hashoff d) (nhash d) (cnt d) (locks d) (errno d).
Definition set_idxlen (v : Z) (d : db) : db :=
  Db (idx d) (dat d) (idxbuf d) (datbuf d) (idxoff d) v (datoff d) (datlen d) (ptrval d) (ptroff d)
    (chainoff d) (hashoff d) (nhash d) (cnt d) (locks d) (errno d).
Definition set_datoff (v : Z) (d : db) : db :=
  Db (idx d) (dat d) (idxbuf d) (datbuf d) (idxoff d) (idxlen d) v (datlen d) (ptrval d) (ptroff d)
    (chainoff d) (hashoff d) (nhash d) (cnt d) (locks d) (errno d).
Definition set_datlen (v : Z) (d : db) : db :=
  Db (idx d) (dat d) (idxbuf d) (datbuf d) (idxoff d) (idxlen d) (datoff d) v (ptrval d) (ptroff d)
    (chainoff d) (hashoff d) (nhash d) (cnt d) (locks d) (errno d).
Definition set_ptrval (v : Z) (d : db) : db :=
  Db (idx d) (dat d) (idxbuf d) (datbuf d) (idxoff d) (idxlen d) (datoff d) (datlen d) v (ptroff d)
    (chainoff d) (hashoff d) (nhash d) (cnt d) (locks d) (errno d).
Definition set_ptroff (v : Z) (d : db) : db :=
  Db (idx d) (dat d) (idxbuf d) (datbuf d) (idxoff d) (idxlen d) (datoff d) (datlen d) (ptrval d) v
    (chainoff d) (hashoff d) (nhash d) (cnt d) (locks d) (errno d).
Definition set_chainoff (v : Z) (d : db) : db :=
  Db (idx d) (dat d) (idxbuf d) (datbuf d) (idxoff d) (idxlen d) (datoff d) (datlen d) (ptrval d)
    (ptroff d) v (hashoff d) (nhash d) (cnt d) (locks d) (errno d).
Definition set_hashoff (v : Z) (d : db) : db :=
  Db (idx d) (dat d) (idxbuf d) (datbuf d) (idxoff d) (idxlen d) (datoff d) (datlen d) (ptrval d)
    (ptroff d) (chainoff d) v (nhash d) (cnt d) (locks d) (errno d).
Definition set_nhash (v : Z) (d : db) : db :=
  Db (idx d) (dat d) (idxbuf d) (datbuf d) (idxoff d) (idxlen d) (datoff d) (datlen d) (ptrval d)
    (ptroff d) (chainoff d) (hashoff d) v (cnt d) (locks d) (errno d).
Definition set_cnt (v : counts) (d : db) : db :=
  Db (idx d) (dat d) (idxbuf d) (datbuf d) (idxoff d) (idxlen d) (datoff d) (datlen d) (ptrval d)
    (ptroff d) (chainoff d) (hashoff d) (nhash d) v (locks d) (errno d).
Definition set_locks (v : list lock) (d : db) : db :=
  Db (idx d) (dat d) (idxbuf d) (datbuf d) (idxoff d) (idxlen d) (datoff d) (datlen d) (ptrval d)
    (ptroff d) (chainoff d) (hashoff d) (nhash d) (cnt d) v (errno d).
Definition set_errno (v : Z) (d : db) : db :=
  Db (idx d) (dat d) (idxbuf d) (datbuf d) (idxoff d) (idxlen d) (datoff d) (datlen d) (ptrval d)
    (ptroff d) (chainoff d) (hashoff d) (nhash d) (cnt d) (locks d) v.

Definition inc_cnt_delok (c : counts) : counts :=
  Counts (u64 (cnt_delok c + 1)) (cnt_delerr c) (cnt_fetchok c) (cnt_fetcherr c) (cnt_nextrec c)
    (cnt_stor1 c) (cnt_stor2 c) (cnt_stor3 c) (cnt_stor4 c) (cnt_storerr c).
Definition inc_cnt_delerr (c : counts) : counts :=
  Counts (cnt_delok c) (u64 (cnt_delerr c + 1)) (cnt_fetchok c) (cnt_fetcherr c) (cnt_nextrec c)
    (cnt_stor1 c) (cnt_stor2 c) (cnt_stor3 c) (cnt_stor4 c) (cnt_storerr c).
Definition inc_cnt_fetchok (c : counts) : counts :=
  Counts (cnt_delok c) (cnt_delerr c) (u64 (cnt_fetchok c + 1)) (cnt_fetcherr c) (cnt_nextrec c)
    (cnt_stor1 c) (cnt_stor2 c) (cnt_stor3 c) (cnt_stor4 c) (cnt_storerr c).
Definition inc_cnt_fetcherr (c : counts) : counts :=
  Counts (cnt_delok c) (cnt_delerr c) (cnt_fetchok c) (u64 (cnt_fetcherr c + 1)) (cnt_nextrec c)
    (cnt_stor1 c) (cnt_stor2 c) (cnt_stor3 c) (cnt_stor4 c) (cnt_storerr c).
Definition inc_cnt_nextrec (c : counts) : counts :=
  Counts (cnt_delok c) (cnt_delerr c) (cnt_fetchok c) (cnt_fetcherr c) (u64 (cnt_nextrec c + 1))
    (cnt_stor1 c) (cnt_stor2 c) (cnt_stor3 c) (cnt_stor4 c) (cnt_storerr c).
Definition inc_cnt_stor1 (c : counts) : counts :=
  Counts (cnt_delok c) (cnt_delerr c) (cnt_fetchok c) (cnt_fetcherr c) (cnt_nextrec c) (u64
    (cnt_stor1 c + 1)) (cnt_stor2 c) (cnt_stor3 c) (cnt_stor4 c) (cnt_storerr c).
Definition inc_cnt_stor2 (c : counts) : counts :=
  Counts (cnt_delok c) (cnt_delerr c) (cnt_fetchok c) (cnt_fetcherr c) (cnt_nextrec c) (cnt_stor1 c)
    (u64 (cnt_stor2 c + 1)) (cnt_stor3 c) (cnt_stor4 c) (cnt_storerr c).
Definition inc_cnt_stor3 (c : counts) : counts :=
  Counts (cnt_delok c) (cnt_delerr c) (cnt_fetchok c) (cnt_fetcherr c) (cnt_nextrec c) (cnt_stor1 c)
    (cnt_stor2 c) (u64 (cnt_stor3 c + 1)) (cnt_stor4 c) (cnt_storerr c).
Definition inc_cnt_stor4 (c : counts) : counts :=
  Counts (cnt_delok c) (cnt_delerr c) (cnt_fetchok c) (cnt_fetcherr c) (cnt_nextrec c) (cnt_stor1 c)
    (cnt_stor2 c) (cnt_stor3 c) (u64 (cnt_stor4 c + 1)) (cnt_storerr c).
Definition inc_cnt_storerr (c : counts) : counts :=
  Counts (cnt_delok c) (cnt_delerr c) (cnt_fetchok c) (cnt_fetcherr c) (cnt_nextrec c) (cnt_stor1 c)
    (cnt_stor2 c) (cnt_stor3 c) (cnt_stor4 c) (u64 (cnt_storerr c + 1)).

(** How a call can end the process: [err_dump] with its message, [err_quit] for an
    invalid chain pointer, a [sprintf] past the end of [idxbuf], and the bound on
    the chain loops (a chain that runs in a cycle). *)
Inductive dberr := Dump (msg : string) | Quit (ptr : Z) | Overrun (n : Z) | NoFuel.

Abbreviation DBM := (M db dberr).

(** ** Locks *)

#[export] Instance which_eq_dec : EqDecision which.
Proof. solve_decision. Defined.

Definition same_region (fd : which) (off len : Z) (l : lock) : bool :=
  bool_decide (l_fd l = fd) && (l_start l =? off) && (l_len l =? len).

Definition un_lock (fd : which) (off len : Z) : DBM unit :=
  modify (λ d, set_locks (List.filter (λ l, negb (same_region fd off len l)) (locks d)) d).
Definition set_lock (fd : which) (off len : Z) (t : ltype) : DBM unit :=
  un_lock fd off len;;;
  modify (λ d, set_locks (Lock fd off len t :: locks d) d).
Definition writew_lock (fd : which) (off len : Z) : DBM unit := set_lock fd off len F_WRLCK.
Definition readw_lock (fd : which) (off len : Z) : DBM unit := set_lock fd off len F_RDLCK.

(** ** File access *)

Definition lseek_idx (off : Z) (w : whence) : DBM Z := λ d,
  let '(f, p) := lseek (idx d) off w in (set_idx f d, Done p).
Definition lseek_dat (off : Z) (w : whence) : DBM Z := λ d,
  let '(f, p) := lseek (dat d) off w in (set_dat f d, Done p).
Definition read_idx (n : Z) : DBM (list Z) := λ d,
  let '(f, b) := fread (idx d) n in (set_idx f d, Done b).
Definition read_dat (n : Z) : DBM (list Z) := λ d,
  let '(f, b) := fread (dat d) n in (set_dat f d, Done b).
Definition write_idx (b : list Z) : DBM unit :=
  modify (λ d, set_idx (fwrite (idx d) b) d).
Definition write_dat (b : list Z) : DBM unit :=
  modify (λ d, set_dat (fwrite (dat d) b) d).

Definition err_dump {A} (msg : string) : DBM A := fail (Dump msg).
Definition check (b : bool) (msg : string) : DBM unit :=
  if b then ret tt else err_dump msg.

(** ** Internal functions *)

(** Sum of the (signed) characters times their 1-based index, in an unsigned
    long. *)
Fixpoint hash_loop (hval i : Z) (key : list Z) : Z :=
  match key with
  | [] => hval
  | c :: key => hash_loop (u64 (hval + i8 c * i)) (i + 1) key
  end.

Definition _db_hash (key : list Z) : DBM Z :=
  gets (λ d, hash_loop 0 1 key mod nhash d).

Definition _db_readptr (offset : Z) : DBM Z :=
  let! p := lseek_idx offset SEEK_SET in
  check (negb (p =? -1)) "_db_readptr: lseek error to ptr field";;;
  let! asciiptr := read_idx (Z.of_nat PTR_SZ) in
  check (zlen asciiptr =? Z.of_nat PTR_SZ) "_db_readptr: read error of ptr field";;;
  ret (atol (asciiptr ++ [0])).

(** The record at [offset], or at the current offset if [offset] is 0; -1 at the
    end of the file in the latter case. *)
Definition _db_readidx (offset : Z) : DBM Z :=
  let! p := lseek_idx offset (if offset =? 0 then SEEK_CUR else SEEK_SET) in
  modify (set_idxoff p);;;
  check (negb (p =? -1)) "_db_readidx: lseek error";;;
  let! b := read_idx (Z.of_nat PTR_SZ + Z.of_nat IDXLEN_SZ) in
  if negb (zlen b =? Z.of_nat PTR_SZ + Z.of_nat IDXLEN_SZ) then
    if (zlen b =? 0) && (offset =? 0) then ret (-1)
    else err_dump "_db_readidx: readv error of index record"
  else
    modify (set_ptrval (atol (take PTR_SZ b ++ [0])));;;
    let len := u64 (atol (drop PTR_SZ b ++ [0])) in
    modify (set_idxlen len);;;
    check (negb ((len <? IDXLEN_MIN) || (IDXLEN_MAX <? len))) "_db_readidx: invalid length";;;
    let! r := read_idx len in
    modify (λ d, set_idxbuf (overlay (idxbuf d) r) d);;;
    check (zlen r =? len) "_db_readidx: read error of index record";;;
    let! buf := gets idxbuf in
    check (default 0 (buf !! Z.to_nat (len - 1)) =? NEWLINE) "_db_readidx: missing newline";;;
    let buf := poke buf (Z.to_nat (len - 1)) 0 in
    modify (set_idxbuf buf);;;
    match strchr buf SEP with
    | None => err_dump "_db_readidx: missing first separator"
    | Some i1 =>
      let buf := poke buf i1 0 in
      let ptr1 := S i1 in
      modify (set_idxbuf buf);;;
      match strchr (drop ptr1 buf) SEP with
      | None => err_dump "_db_readidx: missing second separator"
      | Some i2 =>
        let buf := poke buf (ptr1 + i2) 0 in
        let ptr2 := S (ptr1 + i2) in
        modify (set_idxbuf buf);;;
        match strchr (drop ptr2 buf) SEP with
        | Some _ => err_dump "_db_readidx: too many separators"
        | None =>
          modify (set_datoff (atol (drop ptr1 buf)));;;
          check (negb (atol (drop ptr1 buf) <? 0)) "_db_readidx: starting offset < 0";;;
          let dlen := u64 (atol (drop ptr2 buf)) in
          modify (set_datlen dlen);;;
          check (negb ((dlen <=? 0) || (DATLEN_MAX <? dlen))) "_db_readidx: invalid length";;;
          gets ptrval
        end
      end
    end.

(** Returns the data buffer as a C string. *)
Definition _db_readdat : DBM (list Z) :=
  let! off := gets datoff in
  let! p := lseek_dat off SEEK_SET in
  check (negb (p =? -1)) "_db_readdat: lseek error";;;
  let! len := gets datlen in
  let! r := read_dat len in
  modify (λ d, set_datbuf (overlay (datbuf d) r) d);;;
  check (zlen r =? len) "_db_readdat: read error";;;
  let! buf := gets datbuf in
  check (default 0 (buf !! Z.to_nat (len - 1)) =? NEWLINE) "_db_readdat: missing newline";;;
  modify (set_datbuf (poke buf (Z.to_nat (len - 1)) 0));;;
  gets (λ d, cstr (datbuf d)).

Definition _db_writedat (data : list Z) (offset : Z) (w : whence) : DBM unit :=
  (if w is SEEK_END then writew_lock DatFd 0 0 else ret tt);;;
  let! p := lseek_dat offset w in
  modify (set_datoff p);;;
  check (negb (p =? -1)) "_db_writedat: lseek error";;;
  modify (set_datlen (u64 (zlen data + 1)));;;
  write_dat (data ++ [NEWLINE]);;;
  (if w is SEEK_END then un_lock DatFd 0 0 else ret tt).

(** [sprintf] into [idxbuf], which has [IDXLEN_MAX + 2] bytes. *)
Definition sprintf_idxbuf (s : list Z) : DBM unit :=
  if IDXLEN_MAX + 2 <? zlen s + 1 then fail (Overrun (zlen s + 1))
  else modify (λ d, set_idxbuf (overlay (idxbuf d) (s ++ [0])) d).

Definition _db_writeidx (key : list Z) (offset : Z) (w : whence) (ptr : Z) : DBM unit :=
  modify (set_ptrval ptr);;;
  if (ptr <? 0) || (PTR_MAX <? ptr) then fail (Quit ptr)
  else
    let! d := get in
    let rec := key ++ [SEP] ++ dec (datoff d) ++ [SEP] ++ dec (i64 (datlen d)) ++ [NEWLINE] in
    sprintf_idxbuf rec;;;
    let len := zlen rec in
    check (negb ((len <? IDXLEN_MIN) || (IDXLEN_MAX <? len))) "_db_writeidx: invalid length";;;
    let asciiptrlen := pad PTR_SZ (dec ptr) ++ pad IDXLEN_SZ (dec len) in
    let lockoff := (nhash d + 1) * Z.of_nat PTR_SZ + 1 in
    (if w is SEEK_END then writew_lock IdxFd lockoff 0 else ret tt);;;
    let! p := lseek_idx offset w in
    modify (set_idxoff p);;;
    check (negb (p =? -1)) "_db_writeidx: lseek error";;;
    write_idx (take (PTR_SZ + IDXLEN_SZ) asciiptrlen ++ rec);;;
    (if w is SEEK_END then un_lock IdxFd lockoff 0 else ret tt).

Definition _db_writeptr (offset ptr : Z) : DBM unit :=
  if (ptr <? 0) || (PTR_MAX <? ptr) then fail (Quit ptr)
  else
    let asciiptr := pad PTR_SZ (dec ptr) in
    let! p := lseek_idx offset SEEK_SET in
    check (negb (p =? -1)) "_db_writeptr: lseek error to ptr field";;;
    write_idx (take PTR_SZ asciiptr).

(** Follows the chain from [offset]; the index file bounds the number of records,
    and with it the steps of a chain without a cycle. *)
Fixpoint find_loop (fuel : nat) (key : list Z) (offset : Z) : DBM Z :=
  match fuel with
  | O => fail NoFuel
  | S fuel =>
    if offset =? 0 then ret 0
    else
      let! nextoffset := _db_readidx offset in
      let! buf := gets idxbuf in
      if bool_decide (cstr buf = key) then ret offset
      else modify (set_ptroff offset);;; find_loop fuel key nextoffset
  end.

Definition chain_bound (d : db) : nat := S (length (fdata (idx d))).

(** [true] if the record was found (the code's return value 0), [false] otherwise
    (-1). *)
Definition _db_find_and_lock (key : list Z) (writelock : bool) : DBM bool :=
  let! h := _db_hash key in
  modify (λ d, set_chainoff (h * Z.of_nat PTR_SZ + hashoff d) d);;;
  modify (λ d, set_ptroff (chainoff d) d);;;
  let! d := get in
  (if writelock then writew_lock IdxFd (chainoff d) 1 else readw_lock IdxFd (chainoff d) 1);;;
  let! offset := _db_readptr (ptroff d) in
  let! offset := find_loop (chain_bound d) key offset in
  ret (negb (offset =? 0)).

(** The buffer with its C string turned into spaces. *)
Fixpoint blank (buf : list Z) : list Z :=
  match buf with
  | [] => []
  | c :: buf => if c =? 0 then c :: buf else SPACE :: blank buf
  end.

Definition _db_dodelete : DBM unit :=
  modify (λ d, set_datbuf
    (overlay (datbuf d) (replicate (Z.to_nat (datlen d - 1)) SPACE ++ [0])) d);;;
  modify (λ d, set_idxbuf (blank (idxbuf d)) d);;;
  writew_lock IdxFd FREE_OFF 1;;;
  let! d := get in
  _db_writedat (cstr (datbuf d)) (datoff d) SEEK_SET;;;
  let! freeptr := _db_readptr FREE_OFF in
  let! saveptr := gets ptrval in
  let! d := get in
  _db_writeidx (cstr (idxbuf d)) (idxoff d) SEEK_SET freeptr;;;
  let! off := gets idxoff in
  _db_writeptr FREE_OFF off;;;
  let! ptro := gets ptroff in
  _db_writeptr ptro saveptr;;;
  un_lock IdxFd FREE_OFF 1.

(** Walks the free list; returns the chain pointer in front of the match and the
    offset of the match, 0 if there is none. *)
Fixpoint findfree_loop (fuel : nat) (keylen dlen saveoffset offset : Z) : DBM (Z * Z) :=
  match fuel with
  | O => fail NoFuel
  | S fuel =>
    if offset =? 0 then ret (saveoffset, 0)
    else
      let! nextoffset := _db_readidx offset in
      let! d := get in
      if (zlen (cstr (idxbuf d)) =? keylen) && (datlen d =? dlen) then ret (saveoffset, offset)
      else findfree_loop fuel keylen dlen offset nextoffset
  end.

Definition _db_findfree (keylen dlen : Z) : DBM bool :=
  writew_lock IdxFd FREE_OFF 1;;;
  let saveoffset := FREE_OFF in
  let! offset := _db_readptr saveoffset in
  let! d := get in
  let! r := findfree_loop (chain_bound d) keylen dlen saveoffset offset in
  let '(saveoffset, offset) := r in
  (if offset =? 0 then ret tt
   else let! p := gets ptrval in _db_writeptr saveoffset p);;;
  un_lock IdxFd FREE_OFF 1;;;
  ret (negb (offset =? 0)).

(** ** The library's functions *)

Definition db_rewind : DBM unit :=
  let! d := get in
  let! p := lseek_idx ((nhash d + 1) * Z.of_nat PTR_SZ + 1) SEEK_SET in
  modify (set_idxoff p);;;
  check (negb (p =? -1)) "db_rewind: lseek error".

(** [None] is the null pointer. *)
Definition db_fetch (key : list Z) : DBM (option (list Z)) :=
  let! found := _db_find_and_lock key false in
  let! ptr :=
    (if found then
       let! data := _db_readdat in
       modify (λ d, set_cnt (inc_cnt_fetchok (cnt d)) d);;;
       ret (Some data)
     else
       modify (λ d, set_cnt (inc_cnt_fetcherr (cnt d)) d);;;
       ret None) in
  let! off := gets chainoff in
  un_lock IdxFd off 1;;;
  ret ptr.

Definition db_delete (key : list Z) : DBM Z :=
  let! found := _db_find_and_lock key true in
  let! rc :=
    (if found then
       _db_dodelete;;;
       modify (λ d, set_cnt (inc_cnt_delok (cnt d)) d);;;
       ret 0
     else
       modify (λ d, set_cnt (inc_cnt_delerr (cnt d)) d);;;
       ret (-1)) in
  let! off := gets chainoff in
  un_lock IdxFd off 1;;;
  ret rc.

(** The body of [db_store] between locking and unlocking the hash chain. *)
Definition store_body (key data : list Z) (flag : Z) (found : bool) : DBM Z :=
  let keylen := zlen key in
  let dlen := zlen data + 1 in
  if negb found then
    if flag =? DB_REPLACE then
      modify (λ d, set_cnt (inc_cnt_storerr (cnt d)) d);;;
      modify (set_errno ENOENT);;;
      ret (-1)
    else
      let! coff := gets chainoff in
      let! ptr := _db_readptr coff in
      let! reuse := _db_findfree keylen dlen in
      if negb reuse then
        _db_writedat data 0 SEEK_END;;;
        _db_writeidx key 0 SEEK_END ptr;;;
        let! d := get in
        _db_writeptr (chainoff d) (idxoff d);;;
        modify (λ d, set_cnt (inc_cnt_stor1 (cnt d)) d);;;
        ret 0
      else
        let! off := gets datoff in
        _db_writedat data off SEEK_SET;;;
        let! off := gets idxoff in
        _db_writeidx key off SEEK_SET ptr;;;
        let! d := get in
        _db_writeptr (chainoff d) (idxoff d);;;
        modify (λ d, set_cnt (inc_cnt_stor2 (cnt d)) d);;;
        ret 0
  else
    if flag =? DB_INSERT then
      modify (λ d, set_cnt (inc_cnt_storerr (cnt d)) d);;;
      ret 1
    else
      let! cur := gets datlen in
      if negb (dlen =? cur) then
        _db_dodelete;;;
        let! coff := gets chainoff in
        let! ptr := _db_readptr coff in
        _db_writedat data 0 SEEK_END;;;
        _db_writeidx key 0 SEEK_END ptr;;;
        let! d := get in
        _db_writeptr (chainoff d) (idxoff d);;;
        modify (λ d, set_cnt (inc_cnt_stor3 (cnt d)) d);;;
        ret 0
      else
        let! off := gets datoff in
        _db_writedat data off SEEK_SET;;;
        modify (λ d, set_cnt (inc_cnt_stor4 (cnt d)) d);;;
        ret 0.

Definition db_store (key data : list Z) (flag : Z) : DBM Z :=
  if negb (flag =? DB_INSERT) && negb (flag =? DB_REPLACE) && negb (flag =? DB_STORE) then
    modify (set_errno EINVAL);;;
    ret (-1)
  else
    let dlen := zlen data + 1 in
    check (negb ((dlen <? DATLEN_MIN) || (DATLEN_MAX <? dlen))) "db_store: invalid data length";;;
    let! found := _db_find_and_lock key true in
    let! rc := store_body key data flag found in
    let! off := gets chainoff in
    un_lock IdxFd off 1;;;
    ret rc.

(** The loop of [db_nextrec]: the next index record whose key is not all blank;
    [false] at the end of the file. *)
Fixpoint nextrec_loop (fuel : nat) : DBM bool :=
  match fuel with
  | O => fail NoFuel
  | S fuel =>
    let! r := _db_readidx 0 in
    if r <? 0 then ret false
    else
      let! buf := gets idxbuf in
      if forallb (λ c, c =? SPACE) (cstr buf) then nextrec_loop fuel else ret true
  end.

(** Key and data of the next sequential record. *)
Definition db_nextrec : DBM (option (list Z * list Z)) :=
  readw_lock IdxFd FREE_OFF 1;;;
  let! d := get in
  let! more := nextrec_loop (chain_bound d) in
  let! r :=
    (if more then
       let! key := gets (λ d, cstr (idxbuf d)) in
       let! data := _db_readdat in
       modify (λ d, set_cnt (inc_cnt_nextrec (cnt d)) d);;;
       ret (Some (key, data))
     else ret None) in
  un_lock IdxFd FREE_OFF 1;;;
  ret r.

(** *** Opening and closing *)

(** [_db_alloc]: a zeroed structure with uninitialised buffers [ib] of
    [IDXLEN_MAX + 2] and [db0] of [DATLEN_MAX + 2] bytes. *)
Definition _db_alloc (ib db0 : list Z) : db :=
  Db (File [] 0) (File [] 0) ib db0 0 0 0 0 0 0 0 0 0 (Counts 0 0 0 0 0 0 0 0 0 0) [] 0.

(** The flags of [open] that matter here; the files of the file system by name.
    [open] gives the contents of the opened file, [None] if it fails. *)
Record oflags := OFlags { o_creat : bool; o_trunc : bool; o_excl : bool }.

Definition open_file (fs : gmap (list Z) (list Z)) (name : list Z) (fl : oflags) :
    gmap (list Z) (list Z) * option (list Z) :=
  match fs !! name with
  | None => if o_creat fl then (<[name := []]> fs, Some []) else (fs, None)
  | Some b => if o_creat fl && o_excl fl then (fs, None)
              else if o_trunc fl then (<[name := []]> fs, Some []) else (fs, Some b)
  end.

(** The empty index file: a free list pointer and [NHASH_DEF] chain pointers, all
    0, and a newline. *)
Definition empty_index : list Z :=
  List.concat (replicate (Z.to_nat (NHASH_DEF + 1)) (pad PTR_SZ (dec 0))) ++ [NEWLINE].

(** The part of [db_open] after both files are open. *)
Definition db_open_init (fl : oflags) : DBM unit :=
  (if o_creat fl && o_trunc fl then
     writew_lock IdxFd 0 0;;;
     let! size := gets (λ d, zlen (fdata (idx d))) in
     (if size =? 0 then write_idx empty_index else ret tt);;;
     un_lock IdxFd 0 0
   else ret tt);;;
  db_rewind.

(** Returns the file system and the handle, [None] for the null handle.  While the
    handle is open the contents of the two files are those in the handle. *)
Definition db_open (fs : gmap (list Z) (list Z)) (pathname : list Z) (fl : oflags)
    (ib db0 : list Z) : gmap (list Z) (list Z) * option (db * outcome dberr unit) :=
  let d := set_nhash NHASH_DEF (set_hashoff HASH_OFF (_db_alloc ib db0)) in
  let '(fs, i) := open_file fs (pathname ++ bytes ".idx") fl in
  let '(fs, c) := open_file fs (pathname ++ bytes ".dat") fl in
  match i, c with
  | Some i, Some c => (fs, Some (db_open_init fl (set_idx (File i 0) (set_dat (File c 0) d))))
  | _, _ => (fs, None)
  end.

(** [db_close]: the contents of the files stay on disk under their names. *)
Definition db_close (fs : gmap (list Z) (list Z)) (pathname : list Z) (d : db) :
    gmap (list Z) (list Z) :=
  <[pathname ++ bytes ".idx" := fdata (idx d)]> (<[pathname ++ bytes ".dat" := fdata (dat d)]> fs).

(** A new database, and the program t4.c, which stores three records in one. *)
Definition ex_open : db :=
  (db_open_init (OFlags true true false)
    (set_nhash NHASH_DEF (set_hashoff HASH_OFF (_db_alloc [] [])))).1.

Definition t4 : DBM (Z * Z * Z) :=
  let! a := db_store (bytes "Alpha") (bytes "data1") DB_INSERT in
  let! b := db_store (bytes "beta") (bytes "Data for beta") DB_INSERT in
  let! c := db_store (bytes "gamma") (bytes "record3") DB_INSERT in
  ret (a, b, c).

Example t4_runs :
  (t4 ex_open).2 = Done (0, 0, 0) ∧
  ((t4;;; db_fetch (bytes "beta")) ex_open).2 = Done (Some (bytes "Data for beta")) ∧
  ((t4;;; db_delete (bytes "beta");;; db_fetch (bytes "beta")) ex_open).2 = Done None ∧
  ((t4;;; db_delete (bytes "Alpha");;; db_rewind;;; db_nextrec) ex_open).2 =
    Done (Some (bytes "beta", bytes "Data for beta")).
Proof. vm_compute. split_and!; reflexivity. Qed.
