(* ===== verification/DbRep.v ===== *)
(** The files of the database as data structures.

    A [layout] is the free list pointer, the hash table and the slots; a slot is
    an index record together with its data record.  [idx_bytes] and [ser_dat] are
    the bytes of the two files, and each internal function of db.c is shown to
    read or write one field of the layout. *)

From stdpp Require Import base tactics numbers list gmap strings.
From Stdlib Require Import ZArith Lia.
From S2P Require Import Prelude Cio Db.

(** ** Layouts and their bytes *)

Record slot := Slot { sl_ptr : Z; sl_key : list Z; sl_data : list Z }.
Record layout := Layout { free : Z; tab : list Z; slots : list slot }.

Definition ptr_bytes (v : Z) : list Z := pad PTR_SZ (dec v).
Definition drec (sl : slot) : list Z := sl_data sl ++ [NEWLINE].
(** The index record of a slot without its two leading fields. *)
Definition body (off : Z) (sl : slot) : list Z :=
  sl_key sl ++ [SEP] ++ dec off ++ [SEP] ++ dec (zlen (drec sl)) ++ [NEWLINE].
Definition irec_tail (off : Z) (sl : slot) : list Z :=
  pad IDXLEN_SZ (dec (zlen (body off sl))) ++ body off sl.
Definition irec (off : Z) (sl : slot) : list Z := ptr_bytes (sl_ptr sl) ++ irec_tail off sl.

Definition ser_dat (sls : list slot) : list Z := List.concat (map drec sls).
Fixpoint ser_idx (off : Z) (sls : list slot) : list Z :=
  match sls with
  | [] => []
  | sl :: sls => irec off sl ++ ser_idx (off + zlen (drec sl)) sls
  end.
Definition cells (vs : list Z) : list Z := List.concat (map ptr_bytes vs).
Definition idx_bytes (L : layout) : list Z :=
  cells (free L :: tab L) ++ [NEWLINE] ++ ser_idx 0 (slots L).

(** Offsets of the [i]-th slot in the index and the data file. *)
Definition hdr_len : Z := 967.
Definition doff (sls : list slot) (i : nat) : Z := zlen (ser_dat (take i sls)).
Definition ioff (sls : list slot) (i : nat) : Z := hdr_len + zlen (ser_idx 0 (take i sls)).

(** ** Well-formed slots and layouts *)

Definition ok_ptr (v : Z) : Prop := 0 <= v <= PTR_MAX.
Definition ok_key (k : list Z) : Prop := no_nul k ∧ SEP ∉ k.
Definition ok_data (v : list Z) : Prop := no_nul v ∧ 1 <= zlen v <= 1023.
Record ok_slot (off : Z) (sl : slot) : Prop := OkSlot {
  os_ptr : ok_ptr (sl_ptr sl);
  os_key : ok_key (sl_key sl);
  os_data : ok_data (sl_data sl);
  os_len : IDXLEN_MIN <= zlen (body off sl) <= IDXLEN_MAX;
  os_off : 0 <= off < dec_max }.
Fixpoint ok_slots (off : Z) (sls : list slot) : Prop :=
  match sls with
  | [] => True
  | sl :: sls => ok_slot off sl ∧ ok_slots (off + zlen (drec sl)) sls
  end.
Record ok_layout (L : layout) : Prop := OkLayout {
  ol_free : ok_ptr (free L);
  ol_tab : Forall ok_ptr (tab L);
  ol_len : zlen (tab L) = NHASH_DEF;
  ol_slots : ok_slots 0 (slots L) }.

(** ** Lengths and splits *)

Lemma pow10_7 : 10 ^ Z.of_nat PTR_SZ = PTR_MAX + 1. Proof. done. Qed.

Lemma ptr_bytes_len v : ok_ptr v → zlen (ptr_bytes v) = 7.
Proof.
  intros [? ?]. unfold ptr_bytes, zlen. rewrite pad_length; [done|].
  apply dec_length; [unfold PTR_SZ; lia|]. rewrite pow10_7. lia.
Qed.

Lemma ptr_bytes_atol v k : ok_ptr v → atol (ptr_bytes v ++ 0 :: k) = v.
Proof. intros [? ?]. apply atol_pad. unfold dec_max, PTR_MAX in *. lia. Qed.

Lemma len_bytes_len n : IDXLEN_MIN <= n <= IDXLEN_MAX → zlen (pad IDXLEN_SZ (dec n)) = 4.
Proof.
  intros Hn. unfold zlen. rewrite pad_length; [done|]. unfold IDXLEN_MIN, IDXLEN_MAX in *.
  apply dec_length; [unfold IDXLEN_SZ; lia|]. change (10 ^ Z.of_nat IDXLEN_SZ) with 10000. lia.
Qed.

Lemma irec_tail_len off sl : ok_slot off sl → zlen (irec_tail off sl) = 4 + zlen (body off sl).
Proof. intros []. unfold irec_tail. rewrite zlen_app, len_bytes_len by done. done. Qed.

Lemma irec_len off sl : ok_slot off sl → zlen (irec off sl) = 11 + zlen (body off sl).
Proof.
  intros H. unfold irec. rewrite zlen_app, ptr_bytes_len, irec_tail_len by (done || by destruct H). lia.
Qed.

Lemma drec_len sl : zlen (drec sl) = zlen (sl_data sl) + 1.
Proof. unfold drec. rewrite zlen_app. done. Qed.

Lemma ser_dat_app a b : ser_dat (a ++ b) = ser_dat a ++ ser_dat b.
Proof. unfold ser_dat. by rewrite map_app, concat_app. Qed.

Lemma ser_dat_cons sl b : ser_dat (sl :: b) = drec sl ++ ser_dat b.
Proof. done. Qed.

Lemma ser_idx_app a b off :
  ser_idx off (a ++ b) = ser_idx off a ++ ser_idx (off + zlen (ser_dat a)) b.
Proof.
  revert off. induction a as [|sl a IH]; intros off; simpl.
  - by rewrite Z.add_0_r.
  - rewrite IH, ser_dat_cons, zlen_app, <- app_assoc, Z.add_assoc. done.
Qed.

Lemma ok_slots_app a b off :
  ok_slots off (a ++ b) ↔ ok_slots off a ∧ ok_slots (off + zlen (ser_dat a)) b.
Proof.
  revert off. induction a as [|sl a IH]; intros off; simpl.
  - rewrite Z.add_0_r. tauto.
  - rewrite IH, ser_dat_cons, zlen_app, Z.add_assoc. tauto.
Qed.

Lemma cells_app a b : cells (a ++ b) = cells a ++ cells b.
Proof. unfold cells. by rewrite map_app, concat_app. Qed.

Lemma cells_len vs : Forall ok_ptr vs → zlen (cells vs) = 7 * zlen vs.
Proof.
  induction 1 as [|v vs Hv _ IH]; [done|].
  change (cells (v :: vs)) with (ptr_bytes v ++ cells vs).
  rewrite zlen_app, zlen_cons, ptr_bytes_len, IH by done. lia.
Qed.

Lemma hdr_bytes_len L : ok_layout L → zlen (cells (free L :: tab L) ++ [NEWLINE]) = hdr_len.
Proof.
  intros []. rewrite zlen_app, cells_len by (by constructor). rewrite zlen_cons, ol_len0. done.
Qed.

(** A slot splits both files at its offsets. *)
Lemma slot_split L i sl :
  ok_layout L → slots L !! i = Some sl →
  ∃ pre post, slots L = pre ++ sl :: post ∧ length pre = i ∧
    ok_slot (doff (slots L) i) sl ∧ doff (slots L) i = zlen (ser_dat pre) ∧
    ioff (slots L) i = hdr_len + zlen (ser_idx 0 pre).
Proof.
  intros HL Hi. apply list_elem_of_split_length in Hi as (pre & post & E & ->).
  exists pre, post. unfold doff, ioff. rewrite E, take_app_length. split_and!; try done.
  pose proof (ol_slots _ HL) as Hs. rewrite E, ok_slots_app in Hs. by destruct Hs as (_ & ? & _).
Qed.

(** ** Pointer fields *)

(** The places a chain pointer is stored: the free list head, a hash table entry,
    the front of an index record. *)
Inductive cell := CFree | CTab (h : nat) | CSlot (i : nat).

#[export] Instance cell_eq_dec : EqDecision cell.
Proof. solve_decision. Defined.

Definition coff (L : layout) (c : cell) : Z :=
  match c with
  | CFree => FREE_OFF
  | CTab h => HASH_OFF + 7 * Z.of_nat h
  | CSlot i => ioff (slots L) i
  end.
Definition cget (L : layout) (c : cell) : option Z :=
  match c with
  | CFree => Some (free L)
  | CTab h => tab L !! h
  | CSlot i => sl_ptr <$> slots L !! i
  end.
Definition set_ptr (v : Z) (sl : slot) : slot := Slot v (sl_key sl) (sl_data sl).
Definition cset (L : layout) (c : cell) (v : Z) : layout :=
  match c with
  | CFree => Layout v (tab L) (slots L)
  | CTab h => Layout (free L) (<[h := v]> (tab L)) (slots L)
  | CSlot i => Layout (free L) (tab L) (alter (set_ptr v) i (slots L))
  end.

Lemma alter_middle {A} (f : A → A) pre x post i :
  i = length pre → alter f i (pre ++ x :: post) = pre ++ f x :: post.
Proof. intros ->. induction pre as [|y pre IH]; simpl; [done|]. f_equal. exact IH. Qed.

Lemma insert_middle {A} (pre : list A) x y post i :
  i = length pre → <[i := y]> (pre ++ x :: post) = pre ++ y :: post.
Proof. intros ->. by rewrite insert_app_r_alt, Nat.sub_diag. Qed.

(** A pointer field cuts the index file in three, and writing the field replaces
    the middle part. *)
Lemma cell_bytes L c v0 :
  ok_layout L → cget L c = Some v0 →
  ok_ptr v0 ∧ ∃ A B, idx_bytes L = A ++ ptr_bytes v0 ++ B ∧ zlen A = coff L c ∧
    ∀ v, idx_bytes (cset L c v) = A ++ ptr_bytes v ++ B.
Proof.
  intros HL Hc. unfold idx_bytes. destruct c as [|h|i]; simpl in Hc |- *.
  - simplify_eq. split; [apply HL|].
    exists [], (cells (tab L) ++ [NEWLINE] ++ ser_idx 0 (slots L)).
    split_and!; [|done|intros v]; unfold cells; cbn [map List.concat]; by rewrite <- app_assoc.
  - pose proof (ol_tab _ HL) as Ht.
    apply list_elem_of_split_length in Hc as (pre & post & E & ->). rewrite E in *.
    apply Forall_app in Ht as [Ht1 Ht2]. apply Forall_cons in Ht2 as [Hv Ht2]. split; [done|].
    exists (cells (free L :: pre)), (cells post ++ [NEWLINE] ++ ser_idx 0 (slots L)).
    split_and!; [| |intros v; rewrite insert_middle by done].
    1, 3: rewrite app_comm_cons, cells_app; change (cells (?x :: ?y)) with (ptr_bytes x ++ cells y);
      by rewrite <- !app_assoc.
    rewrite cells_len by (constructor; [apply HL|done]). rewrite zlen_cons. unfold HASH_OFF, zlen. lia.
  - destruct (slots L !! i) as [sl|] eqn:Ei; [|done]. simplify_eq/=.
    destruct (slot_split _ _ _ HL Ei) as (pre & post & E & Hi & Hok & Ho & Hio).
    split; [apply Hok|].
    exists ((cells (free L :: tab L) ++ [NEWLINE]) ++ ser_idx 0 pre),
      (irec_tail (zlen (ser_dat pre)) sl ++ ser_idx (zlen (ser_dat pre) + zlen (drec sl)) post).
    split_and!; [| |intros v].
    + rewrite E, ser_idx_app. simpl. unfold irec. by rewrite <- !app_assoc.
    + rewrite zlen_app, hdr_bytes_len by done. by rewrite Hio.
    + rewrite E, alter_middle, ser_idx_app by done. simpl. unfold irec. by rewrite <- !app_assoc.
Qed.

(** ** Running the internal functions *)

(** The handle [d] is open on files that hold the layout [L]. *)
Record R (d : db) (L : layout) : Prop := MkR {
  R_idx : fdata (idx d) = idx_bytes L;
  R_dat : fdata (dat d) = ser_dat (slots L);
  R_hashoff : hashoff d = HASH_OFF;
  R_nhash : nhash d = NHASH_DEF;
  R_ok : ok_layout L }.

Lemma lseek_idx_set o d :
  0 <= o → lseek_idx o SEEK_SET d = (set_idx (File (fdata (idx d)) o) d, Done o).
Proof. intros. unfold lseek_idx, lseek. by replace (o <? 0) with false by lia. Qed.

Lemma lseek_dat_set o d :
  0 <= o → lseek_dat o SEEK_SET d = (set_dat (File (fdata (dat d)) o) d, Done o).
Proof. intros. unfold lseek_dat, lseek. by replace (o <? 0) with false by lia. Qed.

Lemma lseek_idx_end d :
  lseek_idx 0 SEEK_END d =
    (set_idx (File (fdata (idx d)) (zlen (fdata (idx d)))) d, Done (zlen (fdata (idx d)))).
Proof.
  unfold lseek_idx, lseek. rewrite Z.add_0_r.
  pose proof (zlen_nonneg (fdata (idx d))). by replace (_ <? 0) with false by lia.
Qed.

Lemma lseek_dat_end d :
  lseek_dat 0 SEEK_END d =
    (set_dat (File (fdata (dat d)) (zlen (fdata (dat d)))) d, Done (zlen (fdata (dat d)))).
Proof.
  unfold lseek_dat, lseek. rewrite Z.add_0_r.
  pose proof (zlen_nonneg (fdata (dat d))). by replace (_ <? 0) with false by lia.
Qed.

Lemma check_true msg d : check true msg d = (d, Done tt).
Proof. done. Qed.

Lemma read_idx_at A X B n d :
  fdata (idx d) = A ++ X ++ B → fpos (idx d) = zlen A → n = zlen X →
  read_idx n d = (set_idx (File (fdata (idx d)) (fpos (idx d) + n)) d, Done X).
Proof.
  intros HA HB ->. unfold read_idx. destruct (idx d) as [data p]. cbn [fdata fpos] in *. subst.
  by rewrite fread_at.
Qed.

Lemma read_dat_at A X B n d :
  fdata (dat d) = A ++ X ++ B → fpos (dat d) = zlen A → n = zlen X →
  read_dat n d = (set_dat (File (fdata (dat d)) (fpos (dat d) + n)) d, Done X).
Proof.
  intros HA HB ->. unfold read_dat. destruct (dat d) as [data p]. cbn [fdata fpos] in *. subst.
  by rewrite fread_at.
Qed.

(** Evaluates the sequencing of primitives that always succeed. *)
Ltac db_simpl :=
  cbn [set_idx set_dat set_idxbuf set_datbuf set_idxoff set_idxlen set_datoff set_datlen
       set_ptrval set_ptroff set_chainoff set_hashoff set_nhash set_cnt set_locks set_errno
       idx dat idxbuf datbuf idxoff idxlen datoff datlen ptrval ptroff chainoff hashoff nhash
       cnt locks errno fdata fpos] in *.
Ltac db_step H := erewrite bind_done; [|H]; cbn beta.

Lemma readptr_run d L c v :
  R d L → cget L c = Some v →
  _db_readptr (coff L c) d = (set_idx (File (idx_bytes L) (coff L c + 7)) d, Done v).
Proof.
  intros [Hi _ _ _ HL] Hc.
  destruct (cell_bytes L c v HL Hc) as (Hv & A & B & E & HA & _).
  pose proof (zlen_nonneg A).
  unfold _db_readptr. rewrite (bind_done _ _ _ _ _ (lseek_idx_set (coff L c) d ltac:(lia))).
  replace (coff L c =? -1) with false by lia. cbn [negb].
  rewrite (bind_done _ _ _ _ _ (check_true _ _)).
  erewrite bind_done; [|eapply (read_idx_at A (ptr_bytes v) B); db_simpl; [congruence|lia|by rewrite ptr_bytes_len]].
  rewrite ptr_bytes_len by done. change (7 =? Z.of_nat PTR_SZ) with true.
  rewrite (bind_done _ _ _ _ _ (check_true _ _)). rewrite ptr_bytes_atol by done.
  rewrite <- Hi. done.
Qed.

(** What [_db_readidx] leaves in the handle after reading the record of slot [sl],
    whose data is at [off], at offset [o] of the index file. *)
Definition loadbuf (off : Z) (sl : slot) (buf : list Z) : list Z :=
  sl_key sl ++ 0 :: dec off ++ 0 :: dec (zlen (drec sl)) ++ 0 :: drop (length (body off sl)) buf.
Definition load (o off : Z) (sl : slot) (d : db) : db :=
  set_datlen (zlen (drec sl)) (set_datoff off (set_idxbuf (loadbuf off sl (idxbuf d))
    (set_idxlen (zlen (body off sl)) (set_ptrval (sl_ptr sl) (set_idxoff o
      (set_idx (File (fdata (idx d)) (o + zlen (irec off sl))) d)))))).

(** Right-nests appends. *)
Ltac app_norm := repeat first [rewrite <- app_assoc | rewrite <- app_comm_cons | rewrite app_nil_l].

Lemma is_digit_0 : is_digit 0 = false. Proof. done. Qed.
Lemma is_digit_SEP : is_digit SEP = false. Proof. done. Qed.

Lemma nat_app_len (l : list Z) x k : Z.to_nat (zlen (l ++ x :: k) - 1) = (length l + length k)%nat.
Proof. unfold zlen. rewrite length_app. simpl. lia. Qed.

Section readidx.
Context (off : Z) (sl : slot) (Hok : ok_slot off sl).

Let Hoff : 0 <= off < dec_max. Proof. apply Hok. Qed.
Let Hdl : 0 <= zlen (drec sl) < dec_max.
Proof.
  destruct Hok as [_ _ [_ Hd] _ _]. rewrite drec_len. unfold dec_max. lia.
Qed.
Let rest (buf : list Z) : list Z := drop (length (body off sl)) buf.

(** The record read into the buffer, and the buffer after each separator has been
    replaced. *)
Lemma body_newline buf :
  default 0 (overlay buf (body off sl) !! Z.to_nat (zlen (body off sl) - 1)) = NEWLINE ∧
  poke (overlay buf (body off sl)) (Z.to_nat (zlen (body off sl) - 1)) 0 =
    sl_key sl ++ SEP :: dec off ++ SEP :: dec (zlen (drec sl)) ++ 0 :: rest buf.
Proof using Type.
  subst rest. unfold overlay. set (B := drop _ _).
  assert (body off sl ++ B = (sl_key sl ++ SEP :: dec off ++ SEP :: dec (zlen (drec sl))) ++ NEWLINE :: B) as ->.
  { unfold body. by app_norm. }
  assert (Z.to_nat (zlen (body off sl) - 1) =
          length (sl_key sl ++ SEP :: dec off ++ SEP :: dec (zlen (drec sl)))) as ->.
  { unfold body, zlen. repeat (rewrite length_app || cbn [length]). lia. }
  split.
  - rewrite lookup_app_r, Nat.sub_diag by done. done.
  - rewrite poke_app by done. by app_norm.
Qed.

Lemma strchr_first k :
  strchr (sl_key sl ++ SEP :: k) SEP = Some (length (sl_key sl)) ∧
  poke (sl_key sl ++ SEP :: k) (length (sl_key sl)) 0 = sl_key sl ++ 0 :: k ∧
  drop (S (length (sl_key sl))) (sl_key sl ++ 0 :: k) = k.
Proof using Hok.
  destruct Hok as [_ [Hn Hs] _ _ _]. split_and!.
  - by apply strchr_app.
  - by apply poke_app.
  - replace (S (length (sl_key sl))) with (length (sl_key sl ++ [0])) by (rewrite length_app; simpl; lia).
    by rewrite (app_assoc _ [0] k), drop_app_length.
Qed.

Lemma strchr_second k :
  strchr (dec off ++ SEP :: k) SEP = Some (length (dec off)) ∧
  poke (sl_key sl ++ 0 :: dec off ++ SEP :: k) (S (length (sl_key sl)) + length (dec off)) 0 =
    sl_key sl ++ 0 :: dec off ++ 0 :: k ∧
  drop (S (S (length (sl_key sl)) + length (dec off))) (sl_key sl ++ 0 :: dec off ++ 0 :: k) = k.
Proof using Hoff.
  assert (∀ x, sl_key sl ++ 0 :: dec off ++ x :: k = (sl_key sl ++ 0 :: dec off) ++ x :: k) as HE
    by (intros x; by app_norm).
  split_and!.
  - apply strchr_app; [by apply dec_no_nul|by apply dec_no|done].
  - rewrite !HE. apply poke_app. rewrite length_app. cbn [length]. lia.
  - rewrite HE. change (0 :: k) with ([0] ++ k). rewrite app_assoc.
    apply drop_app_length'. rewrite !length_app. cbn [length]. lia.
Qed.

Lemma readidx_at d A B o offset :
  fdata (idx d) = A ++ irec off sl ++ B → zlen A = o →
  lseek_idx offset (if offset =? 0 then SEEK_CUR else SEEK_SET) d =
    (set_idx (File (fdata (idx d)) o) d, Done o) →
  _db_readidx offset d = (load o off sl d, Done (sl_ptr sl)).
Proof using All.
  intros E HA Hseek. pose proof (zlen_nonneg A).
  pose proof (os_len _ _ Hok) as Hlen. pose proof (os_ptr _ _ Hok) as Hp.
  unfold irec, irec_tail in E. rewrite <- !app_assoc in E.
  unfold _db_readidx. rewrite (bind_done _ _ _ _ _ Hseek), bind_modify.
  replace (o =? -1) with false by lia. cbn [negb]. rewrite (bind_done _ _ _ _ _ (check_true _ _)).
  erewrite bind_done; [|eapply (read_idx_at A (ptr_bytes (sl_ptr sl) ++ pad IDXLEN_SZ (dec (zlen (body off sl)))) (body off sl ++ B));
    db_simpl; [rewrite E; by rewrite <- !app_assoc|lia|by rewrite zlen_app, ptr_bytes_len, len_bytes_len]].
  rewrite zlen_app, ptr_bytes_len, len_bytes_len by done.
  change (7 + 4 =? Z.of_nat PTR_SZ + Z.of_nat IDXLEN_SZ) with true. cbn [negb].
  assert (length (ptr_bytes (sl_ptr sl)) = PTR_SZ) as Hpl
    by (pose proof (ptr_bytes_len _ Hp); unfold zlen, PTR_SZ in *; lia).
  rewrite take_app_length' , drop_app_length' by done.
  rewrite ptr_bytes_atol by done.
  rewrite bind_modify. rewrite (atol_pad IDXLEN_SZ (zlen (body off sl)) []) by (unfold dec_max, IDXLEN_MIN, IDXLEN_MAX in *; lia).
  rewrite u64_id by (unfold IDXLEN_MIN, IDXLEN_MAX in *; lia). cbv zeta.
  rewrite bind_modify.
  replace ((zlen (body off sl) <? IDXLEN_MIN) || (IDXLEN_MAX <? zlen (body off sl))) with false by lia.
  rewrite (bind_done _ _ _ _ _ (check_true _ _)).
  erewrite bind_done; [|eapply (read_idx_at (A ++ ptr_bytes (sl_ptr sl) ++ pad IDXLEN_SZ (dec (zlen (body off sl)))) (body off sl) B);
    db_simpl; [rewrite E; by rewrite <- !app_assoc|rewrite !zlen_app, ptr_bytes_len, len_bytes_len by done; unfold PTR_SZ, IDXLEN_SZ; lia|done]].
  rewrite bind_modify, Z.eqb_refl, (bind_done _ _ _ _ _ (check_true _ _)), bind_gets. db_simpl.
  destruct (body_newline (idxbuf d)) as [-> ->]. rewrite Z.eqb_refl, (bind_done _ _ _ _ _ (check_true _ _)).
  rewrite bind_modify.
  destruct (strchr_first (dec off ++ SEP :: dec (zlen (drec sl)) ++ 0 :: rest (idxbuf d))) as (-> & -> & Hd1).
  rewrite bind_modify. rewrite Hd1.
  destruct (strchr_second (dec (zlen (drec sl)) ++ 0 :: rest (idxbuf d))) as (-> & -> & Hd2).
  rewrite bind_modify. rewrite Hd2.
  rewrite strchr_none by (by apply dec_no_nul || by apply dec_no).
  rewrite bind_modify.
  destruct (strchr_first (dec off ++ 0 :: dec (zlen (drec sl)) ++ 0 :: rest (idxbuf d))) as (_ & _ & ->).
  rewrite !atol_dec by done. replace (off <? 0) with false by lia.
  rewrite (bind_done _ _ _ _ _ (check_true _ _)), bind_modify.
  pose proof (os_data _ _ Hok) as [_ Hd]. pose proof (drec_len sl).
  rewrite u64_id by lia. replace (_ || _) with false by (unfold DATLEN_MAX; lia).
  rewrite (bind_done _ _ _ _ _ (check_true _ _)).
  unfold load, gets. db_simpl. rewrite irec_len by done. unfold loadbuf. fold (rest (idxbuf d)).
  by replace (o + (11 + zlen (body off sl)))
    with (o + (Z.of_nat PTR_SZ + Z.of_nat IDXLEN_SZ) + zlen (body off sl)) by (unfold PTR_SZ, IDXLEN_SZ; lia).
Qed.
End readidx.

(** ** Slots *)

Definition sset (L : layout) (i : nat) (sl : slot) : layout :=
  Layout (free L) (tab L) (<[i := sl]> (slots L)).

Lemma cset_slot L i sl v : slots L !! i = Some sl → cset L (CSlot i) v = sset L i (set_ptr v sl).
Proof.
  intros Hi. unfold cset, sset. f_equal.
  apply list_elem_of_split_length in Hi as (pre & post & -> & ->).
  by rewrite alter_middle, insert_middle.
Qed.

Lemma body_set_ptr off v sl : body off (set_ptr v sl) = body off sl. Proof. done. Qed.

(** A slot cuts both files in three; a slot with records of the same lengths
    replaces the middle parts. *)
Lemma slot_bytes L i sl :
  ok_layout L → slots L !! i = Some sl →
  ok_slot (doff (slots L) i) sl ∧ ∃ A B C D,
    idx_bytes L = A ++ irec (doff (slots L) i) sl ++ B ∧ zlen A = ioff (slots L) i ∧
    ser_dat (slots L) = C ++ drec sl ++ D ∧ zlen C = doff (slots L) i ∧
    ∀ sl', zlen (drec sl') = zlen (drec sl) →
      idx_bytes (sset L i sl') = A ++ irec (doff (slots L) i) sl' ++ B ∧
      ser_dat (<[i := sl']> (slots L)) = C ++ drec sl' ++ D.
Proof.
  intros HL Hi. destruct (slot_split _ _ _ HL Hi) as (pre & post & E & Hl & Hok & Ho & Hio).
  split; [done|].
  exists ((cells (free L :: tab L) ++ [NEWLINE]) ++ ser_idx 0 pre),
    (ser_idx (zlen (ser_dat pre) + zlen (drec sl)) post), (ser_dat pre), (ser_dat post).
  unfold idx_bytes, sset. cbn [free tab slots]. rewrite Ho, Hio, E.
  rewrite zlen_app, hdr_bytes_len, !ser_idx_app, !ser_dat_app by done.
  cbn [ser_idx]. rewrite !Z.add_0_l. split_and!; try done.
  - by app_norm.
  - intros sl' Hs. rewrite insert_middle by done. rewrite ser_idx_app, ser_dat_app. cbn [ser_idx].
    rewrite Z.add_0_l, Hs. split; [by app_norm|done].
Qed.

Lemma ok_sset L i sl sl' :
  ok_layout L → slots L !! i = Some sl → zlen (drec sl') = zlen (drec sl) →
  ok_slot (doff (slots L) i) sl' → ok_layout (sset L i sl').
Proof.
  intros HL Hi Hs Hok'. destruct (slot_split _ _ _ HL Hi) as (pre & post & E & Hl & Hok & Ho & Hio).
  destruct HL as [? ? ? Hss]. split; [done..|]. unfold sset. cbn [slots].
  rewrite Ho in *. rewrite E in *. rewrite insert_middle by done.
  rewrite ok_slots_app in *. cbn [ok_slots] in *. rewrite Z.add_0_l in *. rewrite Hs. tauto.
Qed.

Lemma ok_slot_ptr off sl v : ok_slot off sl → ok_ptr v → ok_slot off (set_ptr v sl).
Proof. intros [] ?. by split. Qed.

Lemma ok_cset L c v0 v : ok_layout L → cget L c = Some v0 → ok_ptr v → ok_layout (cset L c v).
Proof.
  intros HL Hc Hv. destruct c as [|h|i]; simpl in Hc.
  - destruct HL. by split.
  - destruct HL as [? Ht Hn ?]. split; [done| |unfold zlen in *; cbn [cset tab]; by rewrite length_insert|done].
    by apply Forall_insert.
  - destruct (slots L !! i) as [sl|] eqn:Ei; [|done]. erewrite cset_slot by done.
    eapply ok_sset; [done..|]. apply ok_slot_ptr; [|done]. by destruct (slot_bytes L i sl HL Ei).
Qed.

Lemma ptr_bytes_take v : ok_ptr v → take PTR_SZ (pad PTR_SZ (dec v)) = ptr_bytes v.
Proof.
  intros Hv. apply take_ge. pose proof (ptr_bytes_len v Hv). unfold zlen, ptr_bytes, PTR_SZ in *. lia.
Qed.

Lemma writeptr_run d L c v0 v :
  R d L → cget L c = Some v0 → ok_ptr v →
  _db_writeptr (coff L c) v d = (set_idx (File (idx_bytes (cset L c v)) (coff L c + 7)) d, Done tt).
Proof.
  intros [Hi _ _ _ HL] Hc Hv.
  destruct (cell_bytes L c v0 HL Hc) as (Hv0 & A & B & E & HA & Hw).
  pose proof (zlen_nonneg A). pose proof Hv as [? ?].
  unfold _db_writeptr. replace (_ || _) with false by lia.
  rewrite (bind_done _ _ _ _ _ (lseek_idx_set (coff L c) d ltac:(lia))).
  replace (coff L c =? -1) with false by lia.
  rewrite (bind_done _ _ _ _ _ (check_true _ _)), ptr_bytes_take by done.
  unfold write_idx, modify. db_simpl. rewrite Hi, E, fwrite_at by (by rewrite ?ptr_bytes_len).
  by rewrite Hw, ptr_bytes_len.
Qed.

(** *** Reading a slot *)

Lemma ioff_pos sls i : 0 < ioff sls i.
Proof. unfold ioff, hdr_len. pose proof (zlen_nonneg (ser_idx 0 (take i sls))). lia. Qed.

Lemma readidx_run d L i sl :
  R d L → slots L !! i = Some sl →
  _db_readidx (ioff (slots L) i) d = (load (ioff (slots L) i) (doff (slots L) i) sl d, Done (sl_ptr sl)).
Proof.
  intros HR Hi. destruct (slot_bytes L i sl (R_ok _ _ HR) Hi) as (Hok & A & B & C & D & E & HA & _).
  pose proof (ioff_pos (slots L) i).
  eapply (readidx_at _ _ Hok d A B); [by rewrite (R_idx _ _ HR)|done|].
  replace (_ =? 0) with false by lia. apply lseek_idx_set. lia.
Qed.

Lemma lseek_idx_cur d : 0 <= fpos (idx d) →
  lseek_idx 0 SEEK_CUR d = (set_idx (File (fdata (idx d)) (fpos (idx d))) d, Done (fpos (idx d))).
Proof.
  intros. unfold lseek_idx, lseek. rewrite Z.add_0_r. by replace (_ <? 0) with false by lia.
Qed.

Lemma readidx_cur d L i sl :
  R d L → slots L !! i = Some sl → fpos (idx d) = ioff (slots L) i →
  _db_readidx 0 d = (load (ioff (slots L) i) (doff (slots L) i) sl d, Done (sl_ptr sl)).
Proof.
  intros HR Hi Hp. destruct (slot_bytes L i sl (R_ok _ _ HR) Hi) as (Hok & A & B & C & D & E & HA & _).
  pose proof (ioff_pos (slots L) i).
  eapply (readidx_at _ _ Hok d A B); [by rewrite (R_idx _ _ HR)|done|].
  rewrite Z.eqb_refl, <- Hp. apply lseek_idx_cur. lia.
Qed.

Lemma readidx_eof d :
  fpos (idx d) = zlen (fdata (idx d)) → _db_readidx 0 d = (set_idxoff (fpos (idx d)) d, Done (-1)).
Proof.
  intros Hp. pose proof (zlen_nonneg (fdata (idx d))).
  unfold _db_readidx. rewrite (bind_done _ _ _ _ _ (lseek_idx_cur d ltac:(lia))), bind_modify.
  replace (_ =? -1) with false by lia. cbn [negb].
  rewrite (bind_done _ _ _ _ _ (check_true _ _)).
  unfold read_idx, fread, bind. db_simpl. rewrite Hp. unfold zdrop, zlen. rewrite drop_ge by lia.
  unfold ztake. rewrite take_nil. cbn [length]. change (Z.of_nat 0) with 0. cbn -[Z.add].
  rewrite Z.add_0_r. destruct d as [[? ?]]. db_simpl. by subst.
Qed.

Lemma R_load d L o off sl : R d L → R (load o off sl d) L.
Proof. by intros []. Qed.

Lemma key_load o off sl d : ok_key (sl_key sl) → cstr (idxbuf (load o off sl d)) = sl_key sl.
Proof. intros [? _]. cbn. unfold loadbuf. by apply cstr_app. Qed.

Definition datload (sl : slot) (d : db) : db :=
  set_datbuf (sl_data sl ++ 0 :: drop (length (drec sl)) (datbuf d))
    (set_dat (File (fdata (dat d)) (datoff d + zlen (drec sl))) d).

Lemma readdat_run d L i sl :
  R d L → slots L !! i = Some sl → datoff d = doff (slots L) i → datlen d = zlen (drec sl) →
  _db_readdat d = (datload sl d, Done (sl_data sl)).
Proof.
  intros HR Hi Ho Hl.
  destruct (slot_bytes L i sl (R_ok _ _ HR) Hi) as (Hok & A & B & C & D & _ & _ & E & HC & _).
  pose proof (zlen_nonneg C). pose proof (os_data _ _ Hok) as [Hnn Hd].
  unfold _db_readdat. rewrite bind_gets, (bind_done _ _ _ _ _ (lseek_dat_set (datoff d) d ltac:(lia))).
  replace (_ =? -1) with false by lia. rewrite (bind_done _ _ _ _ _ (check_true _ _)), bind_gets.
  erewrite bind_done; [|eapply (read_dat_at C (drec sl) D); db_simpl;
    [by rewrite (R_dat _ _ HR)|lia|done]].
  rewrite bind_modify. db_simpl. rewrite Hl, Z.eqb_refl, (bind_done _ _ _ _ _ (check_true _ _)), bind_gets.
  db_simpl. rewrite !drec_len.
  assert (Z.to_nat (zlen (sl_data sl) + 1 - 1) = length (sl_data sl)) as -> by (unfold zlen; lia).
  assert (overlay (datbuf d) (drec sl) = sl_data sl ++ NEWLINE :: drop (length (drec sl)) (datbuf d)) as ->.
  { unfold overlay, drec at 1. by app_norm. }
  rewrite lookup_app_r, Nat.sub_diag, poke_app by done.
  rewrite (bind_done _ _ _ _ _ (check_true _ _)), bind_modify. unfold gets. db_simpl.
  rewrite cstr_app by done. unfold datload. by rewrite drec_len.
Qed.

Lemma R_datload d L sl : R d L → R (datload sl d) L.
Proof. by intros []. Qed.

(** *** Overwriting a slot *)

Lemma writedat_run d L i sl data :
  R d L → slots L !! i = Some sl → zlen data = zlen (sl_data sl) →
  _db_writedat data (doff (slots L) i) SEEK_SET d =
    (set_dat (File (ser_dat (<[i := Slot (sl_ptr sl) (sl_key sl) data]> (slots L)))
                   (doff (slots L) i + zlen (drec sl)))
      (set_datlen (zlen (drec sl)) (set_datoff (doff (slots L) i) d)), Done tt).
Proof.
  intros HR Hi Hl.
  destruct (slot_bytes L i sl (R_ok _ _ HR) Hi) as (Hok & A & B & C & D & _ & _ & E & HC & Hw).
  pose proof (zlen_nonneg C). pose proof (os_data _ _ Hok) as [Hnn Hd].
  destruct (Hw (Slot (sl_ptr sl) (sl_key sl) data)) as [_ ->]; [rewrite !drec_len; cbn; lia|].
  unfold _db_writedat. rewrite bind_ret.
  rewrite (bind_done _ _ _ _ _ (lseek_dat_set (doff (slots L) i) d ltac:(lia))), bind_modify.
  replace (_ =? -1) with false by lia. rewrite (bind_done _ _ _ _ _ (check_true _ _)), bind_modify.
  unfold write_dat. rewrite bind_modify. db_simpl. rewrite u64_id by lia.
  rewrite (R_dat _ _ HR), E, fwrite_at by (rewrite ?drec_len, ?zlen_app, ?zlen_cons, ?zlen_nil; lia).
  rewrite drec_len, zlen_app, zlen_cons, zlen_nil, Hl. done.
Qed.

(** The state after [_db_writeidx] has formatted the record of [sl]. *)
Definition written (o : Z) (f : file) (sl : slot) (d : db) : db :=
  set_idx f (set_idxoff o (set_idxbuf (overlay (idxbuf d) (body (datoff d) sl ++ [0]))
    (set_ptrval (sl_ptr sl) d))).

Lemma idx_header_take v n : ok_ptr v → IDXLEN_MIN <= n <= IDXLEN_MAX →
  take (PTR_SZ + IDXLEN_SZ) (pad PTR_SZ (dec v) ++ pad IDXLEN_SZ (dec n)) =
    ptr_bytes v ++ pad IDXLEN_SZ (dec n).
Proof.
  intros Hv Hn. apply take_ge. rewrite length_app. fold (ptr_bytes v).
  pose proof (ptr_bytes_len v Hv). pose proof (len_bytes_len n Hn).
  unfold zlen, PTR_SZ, IDXLEN_SZ in *. lia.
Qed.

Lemma sprintf_idxbuf_run s d : zlen s <= IDXLEN_MAX →
  sprintf_idxbuf s d = (set_idxbuf (overlay (idxbuf d) (s ++ [0])) d, Done tt).
Proof. intros. unfold sprintf_idxbuf. by replace (_ <? _) with false by lia. Qed.

Lemma writeidx_run d L i sl ptr key :
  R d L → slots L !! i = Some sl → datoff d = doff (slots L) i → datlen d = zlen (drec sl) →
  zlen key = zlen (sl_key sl) → ok_key key → ok_ptr ptr →
  let sl' := Slot ptr key (sl_data sl) in
  _db_writeidx key (ioff (slots L) i) SEEK_SET ptr d =
    (written (ioff (slots L) i)
       (File (idx_bytes (sset L i sl')) (ioff (slots L) i + zlen (irec (doff (slots L) i) sl))) sl' d, Done tt).
Proof.
  intros HR Hi Ho Hl Hk Hkey Hp sl'. pose proof Hp as [? ?].
  destruct (slot_bytes L i sl (R_ok _ _ HR) Hi) as (Hok & A & B & C & D & E & HA & _ & _ & Hw).
  pose proof (zlen_nonneg A). pose proof (os_data _ _ Hok) as [_ Hd]. pose proof (drec_len sl).
  destruct (Hw sl' eq_refl) as [-> _]. set (off := doff (slots L) i) in *.
  assert (zlen (body off sl') = zlen (body off sl)) as Hb
    by (unfold body; subst sl'; cbn [sl_key sl_data]; rewrite !zlen_app; change (drec (Slot _ _ _)) with (drec sl); lia).
  pose proof (os_len _ _ Hok) as Hlen.
  assert (ok_slot off sl') as Hok' by (destruct Hok; split; try done; by rewrite Hb).
  unfold _db_writeidx. rewrite bind_modify. replace (_ || _) with false by lia.
  rewrite bind_get. db_simpl. rewrite Ho, Hl, i64_id by lia.
  change (key ++ [SEP] ++ dec off ++ [SEP] ++ dec (zlen (drec sl)) ++ [NEWLINE]) with (body off sl').
  rewrite (bind_done _ _ _ _ _ (sprintf_idxbuf_run _ _ ltac:(rewrite Hb; apply Hlen))). cbv zeta.
  replace (_ || _) with false by lia. rewrite (bind_done _ _ _ _ _ (check_true _ _)), bind_ret.
  rewrite (bind_done _ _ _ _ _ (lseek_idx_set (ioff (slots L) i) _ ltac:(lia))), bind_modify.
  replace (_ =? -1) with false by lia. rewrite (bind_done _ _ _ _ _ (check_true _ _)).
  rewrite idx_header_take by (done || lia). unfold write_idx. rewrite bind_modify. db_simpl.
  rewrite <- app_assoc. change (ptr_bytes ptr ++ _) with (irec off sl').
  rewrite (R_idx _ _ HR), E, fwrite_at by (rewrite ?irec_len by done; lia).
  unfold written. rewrite !irec_len, Hb, Ho by done. done.
Qed.

(** *** Locks *)

Definition unlocked (fd : which) (off len : Z) (ls : list lock) : Prop :=
  Forall (λ l, same_region fd off len l = false) ls.

Lemma unlocked_filter fd off len ls :
  unlocked fd off len ls → List.filter (λ l, negb (same_region fd off len l)) ls = ls.
Proof. induction 1 as [|l ls Hl _ IH]; [done|]. simpl. by rewrite Hl, IH. Qed.

Lemma set_lock_run fd off len t d : unlocked fd off len (locks d) →
  set_lock fd off len t d = (set_locks (Lock fd off len t :: locks d) d, Done tt).
Proof.
  intros Hu. unfold set_lock, un_lock. rewrite bind_modify, unlocked_filter by done. done.
Qed.

Lemma same_region_refl fd off len t : same_region fd off len (Lock fd off len t) = true.
Proof. unfold same_region. cbn. by rewrite bool_decide_true, !Z.eqb_refl. Qed.

Lemma un_lock_run fd off len t ls d : locks d = Lock fd off len t :: ls → unlocked fd off len ls →
  un_lock fd off len d = (set_locks ls d, Done tt).
Proof.
  intros E Hu. unfold un_lock, modify. rewrite E. cbn [List.filter].
  by rewrite same_region_refl, unlocked_filter.
Qed.

(** *** Appending a slot *)

Definition append (L : layout) (sl : slot) : layout := Layout (free L) (tab L) (slots L ++ [sl]).

Lemma append_bytes L sl :
  idx_bytes (append L sl) = idx_bytes L ++ irec (zlen (ser_dat (slots L))) sl ∧
  ser_dat (slots (append L sl)) = ser_dat (slots L) ++ drec sl.
Proof.
  unfold append, idx_bytes. cbn [free tab slots]. rewrite ser_idx_app, ser_dat_app. cbn [ser_idx].
  rewrite Z.add_0_l, ser_dat_cons, !app_nil_r. split; [by app_norm|done].
Qed.

Lemma ok_append L sl :
  ok_layout L → ok_slot (zlen (ser_dat (slots L))) sl → ok_layout (append L sl).
Proof.
  intros [] Hok. split; [done..|]. unfold append. cbn [slots]. by rewrite ok_slots_app.
Qed.

Lemma writedat_end d data :
  unlocked DatFd 0 0 (locks d) → 0 <= zlen data <= 1023 →
  _db_writedat data 0 SEEK_END d =
    (set_dat (File (fdata (dat d) ++ data ++ [NEWLINE]) (zlen (fdata (dat d)) + (zlen data + 1)))
      (set_datlen (zlen data + 1) (set_datoff (zlen (fdata (dat d))) d)), Done tt).
Proof.
  intros Hu Hl. unfold _db_writedat, writew_lock.
  pose proof (zlen_nonneg (fdata (dat d))).
  rewrite (bind_done _ _ _ _ _ (set_lock_run _ _ _ _ _ Hu)), (bind_done _ _ _ _ _ (lseek_dat_end _)), bind_modify.
  db_simpl. replace (_ =? -1) with false by lia.
  rewrite (bind_done _ _ _ _ _ (check_true _ _)), bind_modify. unfold write_dat. rewrite bind_modify. db_simpl.
  rewrite fwrite_end by done. rewrite u64_id by lia. rewrite zlen_app.
  erewrite un_lock_run; [|done|done]. by destruct d.
Qed.

Lemma writeidx_end d sl :
  unlocked IdxFd ((nhash d + 1) * Z.of_nat PTR_SZ + 1) 0 (locks d) →
  datlen d = zlen (drec sl) → ok_slot (datoff d) sl →
  _db_writeidx (sl_key sl) 0 SEEK_END (sl_ptr sl) d =
    (written (zlen (fdata (idx d)))
      (File (fdata (idx d) ++ irec (datoff d) sl) (zlen (fdata (idx d)) + zlen (irec (datoff d) sl))) sl d, Done tt).
Proof.
  intros Hu Hl Hok. pose proof (os_ptr _ _ Hok) as [? ?]. pose proof (os_len _ _ Hok) as Hlen.
  pose proof (os_data _ _ Hok) as [_ Hd]. pose proof (drec_len sl). pose proof (zlen_nonneg (fdata (idx d))).
  unfold _db_writeidx. rewrite bind_modify. replace (_ || _) with false by lia.
  rewrite bind_get. db_simpl. rewrite Hl, i64_id by lia.
  change (sl_key sl ++ _) with (body (datoff d) sl).
  rewrite (bind_done _ _ _ _ _ (sprintf_idxbuf_run _ _ ltac:(apply Hlen))). cbv zeta.
  replace (_ || _) with false by lia. rewrite (bind_done _ _ _ _ _ (check_true _ _)). unfold writew_lock.
  erewrite bind_done; [|by apply set_lock_run]. rewrite (bind_done _ _ _ _ _ (lseek_idx_end _)), bind_modify.
  db_simpl. replace (_ =? -1) with false by lia. rewrite (bind_done _ _ _ _ _ (check_true _ _)).
  rewrite idx_header_take by apply Hok. unfold write_idx. rewrite bind_modify. db_simpl.
  rewrite <- app_assoc. change (pad PTR_SZ _ ++ _) with (irec (datoff d) sl).
  change (ptr_bytes _ ++ _) with (irec (datoff d) sl). rewrite fwrite_end by done.
  erewrite un_lock_run; [|done|done]. by destruct d.
Qed.
