(* ===== verification/DbChain.v ===== *)
(** Hash chains and the free list of the database: the invariant that ties a layout
    to an abstract finite map, and how each pointer surgery changes the map. *)

From stdpp Require Import base tactics numbers list gmap strings.
From Stdlib Require Import ZArith Lia.
From S2P Require Import Prelude Cio Db DbRep.

(** ** Offsets are stable *)

Definition same_len (a b : slot) : Prop :=
  zlen (drec a) = zlen (drec b) ∧ zlen (sl_key a) = zlen (sl_key b).

Lemma same_len_refl sl : same_len sl sl. Proof. done. Qed.

Lemma body_same_len off a b : same_len a b → zlen (body off a) = zlen (body off b).
Proof. intros [H1 H2]. unfold body. rewrite !zlen_app, H1, H2. done. Qed.

Lemma ser_same_len a b off :
  Forall2 same_len a b → ok_slots off a → ok_slots off b →
  zlen (ser_idx off a) = zlen (ser_idx off b) ∧ zlen (ser_dat a) = zlen (ser_dat b).
Proof.
  intros Hab. revert off. induction Hab as [|x y a b Hxy Hab IH]; intros off; [done|].
  intros [Hx Ha] [Hy Hb]. cbn [ser_idx]. rewrite !ser_dat_cons, !zlen_app.
  rewrite !irec_len, (body_same_len off x y) by done. destruct Hxy as [Hd Hk]. rewrite Hd in *.
  destruct (IH _ Ha Hb). lia.
Qed.

Lemma ok_slots_take off sls j : ok_slots off sls → ok_slots off (take j sls).
Proof. intros H. rewrite <- (take_drop j sls), ok_slots_app in H. apply H. Qed.

Lemma offsets_same L L' j :
  ok_layout L → ok_layout L' → Forall2 same_len (slots L) (slots L') →
  ioff (slots L') j = ioff (slots L) j ∧ doff (slots L') j = doff (slots L) j.
Proof.
  intros [_ _ _ H] [_ _ _ H'] HF. unfold ioff, doff.
  destruct (ser_same_len (take j (slots L)) (take j (slots L')) 0) as [-> ->];
    [by apply Forall2_take|by apply ok_slots_take..|done].
Qed.

Lemma Forall2_same_insert sls i sl sl' :
  sls !! i = Some sl → same_len sl sl' → Forall2 same_len sls (<[i := sl']> sls).
Proof.
  intros Hi Hs. rewrite <- (list_insert_id sls i sl Hi) at 1.
  apply Forall2_insert; [by apply (Forall_Forall2_diag same_len), Forall_true|done].
Qed.

Lemma ioff_sset L i sl sl' j :
  ok_layout L → slots L !! i = Some sl → same_len sl sl' → ok_layout (sset L i sl') →
  ioff (slots (sset L i sl')) j = ioff (slots L) j ∧ doff (slots (sset L i sl')) j = doff (slots L) j.
Proof. intros. apply offsets_same; [done..|]. by eapply Forall2_same_insert. Qed.

Lemma ioff_cset L c v0 v j :
  ok_layout L → cget L c = Some v0 → ok_ptr v →
  ioff (slots (cset L c v)) j = ioff (slots L) j ∧ doff (slots (cset L c v)) j = doff (slots L) j.
Proof.
  intros HL Hc Hv. destruct c as [|h|i]; [done..|].
  pose proof (ok_cset _ _ _ _ HL Hc Hv) as HL'.
  simpl in Hc. destruct (slots L !! i) as [sl|] eqn:Ei; [|done].
  rewrite (cset_slot L i sl) in * by done. by eapply ioff_sset.
Qed.

Lemma ioff_append L sl j : (j <= length (slots L))%nat →
  ioff (slots (append L sl)) j = ioff (slots L) j ∧ doff (slots (append L sl)) j = doff (slots L) j.
Proof. intros Hj. unfold ioff, doff, append. cbn [slots]. by rewrite take_app_le. Qed.

Lemma ioff_end L : ok_layout L → ioff (slots L) (length (slots L)) = zlen (idx_bytes L).
Proof.
  intros HL. unfold ioff, idx_bytes. rewrite take_ge by done.
  rewrite app_assoc, zlen_app, hdr_bytes_len by done. done.
Qed.

(** Offsets are injective on the slots of a layout. *)
Lemma ioff_lt L i j : ok_layout L → (i < j <= length (slots L))%nat → ioff (slots L) i < ioff (slots L) j.
Proof.
  intros HL Hij. destruct (lookup_lt_is_Some_2 (slots L) i) as [sl Hi]; [lia|].
  destruct (slot_split _ _ _ HL Hi) as (pre & post & E & Hl & Hok & Ho & Hio).
  rewrite Hio, E. unfold ioff. rewrite take_app_ge by lia.
  destruct (j - length pre)%nat as [|n] eqn:En; [lia|]. cbn [take].
  rewrite ser_idx_app, zlen_app. cbn [ser_idx]. rewrite zlen_app.
  rewrite Ho in Hok. rewrite Z.add_0_l. rewrite irec_len by done.
  pose proof (os_len _ _ Hok). pose proof (zlen_nonneg (ser_idx (zlen (ser_dat pre) + zlen (drec sl)) (take n post))).
  unfold IDXLEN_MIN in *. lia.
Qed.

(** ** Reading fields of an updated layout *)

Definition kd (L : layout) (i : nat) : option (list Z * list Z) :=
  (λ sl, (sl_key sl, sl_data sl)) <$> slots L !! i.

Lemma cget_cset L c v0 v c' :
  cget L c = Some v0 → cget (cset L c v) c' = if decide (c' = c) then Some v else cget L c'.
Proof.
  intros Hc. destruct c as [|h|i], c' as [|h'|i']; cbn [cget cset free tab slots] in *; try (by case_decide).
  - case_decide; simplify_eq; [|by rewrite list_lookup_insert_ne by congruence].
    apply list_lookup_insert_eq. by eapply lookup_lt_Some.
  - destruct (slots L !! i) as [sl|] eqn:Ei; [|done]. case_decide; simplify_eq/=.
    + by rewrite list_lookup_alter_eq, Ei.
    + by rewrite list_lookup_alter_ne by congruence.
Qed.

Lemma kd_cset L c v i : kd (cset L c v) i = kd L i.
Proof.
  unfold kd. destruct c as [|h|j]; [done..|]. cbn [cset slots]. destruct (decide (j = i)) as [->|].
  - rewrite list_lookup_alter_eq. by destruct (slots L !! i).
  - by rewrite list_lookup_alter_ne.
Qed.

Lemma slots_sset L i sl sl' j :
  slots L !! i = Some sl → slots (sset L i sl') !! j = if decide (j = i) then Some sl' else slots L !! j.
Proof.
  intros Hi. cbn. case_decide; subst; [|by apply list_lookup_insert_ne].
  apply list_lookup_insert_eq. by eapply lookup_lt_Some.
Qed.

Lemma cget_sset L i sl sl' c :
  slots L !! i = Some sl →
  cget (sset L i sl') c = if decide (c = CSlot i) then Some (sl_ptr sl') else cget L c.
Proof.
  intros Hi. destruct c as [|h|j]; [done..|]. cbn [cget].
  rewrite (slots_sset _ _ _ sl' j Hi). repeat case_decide; simplify_eq/=; done.
Qed.

Lemma slots_append L sl j :
  slots (append L sl) !! j = if decide (j = length (slots L)) then Some sl else slots L !! j.
Proof.
  cbn. case_decide as Hj; [subst; by apply list_lookup_middle|].
  destruct (decide (j < length (slots L))%nat); [by apply lookup_app_l|].
  rewrite !lookup_ge_None_2; [done|lia|rewrite length_app; simpl; lia].
Qed.

Lemma cget_append L sl c :
  cget (append L sl) c = if decide (c = CSlot (length (slots L))) then Some (sl_ptr sl) else cget L c.
Proof.
  destruct c as [|h|j]; [done..|]. cbn [cget].
  rewrite slots_append. repeat case_decide; simplify_eq/=; done.
Qed.

(** ** Chains *)

(** Starting at cell [c], the chain runs through the slots [l] and ends with 0. *)
Fixpoint chain (L : layout) (c : cell) (l : list nat) : Prop :=
  match l with
  | [] => cget L c = Some 0
  | i :: l => cget L c = Some (ioff (slots L) i) ∧ chain L (CSlot i) l
  end.

(** The cell that points to what follows [pre]. *)
Fixpoint pred (c : cell) (pre : list nat) : cell :=
  match pre with
  | [] => c
  | i :: pre => pred (CSlot i) pre
  end.

Lemma chain_head L c l : chain L c l → ∃ v, cget L c = Some v.
Proof. destruct l; simpl; [eauto|]. intros [? _]. eauto. Qed.

Lemma chain_valid L c l i : chain L c l → i ∈ l → is_Some (slots L !! i).
Proof.
  revert c. induction l as [|j l IH]; intros c; [by intros _ ?%elem_of_nil|].
  intros [Hc Hl] [->|Hi]%elem_of_cons; [|by eapply IH].
  apply chain_head in Hl as [v Hv]. simpl in Hv. destruct (slots L !! j); [eauto|done].
Qed.

Lemma chain_app L c pre post :
  chain L c (pre ++ post) ↔
    match pre with [] => True | i :: _ => cget L c = Some (ioff (slots L) i) end ∧
    (∀ a i j, (∃ b, pre = a ++ i :: j :: b) → cget L (CSlot i) = Some (ioff (slots L) j)) ∧
    chain L (pred c pre) post.
Proof.
  revert c. induction pre as [|i pre IH]; intros c; simpl.
  - split; [|tauto]. intros H. split_and!; [done| |done]. intros a i j [b Hb]. by destruct a.
  - rewrite IH. clear IH. split.
    + intros (H1 & H2 & H3 & H4). split_and!; [done| |done].
      intros [|x a] i' j [b Hb]; simplify_eq/=; [done|]. eapply H3. eauto.
    + intros (H1 & H2 & H3). split_and!; [done| | |done].
      * destruct pre as [|j pre]; [done|]. apply (H2 [] i j). by exists pre.
      * intros a i' j [b ->]. apply (H2 (i :: a) i' j). by exists b.
Qed.

(** A chain only depends on its cells and on the offsets of its slots. *)
Lemma chain_frame L L' c l :
  chain L c l → (∀ i, i ∈ l → ioff (slots L') i = ioff (slots L) i) →
  (∀ c', c' = c ∨ (∃ i, i ∈ l ∧ c' = CSlot i) → cget L' c' = cget L c') → chain L' c l.
Proof.
  revert c. induction l as [|i l IH]; intros c; simpl.
  - intros H _ Hc. rewrite Hc; [done|by left].
  - intros [H1 H2] Ho Hc. split.
    + rewrite Hc by (by left). rewrite Ho; [done|]. by apply elem_of_cons; left.
    + apply IH; [done| |].
      * intros j Hj. apply Ho. by apply elem_of_cons; right.
      * intros c' [->|(j & Hj & ->)]; apply Hc; right; eexists; (split; [|done]); apply elem_of_cons; auto.
Qed.

Lemma pred_cases c pre : pred c pre = c ∧ pre = [] ∨ ∃ i, i ∈ pre ∧ pred c pre = CSlot i.
Proof.
  revert c. induction pre as [|i pre IH]; intros c; [by left|]. right. simpl.
  destruct (IH (CSlot i)) as [[-> ->]|(j & Hj & ->)]; eexists; (split; [|done]); apply elem_of_cons; auto.
Qed.

(** *** The invariant *)

(** A list of slots: the free list or one of the hash chains. *)
Definition head := option nat.
Definition valid_head (h : head) : Prop := match h with None => True | Some h => (h < 137)%nat end.
Definition hcell (h : head) : cell := match h with None => CFree | Some h => CTab h end.

Definition bucket (k : list Z) : nat := Z.to_nat (hash_loop 0 1 k mod NHASH_DEF).
Definition all_blank (k : list Z) : Prop := Forall (λ c, c = SPACE) k.

(** [sh] gives the slots on each list; [D] is a slot that is on none of them. *)
Record Shape (sh : head → list nat) (D : option nat) : Prop := MkShape {
  sh_nodup : ∀ h, valid_head h → NoDup (sh h);
  sh_disj : ∀ h h' i, valid_head h → valid_head h' → i ∈ sh h → i ∈ sh h' → h = h';
  sh_out : ∀ h i, valid_head h → D = Some i → i ∉ sh h }.

(** The map [m] is what the hash chains hold, [f] being the contents of the slots;
    a key is in the chain of its hash value, at most once, and the keys on the free
    list are blank. *)
Record Content (f : nat → option (list Z * list Z)) (sh : head → list nat) (D : option nat)
    (m : gmap (list Z) (list Z)) : Prop := MkContent {
  ct_cover : ∀ i, is_Some (f i) → D = Some i ∨ ∃ h, valid_head h ∧ i ∈ sh h;
  ct_hash : ∀ h i k v, valid_head (Some h) → i ∈ sh (Some h) → f i = Some (k, v) → bucket k = h;
  ct_key : ∀ h i j k v w, valid_head (Some h) → i ∈ sh (Some h) → j ∈ sh (Some h) →
    f i = Some (k, v) → f j = Some (k, w) → i = j;
  ct_blank : ∀ i k v, i ∈ sh None → f i = Some (k, v) → all_blank k;
  ct_map : ∀ k v, m !! k = Some v ↔ ∃ i, i ∈ sh (Some (bucket k)) ∧ f i = Some (k, v) }.

Definition Chains (L : layout) (sh : head → list nat) : Prop :=
  ∀ h, valid_head h → chain L (hcell h) (sh h).

Record Rep (L : layout) (sh : head → list nat) (D : option nat) (m : gmap (list Z) (list Z)) : Prop := MkRep {
  rep_chain : Chains L sh;
  rep_shape : Shape sh D;
  rep_content : Content (kd L) sh D m }.

Lemma bucket_valid k : valid_head (Some (bucket k)).
Proof.
  unfold bucket, valid_head. pose proof (Z.mod_pos_bound (hash_loop 0 1 k) NHASH_DEF eq_refl).
  unfold NHASH_DEF in *. lia.
Qed.

Lemma hcell_inj h h' : hcell h = hcell h' → h = h'.
Proof. by destruct h, h'; intros; simplify_eq/=. Qed.

Lemma hcell_slot h i : hcell h ≠ CSlot i. Proof. by destruct h. Qed.

(** *** Unlinking *)

Lemma pred_valid L c pre i post : chain L c (pre ++ i :: post) →
  cget L (pred c pre) = Some (ioff (slots L) i) ∧ chain L (CSlot i) post.
Proof. intros (_ & _ & H)%chain_app. exact H. Qed.

Lemma chain_unlink L c pre i post v :
  ok_layout L → chain L c (pre ++ i :: post) → NoDup (pre ++ i :: post) →
  (∀ j, j ∈ pre ++ i :: post → c ≠ CSlot j) → cget L (CSlot i) = Some v → ok_ptr v →
  chain (cset L (pred c pre) v) c (pre ++ post).
Proof.
  intros HL Hch Hnd Hc Hi Hv.
  pose proof (pred_valid _ _ _ _ _ Hch) as [Hp _].
  pose proof (λ j, ioff_cset L (pred c pre) _ v j HL Hp Hv) as Hoff.
  revert c Hch Hnd Hc Hp Hoff. induction pre as [|x pre IH]; intros c Hch Hnd Hc Hp Hoff; simpl in *.
  - destruct Hch as [H1 H2]. destruct post as [|j post]; simpl in *.
    + rewrite (cget_cset _ _ _ _ _ Hp), decide_True by done. congruence.
    + destruct H2 as [H2 H3]. split.
      * rewrite (cget_cset _ _ _ _ _ Hp), decide_True by done. rewrite (proj1 (Hoff j)). congruence.
      * eapply chain_frame; [done|intros; apply Hoff|].
        intros c' Hc'. rewrite (cget_cset _ _ _ _ _ Hp), decide_False; [done|].
        intros ->. destruct Hc' as [->|(y & Hy & ->)].
        { by eapply Hc; [|done]; rewrite !elem_of_cons; auto. }
        { by eapply Hc; [|done]; rewrite !elem_of_cons; auto. }
  - destruct Hch as [H1 H2]. apply NoDup_cons in Hnd as [Hx Hnd]. split.
    + rewrite (cget_cset _ _ _ _ _ Hp), decide_False; [by rewrite (proj1 (Hoff x))|].
      intros E. destruct (pred_cases (CSlot x) pre) as [[Ep ->]|(j & Hj & Ep)]; rewrite Ep in E.
      * by eapply Hc; [|exact E]; rewrite elem_of_cons; auto.
      * by eapply Hc; [|exact E]; rewrite elem_of_cons, elem_of_app; auto.
    + apply IH; try done. intros j Hj E. by simplify_eq.
Qed.

(** Writing a cell leaves a chain that does not use the cell as it is. *)
Lemma chain_cset L c0 v0 v c l :
  ok_layout L → cget L c0 = Some v0 → ok_ptr v → chain L c l → c ≠ c0 →
  (∀ j, j ∈ l → c0 ≠ CSlot j) → chain (cset L c0 v) c l.
Proof.
  intros HL Hc0 Hv Hch Hne Hl. eapply chain_frame; [done|intros; by eapply ioff_cset|].
  intros c' Hc'. rewrite (cget_cset _ _ _ _ _ Hc0), decide_False; [done|].
  intros ->. destruct Hc' as [->|(j & Hj & ->)]; [done|]. by eapply Hl.
Qed.

Definition upd (h : head) (l : list nat) (sh : head → list nat) : head → list nat :=
  λ h', if decide (h' = h) then l else sh h'.

Lemma upd_eq h l sh : upd h l sh h = l. Proof. unfold upd. by rewrite decide_True. Qed.
Lemma upd_ne h l sh h' : h' ≠ h → upd h l sh h' = sh h'. Proof. intros. unfold upd. by rewrite decide_False. Qed.

Lemma upd_sub h l sh h' i : (∀ j, j ∈ l → j ∈ sh h) → i ∈ upd h l sh h' → i ∈ sh h'.
Proof. intros Hl. unfold upd. case_decide; [subst; apply Hl|done]. Qed.

(** The map after a slot with key [k] has left list [a]. *)
Definition map_without (a : head) (k : list Z) (m : gmap (list Z) (list Z)) : gmap (list Z) (list Z) :=
  match a with None => m | Some _ => delete k m end.

Section unlink.
Context (sh : head → list nat) (a : head) (pre : list nat) (i : nat) (post : list nat).
Context (HS : Shape sh None) (Ha : valid_head a) (Es : sh a = pre ++ i :: post).

Let Hia : i ∈ sh a. Proof. rewrite Es, elem_of_app, elem_of_cons. auto. Qed.

Lemma unlink_elem h j : valid_head h → j ∈ upd a (pre ++ post) sh h ↔ j ∈ sh h ∧ j ≠ i.
Proof using All.
  intros Hh. unfold upd. case_decide as E.
  - subst h. pose proof (sh_nodup _ _ HS a Ha) as Hn. rewrite Es in *. rewrite NoDup_app in Hn.
    setoid_rewrite NoDup_cons in Hn. setoid_rewrite elem_of_cons in Hn.
    rewrite !elem_of_app, elem_of_cons. naive_solver.
  - split; [|tauto]. intros Hj. split; [done|]. intros ->. by destruct E, (sh_disj _ _ HS h a i Hh Ha Hj Hia).
Qed.

Lemma shape_unlink : Shape (upd a (pre ++ post) sh) (Some i).
Proof using All.
  split.
  - intros h Hh. unfold upd. case_decide; [|by apply HS]. subst.
    pose proof (sh_nodup _ _ HS a Ha) as Hn. rewrite Es in Hn.
    apply NoDup_app in Hn as (H1 & H2 & H3). apply NoDup_cons in H3 as [_ H3].
    apply NoDup_app. split_and!; [done| |done]. intros x Hx Hx'. by eapply H2; [exact Hx|right].
  - intros h h' j Hh Hh'. rewrite !unlink_elem by done. intros [? _] [? _]. by eapply HS.
  - intros h j Hh [= <-]. rewrite unlink_elem by done. tauto.
Qed.

Lemma chains_unlink L p :
  ok_layout L → Chains L sh → cget L (CSlot i) = Some p → ok_ptr p →
  Chains (cset L (pred (hcell a) pre) p) (upd a (pre ++ post) sh).
Proof using All.
  intros HL Hch Hp Hok h Hh. pose proof (Hch a Ha) as Hca. rewrite Es in Hca.
  pose proof (pred_valid _ _ _ _ _ Hca) as [Hpr _].
  destruct (decide (h = a)) as [->|Hne].
  - rewrite upd_eq. eapply chain_unlink; try done; [|intros; apply hcell_slot].
    rewrite <- Es. by apply HS.
  - rewrite upd_ne by done. eapply chain_cset; [done..|by apply Hch| |].
    + destruct (pred_cases (hcell a) pre) as [[-> _]|(x & _ & ->)]; [|apply hcell_slot].
      by intros ?%hcell_inj.
    + intros j Hj E. destruct (pred_cases (hcell a) pre) as [[Ep _]|(x & Hx & Ep)]; rewrite Ep in E;
        [by apply hcell_slot in E|]. simplify_eq.
      apply Hne, (sh_disj _ _ HS _ _ j); [done..|]. rewrite Es, elem_of_app. by left.
Qed.

Lemma content_unlink f m k v :
  Content f sh None m → f i = Some (k, v) →
  Content f (upd a (pre ++ post) sh) (Some i) (map_without a k m).
Proof using All.
  intros [Hcv Hh Hky Hb Hm] Hf.
  split.
  - intros j Hj. destruct (decide (j = i)) as [->|Hji]; [by left|]. right.
    destruct (Hcv j Hj) as [?|(h & Hvh & Hjh)]; [done|]. exists h. by rewrite unlink_elem.
  - intros h j k' v' Hvh. rewrite unlink_elem by done. intros [? _]. by eapply Hh.
  - intros h x y k' v' w Hvh. rewrite !unlink_elem by done. intros [? _] [? _]. by eapply Hky.
  - intros j k' v'. rewrite unlink_elem by done. intros [? _]. by eapply Hb.
  - intros k' v'. setoid_rewrite (unlink_elem _ _ (bucket_valid k')). destruct a as [h|]; cbn [map_without].
    + rewrite lookup_delete_Some, Hm. split.
      * intros (Hne & j & Hj & Ej). exists j. split_and!; try done. congruence.
      * intros (j & [Hj Hji] & Ej). split; [|eauto]. intros <-. apply Hji.
        rewrite (Hh h i k v Ha Hia Hf) in Hj. by eapply Hky.
    + rewrite Hm. split; intros (j & Hj & Ej); exists j; [|naive_solver].
      split_and!; try done. intros ->. by discriminate (sh_disj _ _ HS _ _ i (bucket_valid k') Ha Hj Hia).
Qed.
End unlink.

Lemma content_ext f g sh D m : (∀ i, f i = g i) → Content f sh D m → Content g sh D m.
Proof. intros E []. split; setoid_rewrite <- E; done. Qed.

Lemma rep_unlink L sh m a pre i post k v p :
  ok_layout L → Rep L sh None m → valid_head a → sh a = pre ++ i :: post →
  kd L i = Some (k, v) → cget L (CSlot i) = Some p → ok_ptr p →
  Rep (cset L (pred (hcell a) pre) p) (upd a (pre ++ post) sh) (Some i) (map_without a k m).
Proof.
  intros HL [Hch HS Hct] Ha Es Hk Hp Hok. split.
  - by eapply chains_unlink.
  - by apply shape_unlink.
  - eapply content_ext; [|by eapply content_unlink]. intros. by rewrite kd_cset.
Qed.

(** *** Linking *)

(** The map after a slot with key [k] and data [v] has become the first of list [b]. *)
Definition map_with (b : head) (k v : list Z) (m : gmap (list Z) (list Z)) : gmap (list Z) (list Z) :=
  match b with None => m | Some _ => <[k := v]> m end.

(** A slot may go on the free list when its key is blank, and on the chain of its
    hash value when the map has no such key. *)
Definition can_link (b : head) (k : list Z) (m : gmap (list Z) (list Z)) : Prop :=
  match b with None => all_blank k | Some h => bucket k = h ∧ m !! k = None end.

Section link.
Context (sh : head → list nat) (b : head) (i : nat).
Context (HS : Shape sh (Some i)) (Hb : valid_head b).

Lemma link_elem h j : j ∈ upd b (i :: sh b) sh h ↔ j ∈ sh h ∨ j = i ∧ h = b.
Proof using Type.
  unfold upd. case_decide; [subst; rewrite elem_of_cons; tauto|]. tauto.
Qed.

Lemma shape_link : Shape (upd b (i :: sh b) sh) None.
Proof using All.
  pose proof (λ h Hh, sh_out _ _ HS h i Hh eq_refl) as Hout. split; [| |done].
  - intros h Hh. unfold upd. case_decide; [|by apply HS]. subst.
    apply NoDup_cons. split; [by apply Hout|by apply HS].
  - intros h h' j Hh Hh'. rewrite !link_elem.
    intros [H|[-> ->]] [H'|[E ->]]; [by eapply HS| | |done].
    + subst. by destruct (Hout _ Hh).
    + by destruct (Hout _ Hh').
Qed.

Lemma chains_link L :
  ok_layout L → Chains L sh → cget L (CSlot i) = cget L (hcell b) → ok_ptr (ioff (slots L) i) →
  Chains (cset L (hcell b) (ioff (slots L) i)) (upd b (i :: sh b) sh).
Proof using All.
  intros HL Hch Hp Hok h Hh. destruct (chain_head _ _ _ (Hch b Hb)) as [v0 Hv0].
  unfold upd. case_decide as E.
  - subst. split.
    + rewrite (cget_cset _ _ _ _ _ Hv0), decide_True by done. by rewrite (proj1 (ioff_cset _ _ _ _ i HL Hv0 Hok)).
    + eapply chain_cset; try done; [| |intros; apply hcell_slot].
      * pose proof (Hch b Hb) as H. destruct (sh b); simpl in *; rewrite Hp; done.
      * by intros ?%eq_sym%hcell_slot.
  - eapply chain_cset; try done; [by apply Hch| |intros; apply hcell_slot]. by intros ?%hcell_inj.
Qed.

Lemma content_link f m k v :
  Content f sh (Some i) m → f i = Some (k, v) → can_link b k m →
  Content f (upd b (i :: sh b) sh) None (map_with b k v m).
Proof using All.
  pose proof (λ h Hh, sh_out _ _ HS h i Hh eq_refl) as Hout.
  intros [Hcv Hh Hky Hbl Hm] Hf Hl.
  assert (∀ h j w, b = Some h → j ∈ sh (Some h) → f j ≠ Some (k, w)) as Hnew.
  { intros h j w -> Hj Ej. cbn in Hl. destruct Hl as [<- Hmk].
    assert (m !! k = Some w) by (apply Hm; eauto). congruence. }
  split; try setoid_rewrite link_elem.
  - intros j Hj. right. destruct (Hcv j Hj) as [[= ->]|(h & Hvh & Hjh)]; eauto.
  - intros h j k' v' Hvh [Hj|[-> <-]] Ej; [by eapply Hh|]. rewrite Hf in Ej. simplify_eq. by destruct Hl.
  - intros h x y k' v' w Hvh [Hx|[-> Ex]] [Hy|[-> Ey]] E1 E2; [by eapply Hky| | |done]; exfalso.
    + rewrite Hf in E2. simplify_eq. by eapply Hnew.
    + rewrite Hf in E1. simplify_eq. by eapply Hnew.
  - intros j k' v' [Hj|[-> <-]] Ej; [by eapply Hbl|]. rewrite Hf in Ej. by simplify_eq.
  - intros k' v'. destruct b as [h|]; cbn [map_with can_link] in *.
    + rewrite lookup_insert_Some, Hm. destruct Hl as [<- Hmk]. split.
      * intros [[<- <-]|[Hne (j & Hj & Ej)]]; eauto.
      * intros (j & [Hj|[-> ?]] & Ej); [|left; rewrite Hf in Ej; by simplify_eq].
        right. split; [|eauto]. intros <-. by eapply Hnew.
    + rewrite Hm. split; intros (j & Hj & Ej); exists j; [tauto|]. destruct Hj as [Hj|[_ ?]]; done.
Qed.
End link.

Lemma rep_link L sh m b i k v :
  ok_layout L → Rep L sh (Some i) m → valid_head b → kd L i = Some (k, v) →
  cget L (CSlot i) = cget L (hcell b) → ok_ptr (ioff (slots L) i) → can_link b k m →
  Rep (cset L (hcell b) (ioff (slots L) i)) (upd b (i :: sh b) sh) None (map_with b k v m).
Proof.
  intros HL [Hch HS Hct] Hb Hk Hp Hok Hl. split.
  - by eapply chains_link.
  - by apply shape_link.
  - eapply content_ext; [|by eapply content_link]. intros. by rewrite kd_cset.
Qed.

(** *** Writing a slot that is on no list, and appending one *)

Lemma kd_sset L i sl sl' j : slots L !! i = Some sl →
  kd (sset L i sl') j = if decide (j = i) then Some (sl_key sl', sl_data sl') else kd L j.
Proof. intros Hi. unfold kd. rewrite (slots_sset _ _ _ sl' j Hi). by case_decide. Qed.

Lemma kd_append L sl j :
  kd (append L sl) j = if decide (j = length (slots L)) then Some (sl_key sl, sl_data sl) else kd L j.
Proof. unfold kd. rewrite slots_append. by case_decide. Qed.

(** The contents of a slot on no list do not matter. *)
Lemma content_out f g sh i D m :
  Shape sh (Some i) → Content f sh D m → (∀ j, j ≠ i → g j = f j) → (D = None ∨ D = Some i) →
  Content g sh (Some i) m.
Proof.
  intros HS [Hcv Hh Hky Hb Hm] Hg HD. pose proof (λ h Hh, sh_out _ _ HS h i Hh eq_refl) as Hout.
  assert (∀ h j, valid_head h → j ∈ sh h → g j = f j) as Hg'.
  { intros h j Hvh Hj. apply Hg. intros ->. by eapply Hout. }
  split.
  - intros j Hj. destruct (decide (j = i)) as [->|Hji]; [by left|]. right. rewrite Hg in Hj by done.
    destruct (Hcv j Hj) as [->|?]; [|done]. by destruct HD; simplify_eq.
  - intros h j k v Hvh Hj. rewrite (Hg' _ _ Hvh Hj). by eapply Hh.
  - intros h x y k v w Hvh Hx Hy. rewrite (Hg' _ _ Hvh Hx), (Hg' _ _ Hvh Hy). by eapply Hky.
  - intros j k v Hj. rewrite (Hg' None j I Hj). by eapply Hb.
  - intros k v. rewrite Hm. pose proof (bucket_valid k) as Hv.
    split; intros (j & Hj & Ej); exists j; (split; [done|]);
      [rewrite (Hg' _ _ Hv Hj)|rewrite <- (Hg' _ _ Hv Hj)]; done.
Qed.

Lemma rep_sset L sh m i sl sl' :
  ok_layout L → Rep L sh (Some i) m → slots L !! i = Some sl → same_len sl sl' →
  ok_layout (sset L i sl') → Rep (sset L i sl') sh (Some i) m.
Proof.
  intros HL [Hch HS Hct] Hi Hs HL'. split; [|done|].
  - intros h Hh. eapply chain_frame; [by apply Hch|intros; by eapply ioff_sset|].
    intros c' Hc'. rewrite (cget_sset _ _ _ _ _ Hi), decide_False; [done|].
    intros ->. destruct Hc' as [E|(j & Hj & E)]; [by apply eq_sym, hcell_slot in E|].
    simplify_eq. by eapply (sh_out _ _ HS).
  - eapply content_out; [done..| |by right]. intros j Hj. rewrite (kd_sset _ _ _ _ _ Hi), decide_False by done. done.
Qed.

Lemma chain_lt L c l i : chain L c l → i ∈ l → (i < length (slots L))%nat.
Proof. intros Hc Hi. destruct (chain_valid _ _ _ _ Hc Hi). by eapply lookup_lt_Some. Qed.

Lemma rep_append L sh m sl :
  Rep L sh None m → Rep (append L sl) sh (Some (length (slots L))) m.
Proof.
  intros [Hch HS Hct].
  assert (∀ h, valid_head h → length (slots L) ∉ sh h) as Hout.
  { intros h Hh Hi. pose proof (chain_lt _ _ _ _ (Hch h Hh) Hi). lia. }
  assert (Shape sh (Some (length (slots L)))) as HS'.
  { destruct HS as [H1 H2 _]. split; [done..|]. intros h i Hh [= <-]. by apply Hout. }
  split; [|done|].
  - intros h Hh. eapply chain_frame; [by apply Hch| |].
    + intros i Hi. apply ioff_append. pose proof (chain_lt _ _ _ _ (Hch h Hh) Hi). lia.
    + intros c' Hc'. rewrite cget_append, decide_False; [done|].
      intros ->. destruct Hc' as [E|(j & Hj & E)]; [by apply eq_sym, hcell_slot in E|].
      simplify_eq. by eapply Hout.
  - eapply content_out; [done..| |by left]. intros j Hj. by rewrite kd_append, decide_False.
Qed.

(** Overwriting the data of a live slot. *)
Lemma rep_data L sh m h i sl v :
  ok_layout L → Rep L sh None m → valid_head (Some h) → i ∈ sh (Some h) → slots L !! i = Some sl →
  zlen v = zlen (sl_data sl) → ok_layout (sset L i (Slot (sl_ptr sl) (sl_key sl) v)) →
  Rep (sset L i (Slot (sl_ptr sl) (sl_key sl) v)) sh None (<[sl_key sl := v]> m).
Proof.
  intros HL [Hch HS [Hcv Hh Hky Hb Hm]] Hvh Hi Hsl Hlen HL'.
  assert (kd L i = Some (sl_key sl, sl_data sl)) as Hkd by (unfold kd; by rewrite Hsl).
  pose proof (Hh _ _ _ _ Hvh Hi Hkd) as Hbk.
  assert (same_len sl (Slot (sl_ptr sl) (sl_key sl) v)) as Hs by (split; [rewrite !drec_len; cbn; lia|done]).
  assert (∀ j k w, kd (sset L i (Slot (sl_ptr sl) (sl_key sl) v)) j = Some (k, w) →
    ∃ w', kd L j = Some (k, w') ∧ w = if decide (j = i) then v else w') as Hk.
  { intros j k w. rewrite (kd_sset _ _ _ _ _ Hsl). case_decide; [|eauto]. intros [= <- <-]. subst. eauto. }
  split; [|done|split].
  - intros h' Hh'. eapply chain_frame; [by apply Hch|intros; by eapply ioff_sset|].
    intros c' _. rewrite (cget_sset _ _ _ _ _ Hsl). case_decide; [|done]. subst. cbn. by rewrite Hsl.
  - intros j [[k w] (w' & Hj & _)%Hk]. apply Hcv. by rewrite Hj.
  - intros h' j k w Hh' Hj (w' & E & _)%Hk. by eapply Hh.
  - intros h' x y k w1 w2 Hh' Hx Hy (w1' & E1 & _)%Hk (w2' & E2 & _)%Hk. by eapply Hky.
  - intros j k w Hj (w' & E & _)%Hk. by eapply Hb.
  - intros k w. rewrite lookup_insert_Some, Hm. setoid_rewrite (kd_sset _ _ _ _ _ Hsl). split.
    + intros [[<- <-]|[Hne (j & Hj & Ej)]].
      * exists i. rewrite decide_True, Hbk by done. done.
      * exists j. rewrite decide_False; [done|]. intros ->. congruence.
    + intros (j & Hj & Ej). case_decide; [left; subst; by simplify_eq/=|]. right. split; [|eauto].
      intros <-. rewrite Hbk in Hj. by destruct (Hky h j i _ _ _ Hvh Hj Hi Ej Hkd).
Qed.

(** *** Updates commute *)

Lemma alter_insert_comm {A} (f : A → A) (l : list A) i j x : i ≠ j →
  alter f i (<[j := x]> l) = <[j := x]> (alter f i l).
Proof.
  intros Hij. apply list_eq. intros n. destruct (decide (n = j)) as [->|Hj]; [|destruct (decide (n = i)) as [->|Hi]].
  - rewrite list_lookup_alter_ne by done. rewrite !list_lookup_insert, length_alter. by rewrite list_lookup_alter_ne.
  - rewrite list_lookup_alter_eq, !list_lookup_insert_ne, list_lookup_alter_eq by done. done.
  - by rewrite list_lookup_alter_ne, !list_lookup_insert_ne, list_lookup_alter_ne by done.
Qed.

Lemma cset_sset L i sl c v : c ≠ CSlot i → cset (sset L i sl) c v = sset (cset L c v) i sl.
Proof.
  intros Hc. destruct c as [|h|j]; [done..|]. unfold cset, sset. cbn [free tab slots].
  f_equal. apply alter_insert_comm. congruence.
Qed.

Lemma cset_comm L c c' v v' : c ≠ c' → cset (cset L c v) c' v' = cset (cset L c' v') c v.
Proof.
  intros Hc. destruct c as [|h|j], c' as [|h'|j']; unfold cset; cbn [free tab slots]; try done; f_equal.
  - apply list_insert_insert_ne. congruence.
  - apply list_alter_alter_ne. congruence.
Qed.

Lemma slots_cset_ne L c v i : c ≠ CSlot i → slots (cset L c v) !! i = slots L !! i.
Proof. intros Hc. destruct c as [|h|j]; [done..|]. apply list_lookup_alter_ne. congruence. Qed.

Lemma pred_not_slot sh h pre i post :
  Shape sh None → valid_head h → sh h = pre ++ i :: post → pred (hcell h) pre ≠ CSlot i.
Proof.
  intros HS Hh E Hp. destruct (pred_cases (hcell h) pre) as [[Ep _]|(j & Hj & Ep)]; rewrite Ep in Hp.
  - by apply hcell_slot in Hp.
  - simplify_eq. pose proof (sh_nodup _ _ HS h Hh) as Hn. rewrite E, NoDup_app in Hn.
    destruct Hn as (_ & Hn & _). apply (Hn i Hj). by left.
Qed.

Lemma pred_not_head h h' pre : h ≠ h' → pred (hcell h) pre ≠ hcell h'.
Proof.
  intros Hh Hp. destruct (pred_cases (hcell h) pre) as [[Ep _]|(j & Hj & Ep)]; rewrite Ep in Hp.
  - by apply hcell_inj in Hp.
  - by apply eq_sym, hcell_slot in Hp.
Qed.

(** Moving a slot from one list to the front of another, with new contents of the
    same length. *)
Lemma rep_move L sh m a b pre i post sl sl' :
  let c := pred (hcell a) pre in
  let m1 := map_without a (sl_key sl) m in
  ok_layout L → Rep L sh None m → valid_head a → valid_head b → a ≠ b →
  sh a = pre ++ i :: post → slots L !! i = Some sl → same_len sl sl' →
  cget L (hcell b) = Some (sl_ptr sl') → ok_slot (doff (slots L) i) sl' → can_link b (sl_key sl') m1 →
  ∃ sh', Rep (cset (sset (cset L c (sl_ptr sl)) i sl') (hcell b) (ioff (slots L) i)) sh' None
             (map_with b (sl_key sl') (sl_data sl') m1).
Proof.
  intros c m1 HL HRep Ha Hb Hab Es Hi Hs Hpb Hok' Hcl.
  pose proof (slot_split _ _ _ HL Hi) as (_ & _ & _ & _ & Hok & _).
  pose proof (rep_chain _ _ _ _ HRep a Ha) as Hca. rewrite Es in Hca.
  pose proof (pred_valid _ _ _ _ _ Hca) as [Hpr _]. fold c in Hpr.
  assert (ok_ptr (ioff (slots L) i)) as Hio by (by destruct (cell_bytes _ _ _ HL Hpr)).
  pose proof (os_ptr _ _ Hok) as Hptr.
  pose proof (pred_not_slot sh a pre i post (rep_shape _ _ _ _ HRep) Ha Es) as Hci. fold c in Hci.
  pose proof (ok_cset _ _ _ _ HL Hpr Hptr) as HL1.
  assert (slots (cset L c (sl_ptr sl)) !! i = Some sl) as Hi1 by (by rewrite slots_cset_ne).
  destruct (ioff_cset L c _ (sl_ptr sl) i HL Hpr Hptr) as [Eio Edo].
  assert (ok_layout (sset (cset L c (sl_ptr sl)) i sl')) as HL2.
  { eapply ok_sset; [done|done|symmetry; apply Hs|by rewrite Edo]. }
  destruct (ioff_sset _ i sl sl' i HL1 Hi1 Hs HL2) as [Eio2 _].
  assert (Rep (cset L c (sl_ptr sl)) (upd a (pre ++ post) sh) (Some i) m1) as HR1.
  { eapply (rep_unlink L sh m a pre i post (sl_key sl) (sl_data sl)); try done; [unfold kd|cbn]; by rewrite Hi. }
  eexists. rewrite <- Eio, <- Eio2. eapply rep_link; try done; [by eapply rep_sset| | |by rewrite Eio2, Eio].
  - by rewrite (kd_sset _ _ _ _ _ Hi1), decide_True by done.
  - rewrite !(cget_sset _ _ _ _ _ Hi1), decide_True, decide_False by (done || apply hcell_slot).
    rewrite (cget_cset _ _ _ _ _ Hpr), decide_False; [done|]. intros E. by apply (pred_not_head a b pre Hab).
Qed.
