(* ===== verification/DbThms.v ===== *)
(** The functions of db.c on a database that represents a finite map. *)

From stdpp Require Import base tactics numbers list gmap strings.
From Stdlib Require Import ZArith Lia.
From S2P Require Import Prelude Cio Db DbRep DbChain.

(** ** What look-ups leave unchanged *)

Record same (d d' : db) : Prop := MkSame {
  same_idx : fdata (idx d') = fdata (idx d);
  same_dat : fdata (dat d') = fdata (dat d);
  same_hashoff : hashoff d' = hashoff d;
  same_nhash : nhash d' = nhash d;
  same_chainoff : chainoff d' = chainoff d;
  same_locks : locks d' = locks d;
  same_cnt : cnt d' = cnt d;
  same_errno : errno d' = errno d }.

#[export] Instance same_preorder : PreOrder same.
Proof. split; [done|]. intros d1 d2 d3 [] []. split; congruence. Qed.

Lemma R_same d d' L : R d L → same d d' → R d' L.
Proof. intros [] []. split; congruence. Qed.

(** The handle holds the index record of slot [i]. *)
Record loaded (d : db) (L : layout) (i : nat) (sl : slot) : Prop := MkLoaded {
  ld_idxoff : idxoff d = ioff (slots L) i;
  ld_datoff : datoff d = doff (slots L) i;
  ld_datlen : datlen d = zlen (drec sl);
  ld_ptrval : ptrval d = sl_ptr sl;
  ld_idxbuf : ∃ tail, idxbuf d = sl_key sl ++ 0 :: tail }.

Lemma loaded_load d L i sl : loaded (load (ioff (slots L) i) (doff (slots L) i) sl d) L i sl.
Proof. split; [done..|]. cbn. unfold loadbuf. eauto. Qed.

Lemma loaded_key d L i sl : loaded d L i sl → ok_key (sl_key sl) → cstr (idxbuf d) = sl_key sl.
Proof. intros [_ _ _ _ [tail ->]] [? _]. by apply cstr_app. Qed.

Lemma same_load d o off sl : same d (load o off sl d).
Proof. done. Qed.

Ltac db_run lem := wp_step; eapply wp_run; [eapply lem|cbn beta].

Lemma slot_ok L i sl : ok_layout L → slots L !! i = Some sl → ok_slot (doff (slots L) i) sl.
Proof. intros HL Hi. by destruct (slot_bytes L i sl HL Hi). Qed.

(** ** The loops *)

Section loops.
Context (L : layout).

(** What a walk along [l] from cell [c] returns: the cell that points to the first
    slot the test accepts, or 0. *)
Definition walked (test : slot → bool) (c : cell) (l : list nat) (d0 : db) (prev offset : Z) (d : db) : Prop :=
  same d0 d ∧
  ((offset = 0 ∧ ∀ i sl, i ∈ l → slots L !! i = Some sl → test sl = false) ∨
   ∃ pre i post sl, l = pre ++ i :: post ∧ slots L !! i = Some sl ∧ test sl = true ∧
     offset = ioff (slots L) i ∧ prev = coff L (pred c pre) ∧ loaded d L i sl).

Lemma walked_skip test c i sl l d0 prev offset d :
  slots L !! i = Some sl → test sl = false →
  walked test (CSlot i) l d0 prev offset d → walked test c (i :: l) d0 prev offset d.
Proof using Type.
  intros Hi Ht [Hs [[H0 H1]|(pre & j & post & sl' & -> & H)]]; split; try done; [left|right].
  - split; [done|]. intros j sl' [->|Hj]%elem_of_cons E; [congruence|by eapply H1].
  - by exists (i :: pre), j, post, sl'.
Qed.

Lemma walked_same test c l d0 d1 prev offset d :
  same d0 d1 → walked test c l d1 prev offset d → walked test c l d0 prev offset d.
Proof using Type. intros Hs [Hs' H]. split; [by etrans|done]. Qed.

Lemma find_loop_run key l : ∀ fuel d c v,
  R d L → chain L c l → cget L c = Some v → (length l < fuel)%nat → ptroff d = coff L c →
  wp (find_loop fuel key v)
     (λ offset d', walked (λ sl, bool_decide (sl_key sl = key)) c l d (ptroff d') offset d') d.
Proof using Type.
  induction l as [|i l IH]; intros [|fuel] d c v HR Hch Hc Hf Hp; try (simpl in Hf; lia).
  - simpl in Hch. cbn [find_loop]. rewrite Hch in Hc. injection Hc as <-. rewrite Z.eqb_refl.
    apply wp_ret. split; [done|]. left. split; [done|]. by intros ? ? ?%elem_of_nil.
  - destruct Hch as [Hci Hl]. rewrite Hci in Hc. injection Hc as <-.
    destruct (chain_head _ _ _ Hl) as [w Hw]. cbn [cget] in Hw.
    destruct (slots L !! i) as [sl|] eqn:Ei; [|done]. cbn in Hw. injection Hw as <-.
    pose proof (slot_ok _ _ _ (R_ok _ _ HR) Ei) as Hok.
    cbn [find_loop]. pose proof (ioff_pos (slots L) i). replace (_ =? 0) with false by lia.
    db_run (readidx_run d L i sl HR Ei). wp_step. rewrite key_load by apply Hok.
    case_bool_decide as Hk.
    + apply wp_ret. split; [done|]. right.
      exists [], i, l, sl. rewrite bool_decide_true by done. split_and!; try done. apply loaded_load.
    + wp_step. eapply wp_mono.
      * apply (IH _ _ (CSlot i) (sl_ptr sl)); [by apply (R_same d)|done|cbn; by rewrite Ei|simpl in Hf; lia|done].
      * intros offset d' Hw. apply (walked_skip _ _ _ sl); [done|by apply bool_decide_false|].
        by eapply walked_same, Hw.
Qed.

Lemma findfree_loop_run keylen dlen l : ∀ fuel d c v,
  R d L → chain L c l → cget L c = Some v → (length l < fuel)%nat →
  wp (findfree_loop fuel keylen dlen (coff L c) v)
     (λ r d', walked (λ sl, (zlen (sl_key sl) =? keylen) && (zlen (drec sl) =? dlen)) c l d r.1 r.2 d') d.
Proof using Type.
  induction l as [|i l IH]; intros [|fuel] d c v HR Hch Hc Hf; try (simpl in Hf; lia).
  - simpl in Hch. rewrite Hch in Hc. injection Hc as <-. cbn [findfree_loop]. rewrite Z.eqb_refl.
    apply wp_ret. split; [done|]. left. split; [done|]. by intros ? ? ?%elem_of_nil.
  - destruct Hch as [Hci Hl]. rewrite Hci in Hc. injection Hc as <-.
    destruct (chain_head _ _ _ Hl) as [w Hw]. cbn [cget] in Hw.
    destruct (slots L !! i) as [sl|] eqn:Ei; [|done]. cbn in Hw. injection Hw as <-.
    pose proof (slot_ok _ _ _ (R_ok _ _ HR) Ei) as Hok.
    cbn [findfree_loop]. pose proof (ioff_pos (slots L) i). replace (_ =? 0) with false by lia.
    db_run (readidx_run d L i sl HR Ei). wp_step. rewrite key_load by apply Hok.
    change (datlen (load _ _ _ _)) with (zlen (drec sl)).
    destruct (_ && _) eqn:Ht.
    + apply wp_ret. split; [done|]. right.
      exists [], i, l, sl. split_and!; try done. apply loaded_load.
    + eapply wp_mono.
      * apply (IH _ _ (CSlot i) (sl_ptr sl)); [by apply R_load|done|cbn; by rewrite Ei|simpl in Hf; lia].
      * intros r d' Hw. apply (walked_skip _ _ _ sl); [done..|]. by eapply walked_same, Hw.
Qed.
End loops.

Lemma ser_idx_length off sls : ok_slots off sls → zlen sls <= zlen (ser_idx off sls).
Proof.
  revert off. induction sls as [|sl sls IH]; intros off; [done|]. intros [Hok Hs].
  cbn [ser_idx]. rewrite zlen_cons, zlen_app, irec_len by done.
  pose proof (IH _ Hs). pose proof (os_len _ _ Hok). unfold IDXLEN_MIN in *. lia.
Qed.

(** The bound on the chain loops is enough. *)
Lemma chain_bound_ok d L c l : R d L → chain L c l → NoDup l → (length l < chain_bound d)%nat.
Proof.
  intros HR Hc Hn. unfold chain_bound. rewrite (R_idx _ _ HR).
  assert (length l <= length (slots L))%nat.
  { rewrite <- (length_seq (length (slots L)) 0). apply submseteq_length, NoDup_submseteq; [done|].
    intros i Hi. apply elem_of_seq. pose proof (chain_lt _ _ _ _ Hc Hi). lia. }
  pose proof (ser_idx_length 0 _ (ol_slots _ (R_ok _ _ HR))). unfold idx_bytes.
  rewrite app_assoc, length_app. unfold zlen in *. lia.
Qed.

(** ** [_db_find_and_lock] *)

Lemma hash_run key d : nhash d = NHASH_DEF → _db_hash key d = (d, Done (Z.of_nat (bucket key))).
Proof.
  intros Hn. unfold _db_hash, gets, bucket. rewrite Hn, Z2Nat.id; [done|].
  apply Z.mod_pos_bound. done.
Qed.

Definition chain_lock (key : list Z) (t : ltype) : lock :=
  Lock IdxFd (HASH_OFF + 7 * Z.of_nat (bucket key)) 1 t.

(** The handle once the chain of [key] is locked. *)
Definition locked (key : list Z) (t : ltype) (d : db) : db :=
  set_locks [chain_lock key t] (set_chainoff (HASH_OFF + 7 * Z.of_nat (bucket key)) d).

Lemma find_and_lock_run d L sh m key w :
  R d L → Rep L sh None m → locks d = [] →
  wp (_db_find_and_lock key w) (λ found d',
    same (locked key (if w then F_WRLCK else F_RDLCK) d) d' ∧
    if found then
      ∃ pre i post sl, sh (Some (bucket key)) = pre ++ i :: post ∧ slots L !! i = Some sl ∧
        sl_key sl = key ∧ ptroff d' = coff L (pred (CTab (bucket key)) pre) ∧ loaded d' L i sl ∧
        m !! key = Some (sl_data sl)
    else m !! key = None) d.
Proof.
  intros HR HRep Hl. pose proof (bucket_valid key) as Hb.
  pose proof (rep_chain _ _ _ _ HRep _ Hb) as Hch. cbn [hcell] in Hch.
  destruct (chain_head _ _ _ Hch) as [v Hv].
  unfold _db_find_and_lock. db_run (hash_run key d (R_nhash _ _ HR)). wp_step. wp_step. wp_step. db_simpl.
  rewrite (R_hashoff _ _ HR).
  replace (Z.of_nat (bucket key) * Z.of_nat PTR_SZ + HASH_OFF)
    with (HASH_OFF + 7 * Z.of_nat (bucket key)) by (unfold PTR_SZ; lia).
  set (t := if w then F_WRLCK else F_RDLCK). set (o := HASH_OFF + 7 * Z.of_nat (bucket key)).
  wp_step. apply (wp_run _ _ _ (set_ptroff o (locked key t d)) tt).
  { destruct w; unfold writew_lock, readw_lock; rewrite set_lock_run by (cbn; rewrite Hl; constructor);
      unfold locked; cbn; by rewrite Hl. }
  assert (R (set_ptroff o (locked key t d)) L) as HR1 by (by destruct HR).
  db_run (readptr_run _ _ (CTab (bucket key)) v HR1 Hv). wp_step. eapply wp_mono.
  { eapply (find_loop_run L key _ _ _ _ v); [by destruct HR| |done| |done]; [exact Hch|].
    eapply (chain_bound_ok _ L); [|done|by apply HRep]. by destruct HR. }
  intros offset d' [Hs Hw]. wp_step. split.
  { etrans; [|exact Hs]. by split; cbn; rewrite ?(R_idx _ _ HR). }
  destruct Hw as [[-> Hnone]|(pre & i & post & sl & E & Hi & Hk & -> & Hp & Hld)].
  - destruct (m !! key) as [x|] eqn:Em; [|done].
    apply (ct_map _ _ _ _ (rep_content _ _ _ _ HRep)) in Em as (i & Hi & Ei).
    unfold kd in Ei. destruct (slots L !! i) as [sl|] eqn:Esl; [|done]. simplify_eq/=.
    pose proof (Hnone i sl Hi Esl) as H. by rewrite bool_decide_true in H.
  - pose proof (ioff_pos (slots L) i). replace (_ =? 0) with false by lia. apply bool_decide_eq_true in Hk.
    exists pre, i, post, sl. split_and!; try done.
    apply (ct_map _ _ _ _ (rep_content _ _ _ _ HRep)). exists i.
    rewrite E, elem_of_app, elem_of_cons. split; [auto|]. unfold kd. rewrite Hi. cbn. congruence.
Qed.

(** ** A database that holds a map *)

Definition holds (d : db) (m : gmap (list Z) (list Z)) : Prop :=
  locks d = [] ∧ ∃ L sh, R d L ∧ Rep L sh None m.

Lemma holds_intro d m L sh : locks d = [] → R d L → Rep L sh None m → holds d m.
Proof. intros. split; eauto. Qed.

Lemma unlock_chain key t d : locks d = [chain_lock key t] →
  chainoff d = HASH_OFF + 7 * Z.of_nat (bucket key) →
  un_lock IdxFd (chainoff d) 1 d = (set_locks [] d, Done tt).
Proof. intros Hl ->. eapply un_lock_run; [exact Hl|constructor]. Qed.

(** Taking and releasing the lock on the free list while a chain is locked. *)
Definition free_lock : lock := Lock IdxFd FREE_OFF 1 F_WRLCK.

Lemma lock_free key t d : locks d = [chain_lock key t] →
  writew_lock IdxFd FREE_OFF 1 d = (set_locks [free_lock; chain_lock key t] d, Done tt).
Proof.
  intros Hl. unfold writew_lock. rewrite set_lock_run, Hl; [done|]. rewrite Hl. constructor; [|constructor].
  unfold same_region. cbn [l_fd l_start l_len]. unfold chain_lock, HASH_OFF, FREE_OFF. cbn [l_start l_len].
  assert ((7 + 7 * Z.of_nat (bucket key) =? 0) = false) as -> by (apply Z.eqb_neq; lia). by rewrite andb_false_r.
Qed.

Lemma unlock_free key t d : locks d = [free_lock; chain_lock key t] →
  un_lock IdxFd FREE_OFF 1 d = (set_locks [chain_lock key t] d, Done tt).
Proof.
  intros Hl. eapply un_lock_run; [exact Hl|]. constructor; [|constructor].
  unfold same_region. cbn [l_fd l_start l_len]. unfold chain_lock, HASH_OFF, FREE_OFF. cbn [l_start l_len].
  assert ((7 + 7 * Z.of_nat (bucket key) =? 0) = false) as -> by (apply Z.eqb_neq; lia). by rewrite andb_false_r.
Qed.

(** ** Deleting *)

Lemma blank_app l k : no_nul l → blank (l ++ 0 :: k) = replicate (length l) SPACE ++ 0 :: k.
Proof.
  induction 1 as [|c l Hc _ IH]; [done|]. simpl. replace (c =? 0) with false by lia. by rewrite IH.
Qed.

Lemma no_nul_replicate n : no_nul (replicate n SPACE).
Proof. apply Forall_replicate. done. Qed.

Lemma ok_key_replicate n : ok_key (replicate n SPACE).
Proof. split; [apply no_nul_replicate|]. intros [? _]%elem_of_replicate. done. Qed.

Lemma cstr_overlay buf l : no_nul l → cstr (overlay buf (l ++ [0])) = l.
Proof. intros H. unfold overlay. rewrite <- app_assoc. by apply cstr_app. Qed.

(** The slot [sl] after deletion, in front of the rest [p] of the free list. *)
Definition blanked (p : Z) (sl : slot) : slot :=
  Slot p (replicate (length (sl_key sl)) SPACE) (replicate (length (sl_data sl)) SPACE).

Lemma blanked_len p sl : same_len sl (blanked p sl).
Proof. unfold same_len. rewrite !drec_len. unfold blanked, zlen. cbn. by rewrite !length_replicate. Qed.

Lemma ok_same_len off sl sl' :
  ok_slot off sl → same_len sl sl' → ok_ptr (sl_ptr sl') → ok_key (sl_key sl') → no_nul (sl_data sl') →
  ok_slot off sl'.
Proof.
  intros [Hp Hk Hd Hl Ho] Hs Hp' Hk' Hn. destruct (id Hs) as [Hdl _]. rewrite !drec_len in Hdl.
  split; [done|done| |by rewrite <- (body_same_len off sl sl')|done].
  destruct Hd as [_ ?]. split; [done|]. lia.
Qed.

Lemma ok_blanked off p sl : ok_slot off sl → ok_ptr p → ok_slot off (blanked p sl).
Proof.
  intros Hok Hp. eapply ok_same_len; [done|apply blanked_len|done|apply ok_key_replicate|apply no_nul_replicate].
Qed.

(** The layout after [_db_dodelete] of slot [i] behind the cell [c]. *)
Definition deleted (L : layout) (i : nat) (sl : slot) (c : cell) : layout :=
  cset (cset (sset L i (blanked (free L) sl)) CFree (ioff (slots L) i)) c (sl_ptr sl).

Lemma sset_sset L i a b : sset (sset L i a) i b = sset L i b.
Proof. unfold sset. cbn. by rewrite list_insert_insert_eq. Qed.

Lemma R_sset d L i sl sl' d' :
  R d L → slots L !! i = Some sl → same_len sl sl' → ok_slot (doff (slots L) i) sl' →
  fdata (idx d') = idx_bytes (sset L i sl') → fdata (dat d') = ser_dat (<[i := sl']> (slots L)) →
  hashoff d' = hashoff d → nhash d' = nhash d → R d' (sset L i sl').
Proof.
  intros [] Hi [Hs _] Hok H1 H2 H3 H4. split; [done|done|congruence|congruence|]. by eapply ok_sset.
Qed.

Lemma R_cset d L c v0 v p :
  R d L → cget L c = Some v0 → ok_ptr v → R (set_idx (File (idx_bytes (cset L c v)) p) d) (cset L c v).
Proof.
  intros [Hi Hd ? ? HL] Hc Hv. split; [done| |done..|by eapply ok_cset]. cbn. rewrite Hd.
  destruct c as [|h|i]; [done..|]. simpl in Hc. destruct (slots L !! i) as [sl|] eqn:Ei; [|done].
  rewrite (cset_slot L i sl) by done. unfold sset. cbn [slots].
  destruct (slot_bytes L i sl HL Ei) as (_ & A & B & C & D & _ & _ & E & _ & Hw).
  destruct (Hw (set_ptr v sl) eq_refl) as [_ ->]. done.
Qed.

Lemma cget_ok L c v : ok_layout L → cget L c = Some v → ok_ptr v.
Proof. intros HL Hc. by destruct (cell_bytes L c v HL Hc). Qed.

Lemma coff_cset L c c' v0 v :
  ok_layout L → cget L c = Some v0 → ok_ptr v → coff (cset L c v) c' = coff L c'.
Proof. intros. destruct c' as [|h|i]; [done..|]. by eapply ioff_cset. Qed.

Lemma coff_sset L i sl sl' c :
  ok_layout L → slots L !! i = Some sl → same_len sl sl' → ok_layout (sset L i sl') →
  coff (sset L i sl') c = coff L c.
Proof. intros. destruct c as [|h|j]; [done..|]. by eapply ioff_sset. Qed.

(** The fields of the handle that a write to the files keeps. *)
Record kept (d d' : db) : Prop := MkKept {
  kept_locks : locks d' = locks d;
  kept_chainoff : chainoff d' = chainoff d;
  kept_cnt : cnt d' = cnt d;
  kept_errno : errno d' = errno d }.

#[export] Instance kept_preorder : PreOrder kept.
Proof. split; [done|]. intros d1 d2 d3 [] []. split; congruence. Qed.

Lemma writedat_R d L i sl v :
  R d L → slots L !! i = Some sl → zlen v = zlen (sl_data sl) → no_nul v →
  let sl' := Slot (sl_ptr sl) (sl_key sl) v in
  same_len sl sl' ∧ ∃ d1, _db_writedat v (doff (slots L) i) SEEK_SET d = (d1, Done tt) ∧
    R d1 (sset L i sl') ∧ kept d d1 ∧
    idxbuf d1 = idxbuf d ∧ idxoff d1 = idxoff d ∧ ptrval d1 = ptrval d ∧ ptroff d1 = ptroff d ∧
    datlen d1 = zlen (drec sl') ∧ datoff d1 = doff (slots (sset L i sl')) i.
Proof.
  intros HR Hi Hv Hn sl'. pose proof (slot_ok _ _ _ (R_ok _ _ HR) Hi) as Hok.
  assert (same_len sl sl') as Hs by (split; [rewrite !drec_len; cbn; lia|done]).
  split; [done|]. eexists. split; [by apply (writedat_run d L i sl)|].
  destruct (slot_bytes L i sl (R_ok _ _ HR) Hi) as (_ & A & B & C & D & E & _ & _ & _ & Hw).
  destruct (Hw sl' (eq_sym (proj1 Hs))) as [Hw' _].
  assert (R (set_dat (File (ser_dat (<[i:=sl']> (slots L))) (doff (slots L) i + zlen (drec sl)))
    (set_datlen (zlen (drec sl)) (set_datoff (doff (slots L) i) d))) (sset L i sl')) as HR'.
  { eapply R_sset; try done.
    - eapply ok_same_len; [done|done|apply Hok|apply Hok|done].
    - db_simpl. rewrite (R_idx _ _ HR), E, Hw'. unfold irec, irec_tail, body. cbn [sl_ptr sl_key].
      by rewrite <- (proj1 Hs). }
  split; [done|]. split_and!; try done; [apply Hs|].
  db_simpl. symmetry. eapply ioff_sset; try done. apply HR. apply HR'.
Qed.

Lemma writeidx_R d L i sl ptr key :
  R d L → slots L !! i = Some sl → datoff d = doff (slots L) i → datlen d = zlen (drec sl) →
  zlen key = zlen (sl_key sl) → ok_key key → ok_ptr ptr →
  let sl' := Slot ptr key (sl_data sl) in
  same_len sl sl' ∧ ∃ d1, _db_writeidx key (ioff (slots L) i) SEEK_SET ptr d = (d1, Done tt) ∧
    R d1 (sset L i sl') ∧ kept d d1 ∧ idxoff d1 = ioff (slots L) i ∧ ptroff d1 = ptroff d.
Proof.
  intros HR Hi Hdo Hdl Hk Hok' Hp sl'. pose proof (slot_ok _ _ _ (R_ok _ _ HR) Hi) as Hok.
  assert (same_len sl sl') as Hs by done.
  split; [done|]. eexists. split; [by apply (writeidx_run d L i sl)|]. split_and!; [|done..].
  destruct (slot_bytes L i sl (R_ok _ _ HR) Hi) as (_ & A & B & C & D & _ & _ & E & _ & Hw).
  destruct (Hw sl' eq_refl) as [_ Hw']. eapply R_sset; try done.
  - eapply ok_same_len; try done. apply Hok.
  - unfold written. db_simpl. by rewrite (R_dat _ _ HR), E, Hw'.
Qed.

Lemma readptr_R d L c v : R d L → cget L c = Some v →
  ∃ d1, _db_readptr (coff L c) d = (d1, Done v) ∧ R d1 L ∧ kept d d1 ∧
    idxbuf d1 = idxbuf d ∧ idxoff d1 = idxoff d ∧ ptrval d1 = ptrval d ∧ datlen d1 = datlen d ∧
    datoff d1 = datoff d ∧ ptroff d1 = ptroff d.
Proof. intros HR Hc. eexists. split; [by eapply readptr_run|]. split_and!; try done. by destruct HR. Qed.

Lemma writeptr_R d L c v0 v : R d L → cget L c = Some v0 → ok_ptr v →
  ∃ d1, _db_writeptr (coff L c) v d = (d1, Done tt) ∧ R d1 (cset L c v) ∧ kept d d1 ∧
    ptroff d1 = ptroff d ∧ idxoff d1 = idxoff d ∧ datoff d1 = datoff d ∧ datlen d1 = datlen d.
Proof. intros HR Hc Hv. eexists. split; [by eapply writeptr_run|]. split; [by eapply R_cset|done]. Qed.

(** The end of [_db_dodelete]: the slot goes on the free list and out of its chain. *)
Lemma relink_run d L i c key t p :
  R d L → idxoff d = ioff (slots L) i → ptroff d = coff L c → is_Some (cget L c) → c ≠ CFree →
  ok_ptr (ioff (slots L) i) → ok_ptr p → locks d = [free_lock; chain_lock key t] →
  wp (let! off := gets idxoff in
      _db_writeptr FREE_OFF off;;;
      let! ptro := gets ptroff in
      _db_writeptr ptro p;;;
      un_lock IdxFd FREE_OFF 1)
    (λ _ d', R d' (cset (cset L CFree (ioff (slots L) i)) c p) ∧
      kept (set_locks [chain_lock key t] d) d') d.
Proof.
  intros HR Hio Hpo [v0 Hc] Hcf Hok Hp Hlk. wp_step. rewrite Hio.
  destruct (writeptr_R d L CFree (free L) _ HR eq_refl Hok) as (d1 & Hrun & HR1 & Hk1 & Hpo1 & _).
  db_run Hrun. wp_step. rewrite Hpo1, Hpo.
  rewrite <- (coff_cset L CFree c (free L) (ioff (slots L) i) (R_ok _ _ HR) eq_refl Hok).
  destruct (writeptr_R d1 _ c v0 p HR1) as (d2 & Hrun2 & HR2 & Hk2 & _); [|done|].
  { rewrite (cget_cset L CFree (free L)), decide_False by done. done. }
  db_run Hrun2. eapply wp_run; [apply (unlock_free key t); destruct Hk1, Hk2; congruence|].
  split; [by destruct HR2|]. destruct Hk1, Hk2. split; cbn; congruence.
Qed.

Lemma dodelete_run d L i sl c key t :
  R d L → slots L !! i = Some sl → loaded d L i sl → ptroff d = coff L c →
  cget L c = Some (ioff (slots L) i) → c ≠ CSlot i → c ≠ CFree → locks d = [chain_lock key t] →
  wp _db_dodelete (λ _ d', R d' (deleted L i sl c) ∧ kept d d') d.
Proof.
  intros HR Hi Hld Hpo Hc Hci Hcf Hlk. pose proof (R_ok _ _ HR) as HL.
  pose proof (slot_ok _ _ _ HL Hi) as Hok. pose proof (cget_ok _ _ _ HL Hc) as Hio.
  pose proof (ol_free _ HL) as Hfr. pose proof (os_data _ _ Hok) as [Hnd Hdl].
  destruct Hld as [Hio' Hdo Hdlen Hpv [tail Hib]].
  unfold _db_dodelete. wp_step. wp_step. db_simpl. rewrite Hib, Hdlen, blank_app by apply Hok.
  db_run (lock_free key t); [done|]. wp_step. db_simpl. rewrite Hdo.
  rewrite drec_len. replace (Z.to_nat _) with (length (sl_data sl)) by (unfold zlen; lia).
  rewrite cstr_overlay by apply no_nul_replicate.
  match goal with |- wp _ _ ?d1 => assert (R d1 L) as HR1 by (by destruct HR) end.
  destruct (writedat_R _ L i sl (replicate (length (sl_data sl)) SPACE) HR1 Hi)
    as (Hs1 & d2 & Hrun & HR2 & Hkp2 & Hxb & Hxo & Hpv2 & Hpo2 & Hdl2 & Hdo2);
    [unfold zlen; by rewrite length_replicate|apply no_nul_replicate|].
  db_run Hrun. clear Hrun. set (sl1 := Slot _ _ _) in *. set (L1 := sset L i sl1) in *.
  destruct (readptr_R _ _ CFree (free L) HR2 eq_refl)
    as (d3 & Hrun & HR3 & Hkp3 & Hxb3 & Hxo3 & Hpv3 & Hdl3 & Hdo3 & Hpo3).
  db_run Hrun. clear Hrun. wp_step. wp_step. db_simpl.
  rewrite Hxb3, Hxb, Hxo3, Hxo, Hpv3, Hpv2. db_simpl. rewrite cstr_app by apply no_nul_replicate.
  rewrite Hio', Hpv.
  assert (slots L1 !! i = Some sl1) as Hi1 by (unfold L1; by rewrite (slots_sset _ _ _ _ _ Hi), decide_True).
  assert (∀ c, coff L1 c = coff L c) as Hco1 by (intros; eapply coff_sset; try done; apply HR2).
  pose proof (Hco1 (CSlot i)) as Eio. cbn [coff] in Eio. rewrite <- Eio.
  destruct (writeidx_R d3 L1 i sl1 (free L) (replicate (length (sl_key sl)) SPACE))
    as (Hs2 & d4 & Hrun & HR4 & Hkp4 & Hxo4 & Hpo4); try done; [congruence..| |apply ok_key_replicate|].
  { unfold zlen. by rewrite length_replicate. }
  db_run Hrun. clear Hrun. unfold L1 in HR4. rewrite sset_sset in HR4.
  change (Slot (free L) _ _) with (blanked (free L) sl) in HR4.
  assert (∀ c, coff (sset L i (blanked (free L) sl)) c = coff L c) as Hco2
    by (intros; eapply coff_sset; try done; [apply blanked_len|apply HR4]).
  pose proof (Hco2 (CSlot i)) as Eio2. cbn [coff] in Eio2.
  eapply wp_mono; [eapply (relink_run d4 _ i c key t (sl_ptr sl) HR4)|].
  - congruence.
  - rewrite Hco2, <- Hpo, Hpo4, Hpo3, Hpo2. done.
  - rewrite (cget_sset _ _ _ _ _ Hi), decide_False by done. eauto.
  - done.
  - by rewrite Eio2.
  - apply Hok.
  - destruct Hkp2, Hkp3, Hkp4. cbn in *. congruence.
  - intros _ d5 [HR5 Hkp5]. rewrite Eio2 in HR5. split; [done|].
    destruct Hkp2, Hkp3, Hkp4, Hkp5. cbn in *. split; congruence.
Qed.

Lemma deleted_eq L i sl c : c ≠ CSlot i → c ≠ CFree →
  deleted L i sl c = cset (sset (cset L c (sl_ptr sl)) i (blanked (free L) sl)) CFree (ioff (slots L) i).
Proof. intros Hi Hf. unfold deleted. by rewrite cset_comm, cset_sset. Qed.

Lemma all_blank_replicate n : all_blank (replicate n SPACE).
Proof. by apply Forall_replicate. Qed.

Lemma rep_deleted L sh m h pre i post sl :
  ok_layout L → Rep L sh None m → valid_head (Some h) → sh (Some h) = pre ++ i :: post →
  slots L !! i = Some sl →
  ∃ sh', Rep (deleted L i sl (pred (CTab h) pre)) sh' None (delete (sl_key sl) m).
Proof.
  intros HL HRep Hh Es Hi.
  rewrite deleted_eq; [|by eapply (pred_not_slot sh (Some h)); [apply HRep|..]|by apply (pred_not_head (Some h) None)].
  eapply (rep_move L sh m (Some h) None pre i post sl (blanked (free L) sl)); try done.
  - apply blanked_len.
  - apply ok_blanked; [by apply slot_ok|apply HL].
  - apply all_blank_replicate.
Qed.

Lemma doff_end L : doff (slots L) (length (slots L)) = zlen (ser_dat (slots L)).
Proof. unfold doff. by rewrite take_ge. Qed.

Lemma length_slots_cset L c v : length (slots (cset L c v)) = length (slots L).
Proof. destruct c; [done..|]. apply length_alter. Qed.

(** The sizes of the two files. *)
Definition size (L : layout) : Z * Z := (zlen (idx_bytes L), zlen (ser_dat (slots L))).

Lemma size_eq L : ok_layout L →
  size L = (ioff (slots L) (length (slots L)), doff (slots L) (length (slots L))).
Proof. intros HL. unfold size. by rewrite ioff_end, doff_end. Qed.

Lemma size_cset L c v0 v : ok_layout L → cget L c = Some v0 → ok_ptr v → size (cset L c v) = size L.
Proof.
  intros HL Hc Hv. rewrite !size_eq, length_slots_cset by (done || by eapply ok_cset).
  by destruct (ioff_cset L c v0 v (length (slots L)) HL Hc Hv) as [-> ->].
Qed.

Lemma size_sset L i sl sl' : ok_layout L → slots L !! i = Some sl → same_len sl sl' →
  ok_layout (sset L i sl') → size (sset L i sl') = size L.
Proof.
  intros HL Hi Hs HL'. rewrite !size_eq by done.
  assert (length (slots (sset L i sl')) = length (slots L)) as -> by apply length_insert.
  by destruct (ioff_sset L i sl sl' (length (slots L)) HL Hi Hs HL') as [-> ->].
Qed.

Lemma size_R d L : R d L → size L = (zlen (fdata (idx d)), zlen (fdata (dat d))).
Proof. intros HR. unfold size. by rewrite (R_idx _ _ HR), (R_dat _ _ HR). Qed.

(** Moving a slot between lists keeps the sizes of the files. *)
Lemma moved_size L i sl sl' c b v0 v1 v :
  ok_layout L → slots L !! i = Some sl → cget L c = Some v0 → c ≠ CSlot i → same_len sl sl' →
  ok_slot (doff (slots L) i) sl' → cget L b = Some v1 → b ≠ c → b ≠ CSlot i → ok_ptr v →
  size (cset (sset (cset L c (sl_ptr sl)) i sl') b v) = size L.
Proof.
  intros HL Hi Hc Hci Hs Hok' Hb Hbc Hbi Hv. pose proof (os_ptr _ _ (slot_ok _ _ _ HL Hi)) as Hsp.
  pose proof (ok_cset _ _ _ _ HL Hc Hsp) as HL1.
  assert (slots (cset L c (sl_ptr sl)) !! i = Some sl) as Hi1 by (by rewrite slots_cset_ne).
  assert (ok_layout (sset (cset L c (sl_ptr sl)) i sl')) as HL2.
  { eapply ok_sset; [done|done|symmetry; apply Hs|].
    by rewrite (proj2 (ioff_cset L c v0 (sl_ptr sl) i HL Hc Hsp)). }
  rewrite (size_cset _ _ v1); [by rewrite (size_sset _ _ sl), (size_cset _ _ v0)|done| |done].
  by rewrite (cget_sset _ _ _ _ _ Hi1), decide_False, (cget_cset _ _ _ _ _ Hc), decide_False by done.
Qed.

Lemma deleted_size L i sl c :
  ok_layout L → slots L !! i = Some sl → cget L c = Some (ioff (slots L) i) → c ≠ CSlot i → c ≠ CFree →
  size (deleted L i sl c) = size L.
Proof.
  intros HL Hi Hc Hci Hcf. rewrite deleted_eq by done.
  eapply moved_size; try done; [apply blanked_len|apply ok_blanked; [by apply slot_ok|apply HL]|].
  by eapply cget_ok.
Qed.

Lemma locked_R key t d L : R d L → R (locked key t d) L.
Proof. by intros []. Qed.

(** Deleting the record that [_db_find_and_lock] has found. *)
Lemma delete_found_run d L sh m key t pre i post sl :
  R d L → Rep L sh None m → sh (Some (bucket key)) = pre ++ i :: post → slots L !! i = Some sl →
  sl_key sl = key → ptroff d = coff L (pred (CTab (bucket key)) pre) → loaded d L i sl →
  locks d = [chain_lock key t] →
  wp _db_dodelete (λ _ d', kept d d' ∧
    ∃ L' sh', R d' L' ∧ Rep L' sh' None (delete key m) ∧ size L' = size L) d.
Proof.
  intros HR HRep Es Hi Hk Hp Hld Hl. pose proof (bucket_valid key) as Hb.
  pose proof (rep_chain _ _ _ _ HRep _ Hb) as Hch. rewrite Es in Hch.
  pose proof (pred_valid _ _ _ _ _ Hch) as [Hpr _]. cbn [hcell] in Hpr.
  assert (pred (CTab (bucket key)) pre ≠ CSlot i) as Hp1
    by (by eapply (pred_not_slot sh (Some (bucket key))); [apply HRep|..]).
  assert (pred (CTab (bucket key)) pre ≠ CFree) as Hp2 by (by apply (pred_not_head (Some (bucket key)) None)).
  eapply wp_mono; [by eapply (dodelete_run d L i sl (pred (CTab (bucket key)) pre))|].
  - intros _ d' [HR' Hkp]. split; [done|].
    pose proof (deleted_size L i sl _ (R_ok _ _ HR) Hi Hpr Hp1 Hp2) as Hsz.
    destruct (rep_deleted L sh m _ pre i post sl (R_ok _ _ HR) HRep Hb Es Hi) as [sh' HRep'].
    rewrite Hk in HRep'. eauto.
Qed.

Lemma delete_spec d m key :
  holds d m →
  wp (db_delete key) (λ rc d', holds d' (delete key m) ∧ rc = (if m !! key is Some _ then 0 else -1) ∧
    errno d' = errno d ∧
    zlen (fdata (idx d')) = zlen (fdata (idx d)) ∧ zlen (fdata (dat d')) = zlen (fdata (dat d)) ∧
    cnt d' = (if m !! key is Some _ then inc_cnt_delok else inc_cnt_delerr) (cnt d)) d.
Proof.
  intros (Hl & L & sh & HR & HRep). unfold db_delete.
  wp_call (find_and_lock_run d L sh m key true); [done..|]. intros found d1 [Hs Hf].
  assert (R d1 L) as HR1 by (eapply R_same; [|exact Hs]; by apply locked_R).
  pose proof (same_locks _ _ Hs) as Hl1. pose proof (same_chainoff _ _ Hs) as Hc1. cbn in Hl1, Hc1.
  destruct found.
  - destruct Hf as (pre & i & post & sl & Es & Hi & Hk & Hp & Hld & ->). wp_step.
    wp_call (delete_found_run d1 L sh m key F_WRLCK pre i post sl); [done..|].
    intros _ d2 ([Hl2 Hc2 Hn2 He2] & L' & sh' & HR2 & HRep2 & Hsz). wp_step. wp_step. wp_step. wp_step.
    eapply wp_run; [apply (unlock_chain key F_WRLCK); cbn; congruence|]. wp_step.
    rewrite (size_R _ _ HR), (size_R _ _ HR2) in Hsz. injection Hsz as Hsi Hsd.
    split_and!; [|done|cbn; by rewrite He2, (same_errno _ _ Hs)|done|done|cbn; by rewrite Hn2, (same_cnt _ _ Hs)].
    eapply holds_intro; [done| |exact HRep2]. by destruct HR2.
  - rewrite Hf. wp_step. wp_step. wp_step. wp_step.
    eapply wp_run; [apply (unlock_chain key F_WRLCK); cbn; congruence|]. wp_step.
    destruct Hs as [Hsi Hsd _ _ _ _ Hsn Hse]. cbn in Hsi, Hsd, Hsn, Hse.
    split_and!; [|done|cbn; congruence..].
    eapply holds_intro; [done| |by rewrite delete_id]. by destruct HR1.
Qed.

Lemma fetch_spec d m key :
  holds d m →
  wp (db_fetch key) (λ r d', holds d' m ∧ r = m !! key ∧ errno d' = errno d ∧
    fdata (idx d') = fdata (idx d) ∧ fdata (dat d') = fdata (dat d) ∧
    cnt d' = (if m !! key is Some _ then inc_cnt_fetchok else inc_cnt_fetcherr) (cnt d)) d.
Proof.
  intros (Hl & L & sh & HR & HRep). unfold db_fetch.
  wp_call (find_and_lock_run d L sh m key false); [done..|]. intros found d1 [Hs Hf].
  assert (R d1 L) as HR1 by (eapply R_same; [|exact Hs]; by apply locked_R).
  destruct Hs as [Hsi Hsd _ _ Hc1 Hl1 Hn He]. cbn in *.
  destruct found.
  - destruct Hf as (pre & i & post & sl & Es & Hi & Hk & Hp & [_ Hdo Hdl _ _] & ->). wp_step.
    db_run (readdat_run d1 L i sl HR1 Hi Hdo Hdl). wp_step. wp_step. wp_step. wp_step.
    eapply wp_run; [apply (unlock_chain key F_RDLCK); cbn; congruence|]. wp_step.
    split_and!; [|done|cbn; congruence..]. eapply holds_intro; [done| |exact HRep]. by destruct HR1.
  - rewrite Hf. wp_step. wp_step. wp_step. wp_step.
    eapply wp_run; [apply (unlock_chain key F_RDLCK); cbn; congruence|]. wp_step.
    split_and!; [|done|cbn; congruence..]. eapply holds_intro; [done| |exact HRep]. by destruct HR1.
Qed.

(** ** Storing *)

(** What [db_store] needs of its arguments for a record at the end of the data
    file: printable fields, an index record of a legal length, and an index file
    whose size still fits the chain pointers. *)
Record storable (d : db) (key data : list Z) : Prop := MkStorable {
  st_key : ok_key key;
  st_data : ok_data data;
  st_len : IDXLEN_MIN <= zlen (body (zlen (fdata (dat d))) (Slot 0 key data)) <= IDXLEN_MAX;
  st_dat : zlen (fdata (dat d)) < dec_max;
  st_idx : zlen (fdata (idx d)) <= PTR_MAX }.

Lemma storable_slot d L key data ptr :
  R d L → storable d key data → ok_ptr ptr →
  ok_slot (zlen (ser_dat (slots L))) (Slot ptr key data) ∧ ok_ptr (ioff (slots L) (length (slots L))).
Proof.
  intros HR [Hk Hd Hl Hdm Hi] Hp. rewrite (R_dat _ _ HR) in *. rewrite (R_idx _ _ HR) in Hi.
  rewrite (ioff_end _ (R_ok _ _ HR)). split.
  - split; try done. split; [apply zlen_nonneg|done].
  - split; [apply zlen_nonneg|done].
Qed.

Lemma unlocked_chain_dat key t : unlocked DatFd 0 0 [chain_lock key t].
Proof. by repeat constructor. Qed.
Lemma unlocked_chain_end o key t : unlocked IdxFd o 0 [chain_lock key t].
Proof. constructor; [|constructor]. unfold same_region. cbn. by rewrite andb_false_r. Qed.

(** Appending a data record and its index record. *)
Lemma append_R d L key' t sl :
  R d L → ok_slot (zlen (ser_dat (slots L))) sl → locks d = [chain_lock key' t] →
  ∃ d1 d2, _db_writedat (sl_data sl) 0 SEEK_END d = (d1, Done tt) ∧
    _db_writeidx (sl_key sl) 0 SEEK_END (sl_ptr sl) d1 = (d2, Done tt) ∧
    R d2 (append L sl) ∧ kept d d2 ∧ idxoff d2 = ioff (slots L) (length (slots L)).
Proof.
  intros HR Hok Hl. pose proof (R_ok _ _ HR) as HL. pose proof (os_data _ _ Hok) as [_ Hd].
  pose proof (drec_len sl) as Hdr.
  destruct (append_bytes L sl) as [Ei Ed].
  eexists _, _. split; [apply writedat_end; [rewrite Hl; apply unlocked_chain_dat|lia]|].
  split; [apply writeidx_end; db_simpl|].
  - rewrite Hl. apply unlocked_chain_end.
  - lia.
  - by rewrite (R_dat _ _ HR).
  - split_and!; [|done|unfold written; db_simpl; by rewrite (R_idx _ _ HR), ioff_end].
    destruct HR as [Hi Hda Hh Hn _]. unfold written. split; db_simpl; try done.
    + by rewrite Ei, Hi, Hda.
    + by rewrite Ed, Hda.
    + by apply ok_append.
Qed.

Lemma rep_appended L sh m key data ptr :
  ok_layout L → Rep L sh None m → cget L (CTab (bucket key)) = Some ptr →
  ok_slot (zlen (ser_dat (slots L))) (Slot ptr key data) → ok_ptr (ioff (slots L) (length (slots L))) →
  m !! key = None →
  ∃ sh', Rep (cset (append L (Slot ptr key data)) (CTab (bucket key)) (ioff (slots L) (length (slots L))))
             sh' None (<[key := data]> m).
Proof.
  intros HL HRep Hc Hok Hp Hm. pose proof (ok_append _ _ HL Hok) as HL'.
  destruct (ioff_append L (Slot ptr key data) (length (slots L)) (le_n _)) as [Eio _].
  eexists. rewrite <- Eio.
  eapply (rep_link _ _ _ (Some (bucket key)) (length (slots L)) key data); try done.
  - by apply rep_append.
  - apply bucket_valid.
  - by rewrite kd_append, decide_True.
  - cbn [hcell]. by rewrite !cget_append, decide_True, decide_False, Hc.
  - by rewrite Eio.
Qed.

(** A store makes the files at most this much larger. *)
Definition grows (L L' : layout) : Prop :=
  (size L').1 <= (size L).1 + 1035 ∧ (size L').2 <= (size L).2 + 1024.

Lemma grows_same L L' : size L' = size L → grows L L'.
Proof. unfold grows. intros ->. lia. Qed.

Lemma grows_append L sl c v0 v :
  ok_layout L → ok_slot (zlen (ser_dat (slots L))) sl → cget (append L sl) c = Some v0 → ok_ptr v →
  grows L (cset (append L sl) c v).
Proof.
  intros HL Hok Hc Hv. unfold grows. rewrite (size_cset _ _ v0) by (done || by apply ok_append).
  unfold size. cbn [fst snd]. destruct (append_bytes L sl) as [-> ->]. rewrite !zlen_app, irec_len, drec_len by done.
  destruct Hok as [_ _ [_ ?] [? ?] _]. unfold IDXLEN_MAX in *. lia.
Qed.

(** Adding a record at the end of the files and at the front of its chain. *)
Lemma store_append_run d L sh m key data t (upd_cnt : counts → counts) :
  R d L → Rep L sh None m → storable d key data → m !! key = None →
  locks d = [chain_lock key t] → chainoff d = coff L (CTab (bucket key)) →
  ∀ ptr, cget L (CTab (bucket key)) = Some ptr →
  wp (_db_writedat data 0 SEEK_END;;;
      _db_writeidx key 0 SEEK_END ptr;;;
      let! d := get in
      _db_writeptr (chainoff d) (idxoff d);;;
      modify (λ d, set_cnt (upd_cnt (cnt d)) d);;;
      ret 0)
    (λ rc d', rc = 0 ∧ locks d' = locks d ∧ chainoff d' = chainoff d ∧ errno d' = errno d ∧
      cnt d' = upd_cnt (cnt d) ∧
      ∃ L' sh', R d' L' ∧ Rep L' sh' None (<[key := data]> m) ∧ grows L L') d.
Proof.
  intros HR HRep Hst Hm Hl Hco ptr Hc. pose proof (R_ok _ _ HR) as HL.
  pose proof (cget_ok _ _ _ HL Hc) as Hpt.
  destruct (storable_slot d L key data ptr HR Hst Hpt) as [Hok Hio].
  destruct (append_R d L key t _ HR Hok Hl) as (d1 & d2 & H1 & H2 & HR2 & Hk2 & Hx2).
  cbn [sl_data sl_key sl_ptr] in H1, H2. db_run H1. db_run H2. wp_step. rewrite (kept_chainoff _ _ Hk2), Hco, Hx2.
  change (coff L (CTab (bucket key))) with (coff (append L (Slot ptr key data)) (CTab (bucket key))).
  destruct (writeptr_R d2 _ (CTab (bucket key)) ptr _ HR2 Hc Hio) as (d3 & H3 & HR3 & Hk3 & _).
  db_run H3. wp_step. wp_step. destruct Hk2, Hk3. cbn [coff] in *. db_simpl.
  split_and!; [done|congruence..|].
  destruct (rep_appended L sh m key data ptr HL HRep Hc Hok Hio Hm) as [sh' HRep'].
  eexists _, sh'. split_and!; [|exact HRep'|by eapply grows_append]. by destruct HR3.
Qed.

Lemma findfree_run d L sh m key t keylen dlen :
  R d L → Rep L sh None m → locks d = [chain_lock key t] →
  wp (_db_findfree keylen dlen) (λ reuse d', kept d d' ∧
    if reuse then
      ∃ pre i post sl, sh None = pre ++ i :: post ∧ slots L !! i = Some sl ∧
        zlen (sl_key sl) = keylen ∧ zlen (drec sl) = dlen ∧
        R d' (cset L (pred CFree pre) (sl_ptr sl)) ∧ idxoff d' = ioff (slots L) i ∧
        datoff d' = doff (slots L) i
    else R d' L ∧ ∀ i sl, i ∈ sh None → slots L !! i = Some sl →
      zlen (sl_key sl) = keylen → zlen (drec sl) ≠ dlen) d.
Proof.
  intros HR HRep Hl. pose proof (rep_chain _ _ _ _ HRep None I) as Hch. cbn [hcell] in Hch.
  unfold _db_findfree. db_run (lock_free key t); [done|].
  assert (R (set_locks [free_lock; chain_lock key t] d) L) as HR1 by (by destruct HR).
  destruct (readptr_R _ _ CFree (free L) HR1 eq_refl) as (d1 & Hrun & HR2 & [Hl1 Hc1 Hn1 He1] & _).
  db_run Hrun. wp_step. wp_step. eapply wp_mono.
  { apply (findfree_loop_run L keylen dlen (sh None) _ d1 CFree (free L)); [done|done|done|].
    eapply chain_bound_ok; [done..|by apply HRep]. }
  intros [prev offset] d2 [Hs Hw]. cbn [fst snd] in *. destruct Hs as [Hsi Hsd Hsh Hsn Hsc Hsl Hscn Hse].
  assert (R d2 L) as HR3 by (destruct HR2; split; congruence). cbn in Hl1, Hc1, Hn1, He1.
  destruct Hw as [[-> Hnone]|(pre & i & post & sl & Es & Hi & Ht & -> & -> & [Hxo Hdo Hdl Hpv _])].
  - rewrite Z.eqb_refl. wp_step. wp_step. eapply wp_run; [apply (unlock_free key t); congruence|]. wp_step.
    split; [split; cbn; congruence|]. split; [by destruct HR3|].
    intros i sl Hin Hi Hk Hd. specialize (Hnone i sl Hin Hi). lia.
  - pose proof (ioff_pos (slots L) i). replace (_ =? 0) with false by lia. wp_step. wp_step. rewrite Hpv.
    rewrite Es in Hch. pose proof (pred_valid _ _ _ _ _ Hch) as [Hpr _].
    destruct (writeptr_R d2 L _ _ (sl_ptr sl) HR3 Hpr) as (d3 & Hrun3 & HR4 & [Hl3 Hc3 Hn3 He3] & _ & Hxo3 & Hdo3 & _).
    { apply (slot_ok _ _ _ (R_ok _ _ HR) Hi). }
    eapply wp_run; [exact Hrun3|]. wp_step. eapply wp_run; [apply (unlock_free key t); congruence|]. wp_step.
    split; [split; cbn; congruence|].
    exists pre, i, post, sl. split_and!; try done; [lia|lia|by destruct HR4|cbn; congruence..].
Qed.

(** Both records of slot [i] replaced by records of the same lengths, then the slot
    put at the front of the chain of [key]. *)
Lemma store_reuse_run d L i sl key data ptr v0 :
  R d L → slots L !! i = Some sl → zlen (sl_key sl) = zlen key → zlen (sl_data sl) = zlen data →
  ok_key key → no_nul data → ok_ptr ptr → idxoff d = ioff (slots L) i → datoff d = doff (slots L) i →
  cget L (CTab (bucket key)) = Some v0 → chainoff d = coff L (CTab (bucket key)) →
  ok_ptr (ioff (slots L) i) →
  wp (let! off := gets datoff in
      _db_writedat data off SEEK_SET;;;
      let! off := gets idxoff in
      _db_writeidx key off SEEK_SET ptr;;;
      let! d := get in
      _db_writeptr (chainoff d) (idxoff d);;;
      modify (λ d, set_cnt (inc_cnt_stor2 (cnt d)) d);;;
      ret 0)
    (λ rc d', rc = 0 ∧ locks d' = locks d ∧ chainoff d' = chainoff d ∧ errno d' = errno d ∧
      cnt d' = inc_cnt_stor2 (cnt d) ∧
      R d' (cset (sset L i (Slot ptr key data)) (CTab (bucket key)) (ioff (slots L) i))) d.
Proof.
  intros HR Hi Hkl Hdl Hk Hd Hp Hxo Hdo Hc Hco Hio. pose proof (R_ok _ _ HR) as HL. wp_step. rewrite Hdo.
  destruct (writedat_R d L i sl data HR Hi (eq_sym Hdl) Hd)
    as (Hs1 & d1 & H1 & HR1 & [Hl1 Hc1 Hn1 He1] & _ & Hxo1 & _ & _ & Hdl1 & Hdo1).
  db_run H1. wp_step. rewrite Hxo1, Hxo. set (sl1 := Slot _ _ _) in *. set (L1 := sset L i sl1) in *.
  assert (slots L1 !! i = Some sl1) as Hi1 by (unfold L1; by rewrite (slots_sset _ _ _ _ _ Hi), decide_True).
  pose proof (coff_sset L i sl sl1 (CSlot i) HL Hi Hs1 (R_ok _ _ HR1)) as Eio. cbn [coff] in Eio. fold L1 in Eio.
  rewrite <- Eio.
  destruct (writeidx_R d1 L1 i sl1 ptr key HR1 Hi1 Hdo1 Hdl1 (eq_sym Hkl) Hk Hp)
    as (Hs2 & d2 & H2 & HR2 & [Hl2 Hc2 Hn2 He2] & Hxo2 & _).
  db_run H2. wp_step. rewrite Hxo2, Hc2, Hc1, Hco, Eio. unfold L1 in HR2. rewrite sset_sset in HR2.
  destruct (writeptr_R d2 _ (CTab (bucket key)) v0 (ioff (slots L) i) HR2) as (d3 & H3 & HR3 & [Hl3 Hc3 Hn3 He3] & _);
    [done|done|].
  db_run H3. wp_step. wp_step. db_simpl. split_and!; [done|congruence..|]. by destruct HR3.
Qed.

Lemma chain_cell_cget L sh D m key : Rep L sh D m → is_Some (cget L (CTab (bucket key))).
Proof.
  intros HRep. destruct (chain_head _ _ _ (rep_chain _ _ _ _ HRep _ (bucket_valid key))) as [v Hv].
  by exists v.
Qed.

(** The branch of [db_store] for a key that is not in the database. *)
Lemma store_insert_run d L sh m key data t flag :
  R d L → Rep L sh None m → storable d key data → m !! key = None → flag ≠ DB_REPLACE →
  locks d = [chain_lock key t] → chainoff d = coff L (CTab (bucket key)) →
  wp (store_body key data flag false)
    (λ rc d', rc = 0 ∧ locks d' = locks d ∧ chainoff d' = chainoff d ∧ errno d' = errno d ∧
      (cnt d' = inc_cnt_stor1 (cnt d) ∨ cnt d' = inc_cnt_stor2 (cnt d)) ∧
      ∃ L' sh', R d' L' ∧ Rep L' sh' None (<[key := data]> m) ∧ grows L L') d.
Proof.
  intros HR HRep Hst Hm Hfl Hl Hco. pose proof (R_ok _ _ HR) as HL. unfold store_body.
  cbn [negb]. replace (flag =? DB_REPLACE) with false by lia. wp_step. rewrite Hco.
  destruct (chain_cell_cget _ _ _ _ key HRep) as [ptr Hc].
  destruct (readptr_R _ _ _ _ HR Hc) as (d1 & H1 & HR1 & Hk1 & _). db_run H1.
  wp_call (findfree_run d1 L sh m key t); [done|done|by destruct Hk1; congruence|].
  intros reuse d2 [Hk2 Hw]. assert (kept d d2) as [Hl2 Hc2 Hn2 He2] by (by etrans).
  destruct reuse; cbn [negb].
  - destruct Hw as (pre & i & post & sl & Es & Hi & Hkl & Hdl & HR2 & Hxo & Hdo).
    pose proof (rep_chain _ _ _ _ HRep None I) as Hch. rewrite Es in Hch.
    pose proof (pred_valid _ _ _ _ _ Hch) as [Hpr _]. cbn [hcell] in Hpr.
    pose proof (slot_ok _ _ _ HL Hi) as Hok. pose proof (os_ptr _ _ Hok) as Hsp.
    destruct (ioff_cset L _ _ (sl_ptr sl) i HL Hpr Hsp) as [Eio Edo]. rewrite drec_len in Hdl.
    pose proof (pred_not_slot sh None pre i post (rep_shape _ _ _ _ HRep) I Es) as Hpi. cbn [hcell] in Hpi.
    eapply wp_mono; [eapply (store_reuse_run d2 _ i sl _ _ _ ptr HR2)|].
    + by rewrite slots_cset_ne.
    + done.
    + lia.
    + apply Hst.
    + apply Hst.
    + by eapply cget_ok.
    + congruence.
    + congruence.
    + rewrite (cget_cset _ _ _ _ _ Hpr), decide_False; [done|]. intros E.
      by apply (pred_not_head None (Some (bucket key)) pre).
    + rewrite (coff_cset _ _ _ _ _ HL Hpr Hsp). congruence.
    + rewrite Eio. by eapply cget_ok.
    + cbn beta. intros rc d3 (-> & Hl3 & Hc3 & He3 & Hn3 & HR3). split_and!; [done|congruence..|right; congruence|].
      assert (same_len sl (Slot ptr key data)) as Hs by (split; [rewrite !drec_len; cbn [sl_data]; lia|done]).
      assert (ok_slot (doff (slots L) i) (Slot ptr key data)) as Hok'
        by (eapply ok_same_len; [done|done|by eapply cget_ok|apply Hst|apply Hst]).
      destruct (rep_move L sh m None (Some (bucket key)) pre i post sl (Slot ptr key data)) as [sh' HRep']; try done.
      * apply bucket_valid.
      * cbn [hcell] in HRep'. rewrite Eio in HR3. eexists _, sh'. split_and!; [done..|]. apply grows_same.
        eapply moved_size; try done.
        -- intros E. by apply (pred_not_head None (Some (bucket key)) pre).
        -- by eapply cget_ok.
  - destruct Hw as [HR2 _]. eapply wp_mono.
    { eapply (store_append_run d2 L sh m key data t); try done; [|congruence..].
      destruct Hst. destruct HR, HR2. split; congruence. }
    cbn beta. intros rc d3 (-> & Hl3 & Hc3 & He3 & Hn3 & HX). split_and!; [done|congruence..|left; congruence|done].
Qed.

(** The branches of [db_store] for a key that is in the database. *)
Lemma store_found_run d L sh m key data t flag pre i post sl :
  R d L → Rep L sh None m → storable d key data → flag ≠ DB_INSERT →
  sh (Some (bucket key)) = pre ++ i :: post → slots L !! i = Some sl → sl_key sl = key →
  ptroff d = coff L (pred (CTab (bucket key)) pre) → loaded d L i sl →
  locks d = [chain_lock key t] → chainoff d = coff L (CTab (bucket key)) →
  wp (store_body key data flag true)
    (λ rc d', rc = 0 ∧ locks d' = locks d ∧ chainoff d' = chainoff d ∧ errno d' = errno d ∧
      cnt d' = (if zlen data =? zlen (sl_data sl) then inc_cnt_stor4 else inc_cnt_stor3) (cnt d) ∧
      ∃ L' sh', R d' L' ∧ Rep L' sh' None (<[key := data]> m) ∧ grows L L') d.
Proof.
  intros HR HRep Hst Hfl Es Hi Hk Hp Hld Hl Hco. pose proof (R_ok _ _ HR) as HL. unfold store_body.
  cbn [negb]. replace (flag =? DB_INSERT) with false by lia. wp_step.
  rewrite (ld_datlen _ _ _ _ Hld), drec_len.
  replace (_ + 1 =? _) with (zlen data =? zlen (sl_data sl)) by lia. destruct (_ =? _) eqn:E; cbn [negb].
  - wp_step. rewrite (ld_datoff _ _ _ _ Hld).
    destruct (writedat_R d L i sl data HR Hi) as (Hs & d1 & H1 & HR1 & [Hl1 Hc1 Hn1 He1] & _);
      [lia|apply Hst|]. db_run H1. wp_step. wp_step. db_simpl.
    split_and!; [done|congruence..|]. eexists _, sh. split; [by destruct HR1|].
    split; [|apply grows_same; by eapply size_sset, HR1]. rewrite <- Hk.
    eapply (rep_data L sh m (bucket key)); try done; [apply bucket_valid| |lia|apply HR1].
    rewrite Es, elem_of_app, elem_of_cons. auto.
  - wp_call (delete_found_run d L sh m key t pre i post sl); [done..|].
    intros _ d1 ([Hl1 Hc1 Hn1 He1] & L1 & sh1 & HR1 & HRep1 & Hsz). wp_step.
    rewrite Hc1, Hco. change (coff L (CTab (bucket key))) with (coff L1 (CTab (bucket key))).
    destruct (chain_cell_cget _ _ _ _ key HRep1) as [ptr Hc].
    destruct (readptr_R _ _ _ _ HR1 Hc) as (d2 & H2 & HR2 & [Hl2 Hc2 Hn2 He2] & _). db_run H2.
    rewrite <- (insert_delete_eq m key data).
    eapply wp_mono; [eapply (store_append_run d2 L1 sh1 _ key data t inc_cnt_stor3)|].
    + done.
    + done.
    + rewrite (size_R _ _ HR), (size_R _ _ HR2) in Hsz. injection Hsz as Ei Ed. destruct Hst. split; rewrite ?Ed, ?Ei; done.
    + apply lookup_delete_eq.
    + congruence.
    + rewrite Hc2, Hc1. exact Hco.
    + done.
    + cbn beta. intros rc d3 (-> & Hl3 & Hc3 & He3 & Hn3 & HX).
      split_and!; [done|congruence|rewrite Hc3, Hc2, Hc1, Hco; done|congruence|congruence|].
      unfold grows in HX. by rewrite Hsz in HX.
Qed.

(** What [db_store] returns, given the old record of the key. *)
Definition store_rc (flag : Z) (old : option (list Z)) : Z :=
  match old with
  | None => if flag =? DB_REPLACE then -1 else 0
  | Some _ => if flag =? DB_INSERT then 1 else 0
  end.

Definition valid_flag (flag : Z) : Prop := flag = DB_INSERT ∨ flag = DB_REPLACE ∨ flag = DB_STORE.

Lemma storable_check data : ok_data data →
  (zlen data + 1 <? DATLEN_MIN) || (DATLEN_MAX <? zlen data + 1) = false.
Proof. intros [_ ?]. unfold DATLEN_MIN, DATLEN_MAX. lia. Qed.

Lemma store_body_spec d L sh m key data flag (found : bool) d0 :
  R d0 L → Rep L sh None m → storable d0 key data → valid_flag flag →
  same (locked key F_WRLCK d0) d →
  (if found then
      ∃ pre i post sl, sh (Some (bucket key)) = pre ++ i :: post ∧ slots L !! i = Some sl ∧
        sl_key sl = key ∧ ptroff d = coff L (pred (CTab (bucket key)) pre) ∧ loaded d L i sl ∧
        m !! key = Some (sl_data sl)
   else m !! key = None) →
  wp (store_body key data flag found)
    (λ rc d', rc = store_rc flag (m !! key) ∧ locks d' = [chain_lock key F_WRLCK] ∧
      chainoff d' = HASH_OFF + 7 * Z.of_nat (bucket key) ∧
      errno d' = (if rc =? -1 then ENOENT else errno d0) ∧
      ∃ L' sh', R d' L' ∧ Rep L' sh' None (if rc =? 0 then <[key := data]> m else m) ∧ grows L L') d.
Proof.
  intros HR0 HRep Hst Hfl Hs Hf.
  assert (R d L) as HR by (eapply R_same; [|exact Hs]; by apply locked_R).
  destruct Hs as [Hi Hd _ _ Hc Hl Hn He]. cbn in Hi, Hd, Hc, Hl, Hn, He.
  assert (storable d key data) as Hst' by (destruct Hst; split; congruence).
  destruct found.
  - destruct Hf as (pre & i & post & sl & Es & Hsl & Hk & Hp & Hld & ->). unfold store_rc.
    destruct (flag =? DB_INSERT) eqn:Ef.
    + unfold store_body. cbn [negb]. rewrite Ef. wp_step. wp_step. db_simpl.
      split_and!; [done..|]. eexists _, sh. split_and!; [|exact HRep|by apply grows_same]. by destruct HR.
    + eapply wp_mono; [eapply (store_found_run d L sh m); try done; unfold DB_INSERT in *; lia|].
      intros rc d' (-> & Hl' & Hc' & He' & Hn' & HX). cbn. split_and!; [done|congruence..|done].
  - rewrite Hf. unfold store_rc. destruct (flag =? DB_REPLACE) eqn:Ef.
    + unfold store_body. cbn [negb]. rewrite Ef. wp_step. wp_step. wp_step. db_simpl.
      split_and!; [done..|]. eexists _, sh. split_and!; [|exact HRep|by apply grows_same]. by destruct HR.
    + eapply wp_mono; [eapply (store_insert_run d L sh m); try done; unfold DB_REPLACE in *; lia|].
      intros rc d' (-> & Hl' & Hc' & He' & Hn' & HX). cbn. split_and!; [done|congruence..|done].
Qed.

Lemma store_spec d m key data flag :
  holds d m → storable d key data → valid_flag flag →
  wp (db_store key data flag) (λ rc d', rc = store_rc flag (m !! key) ∧
    holds d' (if rc =? 0 then <[key := data]> m else m) ∧
    errno d' = (if rc =? -1 then ENOENT else errno d) ∧
    zlen (fdata (idx d')) <= zlen (fdata (idx d)) + 1035 ∧
    zlen (fdata (dat d')) <= zlen (fdata (dat d)) + 1024) d.
Proof.
  intros (Hl & L & sh & HR & HRep) Hst Hfl. unfold db_store.
  replace (negb _ && negb _ && negb _) with false
    by (destruct Hfl as [->|[-> | ->]]; done).
  rewrite storable_check by apply Hst. cbn [negb]. wp_step. eapply wp_run; [apply check_true|].
  wp_call (find_and_lock_run d L sh m key true); [done..|]. intros found d1 [Hs Hf].
  wp_call (store_body_spec d1 L sh m key data flag found d); [done..|].
  intros rc d2 (Hrc & Hl2 & Hc2 & He2 & L2 & sh2 & HR2 & HRep2 & Hg). wp_step.
  unfold grows in Hg. rewrite (size_R _ _ HR), (size_R _ _ HR2) in Hg.
  wp_step. eapply wp_run; [apply (unlock_chain key F_WRLCK); done|]. wp_step.
  split_and!; [done| |done|apply Hg..].
  eapply holds_intro; [done| |exact HRep2]. by destruct HR2.
Qed.

(** ** Sequential reading *)

Definition blankb (k : list Z) : bool := forallb (λ c, c =? SPACE) k.

Lemma blankb_spec k : blankb k = true ↔ all_blank k.
Proof.
  unfold blankb, all_blank. rewrite forallb_forall, Forall_forall.
  setoid_rewrite list_elem_of_In. setoid_rewrite Z.eqb_eq. done.
Qed.

(** Key and data of the slots whose key is not blank, in file order. *)
Fixpoint entries (sls : list slot) : list (list Z * list Z) :=
  match sls with
  | [] => []
  | sl :: sls => if blankb (sl_key sl) then entries sls else (sl_key sl, sl_data sl) :: entries sls
  end.

Lemma ioff_next L i sl : ok_layout L → slots L !! i = Some sl →
  ioff (slots L) (S i) = ioff (slots L) i + zlen (irec (doff (slots L) i) sl).
Proof.
  intros HL Hi. unfold ioff, doff. rewrite (take_S_r _ _ _ Hi), ser_idx_app, zlen_app.
  cbn [ser_idx]. rewrite app_nil_r, Z.add_0_l. lia.
Qed.

(** The loop stops at the first slot from [j] on with a key that is not blank. *)
Lemma nextrec_loop_run L : ∀ fuel j d,
  R d L → fpos (idx d) = ioff (slots L) j → (j <= length (slots L))%nat → (length (slots L) - j < fuel)%nat →
  wp (nextrec_loop fuel) (λ more d', same d d' ∧
    if more then
      ∃ i sl, entries (drop j (slots L)) = (sl_key sl, sl_data sl) :: entries (drop (S i) (slots L)) ∧
        slots L !! i = Some sl ∧ loaded d' L i sl ∧ fpos (idx d') = ioff (slots L) (S i)
    else entries (drop j (slots L)) = []) d.
Proof.
  induction fuel as [|fuel IH]; intros j d HR Hp Hj Hf; [lia|]. cbn [nextrec_loop].
  pose proof (R_ok _ _ HR) as HL. destruct (slots L !! j) as [sl|] eqn:Ej.
  - pose proof (slot_ok _ _ _ HL Ej) as Hok. pose proof (lookup_lt_Some _ _ _ Ej).
    db_run (readidx_cur d L j sl HR Ej Hp). pose proof (os_ptr _ _ Hok) as [? _].
    replace (_ <? 0) with false by lia. wp_step. rewrite key_load by apply Hok.
    rewrite (drop_S _ _ _ Ej). cbn [entries]. fold (blankb (sl_key sl)).
    assert (fpos (idx (load (ioff (slots L) j) (doff (slots L) j) sl d)) = ioff (slots L) (S j)) as Hp'
      by (by rewrite (ioff_next L j sl)).
    destruct (blankb (sl_key sl)).
    + eapply wp_mono; [apply (IH (S j)); [by apply R_load|done|lia|lia]|].
      intros more d' [Hs Hm]. split; [by etrans; [|exact Hs]|done].
    + wp_step. split; [done|]. exists j, sl. split_and!; try done. apply loaded_load.
  - apply lookup_ge_None in Ej. assert (j = length (slots L)) as -> by lia.
    db_run readidx_eof; [by rewrite Hp, ioff_end, (R_idx _ _ HR)|]. cbn. split; [done|]. by rewrite drop_ge.
Qed.

Lemma nextrec_run d L j :
  R d L → locks d = [] → fpos (idx d) = ioff (slots L) j → (j <= length (slots L))%nat →
  wp db_nextrec (λ r d', R d' L ∧ locks d' = [] ∧ errno d' = errno d ∧
    match r with
    | Some kv => cnt d' = inc_cnt_nextrec (cnt d) ∧ ∃ i, (i < length (slots L))%nat ∧
        entries (drop j (slots L)) = kv :: entries (drop (S i) (slots L)) ∧
        fpos (idx d') = ioff (slots L) (S i)
    | None => cnt d' = cnt d ∧ entries (drop j (slots L)) = []
    end) d.
Proof.
  intros HR Hl Hp Hj. unfold db_nextrec.
  wp_step. eapply wp_run; [apply set_lock_run; rewrite Hl; constructor|]. rewrite Hl. wp_step. wp_step.
  assert (R (set_locks [Lock IdxFd FREE_OFF 1 F_RDLCK] d) L) as HR1 by (by destruct HR).
  eapply wp_mono; [apply (nextrec_loop_run L _ j _ HR1 Hp Hj)|].
  { pose proof (ser_idx_length 0 _ (ol_slots _ (R_ok _ _ HR))). unfold chain_bound. cbn.
    rewrite (R_idx _ _ HR). unfold idx_bytes. rewrite app_assoc, length_app. unfold zlen in *. lia. }
  intros more d1 [Hs Hm]. assert (R d1 L) as HR2 by (by eapply R_same).
  destruct Hs as [_ _ _ _ _ Hl1 Hn1 He1]. cbn in Hl1, Hn1, He1. destruct more.
  - destruct Hm as (i & sl & He & Hi & Hld & Hpos). wp_step. wp_step.
    rewrite (loaded_key _ _ _ _ Hld) by apply (slot_ok _ _ _ (R_ok _ _ HR) Hi).
    destruct Hld as [_ Hdo Hdl _ _]. db_run (readdat_run d1 L i sl HR2 Hi Hdo Hdl). wp_step. wp_step. wp_step.
    eapply wp_run; [eapply un_lock_run; [cbn; exact Hl1|constructor]|]. wp_step.
    split_and!; [by destruct HR2|done|done|cbn; by rewrite Hn1|].
    exists i. split_and!; [by eapply lookup_lt_Some|done|done].
  - wp_step. wp_step. eapply wp_run; [eapply un_lock_run; [exact Hl1|constructor]|]. wp_step.
    split_and!; try done. by destruct HR2.
Qed.

Lemma rewind_run d : nhash d = NHASH_DEF →
  db_rewind d = (set_idxoff hdr_len (set_idx (File (fdata (idx d)) hdr_len) d), Done tt).
Proof.
  intros Hn. unfold db_rewind. rewrite bind_get, Hn.
  rewrite (bind_done _ _ _ _ _ (lseek_idx_set hdr_len d ltac:(done))), bind_modify. done.
Qed.

(** A client that reads records until [db_nextrec] returns a null pointer. *)
Fixpoint db_scan (fuel : nat) : DBM (list (list Z * list Z)) :=
  match fuel with
  | O => fail NoFuel
  | S fuel =>
    let! r := db_nextrec in
    match r with
    | None => ret []
    | Some kv => let! rest := db_scan fuel in ret (kv :: rest)
    end
  end.

Lemma scan_run L : ∀ fuel j d,
  R d L → locks d = [] → fpos (idx d) = ioff (slots L) j → (j <= length (slots L))%nat →
  (length (entries (drop j (slots L))) < fuel)%nat →
  wp (db_scan fuel) (λ l d', R d' L ∧ locks d' = [] ∧ l = entries (drop j (slots L))) d.
Proof.
  induction fuel as [|fuel IH]; intros j d HR Hl Hp Hj Hf; [lia|]. cbn [db_scan].
  wp_call (nextrec_run d L j); [done..|]. intros [kv|] d1 (HR1 & Hl1 & _ & Hm).
  - destruct Hm as (_ & i & Hi & He & Hp1). rewrite He in *.
    wp_call (IH (S i) d1); [done..|lia|simpl in Hf; lia|]. intros l d2 (HR2 & Hl2 & ->). by wp_step.
  - destruct Hm as [_ ->]. by wp_step.
Qed.

Lemma entries_elem k v sls :
  (k, v) ∈ entries sls ↔ ∃ i, (λ sl, (sl_key sl, sl_data sl)) <$> sls !! i = Some (k, v) ∧ blankb k = false.
Proof.
  induction sls as [|sl sls IH]; cbn [entries].
  - rewrite elem_of_nil. split; [done|]. by intros (i & H & _); destruct i.
  - transitivity ((blankb (sl_key sl) = false ∧ (k, v) = (sl_key sl, sl_data sl)) ∨ (k, v) ∈ entries sls).
    { destruct (blankb (sl_key sl)); [|rewrite elem_of_cons]; naive_solver. }
    rewrite IH. split.
    + intros [[Hb E]|(i & Hi & Hb)]; [exists 0%nat|by exists (S i)]. simplify_eq. done.
    + intros ([|i] & Hi & Hb); [left|right; eauto]. cbn in Hi. by simplify_eq.
Qed.

Lemma entries_nodup sls :
  (∀ i j k v w, (λ sl, (sl_key sl, sl_data sl)) <$> sls !! i = Some (k, v) →
     (λ sl, (sl_key sl, sl_data sl)) <$> sls !! j = Some (k, w) → blankb k = false → i = j) →
  NoDup (entries sls).
Proof.
  induction sls as [|sl sls IH]; intros Hu; cbn [entries]; [constructor|].
  assert (NoDup (entries sls)) by (apply IH; intros i j k v w Hi Hj Hb; by injection (Hu (S i) (S j) k v w Hi Hj Hb)).
  destruct (blankb (sl_key sl)) eqn:E; [done|]. apply NoDup_cons. split; [|done].
  intros (i & Hi & _)%entries_elem. by discriminate (Hu 0%nat (S i) _ _ _ eq_refl Hi E).
Qed.

(** The slots with keys that are not blank are the entries of the map. *)
Lemma entries_map L sh m :
  Rep L sh None m → entries (slots L) ≡ₚ List.filter (λ kv, negb (blankb kv.1)) (map_to_list m).
Proof.
  intros HRep. destruct (rep_content _ _ _ _ HRep) as [Hcv Hh Hky Hbl Hm].
  assert (∀ i k v, kd L i = Some (k, v) → blankb k = false → i ∈ sh (Some (bucket k))) as Hlive.
  { intros i k v Hi Hb. destruct (Hcv i) as [?|([h|] & Hv & Hin)]; [by rewrite Hi|done| |].
    - by rewrite (Hh h i k v Hv Hin Hi).
    - apply (Hbl _ _ _ Hin) in Hi. apply blankb_spec in Hi. congruence. }
  apply NoDup_Permutation.
  - apply entries_nodup. intros i j k v w Hi Hj Hb.
    eapply (Hky (bucket k)); [apply bucket_valid|by eapply Hlive..|done|done].
  - apply NoDup_ListNoDup, List.NoDup_filter, NoDup_ListNoDup, NoDup_map_to_list.
  - intros [k v]. rewrite entries_elem, list_elem_of_In, filter_In, <- list_elem_of_In, elem_of_map_to_list, Hm.
    cbn [fst]. rewrite negb_true_iff. split.
    + intros (i & Hi & Hb). split; [|done]. exists i. split; [by eapply Hlive|done].
    + intros [(i & _ & Hi) Hb]. by exists i.
Qed.

Lemma entries_length sls : (length (entries sls) <= length sls)%nat.
Proof. induction sls as [|sl sls IH]; cbn; [lia|]. destruct (blankb _); cbn; lia. Qed.

Lemma ioff_0 sls : ioff sls 0 = hdr_len.
Proof. done. Qed.

Lemma scan_spec d m :
  holds d m →
  wp (db_rewind;;; db_scan (chain_bound d))
    (λ l d', holds d' m ∧ l ≡ₚ List.filter (λ kv, negb (blankb kv.1)) (map_to_list m)) d.
Proof.
  intros (Hl & L & sh & HR & HRep). db_run rewind_run; [apply HR|].
  eapply wp_mono; [eapply (scan_run L _ 0)|].
  - by destruct HR.
  - done.
  - done.
  - lia.
  - pose proof (entries_length (slots L)). unfold chain_bound. rewrite (R_idx _ _ HR).
    pose proof (ser_idx_length 0 _ (ol_slots _ (R_ok _ _ HR))). unfold idx_bytes.
    rewrite app_assoc, length_app, drop_0. unfold zlen in *. lia.
  - intros l d' (HR' & Hl' & ->). split; [by eapply holds_intro|]. rewrite drop_0. by eapply entries_map.
Qed.

(** ** Opening and closing *)

(** The two files of the database [path] hold the map [m]. *)
Definition on_disk (fs : gmap (list Z) (list Z)) (path : list Z) (m : gmap (list Z) (list Z)) : Prop :=
  ∃ L sh, fs !! (path ++ bytes ".idx") = Some (idx_bytes L) ∧
    fs !! (path ++ bytes ".dat") = Some (ser_dat (slots L)) ∧ ok_layout L ∧ Rep L sh None m.

Lemma names_ne path : path ++ bytes ".idx" ≠ path ++ bytes ".dat".
Proof. intros E%(inj (app path)). discriminate E. Qed.

Lemma close_spec fs path d m : holds d m → on_disk (db_close fs path d) path m.
Proof.
  intros (_ & L & sh & HR & HRep). exists L, sh. unfold db_close.
  rewrite lookup_insert_eq, lookup_insert_ne, lookup_insert_eq by apply names_ne.
  rewrite (R_idx _ _ HR), (R_dat _ _ HR). split_and!; [done..|apply HR|done].
Qed.

Definition empty_layout : layout := Layout 0 (replicate 137 0) [].

Lemma empty_index_bytes : empty_index = idx_bytes empty_layout.
Proof. by vm_compute. Qed.

Lemma ok_empty_layout : ok_layout empty_layout.
Proof.
  split; [done| |done|done]. apply Forall_replicate. done.
Qed.

Lemma rep_empty : Rep empty_layout (λ _, []) None ∅.
Proof.
  split.
  - intros [h|] Hh; [|done]. by apply (lookup_replicate_2 137 (0 : Z) h).
  - split; [by constructor|by intros ? ? ? ? ? ?%elem_of_nil|done].
  - split; try by intros; match goal with H : _ ∈ [] |- _ => by apply elem_of_nil in H end.
    + intros i [x Hx]. done.
    + intros k v. rewrite lookup_empty. split; [done|]. by intros (i & ?%elem_of_nil & _).
Qed.

Lemma open_existing fs path fl ib db0 m :
  on_disk fs path m → o_trunc fl = false → o_creat fl && o_excl fl = false →
  ∃ d, db_open fs path fl ib db0 = (fs, Some (d, Done tt)) ∧ holds d m.
Proof.
  intros (L & sh & Hi & Hd & HL & HRep) Ht Hx. unfold db_open, open_file.
  rewrite Hi, Hx, Ht, Hd. unfold db_open_init. rewrite Ht, andb_false_r, bind_ret, rewind_run by done.
  eexists. split; [done|]. by apply (holds_intro _ _ L sh).
Qed.

(** Initialising a created index file writes the empty hash table. *)
Lemma create_run fl d :
  o_creat fl = true → o_trunc fl = true → idx d = File [] 0 → nhash d = NHASH_DEF → locks d = [] →
  ∃ d', db_open_init fl d = (d', Done tt) ∧ fdata (idx d') = empty_index ∧ fdata (dat d') = fdata (dat d) ∧
    nhash d' = nhash d ∧ hashoff d' = hashoff d ∧ locks d' = [].
Proof.
  intros Hc Ht Hi Hn Hl. unfold db_open_init. rewrite Hc, Ht. cbn [andb]. generalize empty_index as X. intros X.
  erewrite bind_done.
  2:{ unfold writew_lock, set_lock, un_lock, write_idx, gets, modify, bind, ret. cbn. rewrite Hi. cbn. done. }
  rewrite rewind_run by done. eexists. split; [done|]. cbn. rewrite Hl. cbn.
  split_and!; try done. rewrite Hi. cbn [fpos fdata]. unfold ztake, zdrop. rewrite drop_nil, take_0. apply app_nil_r.
Qed.

Lemma open_trunc fs path fl ib db0 :
  o_creat fl = true → o_trunc fl = true →
  (o_excl fl = false ∨ fs !! (path ++ bytes ".idx") = None ∧ fs !! (path ++ bytes ".dat") = None) →
  ∃ d, (db_open fs path fl ib db0).2 = Some (d, Done tt) ∧ holds d ∅ ∧
    fdata (idx d) = empty_index ∧ fdata (dat d) = [].
Proof.
  intros Hc Ht Hx. unfold db_open, open_file. rewrite Hc, Ht.
  destruct (create_run fl (set_idx (File [] 0) (set_dat (File [] 0)
    (set_nhash NHASH_DEF (set_hashoff HASH_OFF (_db_alloc ib db0)))))) as (d & Hd & Hi & Hdat & Hn & Ho & Hl); [done..|].
  exists d. split; [|split_and!; [|done..]].
  2:{ apply (holds_intro _ _ empty_layout (λ _, [])); [done| |apply rep_empty].
      split; [by rewrite Hi, empty_index_bytes|done..|apply ok_empty_layout]. }
  rewrite <- Hd. clear Hd Hi.
  destruct (fs !! (path ++ bytes ".idx")) eqn:E1.
  - assert (o_excl fl = false) as -> by naive_solver. cbn [andb].
    rewrite lookup_insert_ne by apply names_ne. by destruct (fs !! (path ++ bytes ".dat")).
  - rewrite lookup_insert_ne by apply names_ne. destruct (fs !! (path ++ bytes ".dat")) eqn:E2; [|done].
    by assert (o_excl fl = false) as -> by naive_solver.
Qed.
