(* ===== verification/DbProps.v ===== *)
(** The properties of the database library: its functions implement a finite map
    from keys to data, kept in the two files. *)

From stdpp Require Import base tactics numbers list gmap strings.
From Stdlib Require Import ZArith Lia.
From S2P Require Import Prelude Cio Db DbRep DbChain DbThms.

(** ** A client that runs a list of operations *)

Inductive dbop := OFetch (key : list Z) | OStore (key data : list Z) (flag : Z) | ODelete (key : list Z).
Inductive dbres := RData (data : option (list Z)) | RCode (rc : Z).

Definition run_op (o : dbop) : DBM dbres :=
  match o with
  | OFetch k => let! r := db_fetch k in ret (RData r)
  | OStore k v fl => let! rc := db_store k v fl in ret (RCode rc)
  | ODelete k => let! rc := db_delete k in ret (RCode rc)
  end.
Fixpoint run_ops (os : list dbop) : DBM (list dbres) :=
  match os with
  | [] => ret []
  | o :: os => let! r := run_op o in let! rs := run_ops os in ret (r :: rs)
  end.

(** The same operations on a map. *)
Definition map_op (o : dbop) (m : gmap (list Z) (list Z)) : dbres * gmap (list Z) (list Z) :=
  match o with
  | OFetch k => (RData (m !! k), m)
  | OStore k v fl =>
      (RCode (store_rc fl (m !! k)), if store_rc fl (m !! k) =? 0 then <[k := v]> m else m)
  | ODelete k => (RCode (if m !! k is Some _ then 0 else -1), delete k m)
  end.
Fixpoint map_ops (os : list dbop) (m : gmap (list Z) (list Z)) : list dbres * gmap (list Z) (list Z) :=
  match os with
  | [] => ([], m)
  | o :: os => let '(r, m) := map_op o m in let '(rs, m) := map_ops os m in (r :: rs, m)
  end.

Definition ok_op (o : dbop) : Prop :=
  match o with
  | OStore k v fl => ok_key k ∧ 1 <= zlen k <= 1010 ∧ ok_data v ∧ valid_flag fl
  | _ => True
  end.

(** The files after at most [n] stores. *)
Definition at_most (n : Z) (d : db) : Prop :=
  zlen (fdata (idx d)) <= hdr_len + 1035 * n ∧ zlen (fdata (dat d)) <= 1024 * n.

Lemma at_most_storable n d k v :
  at_most n d → n < 9660 → ok_key k → 1 <= zlen k <= 1010 → ok_data v → storable d k v.
Proof.
  intros [Hi Hd] Hn Hk Hkl Hv. pose proof Hv as [_ Hvl]. pose proof (zlen_nonneg (fdata (dat d))).
  assert (1 <= zlen (dec (zlen (fdata (dat d)))) <= 7) as H1.
  { pose proof (dec_length 7 (zlen (fdata (dat d)))) as H'. change (10 ^ Z.of_nat 7) with 10000000 in H'.
    unfold zlen in *. lia. }
  assert (1 <= zlen (dec (zlen v + 1)) <= 4) as H2.
  { pose proof (dec_length 4 (zlen v + 1)) as H'. change (10 ^ Z.of_nat 4) with 10000 in H'.
    unfold zlen in *. lia. }
  split; [done|done| |unfold dec_max; lia|unfold hdr_len, PTR_MAX in *; lia].
  unfold body. rewrite drec_len. cbn [sl_key sl_data]. rewrite !zlen_app, !zlen_cons, zlen_nil.
  unfold IDXLEN_MIN, IDXLEN_MAX. lia.
Qed.

Lemma at_most_mono n n' d d' :
  at_most n d → zlen (fdata (idx d')) <= zlen (fdata (idx d)) + 1035 →
  zlen (fdata (dat d')) <= zlen (fdata (dat d)) + 1024 → n < n' → at_most n' d'.
Proof. unfold at_most. lia. Qed.

Lemma run_op_spec o n d m :
  ok_op o → holds d m → at_most n d → n < 9660 →
  wp (run_op o) (λ r d', r = (map_op o m).1 ∧ holds d' (map_op o m).2 ∧ at_most (n + 1) d') d.
Proof.
  intros Ho Hh Hn Hlt. destruct o as [k|k v fl|k]; cbn [run_op map_op fst snd].
  - wp_call (fetch_spec d m k Hh). intros r d' (Hh' & -> & _ & Hi & Hd & _). wp_step.
    split_and!; [done..|]. eapply at_most_mono; [done|rewrite ?Hi, ?Hd; lia..].
  - destruct Ho as (Hk & Hkl & Hv & Hf).
    wp_call (store_spec d m k v fl Hh); [by eapply at_most_storable|done|].
    intros rc d' (-> & Hh' & _ & Hi & Hd). wp_step. split_and!; [done..|]. by eapply at_most_mono; [done..|lia].
  - wp_call (delete_spec d m k Hh). intros rc d' (Hh' & -> & _ & Hi & Hd & _). wp_step.
    split_and!; [done..|]. eapply at_most_mono; [done|lia..].
Qed.

Lemma run_ops_spec os : ∀ n d m,
  Forall ok_op os → holds d m → at_most n d → n + zlen os <= 9660 →
  wp (run_ops os) (λ rs d', rs = (map_ops os m).1 ∧ holds d' (map_ops os m).2) d.
Proof.
  induction os as [|o os IH]; intros n d m Hos Hh Hn Hlt; cbn [run_ops map_ops].
  - by wp_step.
  - apply Forall_cons in Hos as [Ho Hos]. rewrite zlen_cons in Hlt. pose proof (zlen_nonneg os).
    wp_call (run_op_spec o n d m); [done..|lia|]. destruct (map_op o m) as [r m1]. cbn [fst snd].
    intros ? d1 (-> & Hh1 & Hn1). wp_call (IH (n + 1) d1 m1); [done..|lia|].
    destruct (map_ops os m1) as [rs m2]. intros ? d2 [-> Hh2]. by wp_step.
Qed.


(** ** Example databases *)

Lemma ex_open_R : R ex_open empty_layout.
Proof. split; [by vm_compute|done..|apply ok_empty_layout]. Qed.

Lemma ex_open_holds : holds ex_open ∅.
Proof. eapply holds_intro; [done|apply ex_open_R|apply rep_empty]. Qed.

Lemma ex_open_at_most : at_most 0 ex_open.
Proof. unfold at_most. by vm_compute. Qed.

Definition ex_ops : list dbop :=
  [OStore (bytes "Alpha") (bytes "data1") DB_INSERT; OStore (bytes "beta") (bytes "Data for beta") DB_INSERT].
Definition ex_db : db := (run_ops ex_ops ex_open).1.
Definition ex_map : gmap (list Z) (list Z) := (map_ops ex_ops ∅).2.

(** Decides the side conditions on concrete keys and data. *)
Definition ok_keyb (k : list Z) : bool := forallb (λ c, negb (c =? 0) && negb (c =? SEP)) k.
Definition no_nulb (k : list Z) : bool := forallb (λ c, negb (c =? 0)) k.

Lemma no_nulb_ok k : no_nulb k = true → no_nul k.
Proof.
  unfold no_nulb, no_nul. rewrite forallb_forall, Forall_forall. setoid_rewrite list_elem_of_In.
  intros H c Hc. specialize (H c Hc). lia.
Qed.

Lemma ok_keyb_ok k : ok_keyb k = true → ok_key k.
Proof.
  unfold ok_keyb, ok_key, no_nul. rewrite forallb_forall, Forall_forall. setoid_rewrite list_elem_of_In.
  intros H. split.
  - intros c Hc. specialize (H c Hc). lia.
  - intros Hc. by specialize (H SEP Hc).
Qed.

Lemma ex_ops_ok : Forall ok_op ex_ops.
Proof.
  constructor; [|constructor; [|constructor]];
    (split; [by apply ok_keyb_ok|split; [done|split; [split; [by apply no_nulb_ok|done]|by left]]]).
Qed.

Lemma ex_db_at_most : at_most 2 ex_db.
Proof. unfold at_most. vm_compute. split; intros H; discriminate H. Qed.

Lemma ex_db_holds : holds ex_db ex_map ∧ at_most 2 ex_db.
Proof.
  split; [|apply ex_db_at_most].
  pose proof (run_ops_spec ex_ops 0 ex_open ∅ ex_ops_ok ex_open_holds ex_open_at_most ltac:(done)) as H.
  apply wp_elim in H as (rs & d' & E & _ & Hh). unfold ex_db, ex_map. rewrite E. exact Hh.
Qed.

Lemma ex_map_beta : ex_map !! bytes "beta" = Some (bytes "Data for beta").
Proof. vm_compute. reflexivity. Qed.
Lemma ex_map_alpha : ex_map !! bytes "Alpha" = Some (bytes "data1").
Proof. vm_compute. reflexivity. Qed.
Lemma ex_map_gamma : ex_map !! bytes "gamma" = None.
Proof. vm_compute. reflexivity. Qed.

Lemma ex_storable k v : ok_keyb k = true → no_nulb v = true → 1 <= zlen k <= 1010 → 1 <= zlen v <= 1023 →
  storable ex_db k v.
Proof.
  intros Hk Hv Hkl Hvl. eapply (at_most_storable 2); [apply ex_db_holds|lia|by apply ok_keyb_ok|done|].
  split; [by apply no_nulb_ok|done].
Qed.

(** ** The properties *)

(** [db_fetch] returns the data stored under the key, or a null pointer if there
    is none; it leaves both files as they are and releases its lock. *)
Theorem db_fetch_correct d m key :
  holds d m →
  ∃ d', db_fetch key d = (d', Done (m !! key)) ∧ holds d' m ∧
    fdata (idx d') = fdata (idx d) ∧ fdata (dat d') = fdata (dat d) ∧
    cnt d' = (if m !! key is Some _ then inc_cnt_fetchok else inc_cnt_fetcherr) (cnt d).
Proof.
  intros Hh. destruct (wp_elim _ _ _ (fetch_spec d m key Hh)) as (r & d' & E & Hh' & -> & _ & Hi & Hd & Hc).
  eauto 10.
Qed.

Lemma db_fetch_correct_witness :
  ∃ d', db_fetch (bytes "beta") ex_db = (d', Done (Some (bytes "Data for beta"))).
Proof.
  destruct (db_fetch_correct ex_db ex_map (bytes "beta") (proj1 ex_db_holds)) as (d' & E & _).
  exists d'. rewrite E, ex_map_beta. reflexivity.
Defined.

(** C6: [db_store] with a legal flag, for a record that fits: DB_INSERT of an
    existing key returns 1, DB_REPLACE of a missing key returns -1 with ENOENT, and
    both leave the map as it is; all other calls return 0 and the new map has the
    data under the key. *)
Theorem db_store_correct d m key data flag :
  holds d m → storable d key data → valid_flag flag →
  ∃ d', db_store key data flag d = (d', Done (store_rc flag (m !! key))) ∧
    holds d' (if store_rc flag (m !! key) =? 0 then <[key := data]> m else m) ∧
    errno d' = (if store_rc flag (m !! key) =? -1 then ENOENT else errno d).
Proof.
  intros Hh Hs Hf.
  destruct (wp_elim _ _ _ (store_spec d m key data flag Hh Hs Hf)) as (r & d' & E & -> & Hh' & He & _). eauto.
Qed.

Lemma db_store_correct_witness :
  (∃ d', db_store (bytes "beta") (bytes "v2") DB_REPLACE ex_db = (d', Done 0) ∧
    holds d' (<[bytes "beta" := bytes "v2"]> ex_map)) ∧
  (∃ d', db_store (bytes "gamma") (bytes "record3") DB_INSERT ex_db = (d', Done 0) ∧
    holds d' (<[bytes "gamma" := bytes "record3"]> ex_map)).
Proof.
  split.
  - destruct (db_store_correct ex_db ex_map (bytes "beta") (bytes "v2") DB_REPLACE) as (d' & E & H & _);
      [apply ex_db_holds|by apply ex_storable|by right; left|]. rewrite ex_map_beta in E, H.
    exists d'. split; [exact E|exact H].
  - destruct (db_store_correct ex_db ex_map (bytes "gamma") (bytes "record3") DB_INSERT) as (d' & E & H & _);
      [apply ex_db_holds|by apply ex_storable|by left|]. rewrite ex_map_gamma in E, H.
    exists d'. split; [exact E|exact H].
Defined.

(** [db_delete] removes the key and returns 0, or returns -1 if there is no such
    key; the sizes of the files do not change. *)
Theorem db_delete_correct d m key :
  holds d m →
  ∃ d', db_delete key d = (d', Done (if m !! key is Some _ then 0 else -1)) ∧
    holds d' (delete key m) ∧
    zlen (fdata (idx d')) = zlen (fdata (idx d)) ∧ zlen (fdata (dat d')) = zlen (fdata (dat d)) ∧
    cnt d' = (if m !! key is Some _ then inc_cnt_delok else inc_cnt_delerr) (cnt d).
Proof.
  intros Hh.
  destruct (wp_elim _ _ _ (delete_spec d m key Hh)) as (r & d' & E & Hh' & -> & _ & Hi & Hd & Hc). eauto 10.
Qed.

Lemma db_delete_correct_witness :
  ∃ d', db_delete (bytes "Alpha") ex_db = (d', Done 0) ∧ holds d' (delete (bytes "Alpha") ex_map).
Proof.
  destruct (db_delete_correct ex_db ex_map (bytes "Alpha") (proj1 ex_db_holds)) as (d' & E & H & _).
  rewrite ex_map_alpha in E. exists d'. split; [exact E|exact H].
Defined.

(** C7: after [db_rewind], calling [db_nextrec] until it returns a null pointer
    reads every record of the map whose key is not blank exactly once; the loop
    ends within the number of bytes of the index file. *)
Theorem db_scan_correct d m :
  holds d m →
  ∃ d' l, (db_rewind;;; db_scan (chain_bound d)) d = (d', Done l) ∧ holds d' m ∧
    l ≡ₚ List.filter (λ kv, negb (blankb kv.1)) (map_to_list m).
Proof.
  intros Hh. destruct (wp_elim _ _ _ (scan_spec d m Hh)) as (l & d' & E & H). eauto.
Qed.

Lemma db_scan_correct_witness :
  ∃ d' l, (db_rewind;;; db_scan (chain_bound ex_db)) ex_db = (d', Done l) ∧ length l = 2%nat.
Proof.
  destruct (db_scan_correct ex_db ex_map (proj1 ex_db_holds)) as (d' & l & E & _ & Hl).
  exists d', l. split; [exact E|]. rewrite (Permutation_length Hl). vm_compute. reflexivity.
Defined.

(** C8: what a closed database holds is what the next [db_open] of the same path
    finds, if it neither truncates nor insists on creating the files. *)
Theorem db_reopen_correct fs path d m fl ib db0 :
  holds d m → o_trunc fl = false → o_creat fl && o_excl fl = false →
  ∃ d', db_open (db_close fs path d) path fl ib db0 = (db_close fs path d, Some (d', Done tt)) ∧ holds d' m.
Proof. intros Hh Ht Hx. apply open_existing; [by apply close_spec|done|done]. Qed.

Lemma db_reopen_correct_witness :
  ∃ d', db_open (db_close ∅ (bytes "db4") ex_db) (bytes "db4") (OFlags false false false) [] [] =
      (db_close ∅ (bytes "db4") ex_db, Some (d', Done tt)) ∧ holds d' ex_map.
Proof.
  exact (db_reopen_correct ∅ (bytes "db4") ex_db ex_map (OFlags false false false) [] []
    (proj1 ex_db_holds) eq_refl eq_refl).
Defined.

(** C9: a newly created database serves every sequence of up to 9660 operations,
    with keys of 1 to 1010 bytes and data of 1 to 1023 bytes, exactly as the empty
    map does: the same results, and the files end up holding the same map. *)
Theorem db_client_refines fs path fl ib db0 os :
  o_creat fl = true → o_trunc fl = true → o_excl fl = false → Forall ok_op os → zlen os <= 9660 →
  ∃ d d', (db_open fs path fl ib db0).2 = Some (d, Done tt) ∧
    run_ops os d = (d', Done (map_ops os ∅).1) ∧ holds d' (map_ops os ∅).2.
Proof.
  intros Hc Ht Hx Hos Hl.
  destruct (open_trunc fs path fl ib db0 Hc Ht (or_introl Hx)) as (d & E & Hh & Ei & Ed).
  assert (at_most 0 d) as Hn by (unfold at_most; rewrite Ei, Ed; by vm_compute).
  destruct (wp_elim _ _ _ (run_ops_spec os 0 d ∅ Hos Hh Hn ltac:(lia))) as (rs & d' & E' & -> & Hh').
  eauto.
Qed.

Lemma db_client_refines_witness :
  ∃ d d', (db_open ∅ (bytes "db4") (OFlags true true false) [] []).2 = Some (d, Done tt) ∧
    run_ops ex_ops d = (d', Done [RCode 0; RCode 0]).
Proof.
  destruct (db_client_refines ∅ (bytes "db4") (OFlags true true false) [] [] ex_ops
    eq_refl eq_refl eq_refl ex_ops_ok ltac:(done)) as (d & d' & E & E' & _).
  exists d, d'. split; [exact E|exact E'].
Defined.

(** [db_store] refuses an unknown flag with EINVAL, without touching the files,
    and ends the process on data whose length is out of range before it reads or
    locks anything. *)
Theorem db_store_rejects d key data flag :
  (¬ valid_flag flag → db_store key data flag d = (set_errno EINVAL d, Done (-1))) ∧
  (valid_flag flag → ¬ (1 <= zlen data <= 1023) →
   db_store key data flag d = (d, Fail (Dump "db_store: invalid data length"))).
Proof.
  unfold db_store, valid_flag. split.
  - intros Hf. replace (_ && _ && _) with true; [done|].
    destruct (flag =? DB_INSERT) eqn:?, (flag =? DB_REPLACE) eqn:?, (flag =? DB_STORE) eqn:?; try done;
      exfalso; apply Hf; lia.
  - intros Hf Hl. replace (_ && _ && _) with false by (destruct Hf as [->|[-> | ->]]; done).
    replace ((_ <? DATLEN_MIN) || _) with true by (unfold DATLEN_MIN, DATLEN_MAX; lia). done.
Qed.

Lemma db_store_rejects_witness :
  db_store (bytes "k") (bytes "v") 7 ex_open = (set_errno EINVAL ex_open, Done (-1)) ∧
  db_store (bytes "k") [] DB_STORE ex_open = (ex_open, Fail (Dump "db_store: invalid data length")).
Proof.
  split.
  - apply (db_store_rejects ex_open (bytes "k") (bytes "v") 7). unfold valid_flag, DB_INSERT, DB_REPLACE, DB_STORE. lia.
  - apply (db_store_rejects ex_open (bytes "k") [] DB_STORE); [by right; right|]. unfold zlen. cbn. lia.
Defined.

Lemma body_length off sl : 0 <= off → zlen (sl_key sl) + 5 <= zlen (body off sl).
Proof.
  intros Ho. unfold body. rewrite !zlen_app, !zlen_cons, zlen_nil.
  pose proof (dec_length_pos off Ho). pose proof (dec_length_pos (zlen (drec sl)) (zlen_nonneg _)).
  unfold zlen in *. lia.
Qed.

(** Writing the index record of a key that is too long overruns the buffer. *)
Lemma writeidx_overrun d key ptr :
  1021 <= zlen key → ok_ptr ptr → 0 <= datoff d → 0 <= datlen d <= 1024 →
  ∃ d' n, _db_writeidx key 0 SEEK_END ptr d = (d', Fail (Overrun n)) ∧ IDXLEN_MAX + 2 < n.
Proof.
  intros Hk [? ?] Ho Hl. unfold _db_writeidx. rewrite bind_modify. replace (_ || _) with false by lia.
  rewrite bind_get. db_simpl. rewrite i64_id by lia.
  pose proof (dec_length_pos (datoff d) Ho). pose proof (dec_length_pos (datlen d) (proj1 Hl)).
  set (rec := key ++ _).
  assert (IDXLEN_MAX + 2 < zlen rec + 1) as Hlen.
  { unfold rec. rewrite !zlen_app, !zlen_cons, zlen_nil. unfold IDXLEN_MAX, zlen in *. lia. }
  exists (set_ptrval ptr d), (zlen rec + 1). split; [|exact Hlen]. apply bind_fail.
  unfold sprintf_idxbuf. by rewrite (proj2 (Z.ltb_lt _ _) Hlen).
Qed.

(** [db_store] of a new key of 1021 bytes or more overruns the index buffer of
    IDXLEN_MAX + 2 bytes: [sprintf] writes the record before its length is checked. *)
Theorem db_store_overrun d m key data flag :
  holds d m → m !! key = None → 1021 <= zlen key → ok_data data → flag = DB_INSERT ∨ flag = DB_STORE →
  ∃ d' n, db_store key data flag d = (d', Fail (Overrun n)) ∧ IDXLEN_MAX + 2 < n.
Proof.
  intros (Hl & L & sh & HR & HRep) Hm Hk Hd Hf. unfold db_store.
  replace (negb _ && negb _ && negb _) with false by (destruct Hf as [-> | ->]; done).
  rewrite storable_check by done. cbn [negb]. rewrite (bind_done _ _ _ _ _ (check_true _ _)).
  destruct (wp_elim _ _ _ (find_and_lock_run d L sh m key true HR HRep Hl)) as (found & d1 & E1 & Hs & Hfd).
  destruct found; [destruct Hfd as (? & ? & ? & ? & ? & ? & ? & ? & ? & ?); congruence|].
  rewrite (bind_done _ _ _ _ _ E1).
  assert (R d1 L) as HR1 by (eapply R_same; [|exact Hs]; by apply locked_R).
  pose proof (same_locks _ _ Hs) as Hl1. pose proof (same_chainoff _ _ Hs) as Hc1. cbn in Hl1, Hc1.
  unfold store_body. cbn [negb]. replace (flag =? DB_REPLACE) with false by (destruct Hf as [-> | ->]; done).
  destruct (chain_cell_cget _ _ _ _ key HRep) as [ptr Hc].
  destruct (readptr_R _ _ _ _ HR1 Hc) as (d2 & E2 & HR2 & Hk2 & _). cbn [coff] in E2. rewrite <- Hc1 in E2.
  destruct (wp_elim _ _ _ (findfree_run d2 L sh m key F_WRLCK (zlen key) (zlen data + 1) HR2 HRep
    ltac:(destruct Hk2; congruence))) as (reuse & d3 & E3 & Hk3 & Hw).
  destruct reuse.
  { destruct Hw as (pre & i & post & sl & _ & Hi & Hkl & _). pose proof (slot_ok _ _ _ (R_ok _ _ HR) Hi) as Hok.
    pose proof (body_length _ sl (proj1 (os_off _ _ Hok))). destruct (os_len _ _ Hok). unfold IDXLEN_MAX in *. lia. }
  destruct Hd as [_ Hdl].
  pose proof (writedat_end d3 data) as E4. destruct Hk2, Hk3.
  specialize (E4 ltac:(replace (locks d3) with [chain_lock key F_WRLCK] by congruence; apply unlocked_chain_dat) ltac:(lia)).
  match type of E4 with _ = (?d4, _) => pose proof (writeidx_overrun d4 key ptr Hk) as E5 end.
  destruct E5 as (d5 & n & E5 & Hn); [by eapply cget_ok, Hc; apply HR|cbn; apply zlen_nonneg|cbn; lia|].
  exists d5, n. split; [|done]. apply bind_fail.
  rewrite bind_gets, (bind_done _ _ _ _ _ E2), (bind_done _ _ _ _ _ E3). cbn [negb].
  rewrite (bind_done _ _ _ _ _ E4). by apply bind_fail.
Qed.

Lemma db_store_overrun_witness :
  ∃ d' n, db_store (replicate 1021 65) (bytes "v") DB_INSERT ex_db = (d', Fail (Overrun n)) ∧ IDXLEN_MAX + 2 < n.
Proof.
  apply (db_store_overrun ex_db ex_map (replicate 1021 65) (bytes "v") DB_INSERT).
  - apply ex_db_holds.
  - vm_compute. reflexivity.
  - rewrite zlen_replicate. lia.
  - split; [by apply no_nulb_ok|done].
  - by left.
Defined.

(** [db_store] accepts a key that contains the separator character, and the
    database then ends the process on every access to that chain: [db_fetch] of the
    key finds too many separators. *)
Theorem db_colon_key_unreadable :
  (db_store (bytes "a:b") (bytes "v") DB_INSERT ex_open).2 = Done 0 ∧
  ((db_store (bytes "a:b") (bytes "v") DB_INSERT;;; db_fetch (bytes "a:b")) ex_open).2 =
    Fail (Dump "_db_readidx: too many separators") ∧
  ((db_store (bytes "a:b") (bytes "v") DB_INSERT;;; db_rewind;;; db_nextrec) ex_open).2 =
    Fail (Dump "_db_readidx: too many separators").
Proof. vm_compute. split_and!; reflexivity. Qed.
