(* ===== verification/Threads.v ===== *)
(** Counting the threads of a system that are in a given kind of state. *)

From stdpp Require Import base tactics numbers list gmap.
From Stdlib Require Import ZArith Lia Relations.
From S2P Require Import Prelude.

(** A step at the end of a run. *)
Lemma rt_snoc {A} (R : relation A) x y z : clos_refl_trans_1n A R x y → R y z → clos_refl_trans_1n A R x z.
Proof.
  induction 1 as [|x y z' Hxy _ IH]; intros H.
  - eapply Relation_Operators.rt1n_trans; [exact H|apply Relation_Operators.rt1n_refl].
  - eapply Relation_Operators.rt1n_trans; [exact Hxy|by apply IH].
Qed.

Definition b2z (b : bool) : Z := if b then 1 else 0.

Section count.
Context {A : Type}.
Implicit Types (m : gmap nat A) (P : A → bool).

Definition tcount P m : Z := map_fold (λ _ x n, b2z (P x) + n) 0 m.

Lemma tcount_empty P : tcount P ∅ = 0.
Proof using Type. apply map_fold_empty. Qed.

Lemma tcount_fresh P m t x : m !! t = None → tcount P (<[t := x]> m) = b2z (P x) + tcount P m.
Proof using Type. intros Ht. unfold tcount. rewrite map_fold_insert_L; [done| |done]. intros. lia. Qed.

Lemma tcount_delete P m t x : m !! t = Some x → tcount P m = b2z (P x) + tcount P (delete t m).
Proof using Type.
  intros Ht. rewrite <- (tcount_fresh P (delete t m) t x) by apply lookup_delete_eq.
  by rewrite insert_delete_id.
Qed.

(** Changing the state of one thread. *)
Lemma tcount_insert P m t x y :
  m !! t = Some x → tcount P (<[t := y]> m) = tcount P m - b2z (P x) + b2z (P y).
Proof using Type.
  intros Ht. rewrite (tcount_delete P m t x Ht).
  rewrite (tcount_delete P (<[t := y]> m) t y) by apply lookup_insert_eq.
  rewrite delete_insert_eq. lia.
Qed.

Lemma tcount_fmap P (f : A → A) m : (∀ x, P (f x) = P x) → tcount P (f <$> m) = tcount P m.
Proof using Type.
  intros Hf. induction m as [|t x m Ht IH] using map_ind; [by rewrite fmap_empty|].
  rewrite fmap_insert, !tcount_fresh; [by rewrite IH, Hf|done|by rewrite lookup_fmap, Ht].
Qed.

Lemma tcount_nonneg P m : 0 <= tcount P m.
Proof using Type.
  induction m as [|t x m Ht IH] using map_ind; [by rewrite tcount_empty|].
  rewrite tcount_fresh by done. destruct (P x); simpl; lia.
Qed.

Lemma tcount_size P m : tcount P m <= Z.of_nat (size m).
Proof using Type.
  induction m as [|t x m Ht IH] using map_ind; [by rewrite tcount_empty|].
  rewrite tcount_fresh, map_size_insert_None by done. destruct (P x); simpl; lia.
Qed.

Lemma tcount_pos P m t x : m !! t = Some x → P x = true → 0 < tcount P m.
Proof using Type.
  intros Ht Hx. rewrite (tcount_delete P m t x Ht), Hx. pose proof (tcount_nonneg P (delete t m)). simpl. lia.
Qed.

Lemma tcount_ex P m : 0 < tcount P m → ∃ t x, m !! t = Some x ∧ P x = true.
Proof using Type.
  induction m as [|t x m Ht IH] using map_ind; [by rewrite tcount_empty|].
  rewrite tcount_fresh by done. destruct (P x) eqn:Hx; simpl; intros H.
  - exists t, x. by rewrite lookup_insert_eq.
  - destruct IH as (t' & x' & Ht' & Hx'); [lia|]. exists t', x'. rewrite lookup_insert_ne; [done|congruence].
Qed.

Lemma tcount_two P m t x t' x' :
  m !! t = Some x → m !! t' = Some x' → P x = true → P x' = true → t ≠ t' → 1 < tcount P m.
Proof using Type.
  intros Ht Ht' Hx Hx' Hne. rewrite (tcount_delete P m t x Ht), Hx.
  pose proof (tcount_pos P (delete t m) t' x') as H. rewrite lookup_delete_ne in H by done. specialize (H Ht' Hx'). simpl. lia.
Qed.
End count.
