(* ===== verification/Mq.v ===== *)
(** Posix message queues over a memory-mapped file: unpv22e/my_pxmsg_mmap.

    The mapped file is the header and, by byte index, the messages with the header
    in front of each.  A call runs from [pthread_mutex_lock] to
    [pthread_mutex_unlock] or to [pthread_cond_wait] without interruption; a call
    that waits returns [None] and its loop is resumed by a second definition. *)

From stdpp Require Import base tactics numbers list gmap strings.
From Stdlib Require Import ZArith Lia.
From S2P Require Import Prelude Cio.

(** ** Data *)

Record mymq_attr := MymqAttr { mq_flags : Z; mq_maxmsg : Z; mq_msgsize : Z; mq_curmsgs : Z }.
Record sigevent := Sigevent { sigev_notify : Z; sigev_signo : Z; sigev_value : Z }.
(** A message in the file: its header and the bytes behind it. *)
Record mymsg_hdr := MymsgHdr { msg_next : Z; msg_len : Z; msg_prio : Z; msg_bytes : list Z }.
Record mymq_hdr := MymqHdr {
  mqh_attr : mymq_attr        (** the queue's attributes *);
  mqh_head : Z                (** index of first message *);
  mqh_free : Z                (** index of first free message *);
  mqh_nwait : Z               (** #threads blocked in [mymq_receive] *);
  mqh_pid : Z                 (** nonzero PID if [mqh_event] set *);
  mqh_event : sigevent        (** for [mymq_notify] *);
  msgs : gmap Z mymsg_hdr     (** the messages behind the header, by index *) }.
Record mymq_info := MymqInfo { mqi_magic : Z; mqi_flags : Z }.

Definition MQI_MAGIC : Z := 0x98765432.
Definition MSGSIZE (i : Z) : Z := u64 (i + 8 - 1) / 8 * 8.

Definition O_NONBLOCK : Z := 2048.
Definition SIGEV_SIGNAL : Z := 0.
Definition EBADF : Z := 9.
Definition EMSGSIZE : Z := 90.
Definition EAGAIN : Z := 11.
Definition EBUSY : Z := 16.
Definition ESRCH : Z := 3.
Definition EINVAL : Z := 22.
Definition ENOENT : Z := 2.
Definition EEXIST : Z := 17.
Definition ETIMEDOUT : Z := 110.

(** The shared queue, the caller's descriptor and [errno], the signals queued by
    [sigqueue] (process, signal, value) and the number of [pthread_cond_signal]s. *)
Record mq := Mq {
  hdr : mymq_hdr;
  info : mymq_info;
  errno : Z;
  sigs : list (Z * Z * Z);
  wakes : nat }.

Definition set_mq_curmsgs (v : Z) (s : mymq_attr) : mymq_attr :=
  MymqAttr (mq_flags s) (mq_maxmsg s) (mq_msgsize s) v.
Definition set_msg_next (v : Z) (s : mymsg_hdr) : mymsg_hdr :=
  MymsgHdr v (msg_len s) (msg_prio s) (msg_bytes s).
Definition set_mqh_attr (v : mymq_attr) (s : mymq_hdr) : mymq_hdr :=
  MymqHdr v (mqh_head s) (mqh_free s) (mqh_nwait s) (mqh_pid s) (mqh_event s) (msgs s).
Definition set_mqh_head (v : Z) (s : mymq_hdr) : mymq_hdr :=
  MymqHdr (mqh_attr s) v (mqh_free s) (mqh_nwait s) (mqh_pid s) (mqh_event s) (msgs s).
Definition set_mqh_free (v : Z) (s : mymq_hdr) : mymq_hdr :=
  MymqHdr (mqh_attr s) (mqh_head s) v (mqh_nwait s) (mqh_pid s) (mqh_event s) (msgs s).
Definition set_mqh_nwait (v : Z) (s : mymq_hdr) : mymq_hdr :=
  MymqHdr (mqh_attr s) (mqh_head s) (mqh_free s) v (mqh_pid s) (mqh_event s) (msgs s).
Definition set_mqh_pid (v : Z) (s : mymq_hdr) : mymq_hdr :=
  MymqHdr (mqh_attr s) (mqh_head s) (mqh_free s) (mqh_nwait s) v (mqh_event s) (msgs s).
Definition set_mqh_event (v : sigevent) (s : mymq_hdr) : mymq_hdr :=
  MymqHdr (mqh_attr s) (mqh_head s) (mqh_free s) (mqh_nwait s) (mqh_pid s) v (msgs s).
Definition set_msgs (v : gmap Z mymsg_hdr) (s : mymq_hdr) : mymq_hdr :=
  MymqHdr (mqh_attr s) (mqh_head s) (mqh_free s) (mqh_nwait s) (mqh_pid s) (mqh_event s) v.
Definition set_hdr (v : mymq_hdr) (s : mq) : mq :=
  Mq v (info s) (errno s) (sigs s) (wakes s).
Definition set_info (v : mymq_info) (s : mq) : mq :=
  Mq (hdr s) v (errno s) (sigs s) (wakes s).
Definition set_errno (v : Z) (s : mq) : mq :=
  Mq (hdr s) (info s) v (sigs s) (wakes s).
Definition set_sigs (v : list (Z * Z * Z)) (s : mq) : mq :=
  Mq (hdr s) (info s) (errno s) v (wakes s).
Definition set_wakes (v : nat) (s : mq) : mq :=
  Mq (hdr s) (info s) (errno s) (sigs s) v.

(** [err_dump], and an index outside the mapped messages. *)
Inductive mqerr := ErrDump (msg : string) (curmsgs : Z) | Segv (index : Z) | NoFuel.

Abbreviation MQM := (M mq mqerr).

Definition upd_hdr (f : mymq_hdr → mymq_hdr) : MQM unit := modify (λ s, set_hdr (f (hdr s)) s).
Definition get_msg (index : Z) : MQM mymsg_hdr :=
  let! s := get in
  match msgs (hdr s) !! index with Some m => ret m | None => fail (Segv index) end.
Definition set_msg (index : Z) (m : mymsg_hdr) : MQM unit :=
  upd_hdr (λ h, set_msgs (<[index := m]> (msgs h)) h).

(** [p->msg_next = v], where [p] points to a message or to [mqh_head]. *)
Definition set_next (p : option Z) (v : Z) : MQM unit :=
  match p with
  | None => upd_hdr (set_mqh_head v)
  | Some index => let! m := get_msg index in set_msg index (set_msg_next v m)
  end.

Definition pthread_cond_signal : MQM unit := modify (λ s, set_wakes (S (wakes s)) s).
Definition return_err {A} (e : Z) (v : A) : MQM A := modify (set_errno e);;; ret v.
Definition bad_mqd : MQM bool := gets (λ s, negb (mqi_magic (info s) =? MQI_MAGIC)).
Definition nonblocking : MQM bool := gets (λ s, negb (Z.land (mqi_flags (info s)) O_NONBLOCK =? 0)).
Definition attr (s : mq) : mymq_attr := mqh_attr (hdr s).

(** ** [mymq_send] *)

(** The search for the place of the new message. *)
Fixpoint send_loop (fuel : nat) (prio freeindex : Z) (pmsghdr : option Z) (index : Z) : MQM unit :=
  match fuel with
  | O => fail NoFuel
  | S fuel =>
    if index =? 0 then
      set_next pmsghdr freeindex;;;
      set_next (Some freeindex) 0
    else
      let! m := get_msg index in
      if msg_prio m <? prio then
        set_next (Some freeindex) index;;;
        set_next pmsghdr freeindex
      else send_loop fuel prio freeindex (Some index) (msg_next m)
  end.

(** The part of [mymq_send] after the queue has room. *)
Definition send_body (ptr : list Z) (prio : Z) : MQM Z :=
  let! s := get in
  let freeindex := mqh_free (hdr s) in
  if freeindex =? 0 then fail (ErrDump "mymq_send: free = 0" (mq_curmsgs (attr s)))
  else
    let! m := get_msg freeindex in
    set_msg freeindex (MymsgHdr (msg_next m) (zlen ptr) prio (overlay (msg_bytes m) ptr));;;
    upd_hdr (set_mqh_free (msg_next m));;;
    let! index := gets (λ s, mqh_head (hdr s)) in
    let! n := gets (λ s, size (msgs (hdr s))) in
    send_loop (S n) prio freeindex None index;;;
    let! s := get in
    (if mq_curmsgs (attr s) =? 0 then pthread_cond_signal else ret tt);;;
    upd_hdr (λ h, set_mqh_attr (set_mq_curmsgs (mq_curmsgs (mqh_attr h) + 1) (mqh_attr h)) h);;;
    ret 0.

(** The notification of a registered process when the queue is empty. *)
Definition notify_registered : MQM unit :=
  let! s := get in
  let h := hdr s in
  if negb (mqh_pid h =? 0) && (mqh_nwait h =? 0) then
    (if sigev_notify (mqh_event h) =? SIGEV_SIGNAL then
       modify (λ s, set_sigs (sigs s ++ [(mqh_pid h, sigev_signo (mqh_event h), sigev_value (mqh_event h))]) s)
     else ret tt);;;
    upd_hdr (set_mqh_pid 0)
  else ret tt.

(** [None]: the call waits in [pthread_cond_wait] for room. *)
Definition mymq_send (ptr : list Z) (prio : Z) : MQM (option Z) :=
  let! bad := bad_mqd in
  if bad : bool then return_err EBADF (Some (-1))
  else
    let! s := get in
    if mq_msgsize (attr s) <? zlen ptr then return_err EMSGSIZE (Some (-1))
    else if mq_curmsgs (attr s) =? 0 then
      notify_registered;;;
      let! rc := send_body ptr prio in ret (Some rc)
    else if mq_maxmsg (attr s) <=? mq_curmsgs (attr s) then
      let! nb := nonblocking in
      if nb : bool then return_err EAGAIN (Some (-1)) else ret None
    else
      let! rc := send_body ptr prio in ret (Some rc).

(** A waiting sender that has been woken: the test of the loop again. *)
Definition mymq_send_woken (ptr : list Z) (prio : Z) : MQM (option Z) :=
  let! s := get in
  if mq_maxmsg (attr s) <=? mq_curmsgs (attr s) then ret None
  else let! rc := send_body ptr prio in ret (Some rc).

(** ** [mymq_receive] *)

(** The result of a receive: the length, or -1, with the bytes and the priority. *)
Record received := Received { r_len : Z; r_bytes : list Z; r_prio : Z }.

Definition receive_body : MQM received :=
  let! s := get in
  let index := mqh_head (hdr s) in
  if index =? 0 then fail (ErrDump "mymq_receive: head = 0" (mq_curmsgs (attr s)))
  else
    let! m := get_msg index in
    upd_hdr (set_mqh_head (msg_next m));;;
    let! s := get in
    set_msg index (set_msg_next (mqh_free (hdr s)) m);;;
    upd_hdr (set_mqh_free index);;;
    let! s := get in
    (if mq_curmsgs (attr s) =? mq_maxmsg (attr s) then pthread_cond_signal else ret tt);;;
    upd_hdr (λ h, set_mqh_attr (set_mq_curmsgs (mq_curmsgs (mqh_attr h) - 1) (mqh_attr h)) h);;;
    ret (Received (msg_len m) (ztake (msg_len m) (msg_bytes m)) (msg_prio m)).

Definition receive_failed : option received := Some (Received (-1) [] 0).

(** [None]: the call waits in [pthread_cond_wait] for a message. *)
Definition mymq_receive (maxlen : Z) : MQM (option received) :=
  let! bad := bad_mqd in
  if bad : bool then return_err EBADF receive_failed
  else
    let! s := get in
    if maxlen <? mq_msgsize (attr s) then return_err EMSGSIZE receive_failed
    else if mq_curmsgs (attr s) =? 0 then
      let! nb := nonblocking in
      if nb : bool then return_err EAGAIN receive_failed
      else upd_hdr (λ h, set_mqh_nwait (mqh_nwait h + 1) h);;; ret None
    else let! r := receive_body in ret (Some r).

(** A waiting receiver that has been woken. *)
Definition mymq_receive_woken : MQM (option received) :=
  let! s := get in
  if mq_curmsgs (attr s) =? 0 then ret None
  else
    upd_hdr (λ h, set_mqh_nwait (mqh_nwait h - 1) h);;;
    let! r := receive_body in ret (Some r).

(** ** Attributes and notification *)

(** The attributes as the caller sees them. *)
Definition mqstat (s : mq) : mymq_attr :=
  MymqAttr (mqi_flags (info s)) (mq_maxmsg (attr s)) (mq_msgsize (attr s)) (mq_curmsgs (attr s)).

Definition mymq_getattr : MQM (Z * option mymq_attr) :=
  let! bad := bad_mqd in
  if bad : bool then return_err EBADF (-1, None)
  else let! st := gets mqstat in ret (0, Some st).

(** Returns the previous attributes, which the code stores if [omqstat] is given. *)
Definition mymq_setattr (st : mymq_attr) : MQM (Z * option mymq_attr) :=
  let! bad := bad_mqd in
  if bad : bool then return_err EBADF (-1, None)
  else
    let! old := gets mqstat in
    modify (λ s, set_info (MymqInfo (mqi_magic (info s))
      (if negb (Z.land (mq_flags st) O_NONBLOCK =? 0)
       then Z.lor (mqi_flags (info s)) O_NONBLOCK
       else Z.ldiff (mqi_flags (info s)) O_NONBLOCK)) s);;;
    ret (0, Some old).

(** [kill0 p] is the [errno] of [kill(p, 0)], 0 if it succeeds. *)
Definition mymq_notify (kill0 : Z → Z) (pid : Z) (notification : option sigevent) : MQM Z :=
  let! bad := bad_mqd in
  if bad : bool then return_err EBADF (-1)
  else
    let! s := get in
    match notification with
    | None => (if mqh_pid (hdr s) =? pid then upd_hdr (set_mqh_pid 0) else ret tt);;; ret 0
    | Some ev =>
      let! busy :=
        (if mqh_pid (hdr s) =? 0 then ret false
         else
           let e := kill0 (mqh_pid (hdr s)) in
           (if e =? 0 then ret tt else modify (set_errno e));;;
           ret ((e =? 0) || negb (e =? ESRCH))) in
      if busy : bool then return_err EBUSY (-1)
      else upd_hdr (λ h, set_mqh_event ev (set_mqh_pid pid h));;; ret 0
    end.

(** [munmap] is taken to succeed; the descriptor is freed, its magic number cleared. *)
Definition mymq_close (kill0 : Z → Z) (pid : Z) : MQM Z :=
  let! bad := bad_mqd in
  if bad : bool then return_err EBADF (-1)
  else
    let! rc := mymq_notify kill0 pid None in
    if negb (rc =? 0) then ret (-1)
    else modify (λ s, set_info (MymqInfo 0 (mqi_flags (info s))) s);;; ret 0.

(** ** [mymq_open] and [mymq_unlink] *)

Definition MAX_TRIES : nat := 10.
Definition defattr : mymq_attr := MymqAttr 0 128 1024 0.

(** A queue file: its user-execute bit, set while its creator initialises it, and the
    mapped header. *)
Record qfile := Qfile { qf_xusr : bool; qf_hdr : mymq_hdr }.
Abbreviation qfs := (gmap (list Z) qfile).

Section open.
(** The sizes of the two structures, which depend on the platform's pthread types. *)
Context (sizeof_mymq_hdr sizeof_mymsg_hdr : Z).

Definition filesize (a : mymq_attr) : Z :=
  i64 (sizeof_mymq_hdr + mq_maxmsg a * (sizeof_mymsg_hdr + MSGSIZE (mq_msgsize a))).

(** A message of the new file: the file is extended with zeros. *)
Definition new_msg (next msgsize : Z) : mymsg_hdr := MymsgHdr next 0 0 (replicate (Z.to_nat msgsize) 0).

(** The loop that links the free list, with [n] messages left before the last. *)
Fixpoint init_loop (n : nat) (index msgsize : Z) (ms : gmap Z mymsg_hdr) : gmap Z mymsg_hdr :=
  match n with
  | O => <[index := new_msg 0 msgsize]> ms
  | S n =>
    let next := i64 (index + (sizeof_mymsg_hdr + msgsize)) in
    init_loop n next msgsize (<[index := new_msg next msgsize]> ms)
  end.

Definition new_hdr (a : mymq_attr) : mymq_hdr :=
  let index := sizeof_mymq_hdr in
  MymqHdr (MymqAttr 0 (mq_maxmsg a) (mq_msgsize a) 0) 0 index 0 0 (Sigevent 0 0 0)
    (init_loop (Z.to_nat (mq_maxmsg a - 1)) index (MSGSIZE (mq_msgsize a)) ∅).

(** Flags of the call: O_CREAT, O_EXCL, O_NONBLOCK. *)
Record mqoflags := MqOflags { oq_creat : bool; oq_excl : bool; oq_nonblock : bool }.

Definition new_info (fl : mqoflags) : mymq_info :=
  MymqInfo MQI_MAGIC (if oq_nonblock fl then O_NONBLOCK else 0).

(** A descriptor on the queue file, or the error number. *)
Inductive openres := Opened (i : mymq_info) | Failed (e : Z) | Again.

(** The loop that waits for the end of the initialisation; [stat i] is the
    user-execute bit that the [i]-th [stat] sees, [None] if the file is gone. *)
Fixpoint wait_init (n i : nat) (stat : nat → option bool) (fl : mqoflags) : openres :=
  match n with
  | O => Failed ETIMEDOUT
  | S n =>
    match stat i with
    | None => if oq_creat fl then Again else Failed ENOENT
    | Some false => Opened (new_info fl)
    | Some true => wait_init n (S i) stat fl
    end
  end.

(** The code at the label [exists]. *)
Definition open_exists (fs : qfs) (path : list Z) (fl : mqoflags) (stat : nat → option bool) : openres :=
  match fs !! path with
  | None => if oq_creat fl then Again else Failed ENOENT
  | Some _ => wait_init MAX_TRIES 0 stat fl
  end.

(** One pass from the label [again]. *)
Definition open_again (fs : qfs) (path : list Z) (fl : mqoflags) (a : option mymq_attr)
    (stat : nat → option bool) : qfs * openres :=
  if oq_creat fl then
    match fs !! path with
    | Some _ => if oq_excl fl then (fs, Failed EEXIST) else (fs, open_exists fs path fl stat)
    | None =>
      let bad := match a with None => false | Some a => (mq_maxmsg a <=? 0) || (mq_msgsize a <=? 0) end in
      if bad then (fs, Failed EINVAL)
      else (<[path := Qfile false (new_hdr (default defattr a))]> fs, Opened (new_info fl))
    end
  else (fs, open_exists fs path fl stat).

(** [n] bounds how often the file disappears between two system calls. *)
Fixpoint mymq_open (n : nat) (fs : qfs) (path : list Z) (fl : mqoflags) (a : option mymq_attr)
    (stat : nat → nat → option bool) : qfs * option openres :=
  match n with
  | O => (fs, None)
  | S n =>
    match open_again fs path fl a (stat n) with
    | (fs, Again) => mymq_open n fs path fl a stat
    | (fs, r) => (fs, Some r)
    end
  end.

Definition mymq_unlink (fs : qfs) (path : list Z) : qfs * Z :=
  match fs !! path with
  | Some _ => (delete path fs, 0)
  | None => (fs, -1)
  end.
End open.

(** ** Threads *)

(** A thread in a call: running until the lock is free, waiting on the condition
    variable, or woken and about to test its condition again. *)
Inductive call := CSend (ptr : list Z) (prio : Z) | CReceive (maxlen : Z).
Inductive result := RSend (rc : Z) | RReceive (r : received).
Inductive tstate := Idle | Waiting (c : call) | Woken (c : call).

Record sys := Sys {
  q : mymq_hdr                      (** the mapped queue *);
  threads : gmap nat (mymq_info * tstate) (** descriptor and state of each thread *);
  sent : list (Z * Z * Z)           (** signals queued by [sigqueue] *);
  history : list (nat * call * result) (** completed calls, in order of completion *) }.

Definition run_call (c : call) (woken : bool) : MQM (option result) :=
  match c with
  | CSend ptr prio =>
      let! r := (if woken then mymq_send_woken ptr prio else mymq_send ptr prio) in
      ret (RSend <$> r)
  | CReceive maxlen =>
      let! r := (if woken then mymq_receive_woken else mymq_receive maxlen) in
      ret (RReceive <$> r)
  end.

(** Wakes one waiting thread if there is one: [pthread_cond_signal]. *)
Inductive wake (ts : gmap nat (mymq_info * tstate)) : gmap nat (mymq_info * tstate) → Prop :=
  | wake_one t i c : ts !! t = Some (i, Waiting c) → wake ts (<[t := (i, Woken c)]> ts)
  | wake_none : (∀ t i c, ts !! t ≠ Some (i, Waiting c)) → wake ts ts.
Inductive wake_n : nat → gmap nat (mymq_info * tstate) → gmap nat (mymq_info * tstate) → Prop :=
  | wake_0 ts : wake_n 0 ts ts
  | wake_S n ts ts' ts'' : wake ts ts' → wake_n n ts' ts'' → wake_n (S n) ts ts''.

(** The state and the history after thread [t] has run its call up to a return or a
    wait. *)
Definition after (s : mq) (t : nat) (c : call) (r : option result) (ts : gmap nat (mymq_info * tstate))
    (h : list (nat * call * result)) : sys :=
  match r with
  | None => Sys (hdr s) (<[t := (info s, Waiting c)]> ts) (sigs s) h
  | Some r => Sys (hdr s) (<[t := (info s, Idle)]> ts) (sigs s) (h ++ [(t, c, r)])
  end.

(** An idle thread makes a call, a woken thread resumes its call, or a waiting
    thread wakes up without a signal. *)
Inductive mq_step : sys → sys → Prop :=
  | step_call S t i c s' r ts' :
      threads S !! t = Some (i, Idle) →
      run_call c false (Mq (q S) i 0 (sent S) 0) = (s', Done r) →
      wake_n (wakes s') (threads S) ts' →
      mq_step S (after s' t c r ts' (history S))
  | step_woken S t i c s' r ts' :
      threads S !! t = Some (i, Woken c) →
      run_call c true (Mq (q S) i 0 (sent S) 0) = (s', Done r) →
      wake_n (wakes s') (threads S) ts' →
      mq_step S (after s' t c r ts' (history S))
  | step_spurious S t i c :
      threads S !! t = Some (i, Waiting c) →
      mq_step S (Sys (q S) (<[t := (i, Woken c)]> (threads S)) (sent S) (history S)).
