(* ===== verification/MqThms.v ===== *)
(** The message queue as a bounded priority queue: the two linked lists in the mapped
    file, and the refinement of the calls to operations on a list of messages. *)

From stdpp Require Import base tactics numbers list gmap strings.
From Stdlib Require Import ZArith Lia Sorted.
From S2P Require Import Prelude Cio Mq.

(** ** The abstract queue *)

(** Messages with their priorities, first out first. *)
Abbreviation pq := (list (Z * list Z)).

(** A message goes behind all messages of the same or a higher priority. *)
Fixpoint enqueue (p : Z) (b : list Z) (l : pq) : pq :=
  match l with
  | [] => [(p, b)]
  | (p', b') :: l' => if p' <? p then (p, b) :: l else (p', b') :: enqueue p b l'
  end.

Definition by_prio (l : pq) : Prop := StronglySorted (λ a b, b.1 <= a.1) l.

Lemma enqueue_split p b l1 l2 :
  Forall (λ m, p <= m.1) l1 → match l2 with [] => True | m :: _ => m.1 < p end →
  enqueue p b (l1 ++ l2) = l1 ++ (p, b) :: l2.
Proof.
  intros H1 H2. induction H1 as [|[p' b'] l1 Hp _ IH]; simpl in *.
  - destruct l2 as [|[p' b'] l2]; simpl in *; [done|]. by replace (p' <? p) with true by lia.
  - replace (p' <? p) with false by lia. by rewrite IH.
Qed.

Lemma enqueue_elem p b l x : x ∈ enqueue p b l ↔ x = (p, b) ∨ x ∈ l.
Proof.
  induction l as [|[p' b'] l IH]; simpl; [set_solver|]. case_match; [set_solver|].
  rewrite !elem_of_cons, IH. tauto.
Qed.

Lemma enqueue_by_prio p b l : by_prio l → by_prio (enqueue p b l).
Proof.
  unfold by_prio. induction 1 as [|[p' b'] l Hl IH Hf]; simpl; [by repeat constructor|].
  case_match eqn:E.
  - constructor; [by constructor|]. constructor; [simpl; lia|].
    eapply Forall_impl; [exact Hf|]. simpl. lia.
  - constructor; [done|]. apply Forall_forall. intros x [->|Hx]%enqueue_elem; simpl; [lia|].
    by eapply Forall_forall in Hf.
Qed.

Lemma enqueue_length p b l : length (enqueue p b l) = S (length l).
Proof. induction l as [|[p' b'] l IH]; simpl; [done|]. case_match; simpl; lia. Qed.

Lemma enqueue_perm p b l : enqueue p b l ≡ₚ (p, b) :: l.
Proof.
  induction l as [|[p' b'] l IH]; simpl; [done|]. case_match; [done|]. rewrite IH. constructor.
Qed.

(** ** Linked lists *)

(** The fields that hold an index: the two list heads and the [msg_next]s. *)
Inductive mcell := Head | Free | Msg (i : Z).

#[export] Instance mcell_eq_dec : EqDecision mcell.
Proof. solve_decision. Defined.

Definition nxt (h : mymq_hdr) (c : mcell) : option Z :=
  match c with
  | Head => Some (mqh_head h)
  | Free => Some (mqh_free h)
  | Msg i => msg_next <$> msgs h !! i
  end.

(** From cell [c], following [g], the list runs through [l] and ends with 0. *)
Fixpoint mchain (g : mcell → option Z) (c : mcell) (l : list Z) : Prop :=
  match l with
  | [] => g c = Some 0
  | i :: l => g c = Some i ∧ i ≠ 0 ∧ mchain g (Msg i) l
  end.

Fixpoint mpred (c : mcell) (l : list Z) : mcell :=
  match l with [] => c | i :: l => mpred (Msg i) l end.

Lemma mchain_ext g g' c l :
  mchain g c l → g' c = g c → (∀ i, i ∈ l → g' (Msg i) = g (Msg i)) → mchain g' c l.
Proof.
  revert c. induction l as [|i l IH]; intros c; simpl; [by intros ? ->|].
  intros (H1 & H2 & H3) Hc Hl. split_and!; [congruence|done|]. apply IH; [done| |].
  - apply Hl. by left.
  - intros j Hj. apply Hl. by right.
Qed.

Lemma mpred_cases c l : (l = [] ∧ mpred c l = c) ∨ ∃ i, i ∈ l ∧ mpred c l = Msg i.
Proof.
  revert c. induction l as [|i l IH]; intros c; [by left|]. right. simpl.
  destruct (IH (Msg i)) as [[-> ->]|(j & Hj & ->)]; eexists; (split; [|done]); [by left|by right].
Qed.

(** Inserting the index [n] between [l1] and [l2]. *)
Lemma mchain_insert g g' c l1 l2 n :
  mchain g c (l1 ++ l2) → NoDup (l1 ++ l2) → n ≠ 0 → n ∉ l1 ++ l2 → c ≠ Msg n →
  (∀ i, i ∈ l1 ++ l2 → c ≠ Msg i) →
  g' (mpred c l1) = Some n → g' (Msg n) = Some (default 0 (head l2)) →
  (∀ x, x ≠ mpred c l1 → x ≠ Msg n → g' x = g x) →
  mchain g' c (l1 ++ n :: l2).
Proof.
  revert c. induction l1 as [|i l1 IH]; intros c Hch Hnd Hn Hin Hc Hcl H1 H2 H3; simpl in *.
  - split_and!; [done..|]. destruct l2 as [|j l2]; simpl in *; [done|].
    destruct Hch as (_ & Hj & Hch). split_and!; [done..|]. apply NoDup_cons in Hnd as [Hjl Hnd].
    eapply mchain_ext; [done| |].
    + apply H3; [|set_solver]. intros E. by apply (Hcl j); [left|].
    + intros x Hx. apply H3; [|set_solver]. intros E. by apply (Hcl x); [right|].
  - destruct Hch as (Hi & Hi0 & Hch). apply NoDup_cons in Hnd as [Hil Hnd]. split_and!; [|done|].
    + rewrite H3; [done| |done]. intros E.
      destruct (mpred_cases (Msg i) l1) as [[-> Ep]|(x & Hx & Ep)]; rewrite Ep in E.
      * by apply (Hcl i); [left|].
      * by apply (Hcl x); [right; apply elem_of_app; left|].
    + apply IH; try done; [set_solver|set_solver|]. intros x Hx [= ->]. done.
Qed.

Lemma mchain_nodup_pred g c l1 l2 : mchain g c (l1 ++ l2) → g (mpred c l1) = Some (default 0 (head l2)).
Proof.
  revert c. induction l1 as [|i l1 IH]; intros c; simpl.
  - destruct l2; simpl; [done|]. by intros [? _].
  - intros (_ & _ & H). by apply IH.
Qed.

(** ** The invariant *)

(** The message at index [i] is [x]. *)
Definition holds_msg (h : mymq_hdr) (i : Z) (x : Z * list Z) : Prop :=
  ∃ m, msgs h !! i = Some m ∧ msg_prio m = x.1 ∧ msg_len m = zlen x.2 ∧ ztake (msg_len m) (msg_bytes m) = x.2.

(** The mapped header [h] is a queue that holds [l], with the indices [ql] on the
    message list and [fl] on the free list. *)
Record Q (h : mymq_hdr) (ql fl : list Z) (l : pq) : Prop := MkQ {
  Q_head : mchain (nxt h) Head ql;
  Q_free : mchain (nxt h) Free fl;
  Q_nodup : NoDup (ql ++ fl);
  Q_max : zlen (ql ++ fl) = mq_maxmsg (mqh_attr h);
  Q_pos : 0 < mq_maxmsg (mqh_attr h);
  Q_cur : mq_curmsgs (mqh_attr h) = zlen ql;
  Q_msgs : Forall2 (holds_msg h) ql l;
  Q_sorted : by_prio l;
  Q_size : Forall (λ x, zlen x.2 <= mq_msgsize (mqh_attr h)) l;
  Q_dom : ∀ i, i ∈ ql ++ fl → is_Some (msgs h !! i) }.

Definition queue (h : mymq_hdr) (l : pq) : Prop := ∃ ql fl, Q h ql fl l.

Lemma queue_length h ql fl l : Q h ql fl l → zlen l = mq_curmsgs (mqh_attr h).
Proof. intros []. rewrite Q_cur0. unfold zlen. by rewrite (Forall2_length _ _ _ Q_msgs0). Qed.

Lemma Q_full h ql fl l : Q h ql fl l → (mq_maxmsg (mqh_attr h) <= mq_curmsgs (mqh_attr h)) ↔ fl = [].
Proof.
  intros []. rewrite <- Q_max0, Q_cur0, zlen_app. pose proof (zlen_nonneg fl).
  split; [|intros ->; rewrite zlen_nil; lia]. destruct fl; [done|]. rewrite zlen_cons. pose proof (zlen_nonneg fl). lia.
Qed.

Lemma Q_empty h ql fl l : Q h ql fl l → (mq_curmsgs (mqh_attr h) = 0) ↔ l = [].
Proof.
  intros HQ. rewrite <- (queue_length _ _ _ _ HQ). destruct l; [done|]. rewrite zlen_cons.
  pose proof (zlen_nonneg l). split; [lia|done].
Qed.

(** ** Writing an index field *)

Definition put (c : mcell) (v : Z) (h : mymq_hdr) : mymq_hdr :=
  match c with
  | Head => set_mqh_head v h
  | Free => set_mqh_free v h
  | Msg i => match msgs h !! i with
             | Some m => set_msgs (<[i := set_msg_next v m]> (msgs h)) h
             | None => h
             end
  end.

Lemma nxt_put h c v0 v c' :
  nxt h c = Some v0 → nxt (put c v h) c' = if decide (c' = c) then Some v else nxt h c'.
Proof.
  intros Hc. destruct c as [| |i]; cbn [nxt] in Hc.
  1, 2: destruct c'; case_decide; done.
  unfold put. destruct (msgs h !! i) as [m|] eqn:Ei; [|done]. destruct c' as [| |j]; try (by case_decide).
  cbn [nxt msgs set_msgs]. case_decide as E.
  - injection E as ->. by rewrite lookup_insert_eq.
  - rewrite lookup_insert_ne by congruence. done.
Qed.

(** What writing index fields keeps: the messages themselves and the rest of the
    header. *)
Record hkept (h h' : mymq_hdr) : Prop := MkHkept {
  hk_attr : mqh_attr h' = mqh_attr h;
  hk_nwait : mqh_nwait h' = mqh_nwait h;
  hk_pid : mqh_pid h' = mqh_pid h;
  hk_event : mqh_event h' = mqh_event h;
  hk_msgs : ∀ i x, holds_msg h' i x ↔ holds_msg h i x;
  hk_dom : dom (msgs h') = dom (msgs h) }.

#[export] Instance hkept_preorder : PreOrder hkept.
Proof.
  split; [done|]. intros h1 h2 h3 [] []. split; try congruence.
  intros i x. by rewrite hk_msgs1.
Qed.

Lemma hkept_put c v h : hkept h (put c v h).
Proof.
  destruct c as [| |i]; [done..|]. cbn. destruct (msgs h !! i) as [m|] eqn:Ei; [|done]. split; try done.
  - intros j x. unfold holds_msg. cbn [msgs set_msgs]. destruct (decide (i = j)) as [->|Hij].
    + rewrite lookup_insert_eq, Ei. split; intros (m' & [= <-] & H); eauto.
    + by rewrite lookup_insert_ne.
  - cbn [msgs set_msgs]. apply dom_insert_lookup_L. by rewrite Ei.
Qed.

Definition opt_cell (p : option Z) : mcell := match p with None => Head | Some i => Msg i end.

Lemma set_next_run p v0 v s :
  nxt (hdr s) (opt_cell p) = Some v0 → set_next p v s = (set_hdr (put (opt_cell p) v (hdr s)) s, Done tt).
Proof.
  destruct p as [i|]; [|done]. cbn [opt_cell nxt set_next put]. intros Hi.
  unfold get_msg. unfold bind at 1. cbn. destruct (msgs (hdr s) !! i); done.
Qed.

Lemma get_msg_run i m s : msgs (hdr s) !! i = Some m → get_msg i s = (s, Done m).
Proof. intros Hi. unfold get_msg. rewrite bind_get, Hi. done. Qed.

(** The header [h'] is [h] with index [n] linked in behind cell [c]. *)
Definition linked (c : mcell) (n v : Z) (h h' : mymq_hdr) : Prop :=
  hkept h h' ∧
  ∀ x, nxt h' x = if decide (x = c) then Some n else if decide (x = Msg n) then Some v else nxt h x.

Lemma linked_put1 c n v h v0 v1 : c ≠ Msg n → nxt h c = Some v0 → nxt h (Msg n) = Some v1 →
  linked c n v h (put (Msg n) v (put c n h)).
Proof.
  intros Hc H0 H1. split; [etrans; apply hkept_put|]. intros x.
  rewrite (nxt_put _ _ v1) by (by rewrite (nxt_put _ _ v0), decide_False). rewrite (nxt_put _ _ v0) by done.
  repeat case_decide; congruence.
Qed.

Lemma linked_put2 c n v h v0 v1 : c ≠ Msg n → nxt h c = Some v0 → nxt h (Msg n) = Some v1 →
  linked c n v h (put c n (put (Msg n) v h)).
Proof.
  intros Hc H0 H1. split; [etrans; apply hkept_put|]. intros x.
  rewrite (nxt_put _ _ v0) by (by rewrite (nxt_put _ _ v1), decide_False). rewrite (nxt_put _ _ v1) by done.
  repeat case_decide; congruence.
Qed.

(** The search stops behind the messages of at least the new priority. *)
Lemma send_loop_run prio n : ∀ ql l fuel p s v1,
  mchain (nxt (hdr s)) (opt_cell p) ql → Forall2 (holds_msg (hdr s)) ql l → (length ql < fuel)%nat →
  opt_cell p ≠ Msg n → n ∉ ql → nxt (hdr s) (Msg n) = Some v1 →
  wp (send_loop fuel prio n p (default 0 (head ql))) (λ _ s', ∃ h' ql1 ql2 l1 l2,
    s' = set_hdr h' s ∧ ql = ql1 ++ ql2 ∧ l = l1 ++ l2 ∧ Forall2 (holds_msg (hdr s)) ql1 l1 ∧
    Forall (λ m, prio <= m.1) l1 ∧ (match l2 with [] => True | m :: _ => m.1 < prio end) ∧
    linked (mpred (opt_cell p) ql1) n (default 0 (head ql2)) (hdr s) h') s.
Proof.
  induction ql as [|i ql IH]; intros l [|fuel] p s v1 Hch Hl Hf Hp Hn H1; try (simpl in Hf; lia);
    cbn [send_loop].
  - apply Forall2_nil_inv_l in Hl as ->. change (default 0 (head [])) with 0. rewrite Z.eqb_refl. simpl in Hch.
    wp_step. eapply wp_run; [by eapply set_next_run|].
    eapply wp_run; [eapply set_next_run; cbn [hdr set_hdr opt_cell]; by rewrite (nxt_put _ _ 0), decide_False|].
    eexists _, [], [], [], []. split_and!; try done. by eapply linked_put1.
  - destruct Hch as (Hi & Hi0 & Hch). apply Forall2_cons_inv_l in Hl as (x & l' & Hx & Hl & ->).
    destruct Hx as (m & Hm & Hpr & Hrest). change (default 0 (head (i :: ql))) with i. replace (i =? 0) with false by lia.
    wp_step. eapply wp_run; [by apply get_msg_run|]. rewrite Hpr. destruct (x.1 <? prio) eqn:E.
    + wp_step. eapply wp_run; [by eapply (set_next_run (Some n))|].
      eapply wp_run; [eapply set_next_run; cbn [hdr set_hdr opt_cell]; by rewrite (nxt_put _ _ v1), decide_False|].
      eexists _, [], (i :: ql), [], (x :: l'). split_and!; try done; [lia|]. by eapply linked_put2.
    + assert (msg_next m = default 0 (head ql)) as ->.
      { destruct ql as [|j ql]; simpl in Hch; rewrite Hm in Hch; simpl in *; [congruence|].
        destruct Hch as [Hch _]. congruence. }
      eapply wp_mono; [eapply (IH l' fuel (Some i) s v1 Hch Hl)|].
      * simpl in Hf. lia.
      * simpl. intros [= ->]. apply Hn. by left.
      * intros Hin. apply Hn. by right.
      * done.
      * cbn beta. intros _ s' (h' & ql1 & ql2 & l1 & l2 & -> & -> & -> & H2 & H3 & H4 & H5).
        exists h', (i :: ql1), ql2, (x :: l1), l2. split_and!; try done.
        -- constructor; [by exists m|done].
        -- constructor; [lia|done].
Qed.

Definition set_curmsgs (f : Z → Z) (h : mymq_hdr) : mymq_hdr :=
  set_mqh_attr (set_mq_curmsgs (f (mq_curmsgs (mqh_attr h))) (mqh_attr h)) h.

Ltac q_simpl := unfold set_curmsgs, attr; cbn [hdr set_hdr msgs mqh_attr set_mqh_attr mq_maxmsg mq_curmsgs mq_msgsize
  set_mq_curmsgs mqh_event mqh_nwait mqh_pid info errno sigs wakes set_wakes].

(** The new message in the first free place, which leaves the free list. *)
Definition filled (n : Z) (m : mymsg_hdr) (ptr : list Z) (prio : Z) (h : mymq_hdr) : mymq_hdr :=
  set_mqh_free (msg_next m)
    (set_msgs (<[n := MymsgHdr (msg_next m) (zlen ptr) prio (overlay (msg_bytes m) ptr)]> (msgs h)) h).

Lemma filled_nxt n m ptr prio h x :
  msgs h !! n = Some m → x ≠ Free → nxt (filled n m ptr prio h) x = nxt h x.
Proof.
  intros Hn Hx. destruct x as [| |i]; [done..|]. unfold filled. cbn [nxt set_mqh_free set_msgs msgs].
  destruct (decide (n = i)) as [->|]; [by rewrite lookup_insert_eq, Hn|by rewrite lookup_insert_ne].
Qed.

Lemma filled_holds n m ptr prio h i x :
  i ≠ n → holds_msg (filled n m ptr prio h) i x ↔ holds_msg h i x.
Proof. intros Hi. unfold holds_msg, filled. cbn. by rewrite lookup_insert_ne. Qed.

Lemma filled_new n m ptr prio h : holds_msg (filled n m ptr prio h) n (prio, ptr).
Proof.
  eexists. unfold filled. cbn. rewrite lookup_insert_eq. split_and!; [done..|].
  unfold overlay. by apply ztake_app.
Qed.

Lemma Forall2_holds h h' ql l : Forall2 (holds_msg h) ql l →
  (∀ i x, i ∈ ql → holds_msg h i x → holds_msg h' i x) → Forall2 (holds_msg h') ql l.
Proof.
  induction 1 as [|i x ql l Hx _ IH]; intros Hi; [constructor|].
  constructor; [apply Hi; [by left|done]|]. apply IH. intros j y Hj. apply Hi. by right.
Qed.

(** Filling the first free place and linking it in keeps the invariant. *)
Lemma Q_send h ql1 ql2 n fl l1 l2 m ptr prio h' :
  Q h (ql1 ++ ql2) (n :: fl) (l1 ++ l2) → zlen ptr <= mq_msgsize (mqh_attr h) → msgs h !! n = Some m →
  Forall2 (holds_msg h) ql1 l1 → Forall2 (holds_msg h) ql2 l2 →
  Forall (λ x, prio <= x.1) l1 → (match l2 with [] => True | x :: _ => x.1 < prio end) →
  linked (mpred Head ql1) n (default 0 (head ql2)) (filled n m ptr prio h) h' →
  Q (set_curmsgs (λ c, c + 1) h') (ql1 ++ n :: ql2) fl (enqueue prio ptr (l1 ++ l2)).
Proof.
  intros [Hh Hf Hnd Hmax Hpos Hcur Hms Hso Hsz Hdom] Hlen Hm H1 H2 H3 H4 [[Ka _ _ _ Km Kd] Kn].
  assert (NoDup ((ql1 ++ n :: ql2) ++ fl)) as Hnd'.
  { eapply NoDup_Permutation_proper, Hnd. rewrite <- !app_assoc. simpl. by rewrite <- !Permutation_middle. }
  assert (n ∉ (ql1 ++ ql2) ++ fl) as Hn.
  { rewrite <- Permutation_middle in Hnd. by apply NoDup_cons in Hnd as [? _]. }
  destruct Hf as (_ & Hn0 & Hf). cbn in Ka.
  assert (∀ x, nxt (set_curmsgs (λ c, c + 1) h') x = nxt h' x) as Kx by done.
  assert (∀ i x, holds_msg h i x → i ≠ n → holds_msg (set_curmsgs (λ c, c + 1) h') i x) as Kh.
  { intros i x Hi Hin. apply Km. by apply filled_holds. }
  assert (∀ i, i ∈ ql1 ++ ql2 ++ fl → i ≠ n) as Hne.
  { intros i Hi ->. apply Hn. by rewrite <- app_assoc. }
  split.
  - eapply (mchain_insert (nxt (filled n m ptr prio h))); rewrite ?Kx, ?Kn; try done.
    + eapply mchain_ext; [exact Hh|by apply filled_nxt|intros; by apply filled_nxt].
    + by apply NoDup_app in Hnd as [? _].
    + set_solver.
    + by rewrite decide_True.
    + rewrite decide_False, decide_True; [done..|]. intros E.
      destruct (mpred_cases Head ql1) as [[_ Ep]|(i & Hi & Ep)]; rewrite Ep in E; simplify_eq. set_solver.
    + intros x Hx Hxn. by rewrite Kx, Kn, decide_False, decide_False.
  - assert (∀ x, (x = Free ∨ ∃ i, i ∈ fl ∧ x = Msg i) → x ≠ mpred Head ql1 ∧ x ≠ Msg n) as Hx.
    { intros x Hx. split; intros ->.
      - destruct (mpred_cases Head ql1) as [[_ Ep]|(i & Hi & Ep)]; rewrite Ep in Hx;
          destruct Hx as [?|(j & Hj & E)]; simplify_eq.
        apply NoDup_app in Hnd as (_ & Hd & _). apply (Hd j); set_solver.
      - destruct Hx as [?|(j & Hj & E)]; simplify_eq. set_solver. }
    assert (nxt h (Msg n) = Some (msg_next m)) as Hnm by (cbn; by rewrite Hm).
    eapply (mchain_ext (λ x, if decide (x = Free) then nxt h (Msg n) else nxt h x)).
    + destruct fl as [|i fl]; simpl in *; [done|]. destruct Hf as (? & ? & Hf). split_and!; [done..|].
      eapply mchain_ext; [exact Hf|done..].
    + rewrite Kx, Kn. destruct (Hx Free (or_introl eq_refl)). rewrite !decide_False by done. by rewrite Hnm.
    + intros i Hi. rewrite Kx, Kn. destruct (Hx (Msg i)) as [? ?]; [right; eauto|].
      rewrite !decide_False by done. by apply filled_nxt.
  - done.
  - cbn. rewrite Ka, <- Hmax. unfold zlen. rewrite !length_app. simpl. lia.
  - cbn. by rewrite Ka.
  - cbn. rewrite Ka, Hcur. unfold zlen. rewrite !length_app. simpl. lia.
  - rewrite enqueue_split by done. apply Forall2_app; [|constructor].
    + eapply Forall2_holds; [exact H1|]. intros. apply Kh; [done|]. apply Hne. set_solver.
    + apply Km, filled_new.
    + eapply Forall2_holds; [exact H2|]. intros. apply Kh; [done|]. apply Hne. set_solver.
  - by apply enqueue_by_prio.
  - cbn. rewrite Ka. apply Forall_forall. intros x [->|Hx]%enqueue_elem; [done|]. by eapply Forall_forall in Hsz.
  - intros i Hi. apply elem_of_dom. cbn. rewrite Kd. cbn. rewrite dom_insert, elem_of_union, elem_of_singleton.
    destruct (decide (i = n)); [by left|right]. apply elem_of_dom, Hdom. set_solver.
Qed.

Lemma nodup_size (ms : gmap Z mymsg_hdr) l :
  NoDup l → (∀ i, i ∈ l → is_Some (ms !! i)) → (length l <= size ms)%nat.
Proof.
  intros Hn Hd. rewrite <- size_dom, <- (size_list_to_set (C := gset Z) l Hn).
  apply subseteq_size. intros i Hi%elem_of_list_to_set. by apply elem_of_dom, Hd.
Qed.

(** The part of the state a call must not touch. *)
Record qkept (s s' : mq) : Prop := MkQkept {
  qk_info : info s' = info s;
  qk_max : mq_maxmsg (attr s') = mq_maxmsg (attr s);
  qk_size : mq_msgsize (attr s') = mq_msgsize (attr s);
  qk_event : mqh_event (hdr s') = mqh_event (hdr s) }.

Lemma hkept_filled n m ptr prio h :
  mqh_attr (filled n m ptr prio h) = mqh_attr h ∧ mqh_nwait (filled n m ptr prio h) = mqh_nwait h ∧
  mqh_pid (filled n m ptr prio h) = mqh_pid h ∧ mqh_event (filled n m ptr prio h) = mqh_event h.
Proof. done. Qed.

Lemma send_body_run s ql fl l ptr prio :
  Q (hdr s) ql fl l → fl ≠ [] → zlen ptr <= mq_msgsize (attr s) →
  wp (send_body ptr prio) (λ rc s', rc = 0 ∧ queue (hdr s') (enqueue prio ptr l) ∧ qkept s s' ∧
    errno s' = errno s ∧ sigs s' = sigs s ∧ mqh_nwait (hdr s') = mqh_nwait (hdr s) ∧
    mqh_pid (hdr s') = mqh_pid (hdr s) ∧
    wakes s' = if l is [] then S (wakes s) else wakes s) s.
Proof.
  intros HQ Hfl Hlen. destruct fl as [|n fl]; [done|]. clear Hfl. pose proof HQ as HQ0.
  destruct HQ as [Hh (Hfr & Hn0 & Hf) Hnd Hmax Hpos Hcur Hms Hso Hsz Hdom]. cbn in Hfr.
  destruct (Hdom n) as [m Hm]; [set_solver|]. injection Hfr as Hfr.
  assert (n ∉ ql) as Hnq by (apply NoDup_app in Hnd as (_ & Hd & _); intros Hi; apply (Hd n Hi); by left).
  unfold send_body, set_msg, upd_hdr, pthread_cond_signal. wp_step. rewrite Hfr. replace (n =? 0) with false by lia.
  wp_step. eapply wp_run; [by apply get_msg_run|]. wp_step. wp_step. wp_step. wp_step.
  cbn [hdr set_hdr msgs set_msgs set_mqh_free mqh_head].
  match goal with |- wp _ _ (set_hdr ?h1 ?s1) => change (set_hdr h1 s1) with (set_hdr (filled n m ptr prio (hdr s)) s) end.
  set (h1 := filled n m ptr prio (hdr s)).
  assert (mqh_head (hdr s) = default 0 (head ql)) as ->.
  { destruct ql; cbn in Hh |- *; [congruence|]. destruct Hh as [Hh _]. by injection Hh. }
  wp_step. eapply wp_mono; [apply (send_loop_run prio n ql l _ None (set_hdr h1 s) (msg_next m))|].
  - eapply mchain_ext; [exact Hh|by apply filled_nxt|intros; by apply filled_nxt].
  - eapply Forall2_holds; [exact Hms|]. intros i x Hi Hx. apply filled_holds; [|done]. by intros ->.
  - cbn [msgs filled set_mqh_free set_msgs]. apply Nat.lt_succ_r, nodup_size.
    + by apply NoDup_app in Hnd as [? _].
    + intros i Hi. apply lookup_insert_is_Some'. right. apply Hdom. set_solver.
  - done.
  - done.
  - cbn. by rewrite lookup_insert_eq.
  - cbn beta. intros _ s' (h' & ql1 & ql2 & l1 & l2 & -> & -> & -> & H1 & H3 & H4 & H5). cbn [hdr set_hdr] in *.
    assert (Forall2 (holds_msg (hdr s)) ql1 l1) as H1'.
    { eapply Forall2_holds; [exact H1|]. intros i x Hi. apply filled_holds. set_solver. }
    assert (Forall2 (holds_msg (hdr s)) ql2 l2) as H2'.
    { apply Forall2_app_inv in Hms as [_ ?]; [done|]. by eapply Forall2_length. }
    pose proof H5 as [[Ka Kw Kp Ke _ _] _].
    assert (queue (set_curmsgs (λ c, c + 1) h') (enqueue prio ptr (l1 ++ l2))) as Hq.
    { eexists _, _. by eapply Q_send. }
    wp_step. unfold attr. cbn [hdr set_hdr].
    assert ((mq_curmsgs (mqh_attr h') =? 0) = match l1 ++ l2 with [] => true | _ => false end) as ->.
    { rewrite Ka. cbn. pose proof (Q_empty _ _ _ _ HQ0) as He. destruct (l1 ++ l2); [by apply Z.eqb_eq, He|].
      apply Z.eqb_neq. intros E. by apply He in E. }
    destruct (l1 ++ l2) as [|y yl]; wp_step; wp_step; wp_step; split_and!; try done;
      split; unfold attr; cbn; by rewrite ?Ka, ?Ke.
Qed.

(** The first message taken off the queue and put on the free list. *)
Definition taken (n : Z) (m : mymsg_hdr) (h : mymq_hdr) : mymq_hdr :=
  put Free n (put (Msg n) (mqh_free h) (put Head (msg_next m) h)).

Lemma taken_nxt n m h x : msgs h !! n = Some m →
  nxt (taken n m h) x =
    match x with Head => Some (msg_next m) | Free => Some n | Msg i => if decide (i = n) then nxt h Free else nxt h x end.
Proof.
  intros Hm. unfold taken. rewrite (nxt_put _ Free (mqh_free (put (Msg n) (mqh_free h) (put Head (msg_next m) h)))) by done.
  rewrite (nxt_put _ (Msg n) (msg_next m)) by (cbn; by rewrite Hm). rewrite (nxt_put _ Head (mqh_head h)) by done.
  destruct x; repeat case_decide; simplify_eq; done.
Qed.

Lemma hkept_taken n m h : hkept h (taken n m h).
Proof. etrans; [|apply hkept_put]. etrans; apply hkept_put. Qed.

Lemma Q_receive h n ql fl x l m :
  Q h (n :: ql) fl (x :: l) → msgs h !! n = Some m →
  Q (set_curmsgs (λ c, c - 1) (taken n m h)) ql (n :: fl) l.
Proof.
  intros [Hh Hf Hnd Hmax Hpos Hcur Hms Hso Hsz Hdom] Hm. destruct Hh as (_ & Hn0 & Hh).
  destruct (hkept_taken n m h) as [Ka _ _ _ Km Kd].
  assert (∀ y, nxt (set_curmsgs (λ c, c - 1) (taken n m h)) y = nxt (taken n m h) y) as Kx by done.
  simpl in Hnd. apply NoDup_cons in Hnd as [Hn Hnd].
  assert (∀ i, i ∈ ql ++ fl → nxt (taken n m h) (Msg i) = nxt h (Msg i)) as Hi.
  { intros i Hi. rewrite taken_nxt, decide_False; [done| |done]. by intros ->. }
  apply Forall2_cons in Hms as [_ Hms]. apply Forall_cons in Hsz as [_ Hsz].
  split.
  - assert (nxt h (Msg n) = Some (msg_next m)) as Hnm by (cbn; by rewrite Hm).
    destruct ql as [|i ql]; cbn [mchain] in *; rewrite Kx, taken_nxt by done; [congruence|].
    destruct Hh as (H1 & H2 & H3). split_and!; [congruence|done|].
    eapply mchain_ext; [exact H3|apply Hi; set_solver|intros; apply Hi; set_solver].
  - cbn [mchain]. rewrite Kx, taken_nxt by done. split_and!; [done..|].
    destruct fl as [|i fl]; cbn [mchain] in *; rewrite Kx, taken_nxt, decide_True by done; [done|].
    destruct Hf as (H1 & H2 & H3). split_and!; [done..|].
    eapply mchain_ext; [exact H3|apply Hi; set_solver|intros; apply Hi; set_solver].
  - rewrite <- Permutation_middle. by apply NoDup_cons.
  - q_simpl. rewrite Ka, <- Hmax. unfold zlen. simpl. rewrite !length_app. simpl. lia.
  - q_simpl. by rewrite Ka.
  - q_simpl. rewrite Ka, Hcur, zlen_cons. lia.
  - eapply Forall2_holds; [exact Hms|]. intros i y _. apply Km.
  - by inversion Hso.
  - q_simpl. by rewrite Ka.
  - intros i Hin. apply elem_of_dom. cbn [msgs set_curmsgs set_mqh_attr]. rewrite Kd. apply elem_of_dom, Hdom. set_solver.
Qed.

Lemma receive_body_run s ql fl p b l :
  Q (hdr s) ql fl ((p, b) :: l) →
  wp receive_body (λ r s', r = Received (zlen b) b p ∧ queue (hdr s') l ∧ qkept s s' ∧
    errno s' = errno s ∧ sigs s' = sigs s ∧ mqh_nwait (hdr s') = mqh_nwait (hdr s) ∧
    mqh_pid (hdr s') = mqh_pid (hdr s) ∧
    wakes s' = if 1 + zlen l =? mq_maxmsg (attr s) then S (wakes s) else wakes s) s.
Proof.
  intros HQ.
  pose proof (Q_msgs _ _ _ _ HQ) as Hms. apply Forall2_cons_inv_r in Hms as (n & ql' & Hx & _ & ->).
  destruct Hx as (m & Hm & Hp & Hl & Hb). cbn in Hp, Hl, Hb.
  destruct (Q_head _ _ _ _ HQ) as (Hh & Hn0 & _). cbn in Hh. injection Hh as Hh.
  pose proof (queue_length _ _ _ _ HQ) as Hcur. rewrite zlen_cons in Hcur.
  unfold receive_body, set_msg, upd_hdr, pthread_cond_signal. wp_step. rewrite Hh. replace (n =? 0) with false by lia.
  wp_step. eapply wp_run; [by apply get_msg_run|]. wp_step. wp_step. wp_step. wp_step. wp_step.
  cbn [hdr set_hdr].
  assert (set_mqh_free n (set_msgs (<[n := set_msg_next (mqh_free (set_mqh_head (msg_next m) (hdr s))) m]>
    (msgs (set_mqh_head (msg_next m) (hdr s)))) (set_mqh_head (msg_next m) (hdr s))) = taken n m (hdr s)) as ->.
  { unfold taken. cbn [put set_mqh_head msgs]. rewrite Hm. done. }
  destruct (hkept_taken n m (hdr s)) as [Ka Kw Kp Ke _ _].
  assert (queue (set_curmsgs (λ c, c - 1) (taken n m (hdr s))) l) as Hq by (eexists _, _; by eapply Q_receive).
  unfold attr. cbn [hdr set_hdr]. rewrite Ka. unfold attr in *. rewrite <- Hcur.
  destruct (_ =? _); wp_step; wp_step; wp_step; split_and!; try done;
    try (split; q_simpl; by rewrite ?Ka, ?Ke); by rewrite Hb, Hl, Hp.
Qed.

(** ** The calls *)

Definition open_mqd (s : mq) : Prop := mqi_magic (info s) = MQI_MAGIC.
Definition is_nonblock (i : mymq_info) : bool := negb (Z.land (mqi_flags i) O_NONBLOCK =? 0).

(** What [mymq_send] returns on a queue that holds [l], and its error number. *)
Definition send_ret (h : mymq_hdr) (i : mymq_info) (l : pq) (ptr : list Z) : option Z * option Z :=
  if mq_msgsize (mqh_attr h) <? zlen ptr then (Some (-1), Some EMSGSIZE)
  else if zlen l <? mq_maxmsg (mqh_attr h) then (Some 0, None)
  else if is_nonblock i then (Some (-1), Some EAGAIN) else (None, None).

Definition send_queue (r : option Z) (ptr : list Z) (prio : Z) (l : pq) : pq :=
  if decide (r = Some 0) then enqueue prio ptr l else l.

Definition set_err (e : option Z) (old : Z) : Z := default old e.

Lemma Q_hdr_ext h h' ql fl l :
  Q h ql fl l → mqh_attr h' = mqh_attr h → mqh_head h' = mqh_head h → mqh_free h' = mqh_free h →
  msgs h' = msgs h → Q h' ql fl l.
Proof.
  intros [H1 H2 H3 H4 H5 H6 H7 H8 H9 H10] Ea Eh Ef Em.
  assert (∀ x, nxt h' x = nxt h x) as Ex by (intros []; cbn; congruence).
  split; rewrite ?Ea; try done.
  - eapply mchain_ext; [exact H1|apply Ex|intros; apply Ex].
  - eapply mchain_ext; [exact H2|apply Ex|intros; apply Ex].
  - eapply Forall2_holds; [exact H7|]. intros i x _. unfold holds_msg. by rewrite Em.
  - intros i Hi. rewrite Em. by apply H10.
Qed.

Lemma notify_registered_run s : wp notify_registered (λ _ s', ∃ p, s' = set_hdr (set_mqh_pid p (hdr s)) (set_sigs (sigs s') s) ∧
    if negb (mqh_pid (hdr s) =? 0) && (mqh_nwait (hdr s) =? 0) then
      p = 0 ∧ sigs s' = if sigev_notify (mqh_event (hdr s)) =? SIGEV_SIGNAL
        then sigs s ++ [(mqh_pid (hdr s), sigev_signo (mqh_event (hdr s)), sigev_value (mqh_event (hdr s)))]
        else sigs s
    else p = mqh_pid (hdr s) ∧ sigs s' = sigs s) s.
Proof.
  unfold notify_registered, upd_hdr. wp_step. destruct (_ && _).
  - destruct (_ =? SIGEV_SIGNAL).
    + wp_step. wp_step. exists 0. by destruct s.
    + wp_step. wp_step. exists 0. by destruct s.
  - wp_step. exists (mqh_pid (hdr s)). destruct s as [[] ? ? ? ?]. done.
Qed.

Lemma send_room s ql fl l : Q (hdr s) ql fl l → zlen l < mq_maxmsg (attr s) → fl ≠ [].
Proof.
  intros HQ Hl E. apply (Q_full _ _ _ _ HQ) in E. rewrite (queue_length _ _ _ _ HQ) in Hl. unfold attr in Hl. lia.
Qed.

Lemma wp_eq {A} (m m' : MQM A) P s : m s = m' s → wp m' P s → wp m P s.
Proof. unfold wp. by intros ->. Qed.

Lemma send_open ptr prio s : open_mqd s →
  mymq_send ptr prio s =
    (if mq_msgsize (attr s) <? zlen ptr then return_err EMSGSIZE (Some (-1))
     else if mq_curmsgs (attr s) =? 0 then
       notify_registered;;; let! rc := send_body ptr prio in ret (Some rc)
     else if mq_maxmsg (attr s) <=? mq_curmsgs (attr s) then
       if is_nonblock (info s) then return_err EAGAIN (Some (-1)) else ret None
     else let! rc := send_body ptr prio in ret (Some rc)) s.
Proof.
  intros Ho. unfold mymq_send, bad_mqd. rewrite bind_gets, Ho, Z.eqb_refl. cbn [negb]. rewrite bind_get.
  destruct (_ <? _); [done|]. destruct (_ =? 0); [done|]. destruct (_ <=? _); [|done].
  unfold nonblocking, is_nonblock. by rewrite bind_gets.
Qed.

Lemma send_spec s l ptr prio :
  queue (hdr s) l → open_mqd s →
  let '(r, e) := send_ret (hdr s) (info s) l ptr in
  wp (mymq_send ptr prio) (λ r' s', r' = r ∧ queue (hdr s') (send_queue r ptr prio l) ∧ qkept s s' ∧
    errno s' = set_err e (errno s) ∧ mqh_nwait (hdr s') = mqh_nwait (hdr s) ∧
    wakes s' = (if decide (r = Some 0 ∧ l = []) then S (wakes s) else wakes s) ∧
    (r = None → hdr s' = hdr s) ∧
    if decide (r = Some 0 ∧ l = [] ∧ mqh_pid (hdr s) ≠ 0 ∧ mqh_nwait (hdr s) = 0) then
      mqh_pid (hdr s') = 0 ∧ sigs s' = if sigev_notify (mqh_event (hdr s)) =? SIGEV_SIGNAL
        then sigs s ++ [(mqh_pid (hdr s), sigev_signo (mqh_event (hdr s)), sigev_value (mqh_event (hdr s)))]
        else sigs s
    else mqh_pid (hdr s') = mqh_pid (hdr s) ∧ sigs s' = sigs s) s.
Proof.
  intros (ql & fl & HQ) Ho. pose proof (queue_length _ _ _ _ HQ) as Hcur. pose proof (Q_empty _ _ _ _ HQ) as Hemp.
  unfold send_ret, send_queue, set_err, attr in *.
  destruct (mq_msgsize (mqh_attr (hdr s)) <? zlen ptr) eqn:Esz;
    [|destruct (zlen l <? mq_maxmsg (mqh_attr (hdr s))) eqn:Eroom; [|destruct (is_nonblock (info s)) eqn:Enb]];
    (eapply wp_eq; [by apply send_open|]); unfold attr, return_err; rewrite Esz.
  - wp_step. wp_step. split_and!; try done; by eexists _, _.
  - assert (fl ≠ []) as Hfl by (apply (send_room s _ _ _ HQ); unfold attr; lia).
    destruct l as [|y l].
    + rewrite (proj2 Hemp) by done. rewrite Z.eqb_refl.
      wp_call (notify_registered_run s). intros _ s1 (p & E1 & Hp).
      assert (Q (hdr s1) ql fl []) as HQ1 by (rewrite E1; by eapply Q_hdr_ext).
      wp_call (send_body_run s1 ql fl [] ptr prio HQ1 Hfl); [rewrite E1; unfold attr; cbn; lia|].
      intros rc s2 (-> & Hq & [Hk1 Hk2 Hk3 Hk4] & He & Hs & Hw & Hpd & Hwk). wp_step.
      assert (info s1 = info s ∧ mqh_attr (hdr s1) = mqh_attr (hdr s) ∧ mqh_event (hdr s1) = mqh_event (hdr s) ∧
        errno s1 = errno s ∧ mqh_nwait (hdr s1) = mqh_nwait (hdr s) ∧ wakes s1 = wakes s ∧ mqh_pid (hdr s1) = p)
        as (G1 & G2 & G3 & G4 & G5 & G6 & G7) by (by rewrite E1).
      unfold attr in *. rewrite !(decide_True (P := Some 0 = Some 0 ∧ _)) by done.
      split_and!; [done|done|split; unfold attr; congruence|cbn; congruence|congruence|congruence|done|].
      rewrite Hs, Hpd, G7. case_decide as Hd.
      * destruct Hd as (_ & _ & Hd1 & Hd2). replace (negb _ && _) with true in Hp by lia. done.
      * replace (negb _ && _) with false in Hp; [done|]. destruct (mqh_pid (hdr s) =? 0) eqn:?, (mqh_nwait (hdr s) =? 0) eqn:?; try done.
        exfalso. apply Hd. split_and!; [done|done|lia|lia].
    + replace (_ =? 0) with false by (rewrite zlen_cons in Hcur; pose proof (zlen_nonneg l); lia).
      replace (_ <=? _) with false by lia.
      wp_call (send_body_run s ql fl (y :: l) ptr prio HQ Hfl); [unfold attr; lia|].
      intros rc s2 (-> & Hq & Hk & He & Hs & Hw & Hpd & Hwk). wp_step.
      rewrite (decide_True (P := Some 0 = Some 0)) by done. rewrite !decide_False by naive_solver. split_and!; done.
  - replace (_ =? 0) with false by (pose proof (Q_pos _ _ _ _ HQ); lia). replace (_ <=? _) with true by lia.
    rewrite Enb. wp_step. wp_step. rewrite !decide_False by naive_solver. split_and!; try done; by eexists _, _.
  - replace (_ =? 0) with false by (pose proof (Q_pos _ _ _ _ HQ); lia). replace (_ <=? _) with true by lia.
    rewrite Enb. wp_step. rewrite !decide_False by naive_solver. split_and!; try done; by eexists _, _.
Qed.

Lemma send_woken_spec s l ptr prio :
  queue (hdr s) l → zlen ptr <= mq_msgsize (attr s) →
  let r := if zlen l <? mq_maxmsg (attr s) then Some 0 else None in
  wp (mymq_send_woken ptr prio) (λ r' s', r' = r ∧ queue (hdr s') (send_queue r ptr prio l) ∧ qkept s s' ∧
    mqh_nwait (hdr s') = mqh_nwait (hdr s) ∧
    wakes s' = (if decide (r = Some 0 ∧ l = []) then S (wakes s) else wakes s)) s.
Proof.
  intros (ql & fl & HQ) Hlen r. pose proof (queue_length _ _ _ _ HQ) as Hcur.
  unfold mymq_send_woken, send_queue. subst r. wp_step. unfold attr in *. rewrite Hcur.
  destruct (_ <? _) eqn:Eroom.
  - replace (_ <=? _) with false by lia.
    assert (fl ≠ []) as Hfl by (apply (send_room s _ _ _ HQ); unfold attr; lia).
    wp_call (send_body_run s ql fl l ptr prio HQ Hfl); [unfold attr; lia|].
    intros rc s2 (-> & Hq & Hk & He & Hs & Hw & Hpd & Hwk). wp_step.
    rewrite (decide_True (P := Some 0 = Some 0)) by done. split_and!; try done.
    rewrite Hwk. destruct l; [by rewrite decide_True|rewrite decide_False; [done|naive_solver]].
  - replace (_ <=? _) with true by lia. wp_step. rewrite !decide_False by naive_solver.
    split_and!; try done. by eexists _, _.
Qed.

(** What [mymq_receive] returns on a queue that holds [l]. *)
Definition recv_ret (h : mymq_hdr) (i : mymq_info) (l : pq) (maxlen : Z) : option received * option Z :=
  if maxlen <? mq_msgsize (mqh_attr h) then (receive_failed, Some EMSGSIZE)
  else match l with
       | (p, b) :: _ => (Some (Received (zlen b) b p), None)
       | [] => if is_nonblock i then (receive_failed, Some EAGAIN) else (None, None)
       end.

Lemma receive_open maxlen s : open_mqd s →
  mymq_receive maxlen s =
    (if maxlen <? mq_msgsize (attr s) then return_err EMSGSIZE receive_failed
     else if mq_curmsgs (attr s) =? 0 then
       if is_nonblock (info s) then return_err EAGAIN receive_failed
       else upd_hdr (λ h, set_mqh_nwait (mqh_nwait h + 1) h);;; ret None
     else let! r := receive_body in ret (Some r)) s.
Proof.
  intros Ho. unfold mymq_receive, bad_mqd. rewrite bind_gets, Ho, Z.eqb_refl. cbn [negb]. rewrite bind_get.
  destruct (_ <? _); [done|]. destruct (_ =? 0); [|done].
  unfold nonblocking, is_nonblock. by rewrite bind_gets.
Qed.

(** The queue after a receive that returned message [r]. *)
Definition recv_queue (e : option Z) (l : pq) : pq := if e is Some _ then l else tail l.

Lemma receive_spec s l maxlen :
  queue (hdr s) l → open_mqd s →
  let '(r, e) := recv_ret (hdr s) (info s) l maxlen in
  wp (mymq_receive maxlen) (λ r' s', r' = r ∧ queue (hdr s') (recv_queue e l) ∧ qkept s s' ∧
    errno s' = set_err e (errno s) ∧ mqh_pid (hdr s') = mqh_pid (hdr s) ∧ sigs s' = sigs s ∧
    mqh_nwait (hdr s') = (if decide (r = None) then mqh_nwait (hdr s) + 1 else mqh_nwait (hdr s)) ∧
    wakes s' = (if decide (e = None ∧ r ≠ None ∧ zlen l = mq_maxmsg (attr s)) then S (wakes s) else wakes s)) s.
Proof.
  intros (ql & fl & HQ) Ho. pose proof (queue_length _ _ _ _ HQ) as Hcur. pose proof (Q_empty _ _ _ _ HQ) as Hemp.
  unfold recv_ret, recv_queue, set_err, attr in *.
  destruct (maxlen <? mq_msgsize (mqh_attr (hdr s))) eqn:Esz;
    [|destruct l as [|[p b] l]; [destruct (is_nonblock (info s)) eqn:Enb|]];
    (eapply wp_eq; [by apply receive_open|]); unfold attr, return_err, upd_hdr; rewrite Esz.
  - wp_step. wp_step. rewrite !decide_False by naive_solver. split_and!; try done; by eexists _, _.
  - rewrite (proj2 Hemp), Z.eqb_refl, Enb by done. wp_step. wp_step. rewrite !decide_False by naive_solver.
    split_and!; try done; by eexists _, _.
  - rewrite (proj2 Hemp), Z.eqb_refl, Enb by done. wp_step. wp_step. rewrite decide_True, decide_False by naive_solver.
    split_and!; try done. eexists _, _. by eapply Q_hdr_ext.
  - replace (_ =? 0) with false by (rewrite zlen_cons in Hcur; pose proof (zlen_nonneg l); lia).
    wp_call (receive_body_run s ql fl p b l HQ). intros r s' (-> & Hq & Hk & He & Hs & Hw & Hpd & Hwk). wp_step.
    rewrite (decide_False (P := Some _ = None)) by done. split_and!; try done.
    rewrite Hwk. unfold attr. rewrite zlen_cons. case_decide as Hd.
    + by replace (_ =? _) with true by lia.
    + replace (_ =? _) with false; [done|]. symmetry. apply Z.eqb_neq. intros E. by apply Hd.
Qed.

Lemma receive_woken_spec s l :
  queue (hdr s) l →
  let r := match l with (p, b) :: _ => Some (Received (zlen b) b p) | [] => None end in
  wp mymq_receive_woken (λ r' s', r' = r ∧ queue (hdr s') (tail l) ∧ qkept s s' ∧
    mqh_nwait (hdr s') = (if decide (r = None) then mqh_nwait (hdr s) else mqh_nwait (hdr s) - 1) ∧
    wakes s' = (if decide (r ≠ None ∧ zlen l = mq_maxmsg (attr s)) then S (wakes s) else wakes s)) s.
Proof.
  intros (ql & fl & HQ) r. pose proof (queue_length _ _ _ _ HQ) as Hcur. pose proof (Q_empty _ _ _ _ HQ) as Hemp.
  unfold mymq_receive_woken, attr, upd_hdr in *. subst r. wp_step. destruct l as [|[p b] l].
  - rewrite (proj2 Hemp), Z.eqb_refl by done. wp_step. rewrite decide_True, decide_False by naive_solver.
    split_and!; try done. by eexists _, _.
  - replace (_ =? 0) with false by (rewrite zlen_cons in Hcur; pose proof (zlen_nonneg l); lia). wp_step.
    match goal with |- wp _ _ ?s1 => assert (Q (hdr s1) ql fl ((p, b) :: l)) as HQ1 by (by eapply Q_hdr_ext) end.
    wp_call (receive_body_run _ ql fl p b l HQ1). intros r s' (-> & Hq & [] & He & Hs & Hw & Hpd & Hwk). wp_step.
    rewrite (decide_False (P := Some _ = None)) by done. split_and!; try done.
    rewrite Hwk. unfold attr. cbn. rewrite zlen_cons. case_decide as Hd.
    + by replace (_ =? _) with true by lia.
    + replace (_ =? _) with false; [done|]. symmetry. apply Z.eqb_neq. intros E. by apply Hd.
Qed.
