(* ===== verification/MqProps.v ===== *)
(** Threads that share a message queue, and the properties of the queue. *)

From stdpp Require Import base tactics numbers list gmap strings.
From Stdlib Require Import ZArith Lia Sorted Relations.
From S2P Require Import Prelude Cio Threads Mq MqThms.

(** ** Counting the threads inside a receive *)

Definition in_recv (st : tstate) : bool :=
  match st with Waiting (CReceive _) | Woken (CReceive _) => true | _ => false end.

Abbreviation tmap := (gmap nat (mymq_info * tstate)).

Definition nrecv (ts : tmap) : Z := tcount (λ x, in_recv x.2) ts.

Lemma nrecv_insert ts t i st i' st' : ts !! t = Some (i, st) →
  nrecv (<[t := (i', st')]> ts) = nrecv ts - b2z (in_recv st) + b2z (in_recv st').
Proof. intros Ht. exact (tcount_insert (λ x, in_recv x.2) ts t (i, st) (i', st') Ht). Qed.

(** What [pthread_cond_signal] does to the threads. *)
Lemma wake_n_spec n ts ts' : wake_n n ts ts' →
  nrecv ts' = nrecv ts ∧
  (∀ t i st, ts !! t = Some (i, st) → (∀ c, st ≠ Waiting c) → ts' !! t = Some (i, st)) ∧
  (∀ t i st, ts' !! t = Some (i, st) → ts !! t = Some (i, st) ∨ ∃ c, st = Woken c ∧ ts !! t = Some (i, Waiting c)).
Proof.
  induction 1 as [ts|n ts ts' ts'' Hw _ (IH1 & IH2 & IH3)]; [eauto|].
  destruct Hw as [t i c Ht|]; [|eauto]. split_and!.
  - rewrite IH1, (nrecv_insert _ _ _ _ _ _ Ht). destruct c; simpl; lia.
  - intros t' i' st Ht' Hst. apply IH2; [|done].
    rewrite lookup_insert_ne; [done|]. intros <-. rewrite Ht in Ht'. injection Ht' as <- <-. by eapply Hst.
  - intros t' i' st Ht'. apply IH3 in Ht' as [Ht'|(c' & -> & Ht')];
      (destruct (decide (t = t')) as [<-|]; [rewrite lookup_insert_eq in Ht'|rewrite lookup_insert_ne in Ht' by done; eauto]).
    + injection Ht' as <- <-. eauto.
    + done.
Qed.

(** ** The history as a run of the abstract queue *)

(** One completed call on the abstract queue; [None] if the result is not one the
    queue can give. *)
Definition replay1 (c : call) (r : result) (l : pq) : option pq :=
  match c, r with
  | CSend ptr prio, RSend rc => if rc =? 0 then Some (enqueue prio ptr l) else Some l
  | CReceive _, RReceive (Received len b p) =>
      if len =? -1 then Some l
      else match l with
           | (p', b') :: l' =>
               if (p =? p') && bool_decide (b = b') && (len =? zlen b) then Some l' else None
           | [] => None
           end
  | _, _ => None
  end.
Fixpoint replay (h : list (nat * call * result)) (l : pq) : option pq :=
  match h with
  | [] => Some l
  | (_, c, r) :: h => match replay1 c r l with Some l' => replay h l' | None => None end
  end.

Lemma replay_app h h' l : replay (h ++ h') l = match replay h l with Some l' => replay h' l' | None => None end.
Proof.
  revert l. induction h as [|[[t c] r] h IH]; intros l; simpl; [done|]. destruct (replay1 c r l); [apply IH|done].
Qed.

Lemma replay_received p b l mx : replay1 (CReceive mx) (RReceive (Received (zlen b) b p)) ((p, b) :: l) = Some l.
Proof.
  simpl. replace (zlen b =? -1) with false by (pose proof (zlen_nonneg b); lia).
  by rewrite !Z.eqb_refl, bool_decide_true.
Qed.

(** ** The invariant of the system *)

Record SInv (S : sys) (l : pq) : Prop := MkSInv {
  si_queue : queue (q S) l;
  si_replay : replay (history S) [] = Some l;
  si_nwait : mqh_nwait (q S) = nrecv (threads S);
  si_open : ∀ t i st, threads S !! t = Some (i, st) → mqi_magic i = MQI_MAGIC;
  si_fits : ∀ t i st ptr prio, threads S !! t = Some (i, st) →
    st = Waiting (CSend ptr prio) ∨ st = Woken (CSend ptr prio) → zlen ptr <= mq_msgsize (mqh_attr (q S)) }.

(** A call of an idle thread ends, and what it does to the queue is one step of the
    abstract queue. *)
Lemma call_run c s l : queue (hdr s) l → open_mqd s →
  wp (run_call c false) (λ r s', qkept s s' ∧
    (∀ ptr prio, r = None → c = CSend ptr prio → zlen ptr <= mq_msgsize (attr s)) ∧
    mqh_nwait (hdr s') = mqh_nwait (hdr s) + (if r is None then if c is CReceive _ then 1 else 0 else 0) ∧
    match r with
    | None => queue (hdr s') l
    | Some r => ∃ l', replay1 c r l = Some l' ∧ queue (hdr s') l'
    end) s.
Proof.
  intros Hq Ho. destruct c as [ptr prio|mx]; cbn [run_call].
  - pose proof (send_spec s l ptr prio Hq Ho) as H. unfold send_ret in H.
    destruct (_ <? zlen ptr) eqn:Esz; [|destruct (zlen l <? _); [|destruct (is_nonblock (info s))]];
      (wp_step; eapply wp_mono; [exact H|]); intros r s' (-> & Hq' & Hk & _ & Hn & _); wp_step;
      (split_and!; [done|intros ? ? ? [= -> ->]; first [done|unfold attr; lia]|cbn; lia|]); cbn.
    + by eexists.
    + by eexists.
    + by eexists.
    + done.
  - pose proof (receive_spec s l mx Hq Ho) as H. unfold recv_ret in H.
    destruct (mx <? _) eqn:Esz; [|destruct l as [|[p b] l]; [destruct (is_nonblock (info s))|]];
      (wp_step; eapply wp_mono; [exact H|]); intros r s' (-> & Hq' & Hk & _ & _ & _ & Hn & _); wp_step;
      (split_and!; [done|done|rewrite Hn; case_decide; cbn; first [done|lia]|]); cbn [fmap option_fmap option_map].
    + by eexists.
    + by eexists.
    + done.
    + eexists. split; [apply replay_received|done].
Qed.

Lemma woken_run c s l : queue (hdr s) l →
  (∀ ptr prio, c = CSend ptr prio → zlen ptr <= mq_msgsize (attr s)) →
  wp (run_call c true) (λ r s', qkept s s' ∧
    mqh_nwait (hdr s') = mqh_nwait (hdr s) - (if r is Some _ then if c is CReceive _ then 1 else 0 else 0) ∧
    match r with
    | None => queue (hdr s') l
    | Some r => ∃ l', replay1 c r l = Some l' ∧ queue (hdr s') l'
    end) s.
Proof.
  intros Hq Hf. destruct c as [ptr prio|mx]; cbn [run_call].
  - pose proof (send_woken_spec s l ptr prio Hq (Hf _ _ eq_refl)) as H. wp_step. eapply wp_mono; [exact H|].
    intros r s' (-> & Hq' & Hk & Hn & _). wp_step. destruct (_ <? _); cbn; (split_and!; [done|lia|]); [by eexists|done].
  - pose proof (receive_woken_spec s l Hq) as H. wp_step. eapply wp_mono; [exact H|].
    intros r s' (-> & Hq' & Hk & Hn & _). wp_step. destruct l as [|[p b] l]; rewrite Hn; case_decide; try done;
      cbn [fmap option_fmap option_map]; (split_and!; [done|cbn; lia|]); [done|]. eexists. split; [apply replay_received|done].
Qed.

Lemma si_wake S l n ts' t i st :
  SInv S l → wake_n n (threads S) ts' → threads S !! t = Some (i, st) → (∀ c, st ≠ Waiting c) →
  nrecv ts' = mqh_nwait (q S) ∧ ts' !! t = Some (i, st) ∧
  (∀ t i st, ts' !! t = Some (i, st) → mqi_magic i = MQI_MAGIC) ∧
  (∀ t i st ptr prio, ts' !! t = Some (i, st) →
    st = Waiting (CSend ptr prio) ∨ st = Woken (CSend ptr prio) → zlen ptr <= mq_msgsize (mqh_attr (q S))).
Proof.
  intros [_ _ Hn Ho Hf] (Hw1 & Hw2 & Hw3)%wake_n_spec Ht Hst. split_and!; [congruence|by apply Hw2|..].
  - intros t' i' st' [H|(c & -> & H)]%Hw3; by eapply Ho.
  - intros t' i' st' ptr prio [H|(c & -> & H)]%Hw3 Hs; [by eapply Hf|].
    destruct Hs as [?|[= ->]]; [done|]. eapply Hf; [exact H|by left].
Qed.

(** The state after a call of thread [t], from what the call did to the queue. *)
Lemma si_after S l t i st c r s' ts' :
  SInv S l → threads S !! t = Some (i, st) → (∀ c, st ≠ Waiting c) → wake_n (wakes s') (threads S) ts' →
  qkept (Mq (q S) i 0 (sent S) 0) s' →
  (∀ ptr prio, r = None → c = CSend ptr prio → zlen ptr <= mq_msgsize (mqh_attr (q S))) →
  mqh_nwait (hdr s') = nrecv (<[t := (i, if r is None then Waiting c else Idle)]> ts') →
  match r with
  | None => queue (hdr s') l
  | Some r => ∃ l', replay1 c r l = Some l' ∧ queue (hdr s') l'
  end →
  ∃ l', SInv (after s' t c r ts' (history S)) l'.
Proof.
  intros HS Ht Hst Hw [Hi _ Hsz _] Hfit Hn Hr. unfold attr in Hsz. cbn in Hi, Hsz.
  destruct (si_wake _ _ _ _ _ _ _ HS Hw Ht Hst) as (_ & Ht' & Ho & Hf).
  assert (∀ x st', <[t := (i, st')]> ts' !! x.1 = Some x.2 → mqi_magic x.2.1 = MQI_MAGIC) as Ho'.
  { intros [t1 [i1 st1]] st'. cbn. intros [[<- [= <- <-]]|[_ H]]%lookup_insert_Some; by eapply Ho. }
  destruct r as [r|].
  - destruct Hr as (l' & Hr & Hq). exists l'. unfold after. rewrite Hi. split; cbn [q threads history].
    + done.
    + by rewrite replay_app, (si_replay _ _ HS); cbn; rewrite Hr.
    + done.
    + intros t1 i1 st1 H. by apply (Ho' (t1, (i1, st1)) Idle).
    + intros t1 i1 st1 ptr prio [[<- [= <- <-]]|[_ H]]%lookup_insert_Some Hs; [by destruct Hs|].
      rewrite Hsz. by eapply Hf.
  - exists l. unfold after. rewrite Hi. split; cbn [q threads history]; try done; [apply HS|..].
    + intros t1 i1 st1 H. by apply (Ho' (t1, (i1, st1)) (Waiting c)).
    + intros t1 i1 st1 ptr prio [[<- [= <- <-]]|[_ H]]%lookup_insert_Some Hs; rewrite Hsz; [|by eapply Hf].
      destruct Hs as [[= ->]|?]; [by eapply Hfit|done].
Qed.

Lemma step_inv S S' l : SInv S l → mq_step S S' → ∃ l', SInv S' l'.
Proof.
  intros HS Hstep. destruct Hstep as [S t i c s' r ts' Ht Hrun Hw|S t i c s' r ts' Ht Hrun Hw|S t i c Ht].
  - destruct (si_wake _ _ _ _ _ _ _ HS Hw Ht ltac:(done)) as (Hnr & Ht' & _).
    assert (open_mqd (Mq (q S) i 0 (sent S) 0)) as Ho by (by eapply si_open).
    pose proof (call_run c (Mq (q S) i 0 (sent S) 0) l (si_queue _ _ HS) Ho) as Hc. unfold wp in Hc. rewrite Hrun in Hc.
    destruct Hc as (Hk & Hfit & Hn & Hr). eapply (si_after S l t i Idle); try done.
    rewrite Hn, (nrecv_insert _ _ _ _ _ _ Ht'), Hnr. destruct r as [r|], c; simpl; lia.
  - destruct (si_wake _ _ _ _ _ _ _ HS Hw Ht ltac:(done)) as (Hnr & Ht' & _).
    assert (∀ ptr prio, c = CSend ptr prio → zlen ptr <= mq_msgsize (mqh_attr (q S))) as Hf.
    { intros ptr prio ->. eapply (si_fits _ _ HS); [exact Ht|by right]. }
    pose proof (woken_run c (Mq (q S) i 0 (sent S) 0) l (si_queue _ _ HS) Hf) as Hc. unfold wp in Hc. rewrite Hrun in Hc.
    destruct Hc as (Hk & Hn & Hr). eapply (si_after S l t i (Woken c)); try done; [intros ? ? _; apply Hf|].
    rewrite Hn, (nrecv_insert _ _ _ _ _ _ Ht'), Hnr. destruct r as [r|], c; simpl; lia.
  - exists l. destruct HS as [H1 H2 H3 H4 H5]. split; cbn; try done.
    + rewrite H3, (nrecv_insert _ _ _ _ _ _ Ht). destruct c; simpl; lia.
    + intros t1 i1 st1 [[<- [= <- <-]]|[_ H]]%lookup_insert_Some; by eapply H4.
    + intros t1 i1 st1 ptr prio [[<- [= <- <-]]|[_ H]]%lookup_insert_Some Hs; [|by eapply H5].
      destruct Hs as [?|[= ->]]; [done|]. eapply H5; [exact Ht|by left].
Qed.

(** Systems that start with an empty queue and idle threads. *)
Definition initial (S : sys) : Prop :=
  queue (q S) [] ∧ history S = [] ∧ mqh_nwait (q S) = 0 ∧
  ∀ t i st, threads S !! t = Some (i, st) → mqi_magic i = MQI_MAGIC ∧ st = Idle.

Definition reachable (S0 S : sys) : Prop := clos_refl_trans_1n _ mq_step S0 S.

Lemma initial_inv S : initial S → SInv S [].
Proof.
  intros (Hq & Hh & Hn & Ht). split; [done|by rewrite Hh| |..].
  - rewrite Hn. pose proof (tcount_nonneg (λ x, in_recv x.2) (threads S)). unfold nrecv.
    destruct (decide (0 < tcount (λ x, in_recv x.2) (threads S))) as [(t & [i st] & Hx & Hr)%tcount_ex|]; [|lia].
    by destruct (Ht _ _ _ Hx) as [_ ->].
  - intros t i st Hx. by apply Ht in Hx as [? _].
  - intros t i st ptr prio Hx. apply Ht in Hx as [_ ->]. by intros [?|?].
Qed.

Lemma reachable_inv S0 S : initial S0 → reachable S0 S → ∃ l, SInv S l.
Proof.
  intros Hi%initial_inv Hr. assert (∃ l, SInv S0 l) as H0 by eauto. clear Hi.
  induction Hr as [|S0 S1 S Hs _ IH]; [done|]. apply IH. destruct H0 as [l Hl]. by eapply step_inv.
Qed.

(** ** A new queue *)

Section new.
Context (hsz msz step : Z) (Hm : 0 < msz).

Fixpoint idxs (n : nat) (index : Z) : list Z :=
  match n with O => [index] | S n => index :: idxs n (index + step) end.

Lemma idxs_length n index : length (idxs n index) = S n.
Proof using Type. revert index. induction n as [|n IH]; intros index; simpl; [done|]. by rewrite IH. Qed.

Lemma idxs_ge n index i : 0 < step → i ∈ idxs n index → index <= i.
Proof using Type.
  intros Hs. revert index. induction n as [|n IH]; intros index; simpl.
  - intros ->%list_elem_of_singleton. lia.
  - intros [->|Hi]%elem_of_cons; [lia|]. apply IH in Hi. lia.
Qed.

Lemma idxs_nodup n index : 0 < step → NoDup (idxs n index).
Proof using Type.
  intros Hs. revert index. induction n as [|n IH]; intros index; simpl; [apply NoDup_singleton|].
  apply NoDup_cons. split; [|apply IH]. intros Hi%idxs_ge; lia.
Qed.

Lemma init_loop_lt n : ∀ index ms j, step = msz + hsz → 0 <= hsz → 0 < index → index + Z.of_nat n * step < 2 ^ 63 →
  j < index → init_loop msz n index hsz ms !! j = ms !! j.
Proof using Hm.
  induction n as [|n IH]; intros index ms j E Hh Hi Hb Hj; cbn [init_loop].
  - rewrite lookup_insert_ne by lia. done.
  - assert (0 <= Z.of_nat n * step) by (apply Z.mul_nonneg_nonneg; lia).
    rewrite Nat2Z.inj_succ, Z.mul_succ_l in Hb.
    rewrite i64_id by lia. rewrite IH by lia. rewrite lookup_insert_ne by lia. done.
Qed.

Lemma init_loop_chain n : ∀ index ms h c, step = msz + hsz → 0 <= hsz → 0 < index → index + Z.of_nat n * step < 2 ^ 63 →
  msgs h = init_loop msz n index hsz ms → nxt h c = Some index →
  mchain (nxt h) c (idxs n index) ∧ ∀ i, i ∈ idxs n index → is_Some (msgs h !! i).
Proof using Hm.
  induction n as [|n IH]; intros index ms h c E Hh Hi Hb Hms Hc; cbn [init_loop idxs mchain] in *.
  - assert (msgs h !! index = Some (new_msg 0 hsz)) as Hx by (rewrite Hms; apply lookup_insert_eq).
    split; [|intros i ->%list_elem_of_singleton; eauto]. split_and!; [done|lia|]. cbn. by rewrite Hx.
  - assert (0 <= Z.of_nat n * step) by (apply Z.mul_nonneg_nonneg; lia).
    rewrite Nat2Z.inj_succ, Z.mul_succ_l in Hb. rewrite i64_id, <- E in Hms by lia.
    assert (msgs h !! index = Some (new_msg (index + step) hsz)) as Hx.
    { rewrite Hms, (init_loop_lt n) by lia. apply lookup_insert_eq. }
    destruct (IH (index + step) _ h (Msg index) E Hh ltac:(lia) ltac:(lia) Hms) as [H1 H2]; [cbn; by rewrite Hx|].
    split; [by split_and!; [done|lia|]|]. intros i [->|Hin]%elem_of_cons; [eauto|by apply H2].
Qed.
End new.

(** The attributes and structure sizes of a queue whose file size does not overflow. *)
Record ok_attr (sh sm : Z) (a : mymq_attr) : Prop := MkOkAttr {
  oa_sh : 0 < sh;
  oa_sm : 0 < sm;
  oa_max : 0 < mq_maxmsg a;
  oa_size : 0 < mq_msgsize a;
  oa_file : sh + mq_maxmsg a * (sm + (mq_msgsize a + 7)) < 2 ^ 63 }.

Lemma MSGSIZE_bounds i : 0 < i < 2 ^ 63 → i <= MSGSIZE i <= i + 7.
Proof.
  intros Hi. unfold MSGSIZE. rewrite u64_id by lia. pose proof (Z.div_mod (i + 8 - 1) 8 ltac:(lia)).
  pose proof (Z.mod_pos_bound (i + 8 - 1) 8 ltac:(lia)). lia.
Qed.

Lemma new_hdr_queue sh sm a : ok_attr sh sm a → queue (new_hdr sh sm a) [].
Proof.
  intros [Hsh Hsm Hmax Hsz Hf].
  assert (mq_msgsize a + 7 < 2 ^ 63) by nia. pose proof (MSGSIZE_bounds (mq_msgsize a) ltac:(lia)) as Hb.
  set (w := MSGSIZE (mq_msgsize a)) in *. set (n := Z.to_nat (mq_maxmsg a - 1)).
  assert (sh + Z.of_nat n * (sm + w) < 2 ^ 63) by (subst n; nia).
  destruct (init_loop_chain w sm (sm + w) Hsm n sh ∅ (new_hdr sh sm a) Free) as [Hc Hd];
    [done|lia|lia|done|done|done|].
  exists [], (idxs (sm + w) n sh). split; try done.
  - apply idxs_nodup. lia.
  - unfold zlen. rewrite app_nil_l, idxs_length. cbn. subst n. lia.
  - by constructor.
Qed.

(** ** Examples *)

Definition ex_attr : mymq_attr := MymqAttr 0 4 8 0.
Definition ex_info : mymq_info := MymqInfo MQI_MAGIC 0.
Definition ex_hdr : mymq_hdr := new_hdr 200 24 ex_attr.
Definition ex_mq : mq := Mq ex_hdr ex_info 0 [] 0.

Lemma ex_ok_attr : ok_attr 200 24 ex_attr. Proof. by split. Qed.
Lemma ex_queue : queue ex_hdr []. Proof. apply new_hdr_queue, ex_ok_attr. Qed.

(** Two receivers and two senders on a new queue of four messages. *)
Definition ex_sys : sys :=
  Sys ex_hdr {[0%nat := (ex_info, Idle); 1%nat := (ex_info, Idle); 2%nat := (ex_info, Idle); 3%nat := (ex_info, Idle)]} [] [].

Lemma ex_initial : initial ex_sys.
Proof.
  split_and!; [apply ex_queue|done|done|]. intros t i st. cbn.
  rewrite !lookup_insert_Some, lookup_singleton_Some. naive_solver.
Qed.

(** ** The properties *)

(** [mymq_send] on an open descriptor: -1 with EMSGSIZE if the message is too
    long; otherwise, if the queue has room, 0, and the message is behind all
    messages of the same or a higher priority; if the queue is full, -1 with EAGAIN
    for a nonblocking descriptor, and a wait (no change to the queue) otherwise.  A
    registered process is signalled and unregistered exactly when the message
    arrives on an empty queue that no receiver waits for. *)
Theorem mymq_send_correct s l ptr prio :
  queue (hdr s) l → mqi_magic (info s) = MQI_MAGIC →
  let '(r, e) := send_ret (hdr s) (info s) l ptr in
  ∃ s', mymq_send ptr prio s = (s', Done r) ∧ queue (hdr s') (send_queue r ptr prio l) ∧
    errno s' = default (errno s) e ∧
    if decide (r = Some 0 ∧ l = [] ∧ mqh_pid (hdr s) ≠ 0 ∧ mqh_nwait (hdr s) = 0) then
      mqh_pid (hdr s') = 0 ∧ sigs s' = if sigev_notify (mqh_event (hdr s)) =? SIGEV_SIGNAL
        then sigs s ++ [(mqh_pid (hdr s), sigev_signo (mqh_event (hdr s)), sigev_value (mqh_event (hdr s)))]
        else sigs s
    else mqh_pid (hdr s') = mqh_pid (hdr s) ∧ sigs s' = sigs s.
Proof.
  intros Hq Ho. pose proof (send_spec s l ptr prio Hq Ho) as H.
  destruct (send_ret (hdr s) (info s) l ptr) as [r e].
  apply wp_elim in H as (r' & s' & E & -> & H1 & _ & H2 & _ & _ & _ & H3). eauto.
Qed.

Lemma mymq_send_correct_witness :
  ∃ s', mymq_send (bytes "hello") 5 ex_mq = (s', Done (Some 0)) ∧ queue (hdr s') [(5, bytes "hello")].
Proof.
  destruct (mymq_send_correct ex_mq [] (bytes "hello") 5 ex_queue eq_refl) as (s' & E & H & _).
  exists s'. split; [exact E|exact H].
Defined.

(** [mymq_receive] on an open descriptor: -1 with EMSGSIZE if the buffer is
    smaller than the queue's message size; otherwise the first message of the queue
    with its length and priority; on an empty queue, -1 with EAGAIN for a nonblocking
    descriptor, and a wait otherwise. *)
Theorem mymq_receive_correct s l maxlen :
  queue (hdr s) l → mqi_magic (info s) = MQI_MAGIC →
  let '(r, e) := recv_ret (hdr s) (info s) l maxlen in
  ∃ s', mymq_receive maxlen s = (s', Done r) ∧ queue (hdr s') (recv_queue e l) ∧
    errno s' = default (errno s) e ∧
    mqh_nwait (hdr s') = (if decide (r = None) then mqh_nwait (hdr s) + 1 else mqh_nwait (hdr s)).
Proof.
  intros Hq Ho. pose proof (receive_spec s l maxlen Hq Ho) as H.
  destruct (recv_ret (hdr s) (info s) l maxlen) as [r e].
  apply wp_elim in H as (r' & s' & E & -> & H1 & _ & H2 & _ & _ & H3 & _). eauto.
Qed.

Lemma mymq_receive_correct_witness :
  ∃ s', mymq_receive 8 ex_mq = (s', Done None) ∧ queue (hdr s') [] ∧ mqh_nwait (hdr s') = 1.
Proof.
  destruct (mymq_receive_correct ex_mq [] 8 ex_queue eq_refl) as (s' & E & H & _ & Hn).
  exists s'. by rewrite Hn.
Defined.

(** C10: whatever the interleaving of the threads, the completed calls, in the order
    of their completion, are a run of the bounded priority queue: every receive
    returned the message at the front, and what the mapped file holds is what that
    run leaves. *)
Theorem mq_linearizable S0 S :
  initial S0 → reachable S0 S → ∃ l, replay (history S) [] = Some l ∧ queue (q S) l.
Proof. intros Hi Hr. destruct (reachable_inv S0 S Hi Hr) as [l HS]. exists l. split; apply HS. Qed.

(** One step of thread [t], computed: it runs its call, and [wakeup] is woken if the
    call signals the condition variable once. *)
Definition exec (S : sys) (t : nat) (c : call) (woken : bool) (wakeup : nat) : sys :=
  match threads S !! t with
  | Some (i, _) =>
    match run_call c woken (Mq (q S) i 0 (sent S) 0) with
    | (s', Done r) =>
      let ts := match wakes s', threads S !! wakeup with
                | O, _ | _, None => threads S
                | _, Some (j, Waiting c') | _, Some (j, Woken c') => <[wakeup := (j, Woken c')]> (threads S)
                | _, Some (j, Idle) => threads S
                end in
      after s' t c r ts (history S)
    | _ => S
    end
  | None => S
  end.

Definition exec_ok (S : sys) (t : nat) (c : call) (woken : bool) (wakeup : nat) : bool :=
  match threads S !! t with
  | Some (i, st) =>
    (match st with Idle => negb woken | Woken _ => woken | Waiting _ => false end) &&
    match run_call c woken (Mq (q S) i 0 (sent S) 0) with
    | (s', Done r) =>
      match wakes s', threads S !! wakeup with O, _ | S O, Some (_, Waiting _) => true | _, _ => false end
    | _ => false
    end
  | None => false
  end.

Lemma exec_step S t c woken wakeup :
  exec_ok S t c woken wakeup = true →
  (woken = true → ∃ i, threads S !! t = Some (i, Woken c)) →
  mq_step S (exec S t c woken wakeup).
Proof.
  unfold exec_ok, exec. destruct (threads S !! t) as [[i st]|] eqn:Ht; [|done].
  destruct (run_call c woken _) as [s' [r|]] eqn:Er; [|by rewrite andb_false_r].
  intros [Hst Hw]%andb_true_iff Hc.
  assert (∃ ts, wake_n (wakes s') (threads S) ts ∧
    match wakes s', threads S !! wakeup with
    | O, _ | _, None => threads S
    | _, Some (j, Waiting c') | _, Some (j, Woken c') => <[wakeup := (j, Woken c')]> (threads S)
    | _, Some (j, Idle) => threads S
    end = ts) as (ts & Hwk & ->).
  { destruct (wakes s') as [|[|]]; [eexists; split; [apply wake_0|done]| |done].
    destruct (threads S !! wakeup) as [[j [| |]]|] eqn:Ew; try done. eexists. split; [|done].
    eapply wake_S; [by apply wake_one|apply wake_0]. }
  destruct woken.
  - destruct Hc as [j Hj]; [done|]. injection Hj as <- ->. by eapply step_woken.
  - destruct st; try done. by eapply step_call.
Qed.

Definition ex1 : sys := exec ex_sys 0 (CReceive 8) false 0.
Definition ex2 : sys := exec ex1 1 (CReceive 8) false 0.
Definition ex3 : sys := exec ex2 2 (CSend (bytes "a") 0) false 0.
Definition ex4 : sys := exec ex3 3 (CSend (bytes "b") 0) false 0.
Definition ex5 : sys := exec ex4 0 (CReceive 8) true 0.

Lemma ex_reachable : reachable ex_sys ex5.
Proof.
  apply (Relation_Operators.rt1n_trans _ _ _ ex1); [apply exec_step; [vm_compute; reflexivity|done]|].
  apply (Relation_Operators.rt1n_trans _ _ _ ex2); [apply exec_step; [vm_compute; reflexivity|done]|].
  apply (Relation_Operators.rt1n_trans _ _ _ ex3); [apply exec_step; [vm_compute; reflexivity|done]|].
  apply (Relation_Operators.rt1n_trans _ _ _ ex4); [apply exec_step; [vm_compute; reflexivity|done]|].
  apply (Relation_Operators.rt1n_trans _ _ _ ex5); [apply exec_step; [vm_compute; reflexivity|]|].
  - intros _. eexists. vm_compute. reflexivity.
  - apply Relation_Operators.rt1n_refl.
Qed.

Lemma mq_linearizable_witness :
  ∃ l, replay (history ex5) [] = Some l ∧ queue (q ex5) l.
Proof.
  destruct (mq_linearizable ex_sys _ ex_initial ex_reachable) as (l & H). by exists l.
Defined.

(** No call of a thread ever hits one of the [err_dump]s for an inconsistent
    queue or follows an index outside the file, in any reachable state; and
    [mqh_nwait] is the number of threads inside a blocked receive. *)
Theorem mq_calls_safe S0 S t i c :
  initial S0 → reachable S0 S →
  mqh_nwait (q S) = nrecv (threads S) ∧
  (threads S !! t = Some (i, Idle) → ∃ s' r, run_call c false (Mq (q S) i 0 (sent S) 0) = (s', Done r)) ∧
  (threads S !! t = Some (i, Woken c) → ∃ s' r, run_call c true (Mq (q S) i 0 (sent S) 0) = (s', Done r)).
Proof.
  intros Hi Hr. destruct (reachable_inv S0 S Hi Hr) as [l HS]. split_and!; [apply HS|intros Ht|intros Ht].
  - destruct (wp_elim _ _ _ (call_run c (Mq (q S) i 0 (sent S) 0) l (si_queue _ _ HS) (si_open _ _ HS _ _ _ Ht)))
      as (r & s' & E & _). eauto.
  - destruct (wp_elim _ _ _ (woken_run c (Mq (q S) i 0 (sent S) 0) l (si_queue _ _ HS)
      ltac:(intros ptr prio ->; eapply (si_fits _ _ HS); [exact Ht|by right]))) as (r & s' & E & _). eauto.
Qed.

Lemma mq_calls_safe_witness :
  ∃ s' r, run_call (CSend (bytes "a") 1) false (Mq (q ex5) ex_info 0 (sent ex5) 0) = (s', Done r).
Proof.
  refine (proj1 (proj2 (mq_calls_safe ex_sys _ 2%nat ex_info (CSend (bytes "a") 1) ex_initial ex_reachable)) _).
  vm_compute. reflexivity.
Defined.

(** [mymq_open] with O_CREAT of a new name, with valid attributes or the default
    ones, gives a descriptor on an empty queue of that capacity; with O_CREAT and
    O_EXCL an existing name is refused with EEXIST, and without O_CREAT a missing name
    with ENOENT; bad attributes are refused with EINVAL and leave no file. *)
Theorem mymq_open_correct sh sm n fs path fl a stat :
  (fs !! path = None → oq_creat fl = true → ok_attr sh sm (default defattr a) →
     mymq_open sh sm (S n) fs path fl a stat =
       (<[path := Qfile false (new_hdr sh sm (default defattr a))]> fs, Some (Opened (new_info fl))) ∧
     queue (new_hdr sh sm (default defattr a)) [] ∧ mqi_magic (new_info fl) = MQI_MAGIC) ∧
  (is_Some (fs !! path) → oq_creat fl = true → oq_excl fl = true →
     mymq_open sh sm (S n) fs path fl a stat = (fs, Some (Failed EEXIST))) ∧
  (fs !! path = None → oq_creat fl = false →
     mymq_open sh sm (S n) fs path fl a stat = (fs, Some (Failed ENOENT))) ∧
  (∀ b, fs !! path = None → oq_creat fl = true → a = Some b → mq_maxmsg b <= 0 ∨ mq_msgsize b <= 0 →
     mymq_open sh sm (S n) fs path fl a stat = (fs, Some (Failed EINVAL))) ∧
  (is_Some (fs !! path) → oq_excl fl = false → (∃ k, (k < MAX_TRIES)%nat ∧ stat n k = Some false ∧ ∀ j, (j < k)%nat → stat n j = Some true) →
     mymq_open sh sm (S n) fs path fl a stat = (fs, Some (Opened (new_info fl)))).
Proof.
  unfold mymq_open, open_again. split_and!.
  - intros Hf Hc Ha. rewrite Hc, Hf. pose proof Ha as [_ _ H1 H2 _].
    assert (match a with None => false | Some a => (mq_maxmsg a <=? 0) || (mq_msgsize a <=? 0) end = false) as ->
      by (destruct a; cbn in *; [lia|done]).
    split_and!; [done|by apply new_hdr_queue|done].
  - intros [x Hx] Hc He. by rewrite Hc, Hx, He.
  - intros Hf Hc. unfold open_exists. by rewrite Hc, Hf.
  - intros b Hf Hc -> Hb. rewrite Hc, Hf. by replace (_ || _) with true by lia.
  - intros [x Hx] He (k & Hk & Hs & Hw). rewrite Hx, He.
    assert (open_exists fs path fl (stat n) = Opened (new_info fl)) as ->; [|by destruct (oq_creat fl)].
    unfold open_exists. rewrite Hx. clear -Hk Hs Hw.
    assert (∀ m i, (i + m = MAX_TRIES)%nat → (i <= k)%nat → wait_init m i (stat n) fl = Opened (new_info fl)) as H.
    { induction m as [|m IH]; intros i Hi Hik; [lia|]. cbn. destruct (decide (i = k)) as [->|]; [by rewrite Hs|].
      rewrite Hw by lia. apply IH; lia. }
    apply H; [done|lia].
Qed.

Lemma mymq_open_correct_witness :
  mymq_open 200 24 1 ∅ (bytes "/q") (MqOflags true false false) (Some ex_attr) (λ _ _, None) =
    (<[bytes "/q" := Qfile false ex_hdr]> ∅, Some (Opened (MymqInfo MQI_MAGIC 0))) ∧ queue ex_hdr [] ∧
    MQI_MAGIC = MQI_MAGIC.
Proof.
  exact (proj1 (mymq_open_correct 200 24 0 ∅ (bytes "/q") (MqOflags true false false) (Some ex_attr) (λ _ _, None))
    eq_refl eq_refl ex_ok_attr).
Defined.

(** A wake-up can be lost.  From a new queue, two receivers block, two messages
    are sent, and one receiver takes one of them: only the first send signals the
    condition variable, so the other receiver stays blocked although a message is
    on the queue, and no thread is left that would wake it. *)
Theorem mq_lost_wakeup : ∃ S, reachable ex_sys S ∧
  mq_curmsgs (mqh_attr (q S)) = 1 ∧ threads S !! 1%nat = Some (ex_info, Waiting (CReceive 8)) ∧
  ∀ t i st, threads S !! t = Some (i, st) → t ≠ 1%nat → st = Idle.
Proof.
  exists ex5. split; [apply ex_reachable|]. split_and!; [vm_compute; reflexivity|vm_compute; reflexivity|].
  assert (forallb (λ x, (x.1 =? 1)%nat || match x.2.2 with Idle => true | _ => false end)
    (map_to_list (threads ex5)) = true) as H by (vm_compute; reflexivity).
  rewrite forallb_forall in H. intros t i st Ht Hne. specialize (H (t, (i, st))). cbn in H.
  rewrite <- list_elem_of_In, elem_of_map_to_list in H. specialize (H Ht). clear Ht.
  apply orb_true_iff in H as [H|H]; [by apply Nat.eqb_eq in H|by destruct st].
Qed.
