(* ===== verification/Rwlock.v ===== *)
(** Read-write locks from a mutex and two condition variables: unpv22e/my_rwlock,
    and the version with cancellation handlers, unpv22e/my_rwlock_cancel.

    The mutex makes each call atomic from its start, or from the return of
    [pthread_cond_wait], to its end or to the next wait.  A call is therefore a
    function on the structure; [None] means that it waits.  A system of threads
    interleaves these pieces. *)

From stdpp Require Import base tactics numbers list gmap.
From Stdlib Require Import ZArith Lia Relations.
From S2P Require Import Prelude Threads.

(** ** The structure and its functions *)

Record pthread_rwlock_t := Rw {
  rw_magic : Z         (** for error checking *);
  rw_nwaitreaders : Z  (** the number waiting *);
  rw_nwaitwriters : Z  (** the number waiting *);
  rw_refcount : Z      (** -1 if writer has the lock, else # readers holding the lock *) }.

Definition RW_MAGIC : Z := 0x19283746.
Definition EINVAL : Z := 22.
Definition EBUSY : Z := 16.

Definition set_magic (v : Z) (rw : pthread_rwlock_t) : pthread_rwlock_t :=
  Rw v (rw_nwaitreaders rw) (rw_nwaitwriters rw) (rw_refcount rw).
Definition set_nwaitreaders (v : Z) (rw : pthread_rwlock_t) : pthread_rwlock_t :=
  Rw (rw_magic rw) v (rw_nwaitwriters rw) (rw_refcount rw).
Definition set_nwaitwriters (v : Z) (rw : pthread_rwlock_t) : pthread_rwlock_t :=
  Rw (rw_magic rw) (rw_nwaitreaders rw) v (rw_refcount rw).
Definition set_refcount (v : Z) (rw : pthread_rwlock_t) : pthread_rwlock_t :=
  Rw (rw_magic rw) (rw_nwaitreaders rw) (rw_nwaitwriters rw) v.

(** [attr] tells whether an attribute object is given; [mutex], [readers] and
    [writers] are the results of initialising the three pthread objects. *)
Definition pthread_rwlock_init (rw : pthread_rwlock_t) (attr : bool) (mutex readers writers : Z) :
    pthread_rwlock_t * Z :=
  if attr then (rw, EINVAL)
  else if negb (mutex =? 0) then (rw, mutex)
  else if negb (readers =? 0) then (rw, readers)
  else if negb (writers =? 0) then (rw, writers)
  else (Rw RW_MAGIC 0 0 0, 0).

Definition PTHREAD_RWLOCK_INITIALIZER : pthread_rwlock_t := Rw RW_MAGIC 0 0 0.

Definition pthread_rwlock_destroy (rw : pthread_rwlock_t) : pthread_rwlock_t * Z :=
  if negb (rw_magic rw =? RW_MAGIC) then (rw, EINVAL)
  else if negb (rw_refcount rw =? 0) || negb (rw_nwaitreaders rw =? 0) || negb (rw_nwaitwriters rw =? 0)
  then (rw, EBUSY)
  else (set_magic 0 rw, 0).

(** The test of the loop in [pthread_rwlock_rdlock], and what follows it. *)
Definition rdlock_loop (rw : pthread_rwlock_t) : pthread_rwlock_t * option Z :=
  if (rw_refcount rw <? 0) || (0 <? rw_nwaitwriters rw) then
    (set_nwaitreaders (i32 (rw_nwaitreaders rw + 1)) rw, None)
  else (set_refcount (i32 (rw_refcount rw + 1)) rw, Some 0).

Definition pthread_rwlock_rdlock (rw : pthread_rwlock_t) : pthread_rwlock_t * option Z :=
  if negb (rw_magic rw =? RW_MAGIC) then (rw, Some EINVAL) else rdlock_loop rw.

(** After [pthread_cond_wait] has returned [result]. *)
Definition rdlock_woken (result : Z) (rw : pthread_rwlock_t) : pthread_rwlock_t * option Z :=
  let rw := set_nwaitreaders (i32 (rw_nwaitreaders rw - 1)) rw in
  if negb (result =? 0) then (rw, Some result) else rdlock_loop rw.

Definition pthread_rwlock_tryrdlock (rw : pthread_rwlock_t) : pthread_rwlock_t * Z :=
  if negb (rw_magic rw =? RW_MAGIC) then (rw, EINVAL)
  else if (rw_refcount rw <? 0) || (0 <? rw_nwaitwriters rw) then (rw, EBUSY)
  else (set_refcount (i32 (rw_refcount rw + 1)) rw, 0).

Definition wrlock_loop (rw : pthread_rwlock_t) : pthread_rwlock_t * option Z :=
  if negb (rw_refcount rw =? 0) then (set_nwaitwriters (i32 (rw_nwaitwriters rw + 1)) rw, None)
  else (set_refcount (-1) rw, Some 0).

Definition pthread_rwlock_wrlock (rw : pthread_rwlock_t) : pthread_rwlock_t * option Z :=
  if negb (rw_magic rw =? RW_MAGIC) then (rw, Some EINVAL) else wrlock_loop rw.

Definition wrlock_woken (result : Z) (rw : pthread_rwlock_t) : pthread_rwlock_t * option Z :=
  let rw := set_nwaitwriters (i32 (rw_nwaitwriters rw - 1)) rw in
  if negb (result =? 0) then (rw, Some result) else wrlock_loop rw.

Definition pthread_rwlock_trywrlock (rw : pthread_rwlock_t) : pthread_rwlock_t * Z :=
  if negb (rw_magic rw =? RW_MAGIC) then (rw, EINVAL)
  else if negb (rw_refcount rw =? 0) then (rw, EBUSY)
  else (set_refcount (-1) rw, 0).

(** Which condition variable is signalled. *)
Inductive wakeup := NoWakeup | SignalWriter | BroadcastReaders.

(** [None]: [err_dump] of a reference count that no thread holds. *)
Definition pthread_rwlock_unlock (rw : pthread_rwlock_t) : option (pthread_rwlock_t * Z * wakeup) :=
  if negb (rw_magic rw =? RW_MAGIC) then Some (rw, EINVAL, NoWakeup)
  else
    let dec :=
      if 0 <? rw_refcount rw then Some (set_refcount (i32 (rw_refcount rw - 1)) rw)
      else if rw_refcount rw =? -1 then Some (set_refcount 0 rw)
      else None in
    match dec with
    | None => None
    | Some rw =>
      let w := if 0 <? rw_nwaitwriters rw then if rw_refcount rw =? 0 then SignalWriter else NoWakeup
               else if 0 <? rw_nwaitreaders rw then BroadcastReaders else NoWakeup in
      Some (rw, 0, w)
    end.

(** *** The version with cancellation handlers *)

Definition rwlock_cancelrdwait (rw : pthread_rwlock_t) : pthread_rwlock_t :=
  set_nwaitreaders (i32 (rw_nwaitreaders rw - 1)) rw.
Definition rwlock_cancelwrwait (rw : pthread_rwlock_t) : pthread_rwlock_t :=
  set_nwaitwriters (i32 (rw_nwaitwriters rw - 1)) rw.

(** The lock functions; [mutex] is what [pthread_mutex_lock] returns, which the second
    one compares with -1. *)
Definition rdlock_cancel (mutex : Z) (rw : pthread_rwlock_t) : pthread_rwlock_t * option Z :=
  if negb (rw_magic rw =? RW_MAGIC) then (rw, Some EINVAL)
  else if negb (mutex =? 0) then (rw, Some mutex)
  else rdlock_loop rw.
Definition wrlock_cancel (mutex : Z) (rw : pthread_rwlock_t) : pthread_rwlock_t * option Z :=
  if negb (rw_magic rw =? RW_MAGIC) then (rw, Some EINVAL)
  else if mutex =? -1 then (rw, Some mutex)
  else if negb (rw_refcount rw =? 0) then (set_nwaitwriters (i32 (rw_nwaitwriters rw + 1)) rw, None)
  else if mutex =? 0 then (set_refcount (-1) rw, Some 0)
  else (rw, Some 0).

(** There both lock functions return 0 whatever [pthread_cond_wait] returned. *)
Definition rdlock_woken_cancel (result : Z) (rw : pthread_rwlock_t) : pthread_rwlock_t * option Z :=
  let rw := set_nwaitreaders (i32 (rw_nwaitreaders rw - 1)) rw in
  if negb (result =? 0) then (rw, Some 0) else rdlock_loop rw.
Definition wrlock_woken_cancel (result : Z) (rw : pthread_rwlock_t) : pthread_rwlock_t * option Z :=
  let rw := set_nwaitwriters (i32 (rw_nwaitwriters rw - 1)) rw in
  if negb (result =? 0) then (rw, Some 0) else wrlock_loop rw.

(** The differences in [pthread_rwlock_tryrdlock] and [pthread_rwlock_unlock]: the first
    tests for a writer with -1, the second signals a writer after every unlock. *)
Definition tryrdlock_cancel (rw : pthread_rwlock_t) : pthread_rwlock_t * Z :=
  if negb (rw_magic rw =? RW_MAGIC) then (rw, EINVAL)
  else if (rw_refcount rw =? -1) || (0 <? rw_nwaitwriters rw) then (rw, EBUSY)
  else (set_refcount (i32 (rw_refcount rw + 1)) rw, 0).
Definition unlock_cancel (rw : pthread_rwlock_t) : option (pthread_rwlock_t * Z * wakeup) :=
  if negb (rw_magic rw =? RW_MAGIC) then Some (rw, EINVAL, NoWakeup)
  else
    let dec :=
      if 0 <? rw_refcount rw then Some (set_refcount (i32 (rw_refcount rw - 1)) rw)
      else if rw_refcount rw =? -1 then Some (set_refcount 0 rw)
      else None in
    match dec with
    | None => None
    | Some rw =>
      let w := if 0 <? rw_nwaitwriters rw then SignalWriter
               else if 0 <? rw_nwaitreaders rw then BroadcastReaders else NoWakeup in
      Some (rw, 0, w)
    end.

(** ** Threads *)

(** Outside the lock, holding it, or inside a lock call: waiting on a condition
    variable, or woken and about to go on. *)
Inductive tst := TNone | TRead | TWrite | RdWait | RdWoken | WrWait | WrWoken.

Record rwsys := RwSys { rw : pthread_rwlock_t; thr : gmap nat tst }.

Definition after_rd (t : nat) (ts : gmap nat tst) (x : pthread_rwlock_t * option Z) : rwsys :=
  RwSys x.1 (<[t := match x.2 with Some 0 => TRead | Some _ => TNone | None => RdWait end]> ts).
Definition after_wr (t : nat) (ts : gmap nat tst) (x : pthread_rwlock_t * option Z) : rwsys :=
  RwSys x.1 (<[t := match x.2 with Some 0 => TWrite | Some _ => TNone | None => WrWait end]> ts).

Definition wake_reader (st : tst) : tst := match st with RdWait => RdWoken | st => st end.

(** The threads after a wake-up: a signal wakes one waiting writer if there is one, a
    broadcast all waiting readers. *)
Inductive woken (ts : gmap nat tst) : wakeup → gmap nat tst → Prop :=
  | woken_no : woken ts NoWakeup ts
  | woken_writer t : ts !! t = Some WrWait → woken ts SignalWriter (<[t := WrWoken]> ts)
  | woken_writer_none : (∀ t, ts !! t ≠ Some WrWait) → woken ts SignalWriter ts
  | woken_readers : woken ts BroadcastReaders (wake_reader <$> ts).

Inductive rw_step : rwsys → rwsys → Prop :=
  | st_rdlock s t : thr s !! t = Some TNone →
      rw_step s (after_rd t (thr s) (pthread_rwlock_rdlock (rw s)))
  | st_wrlock s t : thr s !! t = Some TNone →
      rw_step s (after_wr t (thr s) (pthread_rwlock_wrlock (rw s)))
  | st_tryrdlock s t rw' r : thr s !! t = Some TNone →
      pthread_rwlock_tryrdlock (rw s) = (rw', r) →
      rw_step s (RwSys rw' (<[t := if r =? 0 then TRead else TNone]> (thr s)))
  | st_trywrlock s t rw' r : thr s !! t = Some TNone →
      pthread_rwlock_trywrlock (rw s) = (rw', r) →
      rw_step s (RwSys rw' (<[t := if r =? 0 then TWrite else TNone]> (thr s)))
  | st_unlock s t st rw' w ts' : thr s !! t = Some st → st = TRead ∨ st = TWrite →
      pthread_rwlock_unlock (rw s) = Some (rw', 0, w) → woken (<[t := TNone]> (thr s)) w ts' →
      rw_step s (RwSys rw' ts')
  | st_rdwoken s t : thr s !! t = Some RdWoken → rw_step s (after_rd t (thr s) (rdlock_woken 0 (rw s)))
  | st_wrwoken s t : thr s !! t = Some WrWoken → rw_step s (after_wr t (thr s) (wrlock_woken 0 (rw s)))
  | st_spurious_rd s t : thr s !! t = Some RdWait → rw_step s (RwSys (rw s) (<[t := RdWoken]> (thr s)))
  | st_spurious_wr s t : thr s !! t = Some WrWait → rw_step s (RwSys (rw s) (<[t := WrWoken]> (thr s))).

(** The steps that only the version with handlers has: its unlock and its try, and a
    thread that is cancelled inside [pthread_cond_wait] and runs its handler. *)
Inductive cancel_step : rwsys → rwsys → Prop :=
  | st_cancel_rd s t st : thr s !! t = Some st → st = RdWait ∨ st = RdWoken →
      cancel_step s (RwSys (rwlock_cancelrdwait (rw s)) (<[t := TNone]> (thr s)))
  | st_cancel_wr s t st : thr s !! t = Some st → st = WrWait ∨ st = WrWoken →
      cancel_step s (RwSys (rwlock_cancelwrwait (rw s)) (<[t := TNone]> (thr s)))
  | st_unlock_cancel s t st rw' w ts' : thr s !! t = Some st → st = TRead ∨ st = TWrite →
      unlock_cancel (rw s) = Some (rw', 0, w) → woken (<[t := TNone]> (thr s)) w ts' →
      cancel_step s (RwSys rw' ts')
  | st_tryrdlock_cancel s t rw' r : thr s !! t = Some TNone → tryrdlock_cancel (rw s) = (rw', r) →
      cancel_step s (RwSys rw' (<[t := if r =? 0 then TRead else TNone]> (thr s))).

Definition rw_initial (s : rwsys) : Prop :=
  rw s = PTHREAD_RWLOCK_INITIALIZER ∧ (∀ t st, thr s !! t = Some st → st = TNone) ∧
  Z.of_nat (size (thr s)) <= INT_MAX.

Definition rw_reachable (s0 s : rwsys) : Prop := clos_refl_trans_1n _ rw_step s0 s.
Definition rw_reachable_cancel (s0 s : rwsys) : Prop :=
  clos_refl_trans_1n _ (λ s s', rw_step s s' ∨ cancel_step s s') s0 s.
