(* ===== verification/RwlockProps.v ===== *)
(** Properties of the read-write locks: mutual exclusion, preference for writers, no
    lost wake-up without cancellation, and the wake-up that cancellation loses. *)

From stdpp Require Import base tactics numbers list gmap.
From Stdlib Require Import ZArith Lia Relations.
From S2P Require Import Prelude Threads Rwlock.

(** ** The invariant *)

Definition is_read (st : tst) : bool := match st with TRead => true | _ => false end.
Definition is_write (st : tst) : bool := match st with TWrite => true | _ => false end.
Definition in_rdlock (st : tst) : bool := match st with RdWait | RdWoken => true | _ => false end.
Definition in_wrlock (st : tst) : bool := match st with WrWait | WrWoken => true | _ => false end.

(** The counters count threads; the lock is held by readers or by one writer. *)
Record RwInv (s : rwsys) : Prop := MkRwInv {
  ri_magic : rw_magic (rw s) = RW_MAGIC;
  ri_readers : rw_nwaitreaders (rw s) = tcount in_rdlock (thr s);
  ri_writers : rw_nwaitwriters (rw s) = tcount in_wrlock (thr s);
  ri_held : rw_refcount (rw s) = tcount is_read (thr s) ∧ tcount is_write (thr s) = 0 ∨
            rw_refcount (rw s) = -1 ∧ tcount is_read (thr s) = 0 ∧ tcount is_write (thr s) = 1;
  ri_size : Z.of_nat (size (thr s)) <= INT_MAX }.

(** A free lock that writers wait for has a woken writer; readers only wait while
    a writer holds the lock or waits. *)
Record RwLive (s : rwsys) : Prop := MkRwLive {
  rl_writer : rw_refcount (rw s) = 0 → 0 < rw_nwaitwriters (rw s) → ∃ t, thr s !! t = Some WrWoken;
  rl_reader : 0 <= rw_refcount (rw s) → rw_nwaitwriters (rw s) = 0 → ∀ t, thr s !! t ≠ Some RdWait }.

Lemma size_insert_thr (ts : gmap nat tst) t st st' : ts !! t = Some st → size (<[t := st']> ts) = size ts.
Proof. intros Ht. apply map_size_insert_Some. by exists st. Qed.

(** Facts about the counts of a thread map of bounded size, and the effect of a
    change of thread [t]. *)
Ltac count Ht :=
  rewrite ?(tcount_insert in_rdlock _ _ _ _ Ht), ?(tcount_insert in_wrlock _ _ _ _ Ht),
    ?(tcount_insert is_read _ _ _ _ Ht), ?(tcount_insert is_write _ _ _ _ Ht), ?(size_insert_thr _ _ _ _ Ht).
Ltac bounds ts :=
  pose proof (tcount_nonneg in_rdlock ts); pose proof (tcount_nonneg in_wrlock ts);
  pose proof (tcount_nonneg is_read ts); pose proof (tcount_nonneg is_write ts);
  pose proof (tcount_size in_rdlock ts); pose proof (tcount_size in_wrlock ts);
  pose proof (tcount_size is_read ts); pose proof (tcount_size is_write ts).
Ltac rw_simpl := cbn [rw thr rw_magic rw_nwaitreaders rw_nwaitwriters rw_refcount set_magic set_nwaitreaders
  set_nwaitwriters set_refcount fst snd b2z is_read is_write in_rdlock in_wrlock] in *.

(** The invariant after a change of the structure and of thread [t]. *)
Lemma rwinv_update rw0 ts t st st' rw' :
  RwInv (RwSys rw0 ts) → ts !! t = Some st →
  rw_magic rw' = rw_magic rw0 →
  rw_nwaitreaders rw' = i32 (rw_nwaitreaders rw0 - b2z (in_rdlock st) + b2z (in_rdlock st')) →
  rw_nwaitwriters rw' = i32 (rw_nwaitwriters rw0 - b2z (in_wrlock st) + b2z (in_wrlock st')) →
  (let r := tcount is_read ts - b2z (is_read st) + b2z (is_read st') in
   let w := tcount is_write ts - b2z (is_write st) + b2z (is_write st') in
   rw_refcount rw' = i32 r ∧ w = 0 ∨ rw_refcount rw' = -1 ∧ r = 0 ∧ w = 1) →
  RwInv (RwSys rw' (<[t := st']> ts)).
Proof.
  intros [Hm Hr Hw Hh Hs] Ht Em Er Ew Eh. rw_simpl. bounds (<[t := st']> ts).
  rewrite (size_insert_thr _ _ _ st' Ht) in *. rewrite Hr in Er. rewrite Hw in Ew. cbv zeta in Eh.
  rewrite <- (tcount_insert in_rdlock _ _ _ _ Ht), i32_id in Er by (unfold INT_MAX in *; lia).
  rewrite <- (tcount_insert in_wrlock _ _ _ _ Ht), i32_id in Ew by (unfold INT_MAX in *; lia).
  rewrite <- (tcount_insert is_read _ _ _ _ Ht), <- (tcount_insert is_write _ _ _ _ Ht) in Eh.
  split; rw_simpl; [congruence|done|done| |by rewrite (size_insert_thr _ _ _ _ Ht)].
  destruct Eh as [[-> ->]|Eh]; [left|by right]. rewrite i32_id; [done|unfold INT_MAX in *; lia].
Qed.

Lemma rwinv_wake s ts' w : RwInv s → woken (thr s) w ts' → RwInv (RwSys (rw s) ts').
Proof.
  intros HI Hw. destruct s as [rw0 ts]. destruct HI as [Hm Hr Hwr Hh Hs]. rw_simpl.
  destruct Hw as [|t Ht| |]; [by split| |by split|].
  - split; rw_simpl; count Ht; rw_simpl; rewrite ?Z.sub_0_r, ?Z.add_0_r; try done. lia.
  - split; rw_simpl; rewrite ?tcount_fmap by (by intros []); try done. by rewrite map_size_fmap.
Qed.

(** [refcount] when the holders do not change, when a reader is added, and when the
    writer is added. *)
Lemma held_same rw0 ts : RwInv (RwSys rw0 ts) →
  rw_refcount rw0 = i32 (tcount is_read ts - 0 + 0) ∧ tcount is_write ts - 0 + 0 = 0 ∨
  rw_refcount rw0 = -1 ∧ tcount is_read ts - 0 + 0 = 0 ∧ tcount is_write ts - 0 + 0 = 1.
Proof.
  intros [_ _ _ Hh Hs]. rw_simpl. bounds ts. rewrite i32_id by (unfold INT_MAX in *; lia). lia.
Qed.

Lemma waiters_same rw0 ts : RwInv (RwSys rw0 ts) →
  rw_nwaitreaders rw0 = i32 (rw_nwaitreaders rw0 - 0 + 0) ∧ rw_nwaitwriters rw0 = i32 (rw_nwaitwriters rw0 - 0 + 0).
Proof.
  intros [_ Hr Hw _ Hs]. rw_simpl. bounds ts. rewrite !i32_id by (unfold INT_MAX in *; lia). lia.
Qed.

Lemma rdlock_loop_inv rw0 ts t :
  RwInv (RwSys rw0 ts) → ts !! t = Some TNone → RwInv (after_rd t ts (rdlock_loop rw0)).
Proof.
  intros HI Ht. pose proof (held_same _ _ HI) as Hh. pose proof (waiters_same _ _ HI) as [Hr Hw].
  pose proof (ri_held _ HI) as Hh0. rw_simpl. bounds ts.
  unfold rdlock_loop, after_rd. destruct (_ || _) eqn:E; (eapply rwinv_update; [done|done|..]); rw_simpl; try done.
  - f_equal. lia.
  - left. split; [f_equal|]; lia.
Qed.

Lemma wrlock_loop_inv rw0 ts t :
  RwInv (RwSys rw0 ts) → ts !! t = Some TNone → RwInv (after_wr t ts (wrlock_loop rw0)).
Proof.
  intros HI Ht. pose proof (held_same _ _ HI) as Hh. pose proof (waiters_same _ _ HI) as [Hr Hw].
  pose proof (ri_held _ HI) as Hh0. rw_simpl. bounds ts.
  unfold wrlock_loop, after_wr. destruct (_ =? _) eqn:E; cbn [negb]; (eapply rwinv_update; [done|done|..]); rw_simpl; try done.
  - right. lia.
  - f_equal. lia.
Qed.

(** A waiting thread that leaves its call. *)
Lemma leave_rd_inv rw0 ts t st : RwInv (RwSys rw0 ts) → ts !! t = Some st → in_rdlock st = true →
  RwInv (RwSys (set_nwaitreaders (i32 (rw_nwaitreaders rw0 - 1)) rw0) (<[t := TNone]> ts)).
Proof.
  intros HI Ht Hst. pose proof (held_same _ _ HI) as Hh. pose proof (waiters_same _ _ HI) as [Hr Hw].
  destruct st; try done; (eapply rwinv_update; [done|done|..]); rw_simpl; try done; f_equal; lia.
Qed.

Lemma leave_wr_inv rw0 ts t st : RwInv (RwSys rw0 ts) → ts !! t = Some st → in_wrlock st = true →
  RwInv (RwSys (set_nwaitwriters (i32 (rw_nwaitwriters rw0 - 1)) rw0) (<[t := TNone]> ts)).
Proof.
  intros HI Ht Hst. pose proof (held_same _ _ HI) as Hh. pose proof (waiters_same _ _ HI) as [Hr Hw].
  destruct st; try done; (eapply rwinv_update; [done|done|..]); rw_simpl; try done; f_equal; lia.
Qed.

Lemma after_rd_insert t ts st x : after_rd t (<[t := st]> ts) x = after_rd t ts x.
Proof. unfold after_rd. by rewrite insert_insert_eq. Qed.
Lemma after_wr_insert t ts st x : after_wr t (<[t := st]> ts) x = after_wr t ts x.
Proof. unfold after_wr. by rewrite insert_insert_eq. Qed.

(** Giving up a held lock. *)
Lemma unlock_inv rw0 ts t st rw' w : RwInv (RwSys rw0 ts) → ts !! t = Some st → st = TRead ∨ st = TWrite →
  pthread_rwlock_unlock rw0 = Some (rw', 0, w) → RwInv (RwSys rw' (<[t := TNone]> ts)).
Proof.
  intros HI Ht Hst. pose proof (waiters_same _ _ HI) as [Hr Hw]. pose proof HI as [Hm _ _ Hh0 Hs]. rw_simpl. bounds ts.
  unfold pthread_rwlock_unlock. rewrite Hm, Z.eqb_refl. cbn [negb].
  assert (tcount is_read ts > 0 ∧ st = TRead ∨ tcount is_write ts > 0 ∧ st = TWrite) as Hp.
  { destruct Hst as [-> | ->]; [left|right]; (split; [|done]); apply Z.lt_gt; by eapply tcount_pos. }
  destruct (0 <? rw_refcount rw0) eqn:E1; [|destruct (_ =? -1) eqn:E2; [|done]]; intros [= <- _];
    (eapply rwinv_update; [done|done|..]); rw_simpl; try done; destruct Hp as [[Hp ->]|[Hp ->]]; rw_simpl; try done; try lia.
  - left. split; [f_equal|]; lia.
  - left. split; [|lia]. rewrite i32_id; lia.
Qed.

Lemma rdwoken_inv rw0 ts t : RwInv (RwSys rw0 ts) → ts !! t = Some RdWoken →
  RwInv (after_rd t ts (rdlock_woken 0 rw0)).
Proof.
  intros HI Ht. unfold rdlock_woken. cbn [Z.eqb negb]. rewrite <- (after_rd_insert t ts TNone).
  apply rdlock_loop_inv; [by eapply leave_rd_inv|apply lookup_insert_eq].
Qed.

Lemma wrwoken_inv rw0 ts t : RwInv (RwSys rw0 ts) → ts !! t = Some WrWoken →
  RwInv (after_wr t ts (wrlock_woken 0 rw0)).
Proof.
  intros HI Ht. unfold wrlock_woken. cbn [Z.eqb negb]. rewrite <- (after_wr_insert t ts TNone).
  apply wrlock_loop_inv; [by eapply leave_wr_inv|apply lookup_insert_eq].
Qed.

(** A try is a lock call that gives up where the other waits. *)
Lemma tryrdlock_eq rw0 : rw_magic rw0 = RW_MAGIC →
  pthread_rwlock_tryrdlock rw0 =
    match rdlock_loop rw0 with (rw', Some r) => (rw', r) | (_, None) => (rw0, EBUSY) end.
Proof.
  intros Hm. unfold pthread_rwlock_tryrdlock, rdlock_loop. rewrite Hm, Z.eqb_refl. cbn [negb]. by destruct (_ || _).
Qed.

Lemma trywrlock_eq rw0 : rw_magic rw0 = RW_MAGIC →
  pthread_rwlock_trywrlock rw0 =
    match wrlock_loop rw0 with (rw', Some r) => (rw', r) | (_, None) => (rw0, EBUSY) end.
Proof.
  intros Hm. unfold pthread_rwlock_trywrlock, wrlock_loop. rewrite Hm, Z.eqb_refl. cbn [negb]. by destruct (_ =? _).
Qed.

Lemma rdlock_loop_ret rw0 rw' r : rdlock_loop rw0 = (rw', Some r) → r = 0.
Proof. unfold rdlock_loop. destruct (_ || _); by intros [= <- <-]. Qed.
Lemma wrlock_loop_ret rw0 rw' r : wrlock_loop rw0 = (rw', Some r) → r = 0.
Proof. unfold wrlock_loop. destruct (negb _); by intros [= <- <-]. Qed.

Lemma step_safe s s' : RwInv s → rw_step s s' → RwInv s'.
Proof.
  intros HI Hst. pose proof (ri_magic _ HI) as Hm.
  destruct Hst as [[rw0 ts] t Ht|[rw0 ts] t Ht|[rw0 ts] t rw' r Ht E|[rw0 ts] t rw' r Ht E|
    [rw0 ts] t st rw' w ts' Ht Hs E Hw|[rw0 ts] t Ht|[rw0 ts] t Ht|[rw0 ts] t Ht|[rw0 ts] t Ht]; rw_simpl.
  - unfold pthread_rwlock_rdlock. rewrite Hm, Z.eqb_refl. by apply rdlock_loop_inv.
  - unfold pthread_rwlock_wrlock. rewrite Hm, Z.eqb_refl. by apply wrlock_loop_inv.
  - rewrite tryrdlock_eq in E by done. pose proof (rdlock_loop_inv _ _ _ HI Ht) as H.
    destruct (rdlock_loop rw0) as [rw1 [r1|]] eqn:El; injection E as <- <-.
    + by rewrite (rdlock_loop_ret _ _ _ El) in *.
    + by rewrite insert_id.
  - rewrite trywrlock_eq in E by done. pose proof (wrlock_loop_inv _ _ _ HI Ht) as H.
    destruct (wrlock_loop rw0) as [rw1 [r1|]] eqn:El; injection E as <- <-.
    + by rewrite (wrlock_loop_ret _ _ _ El) in *.
    + by rewrite insert_id.
  - eapply (rwinv_wake (RwSys rw' (<[t := TNone]> ts))); [by eapply unlock_inv|exact Hw].
  - by apply rdwoken_inv.
  - by apply wrwoken_inv.
  - pose proof (held_same _ _ HI). pose proof (waiters_same _ _ HI) as [Hr Hw].
    eapply rwinv_update; [exact HI|exact Ht|..]; rw_simpl; try done. rewrite Hr at 1. f_equal. lia.
  - pose proof (held_same _ _ HI). pose proof (waiters_same _ _ HI) as [Hr Hw].
    eapply rwinv_update; [exact HI|exact Ht|..]; rw_simpl; try done. rewrite Hw at 1. f_equal. lia.
Qed.

(** The unlock with handlers releases the lock in the same way, and the try is the same
    function on reachable states. *)
Lemma unlock_cancel_eq rw0 rw' w : unlock_cancel rw0 = Some (rw', 0, w) → ∃ w', pthread_rwlock_unlock rw0 = Some (rw', 0, w').
Proof.
  unfold unlock_cancel, pthread_rwlock_unlock. destruct (negb _); [done|].
  destruct (0 <? rw_refcount rw0); [|destruct (_ =? -1); [|done]]; intros [= <- _]; eauto.
Qed.

Lemma tryrdlock_cancel_eq s : RwInv s → tryrdlock_cancel (rw s) = pthread_rwlock_tryrdlock (rw s).
Proof.
  intros [_ _ _ Hh _]. unfold tryrdlock_cancel, pthread_rwlock_tryrdlock. pose proof (tcount_nonneg is_read (thr s)).
  by replace (rw_refcount (rw s) <? 0) with (rw_refcount (rw s) =? -1) by lia.
Qed.

Lemma cancel_safe s s' : RwInv s → cancel_step s s' → RwInv s'.
Proof.
  intros HI Hst. destruct Hst as [[rw0 ts] t st Ht Hs|[rw0 ts] t st Ht Hs|[rw0 ts] t st rw' w ts' Ht Hs E Hw|s t rw' r Ht E]; rw_simpl.
  - eapply leave_rd_inv; [done|done|by destruct Hs as [-> | ->]].
  - eapply leave_wr_inv; [done|done|by destruct Hs as [-> | ->]].
  - apply unlock_cancel_eq in E as [w' E].
    eapply (rwinv_wake (RwSys rw' (<[t := TNone]> ts))); [by eapply unlock_inv|exact Hw].
  - rewrite tryrdlock_cancel_eq in E by done. eapply step_safe; [exact HI|]. by apply st_tryrdlock.
Qed.

Lemma initial_safe s : rw_initial s → RwInv s.
Proof.
  intros (Hrw & Ht & Hs).
  assert (∀ P, P TNone = false → tcount P (thr s) = 0) as H0.
  { intros P HP. pose proof (tcount_nonneg P (thr s)).
    destruct (decide (0 < tcount P (thr s))) as [(t & x & Hx & HP')%tcount_ex|]; [|lia].
    apply Ht in Hx. subst. congruence. }
  split; rewrite ?Hrw, ?H0 by done; try done. by left.
Qed.

Lemma reachable_cancel_safe s0 s : rw_initial s0 → rw_reachable_cancel s0 s → RwInv s.
Proof.
  intros Hi%initial_safe Hr. induction Hr as [|s0 s1 s [Hs|Hs] _ IH]; [done|..]; apply IH;
    [by eapply step_safe|by eapply cancel_safe].
Qed.

Lemma reachable_weaken s0 s : rw_reachable s0 s → rw_reachable_cancel s0 s.
Proof.
  induction 1 as [|s0 s1 s Hs _ IH]; [apply Relation_Operators.rt1n_refl|].
  eapply Relation_Operators.rt1n_trans; [by left|done].
Qed.

(** ** Wake-ups *)

(** A change of thread [t] that adds no waiting reader and takes no woken writer. *)
Lemma live_update rw0 ts t st st' rw' :
  RwLive (RwSys rw0 ts) → ts !! t = Some st → st ≠ WrWoken → st' ≠ RdWait →
  (rw_refcount rw' = 0 → 0 < rw_nwaitwriters rw' → rw_refcount rw0 = 0 ∧ 0 < rw_nwaitwriters rw0) →
  (0 <= rw_refcount rw' → rw_nwaitwriters rw' = 0 → 0 <= rw_refcount rw0 ∧ rw_nwaitwriters rw0 = 0) →
  RwLive (RwSys rw' (<[t := st']> ts)).
Proof.
  intros [Hw Hr] Ht Hst Hst' H1 H2. split; rw_simpl.
  - intros Ha Hb. destruct (H1 Ha Hb) as [Ha' Hb']. destruct (Hw Ha' Hb') as [u Hu].
    exists u. rewrite lookup_insert_ne; [done|]. intros ->. congruence.
  - intros Ha Hb u. destruct (H2 Ha Hb) as [Ha' Hb'].
    destruct (decide (t = u)) as [->|]; [rewrite lookup_insert_eq; congruence|rewrite lookup_insert_ne by done; by apply Hr].
Qed.

Lemma rdlock_loop_live rw0 ts t st :
  RwLive (RwSys rw0 ts) → ts !! t = Some st → st ≠ WrWoken → RwLive (after_rd t ts (rdlock_loop rw0)).
Proof.
  intros HL Ht Hst. unfold rdlock_loop, after_rd. destruct (_ || _) eqn:E; rw_simpl.
  - destruct HL as [Hw Hr]. rw_simpl. split; rw_simpl; [|lia]. intros Ha Hb.
    destruct (Hw Ha Hb) as [u Hu]. exists u. rewrite lookup_insert_ne; [done|]. intros ->. congruence.
  - destruct HL as [Hw Hr]. rw_simpl. apply orb_false_iff in E as [E1 E2]. split; rw_simpl; [lia|].
    intros _ Hb u. destruct (decide (t = u)) as [->|]; [by rewrite lookup_insert_eq|rewrite lookup_insert_ne by done].
    apply Hr; lia.
Qed.

Lemma wrlock_loop_live rw0 ts t : 0 <= rw_nwaitwriters rw0 < INT_MAX →
  RwLive (after_wr t ts (wrlock_loop rw0)).
Proof.
  intros Hn. unfold wrlock_loop, after_wr, INT_MAX in *. destruct (_ =? _) eqn:E; cbn [negb]; split; rw_simpl; try lia;
    rewrite i32_id by lia; lia.
Qed.

Lemma unlock_live rw0 ts t st rw' w ts' :
  RwInv (RwSys rw0 ts) → ts !! t = Some st → st = TRead ∨ st = TWrite →
  pthread_rwlock_unlock rw0 = Some (rw', 0, w) → woken (<[t := TNone]> ts) w ts' → RwLive (RwSys rw' ts').
Proof.
  intros HI Ht Hst Hu Hw. pose proof (unlock_inv _ _ _ _ _ _ HI Ht Hst Hu) as [_ Hr1 Hw1 _ _]. rw_simpl.
  assert (w = if 0 <? rw_nwaitwriters rw' then if rw_refcount rw' =? 0 then SignalWriter else NoWakeup
              else if 0 <? rw_nwaitreaders rw' then BroadcastReaders else NoWakeup) as Ew.
  { unfold pthread_rwlock_unlock in Hu. destruct (negb _); [done|].
    destruct (0 <? _); [|destruct (_ =? -1); [|done]]; by injection Hu as <- <-. }
  set (ts1 := <[t := TNone]> ts) in *. split; rw_simpl.
  - intros Ha Hb. rewrite Ha, (proj2 (Z.ltb_lt _ _) Hb) in Ew. cbn in Ew. subst w.
    inversion Hw as [|u Hu' E1 E2|Hnone E1 E2|]; subst.
    + exists u. apply lookup_insert_eq.
    + rewrite Hw1 in Hb. apply tcount_ex in Hb as (u & x & Hx & Hi). exists u. rewrite Hx. f_equal.
      destruct x; try done. by apply Hnone in Hx.
  - intros Ha Hb u Hu'. rewrite Hb in Ew. cbn in Ew. destruct (0 <? rw_nwaitreaders rw') eqn:E; subst w; inversion Hw; subst.
    + rewrite lookup_fmap in Hu'. destruct (ts1 !! u) as [[]|]; done.
    + pose proof (tcount_pos in_rdlock _ _ _ Hu' eq_refl). lia.
Qed.

Lemma step_live s s' : RwInv s → RwLive s → rw_step s s' → RwLive s'.
Proof.
  intros HI HL Hst. pose proof (step_safe _ _ HI Hst) as HI'. pose proof (ri_magic _ HI) as Hm.
  pose proof (ri_writers _ HI) as Hn. pose proof (ri_size _ HI) as Hs0.
  destruct Hst as [[rw0 ts] t Ht|[rw0 ts] t Ht|[rw0 ts] t rw' r Ht E|[rw0 ts] t rw' r Ht E|
    [rw0 ts] t st rw' w ts' Ht Hs E Hw|[rw0 ts] t Ht|[rw0 ts] t Ht|[rw0 ts] t Ht|[rw0 ts] t Ht]; rw_simpl.
  - unfold pthread_rwlock_rdlock. rewrite Hm, Z.eqb_refl. by eapply rdlock_loop_live.
  - unfold pthread_rwlock_wrlock in *. rewrite Hm, Z.eqb_refl in *. apply wrlock_loop_live. cbn [negb] in *.
    bounds ts. pose proof (tcount_size in_wrlock (<[t := WrWait]> ts)) as Hb.
    rewrite (tcount_insert in_wrlock _ _ _ _ Ht), (size_insert_thr _ _ _ _ Ht) in Hb. rw_simpl. lia.
  - rewrite tryrdlock_eq in E by done. pose proof (rdlock_loop_live _ _ _ _ HL Ht ltac:(done)) as H.
    destruct (rdlock_loop rw0) as [rw1 [r1|]] eqn:El; injection E as <- <-.
    + by rewrite (rdlock_loop_ret _ _ _ El) in *.
    + by rewrite insert_id.
  - rewrite trywrlock_eq in E by done. unfold wrlock_loop in E. destruct (_ =? 0) eqn:E0; cbn in E; injection E as <- <-.
    + split; rw_simpl; lia.
    + by rewrite insert_id.
  - eapply unlock_live; [exact HI|exact Ht|exact Hs|exact E|exact Hw].
  - unfold rdlock_woken. cbn [Z.eqb negb].
    pose proof (rdlock_loop_live (set_nwaitreaders (i32 (rw_nwaitreaders rw0 - 1)) rw0) ts t RdWoken) as H.
    apply H; [by destruct HL|done|done].
  - apply wrlock_loop_live. bounds ts. pose proof (tcount_pos in_wrlock _ _ _ Ht eq_refl).
    rw_simpl. rewrite i32_id by (unfold INT_MAX in *; lia). lia.
  - eapply live_update; [exact HL|exact Ht|done|done|done|done].
  - destruct HL as [H1 H2]. rw_simpl. split; rw_simpl.
    + intros _ _. exists t. apply lookup_insert_eq.
    + intros Ha Hb u. destruct (decide (t = u)) as [->|]; [by rewrite lookup_insert_eq|rewrite lookup_insert_ne by done; by apply H2].
Qed.

Lemma initial_live s : rw_initial s → RwLive s.
Proof.
  intros (Hrw & Ht & _). split; rewrite Hrw; cbn; [lia|]. intros _ _ t E. by apply Ht in E.
Qed.

Lemma reachable_live s0 s : rw_initial s0 → rw_reachable s0 s → RwInv s ∧ RwLive s.
Proof.
  intros Hi Hr. assert (RwInv s0 ∧ RwLive s0) as H by (split; [by apply initial_safe|by apply initial_live]). clear Hi.
  induction Hr as [|s0 s1 s Hs _ IH]; [done|]. apply IH. destruct H. split; [by eapply step_safe|by eapply step_live].
Qed.

(** ** Example runs *)

Definition ex_rw0 : rwsys :=
  RwSys PTHREAD_RWLOCK_INITIALIZER {[0%nat := TNone; 1%nat := TNone; 2%nat := TNone]}.
(** Thread 0 reads, thread 1 waits for a write lock, thread 2 for a read lock. *)
Definition ex_rw1 : rwsys := after_rd 0 (thr ex_rw0) (pthread_rwlock_rdlock (rw ex_rw0)).
Definition ex_rw2 : rwsys := after_wr 1 (thr ex_rw1) (pthread_rwlock_wrlock (rw ex_rw1)).
Definition ex_rw3 : rwsys := after_rd 2 (thr ex_rw2) (pthread_rwlock_rdlock (rw ex_rw2)).
(** Thread 0 unlocks, which wakes thread 1. *)
Definition ex_rw4 : rwsys :=
  RwSys (set_refcount 0 (rw ex_rw3)) (<[1%nat := WrWoken]> (<[0%nat := TNone]> (thr ex_rw3))).
(** Thread 1 is cancelled. *)
Definition ex_rw5 : rwsys := RwSys (rwlock_cancelwrwait (rw ex_rw4)) (<[1%nat := TNone]> (thr ex_rw4)).

Lemma ex_rw_initial : rw_initial ex_rw0.
Proof.
  split_and!; [done| |by vm_compute]. intros t st. cbn.
  rewrite !lookup_insert_Some, lookup_singleton_Some. naive_solver.
Qed.

Lemma ex_rw3_reachable : rw_reachable ex_rw0 ex_rw3.
Proof.
  apply (Relation_Operators.rt1n_trans _ _ _ ex_rw1); [by apply st_rdlock|].
  apply (Relation_Operators.rt1n_trans _ _ _ ex_rw2); [by apply st_wrlock|].
  apply (Relation_Operators.rt1n_trans _ _ _ ex_rw3); [by apply st_rdlock|apply Relation_Operators.rt1n_refl].
Qed.

Lemma ex_rw_reachable : rw_reachable ex_rw0 ex_rw4.
Proof.
  eapply rt_snoc; [apply ex_rw3_reachable|].
  eapply (st_unlock ex_rw3 0%nat TRead); [done|by left|done|]. by apply woken_writer.
Qed.

(** ** The properties *)

(** C32: in every reachable state, cancellations included, a thread that holds the
    write lock is the only thread that holds the lock. *)
Theorem rw_mutual_exclusion s0 s t t' st :
  rw_initial s0 → rw_reachable_cancel s0 s →
  thr s !! t = Some TWrite → thr s !! t' = Some st → st = TRead ∨ st = TWrite → t' = t.
Proof.
  intros Hi Hr Ht Ht' Hst. destruct (reachable_cancel_safe s0 s Hi Hr) as [_ _ _ Hh _].
  pose proof (tcount_pos is_write _ _ _ Ht eq_refl). pose proof (tcount_nonneg is_read (thr s)).
  destruct (decide (t' = t)) as [|Hne]; [done|]. destruct Hst as [-> | ->].
  - pose proof (tcount_pos is_read _ _ _ Ht' eq_refl). lia.
  - pose proof (tcount_two is_write _ _ _ _ _ Ht Ht' eq_refl eq_refl). lia.
Qed.

(** The writer of the example gets the lock. *)
Definition ex_rw6 : rwsys := after_wr 1 (thr ex_rw4) (wrlock_woken 0 (rw ex_rw4)).

Lemma rw_mutual_exclusion_witness : thr ex_rw6 !! 1%nat = Some TWrite ∧ 1%nat = 1%nat.
Proof.
  split; [reflexivity|]. refine (rw_mutual_exclusion ex_rw0 ex_rw6 1 1 TWrite ex_rw_initial _ eq_refl eq_refl (or_intror eq_refl)).
  apply reachable_weaken. eapply rt_snoc; [apply ex_rw_reachable|]. by apply st_wrwoken.
Defined.

(** Writers have preference: while a writer waits for the lock,
    [pthread_rwlock_rdlock] waits and [pthread_rwlock_tryrdlock] returns EBUSY without
    a change, also if the lock is free or held by readers; and a woken reader waits
    again. *)
Theorem rw_writer_preference s0 s t st :
  rw_initial s0 → rw_reachable_cancel s0 s → thr s !! t = Some st → st = WrWait ∨ st = WrWoken →
  (pthread_rwlock_rdlock (rw s)).2 = None ∧ pthread_rwlock_tryrdlock (rw s) = (rw s, EBUSY) ∧
  (rdlock_woken 0 (rw s)).2 = None.
Proof.
  intros Hi Hr Ht Hst. destruct (reachable_cancel_safe s0 s Hi Hr) as [Hm _ Hw _ _].
  assert (0 < rw_nwaitwriters (rw s)) as Hn.
  { rewrite Hw. eapply tcount_pos; [exact Ht|]. by destruct Hst as [-> | ->]. }
  unfold pthread_rwlock_rdlock, pthread_rwlock_tryrdlock, rdlock_woken, rdlock_loop. rewrite Hm, Z.eqb_refl.
  cbn [negb Z.eqb rw_refcount rw_nwaitwriters set_nwaitreaders].
  by rewrite (proj2 (Z.ltb_lt 0 (rw_nwaitwriters (rw s))) Hn), orb_true_r.
Qed.

Lemma rw_writer_preference_witness :
  (pthread_rwlock_rdlock (rw ex_rw4)).2 = None ∧ rw_refcount (rw ex_rw4) = 0.
Proof.
  split; [|reflexivity].
  refine (proj1 (rw_writer_preference ex_rw0 ex_rw4 1 WrWoken ex_rw_initial (reachable_weaken _ _ ex_rw_reachable) eq_refl _)).
  by right.
Defined.

(** C33: without cancellation no wake-up is lost: if the lock is free and some thread
    is inside a lock call, then a thread has been woken that gets the lock as soon as
    it runs. *)
Theorem rw_no_lost_wakeup s0 s t st :
  rw_initial s0 → rw_reachable s0 s → rw_refcount (rw s) = 0 →
  thr s !! t = Some st → in_rdlock st || in_wrlock st = true →
  ∃ u, thr s !! u = Some WrWoken ∧ (wrlock_woken 0 (rw s)).2 = Some 0 ∨
       thr s !! u = Some RdWoken ∧ (rdlock_woken 0 (rw s)).2 = Some 0.
Proof.
  intros Hi Hr H0 Ht Hst. destruct (reachable_live s0 s Hi Hr) as [[Hm _ Hw _ _] [H1 H2]].
  unfold wrlock_woken, wrlock_loop, rdlock_woken, rdlock_loop.
  cbn [negb Z.eqb rw_refcount rw_nwaitwriters set_nwaitreaders set_nwaitwriters]. rewrite H0. cbn [Z.eqb negb Z.ltb Z.compare orb snd].
  pose proof (tcount_nonneg in_wrlock (thr s)).
  destruct (decide (0 < rw_nwaitwriters (rw s))) as [Hn|Hn].
  - destruct (H1 H0 Hn) as [u Hu]. exists u. left. done.
  - exists t. right. replace (0 <? _) with false by lia. split; [|done].
    destruct (in_wrlock st) eqn:E; [pose proof (tcount_pos in_wrlock _ _ _ Ht E); lia|].
    destruct st; try done. exfalso. by apply (H2 ltac:(lia) ltac:(lia) t).
Qed.

Lemma rw_no_lost_wakeup_witness :
  ∃ u, thr ex_rw4 !! u = Some WrWoken ∧ (wrlock_woken 0 (rw ex_rw4)).2 = Some 0 ∨
       thr ex_rw4 !! u = Some RdWoken ∧ (rdlock_woken 0 (rw ex_rw4)).2 = Some 0.
Proof. by apply (rw_no_lost_wakeup ex_rw0 ex_rw4 2 RdWait ex_rw_initial ex_rw_reachable). Defined.

(** A thread that holds the lock can always release it: the unlock returns 0 and
    never runs into the [err_dump] for a wrong count; and the lock cannot be destroyed
    while a thread holds or waits for it. *)
Theorem rw_unlock_safe s0 s t st :
  rw_initial s0 → rw_reachable_cancel s0 s → thr s !! t = Some st → st ≠ TNone →
  (st = TRead ∨ st = TWrite → ∃ rw' w, pthread_rwlock_unlock (rw s) = Some (rw', 0, w)) ∧
  pthread_rwlock_destroy (rw s) = (rw s, EBUSY).
Proof.
  intros Hi Hr Ht Hst. destruct (reachable_cancel_safe s0 s Hi Hr) as [Hm Hrd Hw Hh _]. split.
  - intros Hs. unfold pthread_rwlock_unlock. rewrite Hm, Z.eqb_refl. cbn [negb].
    destruct Hh as [[Hh Hh']|[Hh _]].
    + destruct Hs as [-> | ->]; [|pose proof (tcount_pos is_write _ _ _ Ht eq_refl); lia].
      pose proof (tcount_pos is_read _ _ _ Ht eq_refl). rewrite Hh, (proj2 (Z.ltb_lt _ _) H). eauto.
    + rewrite Hh. cbn. eauto.
  - unfold pthread_rwlock_destroy. rewrite Hm, Z.eqb_refl. cbn [negb].
    assert (rw_refcount (rw s) ≠ 0 ∨ rw_nwaitreaders (rw s) ≠ 0 ∨ rw_nwaitwriters (rw s) ≠ 0) as H.
    { pose proof (tcount_pos is_read _ _ _ Ht). pose proof (tcount_pos is_write _ _ _ Ht).
      pose proof (tcount_pos in_rdlock _ _ _ Ht). pose proof (tcount_pos in_wrlock _ _ _ Ht).
      rewrite Hrd, Hw. destruct st; cbn in *; try done; lia. }
    destruct (rw_refcount (rw s) =? 0) eqn:E1; cbn; [|done].
    destruct (rw_nwaitreaders (rw s) =? 0) eqn:E2; cbn; [|done].
    destruct (rw_nwaitwriters (rw s) =? 0) eqn:E3; cbn; [|done]. lia.
Qed.

Lemma rw_unlock_safe_witness :
  (∃ rw' w, pthread_rwlock_unlock (rw ex_rw6) = Some (rw', 0, w)) ∧
  pthread_rwlock_destroy (rw ex_rw6) = (rw ex_rw6, EBUSY).
Proof.
  destruct (rw_unlock_safe ex_rw0 ex_rw6 1 TWrite ex_rw_initial) as [H1 H2]; [|reflexivity|done|].
  - apply reachable_weaken. eapply rt_snoc; [apply ex_rw_reachable|]. by apply st_wrwoken.
  - split; [apply H1; by right|exact H2].
Defined.

(** With cancellation a wake-up can be lost.  A reader holds the lock, a writer
    and another reader wait; the reader unlocks, which wakes only the writer, and the
    writer is cancelled before it runs.  Its handler wakes nobody: the lock is free,
    no writer waits, and the reader stays blocked with no thread left to wake it. *)
Theorem rw_cancel_lost_wakeup :
  rw_initial ex_rw0 ∧ rw_reachable_cancel ex_rw0 ex_rw5 ∧
  rw_refcount (rw ex_rw5) = 0 ∧ rw_nwaitwriters (rw ex_rw5) = 0 ∧
  thr ex_rw5 !! 2%nat = Some RdWait ∧ ∀ t st, thr ex_rw5 !! t = Some st → t ≠ 2%nat → st = TNone.
Proof.
  split; [apply ex_rw_initial|]. split.
  { apply (rt_snoc _ _ ex_rw4); [apply (rt_snoc _ _ ex_rw3)|].
    - apply reachable_weaken, ex_rw3_reachable.
    - right. eapply (st_unlock_cancel ex_rw3 0%nat TRead); [done|by left|done|]. by apply woken_writer.
    - right. apply (st_cancel_wr ex_rw4 1 WrWoken); [done|by right]. }
  split_and!; try reflexivity. intros t st. cbn [thr ex_rw5 ex_rw4 ex_rw3 ex_rw2 ex_rw1 ex_rw0 after_rd after_wr].
  rewrite !lookup_insert_Some, lookup_singleton_Some. naive_solver.
Qed.

(** The versions with cancellation handlers return 0, which tells the caller that
    it holds the lock, even if [pthread_cond_wait] failed and the lock was not taken;
    the versions without return the error.  [pthread_rwlock_wrlock] there also returns 0
    without the lock if [pthread_mutex_lock] fails, because it only looks for -1. *)
Theorem rw_cancel_drops_errors e l :
  e ≠ 0 →
  rdlock_woken_cancel e l = (rwlock_cancelrdwait l, Some 0) ∧
  wrlock_woken_cancel e l = (rwlock_cancelwrwait l, Some 0) ∧
  rw_refcount (rwlock_cancelrdwait l) = rw_refcount l ∧ rw_refcount (rwlock_cancelwrwait l) = rw_refcount l ∧
  rdlock_woken e l = (rwlock_cancelrdwait l, Some e) ∧ wrlock_woken e l = (rwlock_cancelwrwait l, Some e) ∧
  (0 < e → rw_magic l = RW_MAGIC → rw_refcount l = 0 → wrlock_cancel e l = (l, Some 0)).
Proof.
  intros He. unfold rdlock_woken_cancel, wrlock_woken_cancel, rdlock_woken, wrlock_woken.
  rewrite (proj2 (Z.eqb_neq e 0) He). split_and!; try done. intros Hp Hm Hr. unfold wrlock_cancel.
  rewrite Hm, Hr, (proj2 (Z.eqb_neq e 0) He), (proj2 (Z.eqb_neq e (-1))) by lia. done.
Qed.

Lemma rw_cancel_drops_errors_witness :
  rdlock_woken_cancel EINVAL (Rw RW_MAGIC 1 0 (-1)) = (Rw RW_MAGIC 0 0 (-1), Some 0).
Proof. exact (proj1 (rw_cancel_drops_errors EINVAL (Rw RW_MAGIC 1 0 (-1)) ltac:(done))). Defined.
