(* ===== verification/Sem.v ===== *)
(** Posix semaphores in three ways: over a memory-mapped file with a mutex and a
    condition variable (unpv22e/my_pxsem_mmap), over a FIFO whose bytes are the value
    (unpv22e/my_pxsem_fifo), and over a System V semaphore (unpv22e/my_pxsem_svsem).

    Each call is a function on the semaphore and [errno]; [None] means that the call
    blocks.  A call of the first kind is atomic because it holds the mutex, the calls
    of the others because they are one system call. *)

From stdpp Require Import base tactics numbers list gmap.
From Stdlib Require Import ZArith Lia Relations.
From S2P Require Import Prelude Cio Threads.

Definition EINVAL : Z := 22.
Definition EAGAIN : Z := 11.
Definition ERANGE : Z := 34.
Definition EEXIST : Z := 17.
Definition ENOENT : Z := 2.
Definition ETIMEDOUT : Z := 110.
Definition ENOMEM : Z := 12.
Definition EINTR : Z := 4.
Definition MAX_TRIES : nat := 10.

Definition UINT_MAX : Z := 2 ^ 32 - 1.

(** ** Over a memory-mapped file *)
Module Mmap.

Record mysem_t := MkSem { sem_count : Z; sem_magic : Z }.
Definition SEM_MAGIC : Z := 0x67458923.

(** The semaphore and [errno] of the caller. *)
Record st := St { sem : mysem_t; errno : Z }.

Definition set_count (v : Z) (s : st) : st := St (MkSem v (sem_magic (sem s))) (errno s).
Definition set_errno (e : Z) (s : st) : st := St (sem s) e.
Definition closed (s : st) : bool := negb (sem_magic (sem s) =? SEM_MAGIC).

(** The [bool] tells whether the condition variable is signalled. *)
Definition mysem_post (s : st) : st * Z * bool :=
  if closed s then (set_errno EINVAL s, -1, false)
  else (set_count (u32 (sem_count (sem s) + 1)) s, 0, sem_count (sem s) =? 0).

(** The loop of [mysem_wait], entered at first and again after each wake-up. *)
Definition wait_loop (s : st) : st * option Z :=
  if sem_count (sem s) =? 0 then (s, None)
  else (set_count (u32 (sem_count (sem s) - 1)) s, Some 0).

Definition mysem_wait (s : st) : st * option Z :=
  if closed s then (set_errno EINVAL s, Some (-1)) else wait_loop s.

Definition mysem_trywait (s : st) : st * Z :=
  if closed s then (set_errno EINVAL s, -1)
  else if 0 <? sem_count (sem s) then (set_count (u32 (sem_count (sem s) - 1)) s, 0)
  else (set_errno EAGAIN s, -1).

(** The value is stored into an [int]. *)
Definition mysem_getvalue (s : st) : st * Z * option Z :=
  if closed s then (set_errno EINVAL s, -1, None) else (s, 0, Some (i32 (sem_count (sem s)))).

Definition mysem_close (s : st) : st * Z :=
  if closed s then (set_errno EINVAL s, -1) else (s, 0).

(** A semaphore file: the user-execute bit and the mapped structure. *)
Record semfile := SemFile { sf_xusr : bool; sf_sem : mysem_t }.
Abbreviation semfs := (gmap (list Z) semfile).

(** The flags of the call, and how it ends. *)
Record oflags := OFlags { o_creat : bool; o_excl : bool }.
Inductive openres := Opened (s : mysem_t) | Failed (e : Z) | Again.

(** The file whose [sem_magic] the opener sets. *)
Definition mark (fs : semfs) (path : list Z) : semfs :=
  alter (λ f, SemFile (sf_xusr f) (MkSem (sem_count (sf_sem f)) SEM_MAGIC)) path fs.

(** The loop that waits for the initialisation; [stat i] is the user-execute bit the
    [i]-th [stat] sees, [None] if the file is gone. *)
Fixpoint wait_init (n i : nat) (stat : nat → option bool) (fl : oflags) (fs : semfs) (path : list Z) (f : semfile) :
    semfs * openres :=
  match n with
  | O => (fs, Failed ETIMEDOUT)
  | S n =>
    match stat i with
    | None => (fs, if o_creat fl then Again else Failed ENOENT)
    | Some false => (mark fs path, Opened (MkSem (sem_count (sf_sem f)) SEM_MAGIC))
    | Some true => wait_init n (S i) stat fl fs path f
    end
  end.

Definition open_exists (fs : semfs) (path : list Z) (fl : oflags) (stat : nat → option bool) : semfs * openres :=
  match fs !! path with
  | None => (fs, if o_creat fl then Again else Failed ENOENT)
  | Some f => wait_init MAX_TRIES 0 stat fl fs path f
  end.

(** One pass from the label [again]; [value_max] is [sysconf(_SC_SEM_VALUE_MAX)], and
    [fail] the error of a system call of the initialisation that fails.  A file that
    was created and then not initialised is removed. *)
Definition open_again (value_max : Z) (fail : option Z) (fs : semfs) (path : list Z) (fl : oflags) (value : Z) (stat : nat → option bool) :
    semfs * openres :=
  if o_creat fl then
    match fs !! path with
    | Some _ => if o_excl fl then (fs, Failed EEXIST) else open_exists fs path fl stat
    | None =>
      if value_max <? u32 value then (fs, Failed EINVAL)
      else if fail is Some e then (fs, Failed e)
      else (<[path := SemFile false (MkSem (u32 value) SEM_MAGIC)]> fs, Opened (MkSem (u32 value) SEM_MAGIC))
    end
  else open_exists fs path fl stat.

(** [n] bounds how often the file disappears between two system calls. *)
Fixpoint mysem_open (n : nat) (value_max : Z) (fail : option Z) (fs : semfs) (path : list Z) (fl : oflags) (value : Z)
    (stat : nat → nat → option bool) : semfs * option openres :=
  match n with
  | O => (fs, None)
  | S n =>
    match open_again value_max fail fs path fl value (stat n) with
    | (fs, Again) => mysem_open n value_max fail fs path fl value stat
    | (fs, r) => (fs, Some r)
    end
  end.

Definition mysem_unlink (fs : semfs) (path : list Z) : semfs * Z :=
  match fs !! path with Some _ => (delete path fs, 0) | None => (fs, -1) end.

(** *** Threads *)

Inductive tstate := Idle | Waiting | Woken.
Record sys := Sys { shared : mysem_t; threads : gmap nat tstate; posts : Z; waits : Z }.

Definition with_sem (s : sys) : st := St (shared s) 0.

(** One waiting thread is woken if the condition variable is signalled. *)
Inductive wake (ts : gmap nat tstate) : bool → gmap nat tstate → Prop :=
  | wake_no : wake ts false ts
  | wake_one t : ts !! t = Some Waiting → wake ts true (<[t := Woken]> ts)
  | wake_none : (∀ t, ts !! t ≠ Some Waiting) → wake ts true ts.

(** The system after thread [t] has run [mysem_wait] up to a return or a wait. *)
Definition after_wait (s : sys) (t : nat) (x : st * option Z) : sys :=
  Sys (sem x.1) (<[t := if x.2 is None then Waiting else Idle]> (threads s)) (posts s)
    (if x.2 is Some 0 then waits s + 1 else waits s).

Inductive sem_step : sys → sys → Prop :=
  | step_post s t s' g ts' : threads s !! t = Some Idle →
      mysem_post (with_sem s) = (s', 0, g) → wake (threads s) g ts' →
      sem_step s (Sys (sem s') ts' (posts s + 1) (waits s))
  | step_wait s t : threads s !! t = Some Idle → sem_step s (after_wait s t (mysem_wait (with_sem s)))
  | step_trywait s t s' rc : threads s !! t = Some Idle →
      mysem_trywait (with_sem s) = (s', rc) →
      sem_step s (Sys (sem s') (threads s) (posts s) (if rc =? 0 then waits s + 1 else waits s))
  | step_spurious s t : threads s !! t = Some Waiting →
      sem_step s (Sys (shared s) (<[t := Woken]> (threads s)) (posts s) (waits s))
  | step_woken s t : threads s !! t = Some Woken → sem_step s (after_wait s t (wait_loop (with_sem s))).

Definition reachable (s0 s : sys) : Prop := clos_refl_trans_1n _ sem_step s0 s.
End Mmap.

(** ** Over a FIFO *)
Module Fifo.

(** A FIFO: its bytes, and how many semaphores have it open.  A FIFO that nobody has
    open loses its bytes. *)
Record pipe := Pipe { bytes_in : Z; opens : Z }.
(** The open FIFO, which holds at most [cap] bytes, and the magic number. *)
Record st := St { fifo : pipe; cap : Z; sem_magic : Z; errno : Z }.
Definition SEM_MAGIC : Z := 0x89674523.

Definition set_bytes (v : Z) (s : st) : st := St (Pipe v (opens (fifo s))) (cap s) (sem_magic s) (errno s).
Definition set_errno (e : Z) (s : st) : st := St (fifo s) (cap s) (sem_magic s) e.
Definition closed (s : st) : bool := negb (sem_magic s =? SEM_MAGIC).

(** [write] of one byte to the nonblocking end. *)
Definition write1 (s : st) : st * Z :=
  if bytes_in (fifo s) <? cap s then (set_bytes (bytes_in (fifo s) + 1) s, 1) else (set_errno EAGAIN s, -1).
(** [read] of one byte from the blocking end; [None]: it blocks (this process holds the
    write end open). *)
Definition read1 (s : st) : st * option Z :=
  if bytes_in (fifo s) =? 0 then (s, None) else (set_bytes (bytes_in (fifo s) - 1) s, Some 1).

Definition mysem_post (s : st) : st * Z :=
  if closed s then (set_errno EINVAL s, -1)
  else let '(s, n) := write1 s in if n =? 1 then (s, 0) else (s, -1).

Definition mysem_wait (s : st) : st * option Z :=
  if closed s then (set_errno EINVAL s, Some (-1))
  else match read1 s with
       | (s, None) => (s, None)
       | (s, Some n) => (s, Some (if n =? 1 then 0 else -1))
       end.

(** The end of one user of the FIFO. *)
Definition drop_open (p : pipe) : pipe :=
  if opens p =? 1 then Pipe 0 0 else Pipe (bytes_in p) (opens p - 1).

Definition mysem_close (s : st) : st * Z :=
  if closed s then (set_errno EINVAL s, -1) else (St (drop_open (fifo s)) (cap s) 0 (errno s), 0).

Record oflags := OFlags { o_creat : bool; o_excl : bool }.

(** The loop that writes the initial value; [false] if a write fails. *)
Fixpoint init_loop (n : nat) (s : st) : st * bool :=
  match n with
  | O => (s, true)
  | S n => let '(s, r) := write1 s in if r =? 1 then init_loop n s else (s, false)
  end.

(** The FIFOs by name; [c] is the capacity of a FIFO, [fail] the error of a system call
    before the initialisation that fails.  The semaphore is an error number when the
    call fails. *)
Definition mysem_open (c : Z) (fail : option Z) (fs : gmap (list Z) pipe) (path : list Z) (fl : oflags) (value : Z) :
    gmap (list Z) pipe * (st + Z) :=
  match fs !! path with
  | Some p =>
      if o_creat fl && o_excl fl then (fs, inr EEXIST)
      else if fail is Some e then (fs, inr e)
      else let p := Pipe (bytes_in p) (opens p + 1) in (<[path := p]> fs, inl (St p c SEM_MAGIC 0))
  | None =>
      if o_creat fl then
        if fail is Some e then (fs, inr e)
        else match init_loop (Z.to_nat (u32 value)) (St (Pipe 0 1) c 0 0) with
             | (s, true) => (<[path := fifo s]> fs, inl (St (fifo s) c SEM_MAGIC (errno s)))
             | (s, false) => (fs, inr (errno s))
             end
      else (fs, inr ENOENT)
  end.

Definition mysem_unlink (fs : gmap (list Z) pipe) (path : list Z) : gmap (list Z) pipe * Z :=
  match fs !! path with Some _ => (delete path fs, 0) | None => (fs, -1) end.
End Fifo.

(** ** Over a System V semaphore *)
Module Svsem.

Definition SEMVMX : Z := 32767.
Definition SEM_MAGIC : Z := 0x45678923.

(** A kernel semaphore: its value and the time of the last [semop], 0 if none. *)
Record ksem := KSem { semval : Z; sem_otime : Z }.
Record st := St { ks : ksem; sem_magic : Z; errno : Z }.

Definition set_errno (e : Z) (s : st) : st := St (ks s) (sem_magic s) e.
Definition closed (s : st) : bool := negb (sem_magic s =? SEM_MAGIC).

(** [semop] with one operation at time [now]: [None] if it blocks, otherwise the new
    semaphore or the error number. *)
Definition semop (now : Z) (k : ksem) (op : Z) (nowait : bool) : option (ksem + Z) :=
  if 0 <? op then
    if SEMVMX <? semval k + op then Some (inr ERANGE) else Some (inl (KSem (semval k + op) now))
  else if op <? 0 then
    if - op <=? semval k then Some (inl (KSem (semval k + op) now))
    else if nowait then Some (inr EAGAIN) else None
  else if semval k =? 0 then Some (inl (KSem (semval k) now))
  else if nowait then Some (inr EAGAIN) else None.

(** A call that consists of one [semop]. *)
Definition call_semop (now op : Z) (nowait : bool) (s : st) : st * option Z :=
  if closed s then (set_errno EINVAL s, Some (-1))
  else match semop now (ks s) op nowait with
       | None => (s, None)
       | Some (inl k) => (St k (sem_magic s) (errno s), Some 0)
       | Some (inr e) => (set_errno e s, Some (-1))
       end.

Definition mysem_post (now : Z) : st → st * option Z := call_semop now 1 false.
Definition mysem_wait (now : Z) : st → st * option Z := call_semop now (-1) false.
Definition mysem_trywait (now : Z) : st → st * option Z := call_semop now (-1) true.

Definition mysem_getvalue (s : st) : st * Z * option Z :=
  if closed s then (set_errno EINVAL s, -1, None)
  else if semval (ks s) <? 0 then (s, -1, None) else (s, 0, Some (semval (ks s))).

Definition mysem_close (s : st) : st * Z :=
  if closed s then (set_errno EINVAL s, -1) else (St (ks s) 0 (errno s), 0).

(** The semaphores of the system, by the path whose key identifies them; [ftok] is
    taken to give each existing file its own key. *)
Record oflags := OFlags { o_creat : bool; o_excl : bool }.
Record kern := Kern { files : gset (list Z); sems : gmap (list Z) ksem }.

(** The loop that waits for the initialisation; [stat i] is what the [i]-th IPC_STAT
    finds as [sem_otime], [None] if it fails with [EINVAL] because the semaphore is
    gone. *)
Fixpoint wait_init (n i : nat) (stat : nat → option Z) : option Z :=
  match n with
  | O => Some ETIMEDOUT
  | S n =>
    match stat i with
    | None => Some EINVAL
    | Some t => if t =? 0 then wait_init n (S i) stat else None
    end
  end.

(** The code at [err] once [semid] is valid: the semaphore is removed. *)
Definition err (k : kern) (path : list Z) (e : Z) : kern * (st + Z) :=
  (Kern (files k) (delete path (sems k)), inr e).

(** The code at [finish]; [oom] tells whether [malloc] fails. *)
Definition finish (oom : bool) (k : kern) (path : list Z) (s : ksem) : kern * (st + Z) :=
  if oom then err k path ENOMEM else (k, inl (St s SEM_MAGIC 0)).

Definition open_existing (oom : bool) (k : kern) (path : list Z) (stat : nat → option Z) : kern * (st + Z) :=
  match sems k !! path with
  | None => (k, inr ENOENT)
  | Some s =>
    match wait_init MAX_TRIES 0 stat with
    | None => finish oom k path s
    | Some e => err k path e
    end
  end.

Definition mysem_open (oom : bool) (now : Z) (k : kern) (path : list Z) (fl : oflags) (value : Z) (stat : nat → option Z) :
    kern * (st + Z) :=
  if o_creat fl then
    if bool_decide (path ∈ files k) && o_excl fl then (k, inr EEXIST)
    else
      let k := Kern ({[path]} ∪ files k) (sems k) in
      match sems k !! path with
      | Some _ => if o_excl fl then (k, inr EEXIST) else open_existing oom k path stat
      | None =>
        let k := Kern (files k) (<[path := KSem 0 0]> (sems k)) in
        if SEMVMX <? u32 value then err k path EINVAL
        else match semop now (KSem 0 0) (u32 value) false with
             | Some (inl s) => finish oom (Kern (files k) (<[path := s]> (sems k))) path s
             | Some (inr e) => err k path e
             | None => err k path EINTR (* interrupted; [semop] does not block at 0 *)
             end
      end
  else if bool_decide (path ∈ files k) then open_existing oom k path stat
  else (k, inr ENOENT).

Definition mysem_unlink (k : kern) (path : list Z) : kern * Z :=
  if bool_decide (path ∈ files k) then
    match sems k !! path with
    | Some _ => (Kern (files k ∖ {[path]}) (delete path (sems k)), 0)
    | None => (Kern (files k ∖ {[path]}) (sems k), -1)
    end
  else (k, -1).
End Svsem.
