(* ===== verification/SemProps.v ===== *)
(** Properties of the Posix semaphores: the interface that the three implementations
    share and a client proved against it, the value of the memory-mapped semaphore under
    concurrent calls, its lost wake-up, and the branches of opening a System V
    semaphore. *)

From stdpp Require Import base tactics numbers list gmap.
From Stdlib Require Import ZArith Lia Relations.
From S2P Require Import Prelude Cio Threads Sem.

(** ** The interface *)

(** What a counting semaphore promises: a value between 0 and a maximum, [post] that
    increments it below the maximum, and [wait] that decrements it or blocks ([None])
    when it is 0, without a change of the value. *)
Class Semaphore (S : Type) := {
  sem_ok : S → Prop;
  sem_value : S → Z;
  sem_max : S → Z;
  post : S → S * Z;
  wait : S → S * option Z;
  sem_range s : sem_ok s → 0 <= sem_value s <= sem_max s;
  post_ok s : sem_ok s → sem_value s < sem_max s →
    ∃ s', post s = (s', 0) ∧ sem_ok s' ∧ sem_value s' = sem_value s + 1 ∧ sem_max s' = sem_max s;
  wait_ok s : sem_ok s → 0 < sem_value s →
    ∃ s', wait s = (s', Some 0) ∧ sem_ok s' ∧ sem_value s' = sem_value s - 1 ∧ sem_max s' = sem_max s;
  wait_blocks s : sem_ok s → sem_value s = 0 → wait s = (s, None) }.

Definition mmap_ok (s : Mmap.st) : Prop :=
  Mmap.sem_magic (Mmap.sem s) = Mmap.SEM_MAGIC ∧ 0 <= Mmap.sem_count (Mmap.sem s) <= UINT_MAX.

#[export] Program Instance mmap_semaphore : Semaphore Mmap.st := {|
  sem_ok := mmap_ok;
  sem_value s := Mmap.sem_count (Mmap.sem s);
  sem_max _ := UINT_MAX;
  post s := (Mmap.mysem_post s).1;
  wait := Mmap.mysem_wait |}.
Next Obligation. by intros s [_ ?]. Qed.
Next Obligation.
  intros s [Hm Hr] Hlt. unfold Mmap.mysem_post, Mmap.closed. rewrite Hm. simpl. eexists. split; [done|].
  unfold mmap_ok. simpl. unfold UINT_MAX in *. rewrite u32_id by lia. split_and!; try done; lia.
Qed.
Next Obligation.
  intros s [Hm Hr] Hlt. unfold Mmap.mysem_wait, Mmap.wait_loop, Mmap.closed. rewrite Hm. simpl.
  rewrite (proj2 (Z.eqb_neq _ 0)) by lia. eexists. split; [done|].
  unfold mmap_ok. simpl. unfold UINT_MAX in *. rewrite u32_id by lia. split_and!; try done; lia.
Qed.
Next Obligation.
  intros s [Hm Hr] H0. unfold Mmap.mysem_wait, Mmap.wait_loop, Mmap.closed. rewrite Hm. simpl. by rewrite H0.
Qed.

Definition fifo_ok (s : Fifo.st) : Prop :=
  Fifo.sem_magic s = Fifo.SEM_MAGIC ∧ 0 <= Fifo.bytes_in (Fifo.fifo s) <= Fifo.cap s.

#[export] Program Instance fifo_semaphore : Semaphore Fifo.st := {|
  sem_ok := fifo_ok;
  sem_value s := Fifo.bytes_in (Fifo.fifo s);
  sem_max := Fifo.cap;
  post := Fifo.mysem_post;
  wait := Fifo.mysem_wait |}.
Next Obligation. by intros s [_ ?]. Qed.
Next Obligation.
  intros s [Hm Hr] Hlt. unfold Fifo.mysem_post, Fifo.write1, Fifo.closed. rewrite Hm. simpl.
  rewrite (proj2 (Z.ltb_lt _ _) Hlt). simpl. eexists. split; [done|]. unfold fifo_ok. simpl. split_and!; try done; lia.
Qed.
Next Obligation.
  intros s [Hm Hr] Hlt. unfold Fifo.mysem_wait, Fifo.read1, Fifo.closed. rewrite Hm. simpl.
  rewrite (proj2 (Z.eqb_neq _ 0)) by lia. simpl. eexists. split; [done|]. unfold fifo_ok. simpl. split_and!; try done; lia.
Qed.
Next Obligation.
  intros s [Hm Hr] H0. unfold Fifo.mysem_wait, Fifo.read1, Fifo.closed. rewrite Hm. simpl. by rewrite H0.
Qed.

Definition svsem_ok (s : Svsem.st) : Prop :=
  Svsem.sem_magic s = Svsem.SEM_MAGIC ∧ 0 <= Svsem.semval (Svsem.ks s) <= Svsem.SEMVMX.

(** The call of [mysem_post] does not block: its operation is positive. *)
#[export] Program Instance svsem_semaphore (now : Z) : Semaphore Svsem.st := {|
  sem_ok := svsem_ok;
  sem_value s := Svsem.semval (Svsem.ks s);
  sem_max _ := Svsem.SEMVMX;
  post s := let '(s, r) := Svsem.mysem_post now s in (s, default (-1) r);
  wait := Svsem.mysem_wait now |}.
Next Obligation. by intros now s [_ ?]. Qed.
Next Obligation.
  intros now s [Hm Hr] Hlt. unfold Svsem.mysem_post, Svsem.call_semop, Svsem.semop, Svsem.closed. rewrite Hm. simpl.
  rewrite (proj2 (Z.ltb_ge _ _)) by lia. simpl. eexists. split; [done|]. unfold svsem_ok. simpl. split_and!; try done; lia.
Qed.
Next Obligation.
  intros now s [Hm Hr] Hlt. unfold Svsem.mysem_wait, Svsem.call_semop, Svsem.semop, Svsem.closed. rewrite Hm. simpl.
  rewrite (proj2 (Z.leb_le 1 _)) by lia. simpl. eexists. split; [done|].
  unfold svsem_ok. simpl. split_and!; try done; lia.
Qed.
Next Obligation.
  intros now s [Hm Hr] H0. unfold Svsem.mysem_wait, Svsem.call_semop, Svsem.semop, Svsem.closed. rewrite Hm. simpl. by rewrite H0.
Qed.

(** ** A client: a critical section guarded by a semaphore *)

Inductive cstate := Outside | Blocked | Inside.
Definition is_inside (c : cstate) : bool := match c with Inside => true | _ => false end.

Section client.
Context {S : Type} `{!Semaphore S}.

Record csys := CSys { csem : S; cthr : gmap nat cstate }.

(** A thread outside calls [wait]; one that is blocked may try again at any time; one
    that is inside leaves with [post]. *)
Inductive c_step : csys → csys → Prop :=
  | c_enter s t c s' : cthr s !! t = Some c → c ≠ Inside → wait (csem s) = (s', Some 0) →
      c_step s (CSys s' (<[t := Inside]> (cthr s)))
  | c_block s t c s' : cthr s !! t = Some c → c ≠ Inside → wait (csem s) = (s', None) →
      c_step s (CSys s' (<[t := Blocked]> (cthr s)))
  | c_leave s t s' rc : cthr s !! t = Some Inside → post (csem s) = (s', rc) →
      c_step s (CSys s' (<[t := Outside]> (cthr s))).

(** The value and the threads inside make up the initial value [v]. *)
Definition c_inv (v : Z) (s : csys) : Prop :=
  sem_ok (csem s) ∧ v <= sem_max (csem s) ∧ tcount is_inside (cthr s) + sem_value (csem s) = v.

Lemma c_inv_step v s s' : c_inv v s → c_step s s' → c_inv v s'.
Proof.
  intros (Hok & Hmax & Hv) Hst. unfold c_inv. pose proof (sem_range _ Hok) as Hr.
  destruct Hst as [s t c s' Ht Hc Hw|s t c s' Ht Hc Hw|s t s' rc Ht Hp]; cbn [csem cthr];
    rewrite (tcount_insert is_inside _ _ _ _ Ht).
  - destruct (decide (sem_value (csem s) = 0)) as [H0|H0]; [rewrite wait_blocks in Hw by done; congruence|].
    destruct (wait_ok (csem s)) as (s1 & E & Hok1 & Hv1 & Hm1); [done|lia|]. rewrite E in Hw. injection Hw as <-.
    destruct c; simpl in *; split_and!; done || lia.
  - destruct (decide (sem_value (csem s) = 0)) as [H0|H0];
      [|destruct (wait_ok (csem s)) as (? & ? & _); [done|lia|congruence]].
    rewrite wait_blocks in Hw by done. injection Hw as <-. destruct c; simpl in *; split_and!; done || lia.
  - pose proof (tcount_pos is_inside _ _ _ Ht eq_refl).
    destruct (post_ok (csem s)) as (s1 & E & Hok1 & Hv1 & Hm1); [done|lia|]. rewrite E in Hp. injection Hp as <- _.
    simpl in *; split_and!; done || lia.
Qed.

Lemma c_inv_reachable v s s' : c_inv v s → clos_refl_trans_1n _ c_step s s' → c_inv v s'.
Proof. intros Hi. induction 1; [done|]. eauto using c_inv_step. Qed.

(** The first blocked thread can always enter when the value is positive, and a thread
    inside can always leave. *)
Lemma c_progress v s t : c_inv v s →
  (cthr s !! t = Some Inside → ∃ s', post (csem s) = (s', 0) ∧ sem_value s' = sem_value (csem s) + 1) ∧
  (tcount is_inside (cthr s) < v → ∃ s', wait (csem s) = (s', Some 0)).
Proof.
  intros (Hok & Hmax & Hv). split.
  - intros Ht. pose proof (tcount_pos is_inside _ _ _ Ht eq_refl). pose proof (sem_range _ Hok).
    destruct (post_ok (csem s)) as (s1 & E & _ & Hv1 & _); [done|lia|]. by exists s1.
  - intros Hlt. destruct (wait_ok (csem s)) as (s1 & E & _); [done|lia|]. by exists s1.
Qed.
End client.
Arguments csys : clear implicits.

(** A critical section guarded by semaphore [s0] of value [sem_value s0] never holds
    more threads than that; a thread inside can leave, and while there is room a thread
    that calls [wait] enters. *)
Definition guards_section (S : Type) `{!Semaphore S} : Prop :=
  ∀ (s0 : S) ts0 s, sem_ok s0 → tcount is_inside ts0 = 0 →
  clos_refl_trans_1n _ c_step (CSys s0 ts0) s →
  tcount is_inside (cthr s) <= sem_value s0 ∧
  tcount is_inside (cthr s) = sem_value s0 - sem_value (csem s) ∧
  (∀ t, cthr s !! t = Some Inside → ∃ s', post (csem s) = (s', 0) ∧ sem_value s' = sem_value (csem s) + 1) ∧
  (tcount is_inside (cthr s) < sem_value s0 → ∃ s', wait (csem s) = (s', Some 0)).

Lemma guards_section_holds S `{!Semaphore S} : guards_section S.
Proof.
  intros s0 ts0 s Hok H0 Hs.
  assert (c_inv (sem_value s0) s) as Hi.
  { eapply c_inv_reachable; [|done]. unfold c_inv. cbn [csem cthr]. pose proof (sem_range _ Hok). split_and!; done || lia. }
  pose proof Hi as (Hok' & _ & Hv). pose proof (sem_range _ Hok').
  split_and!; [lia|lia| |].
  - intros t. by apply (c_progress _ _ t Hi).
  - by apply (c_progress _ _ 0%nat Hi).
Qed.


Definition ex_outside : gmap nat cstate := <[0%nat := Outside]> {[1%nat := Outside]}.
Definition ex_inside : gmap nat cstate := <[0%nat := Inside]> ex_outside.
Definition ex_fifo (v : Z) : Fifo.st := Fifo.St (Fifo.Pipe v 1) 4096 Fifo.SEM_MAGIC 0.


(** ** The memory-mapped semaphore under concurrent calls *)

(** The count is the initial value and the completed calls, modulo 2^32; exactly so
    while the posts do not exceed the range of the counter. *)
Definition mm_inv (v : Z) (s : Mmap.sys) : Prop :=
  Mmap.sem_magic (Mmap.shared s) = Mmap.SEM_MAGIC ∧
  0 <= Mmap.sem_count (Mmap.shared s) <= UINT_MAX ∧
  Mmap.sem_count (Mmap.shared s) = u32 (v + Mmap.posts s - Mmap.waits s) ∧
  (v + Mmap.posts s <= UINT_MAX → Mmap.sem_count (Mmap.shared s) = v + Mmap.posts s - Mmap.waits s) ∧
  0 <= Mmap.waits s.

Lemma u32_step c x y d : c = u32 (x - y) → u32 (c + d) = u32 (x - y + d).
Proof. intros ->. unfold u32. by rewrite Zplus_mod_idemp_l. Qed.

(** A successful post and a successful wait. *)
Lemma mm_inv_post v s ts : mm_inv v s → mm_inv v
  (Mmap.Sys (Mmap.MkSem (u32 (Mmap.sem_count (Mmap.shared s) + 1)) (Mmap.sem_magic (Mmap.shared s))) ts
    (Mmap.posts s + 1) (Mmap.waits s)).
Proof.
  intros (Hm & Hr & Hu & He & Hn). unfold mm_inv. cbn [Mmap.sem_magic Mmap.sem_count Mmap.shared Mmap.posts Mmap.waits].
  pose proof (u32_range (Mmap.sem_count (Mmap.shared s) + 1)). unfold UINT_MAX in *. split_and!; try done; try lia.
  - rewrite (u32_step _ _ _ _ Hu). f_equal. lia.
  - intros Hb. rewrite He by lia. rewrite u32_id; lia.
Qed.

Lemma mm_inv_wait v s ts : Mmap.sem_count (Mmap.shared s) ≠ 0 → mm_inv v s → mm_inv v
  (Mmap.Sys (Mmap.MkSem (u32 (Mmap.sem_count (Mmap.shared s) - 1)) (Mmap.sem_magic (Mmap.shared s))) ts
    (Mmap.posts s) (Mmap.waits s + 1)).
Proof.
  intros H0 (Hm & Hr & Hu & He & Hn). unfold mm_inv. cbn [Mmap.sem_magic Mmap.sem_count Mmap.shared Mmap.posts Mmap.waits].
  unfold UINT_MAX in *. rewrite (u32_id (_ - 1)) by lia. split_and!; try done; try lia.
  rewrite <- (u32_id (_ - 1)) by lia. rewrite <- Z.add_opp_r, (u32_step _ _ _ _ Hu). f_equal. lia.
Qed.

Lemma mm_inv_same v s ts : mm_inv v s → mm_inv v (Mmap.Sys (Mmap.shared s) ts (Mmap.posts s) (Mmap.waits s)).
Proof. done. Qed.

Lemma mm_inv_loop v s t : mm_inv v s → mm_inv v (Mmap.after_wait s t (Mmap.wait_loop (Mmap.with_sem s))).
Proof.
  intros Hi. unfold Mmap.after_wait, Mmap.wait_loop, Mmap.with_sem. cbn [Mmap.sem].
  destruct (Z.eqb_spec (Mmap.sem_count (Mmap.shared s)) 0) as [E|E]; [by apply mm_inv_same|by apply mm_inv_wait].
Qed.

Lemma mm_open v s : mm_inv v s → Mmap.closed (Mmap.with_sem s) = false.
Proof. intros [Hm _]. unfold Mmap.closed, Mmap.with_sem. cbn [Mmap.sem]. by rewrite Hm. Qed.

Lemma mm_inv_step v s s' : mm_inv v s → Mmap.sem_step s s' → mm_inv v s'.
Proof.
  intros Hi Hst. pose proof (mm_open _ _ Hi) as Ho.
  destruct Hst as [s t s' g ts' Ht E Hw|s t Ht|s t s' rc Ht E|s t Ht|s t Ht].
  - unfold Mmap.mysem_post in E. rewrite Ho in E. injection E as <- _. by apply mm_inv_post.
  - unfold Mmap.mysem_wait. rewrite Ho. by apply mm_inv_loop.
  - unfold Mmap.mysem_trywait in E. rewrite Ho in E.
    destruct (Z.ltb_spec 0 (Mmap.sem_count (Mmap.sem (Mmap.with_sem s)))) as [E0|E0]; injection E as <- <-.
    + apply (mm_inv_wait v s (Mmap.threads s)); [cbn in E0; lia|done].
    + by apply mm_inv_same.
  - by apply mm_inv_same.
  - by apply mm_inv_loop.
Qed.

(** Under any interleaving of [mysem_post], [mysem_wait] and [mysem_trywait] by any
    number of threads, spurious wake-ups included, the count of the
    memory-mapped semaphore is its initial value plus the completed posts minus the
    completed waits, and never negative, as long as initial value and posts stay within
    an [unsigned int]; beyond that it is that number modulo 2^32. *)
Theorem mmap_count_correct v s0 s :
  0 <= v <= UINT_MAX → Mmap.shared s0 = Mmap.MkSem v Mmap.SEM_MAGIC → Mmap.posts s0 = 0 → Mmap.waits s0 = 0 →
  Mmap.reachable s0 s →
  let c := Mmap.sem_count (Mmap.shared s) in
  c = u32 (v + Mmap.posts s - Mmap.waits s) ∧
  (v + Mmap.posts s <= UINT_MAX → c = v + Mmap.posts s - Mmap.waits s ∧ Mmap.waits s <= v + Mmap.posts s).
Proof.
  intros Hv Hs Hp Hw Hr. assert (mm_inv v s) as (_ & Hr' & Hu & He & _).
  { assert (mm_inv v s0) as Hi.
    { unfold mm_inv. rewrite Hs, Hp, Hw. cbn [Mmap.sem_magic Mmap.sem_count]. unfold UINT_MAX in *.
      replace (v + 0 - 0) with v by lia. rewrite u32_id by lia. split_and!; done || lia. }
    clear -Hi Hr. induction Hr; eauto using mm_inv_step. }
  split; [done|]. intros Hb. rewrite <- He by done. split; [done|]. specialize (He Hb). lia.
Qed.

(** Two threads wait, a third posts twice, and the thread that was woken returns. *)
Definition ex_thr (a b : Mmap.tstate) : gmap nat Mmap.tstate := <[0%nat := a]> (<[1%nat := b]> {[2%nat := Mmap.Idle]}).
Definition ex_mm (c p w : Z) (a b : Mmap.tstate) : Mmap.sys :=
  Mmap.Sys (Mmap.MkSem c Mmap.SEM_MAGIC) (ex_thr a b) p w.
Definition ex_mm0 : Mmap.sys := ex_mm 0 0 0 Mmap.Idle Mmap.Idle.
Definition ex_mm5 : Mmap.sys := ex_mm 1 2 1 Mmap.Idle Mmap.Waiting.

Lemma ex_mm_reachable : Mmap.reachable ex_mm0 ex_mm5.
Proof.
  unfold Mmap.reachable.
  eapply (rt_snoc _ _ (ex_mm 2 2 0 Mmap.Woken Mmap.Waiting));
    [|exact (Mmap.step_woken (ex_mm 2 2 0 Mmap.Woken Mmap.Waiting) 0 eq_refl)].
  eapply (rt_snoc _ _ (ex_mm 1 1 0 Mmap.Woken Mmap.Waiting));
    [|exact (Mmap.step_post (ex_mm 1 1 0 Mmap.Woken Mmap.Waiting) 2 _ _ _ eq_refl eq_refl (Mmap.wake_no _))].
  eapply (rt_snoc _ _ (ex_mm 0 0 0 Mmap.Waiting Mmap.Waiting));
    [|exact (Mmap.step_post (ex_mm 0 0 0 Mmap.Waiting Mmap.Waiting) 2 _ _ _ eq_refl eq_refl (Mmap.wake_one (ex_thr Mmap.Waiting Mmap.Waiting) 0 eq_refl))].
  eapply (rt_snoc _ _ (ex_mm 0 0 0 Mmap.Waiting Mmap.Idle));
    [|exact (Mmap.step_wait (ex_mm 0 0 0 Mmap.Waiting Mmap.Idle) 1 eq_refl)].
  eapply (rt_snoc _ _ ex_mm0); [apply Relation_Operators.rt1n_refl|exact (Mmap.step_wait ex_mm0 0 eq_refl)].
Qed.

Lemma mmap_count_correct_witness : Mmap.sem_count (Mmap.shared ex_mm5) = 0 + Mmap.posts ex_mm5 - Mmap.waits ex_mm5.
Proof.
  destruct (mmap_count_correct 0 ex_mm0 ex_mm5) as [_ H];
    [by unfold UINT_MAX|reflexivity|reflexivity|reflexivity|apply ex_mm_reachable|].
  apply H. by unfold UINT_MAX.
Defined.

(** [mysem_post] of the memory-mapped semaphore can lose a wake-up, because it
    signals only when the count is 0: two threads wait, two posts follow before the
    woken thread runs, and then the count is 1 while the second thread still waits and
    no thread is about to wake it. *)
Theorem mmap_lost_wakeup :
  Mmap.reachable ex_mm0 ex_mm5 ∧ Mmap.sem_count (Mmap.shared ex_mm5) = 1 ∧
  Mmap.threads ex_mm5 !! 1%nat = Some Mmap.Waiting ∧
  (∀ t st, Mmap.threads ex_mm5 !! t = Some st → t ≠ 1%nat → st = Mmap.Idle).
Proof.
  split; [apply ex_mm_reachable|]. split_and!; try reflexivity.
  intros t st. unfold ex_mm5, ex_mm, ex_thr. cbn [Mmap.threads].
  rewrite !lookup_insert_Some, lookup_singleton_Some. naive_solver.
Qed.

(** ** Opening a System V semaphore *)

Lemma wait_init_ok n i stat j t :
  (∀ k, (k < j)%nat → stat (i + k)%nat = Some 0) → stat (i + j)%nat = Some t → t ≠ 0 → (j < n)%nat →
  Svsem.wait_init n i stat = None.
Proof.
  revert i j. induction n as [|n IH]; intros i j H0 Hj Ht Hn; [lia|]. simpl. destruct j as [|j].
  - rewrite Nat.add_0_r in Hj. by rewrite Hj, (proj2 (Z.eqb_neq _ _) Ht).
  - pose proof (H0 0%nat ltac:(lia)) as E. rewrite Nat.add_0_r in E. rewrite E. simpl. apply (IH (S i) j); [| |done|lia].
    + intros k Hk. rewrite <- (H0 (S k)) by lia. f_equal. lia.
    + rewrite <- Hj. f_equal. lia.
Qed.

Lemma wait_init_timeout n i stat :
  (∀ k, (k < n)%nat → stat (i + k)%nat = Some 0) → Svsem.wait_init n i stat = Some ETIMEDOUT.
Proof.
  revert i. induction n as [|n IH]; intros i H0; [done|]. simpl.
  pose proof (H0 0%nat ltac:(lia)) as E. rewrite Nat.add_0_r in E. rewrite E. simpl. apply IH.
  intros k Hk. rewrite <- (H0 (S k)) by lia. f_equal. lia.
Qed.

Lemma open_existing_correct k path stat s :
  Svsem.sems k !! path = Some s →
  (∀ j t, (∀ i, (i < j)%nat → stat i = Some 0) → stat j = Some t → t ≠ 0 → (j < MAX_TRIES)%nat →
    Svsem.open_existing false k path stat = (k, inl (Svsem.St s Svsem.SEM_MAGIC 0))) ∧
  ((∀ i, (i < MAX_TRIES)%nat → stat i = Some 0) →
    Svsem.open_existing false k path stat = (Svsem.Kern (Svsem.files k) (delete path (Svsem.sems k)), inr ETIMEDOUT)).
Proof.
  intros Hs. unfold Svsem.open_existing. rewrite Hs. split.
  - intros j t H1 H2 H3 H4. by rewrite (wait_init_ok _ 0 _ j t).
  - intros H1. by rewrite wait_init_timeout.
Qed.

(** Opening a System V semaphore: with O_CREAT, a new one gets the value and a
    time of last operation, and values above SEMVMX give EINVAL and leave no semaphore;
    one that exists is opened unchanged as soon as one of 10 tests finds it initialised;
    but if none does, the call fails with ETIMEDOUT and removes the semaphore, though
    another process created it and may be about to use it. *)
Theorem svsem_open_correct now k path fl value stat :
  0 <= value <= UINT_MAX → now ≠ 0 →
  let r := Svsem.mysem_open false now k path fl value stat in
  (Svsem.o_creat fl = true → path ∉ Svsem.files k → Svsem.sems k !! path = None →
   path ∈ Svsem.files r.1 ∧
   if value <=? Svsem.SEMVMX then
     let s := Svsem.KSem value now in Svsem.sems r.1 = <[path := s]> (Svsem.sems k) ∧ r.2 = inl (Svsem.St s Svsem.SEM_MAGIC 0)
   else Svsem.sems r.1 = Svsem.sems k ∧ r.2 = inr EINVAL) ∧
  (∀ s, Svsem.o_excl fl = false → path ∈ Svsem.files k → Svsem.sems k !! path = Some s →
   (∀ j t, (∀ i, (i < j)%nat → stat i = Some 0) → stat j = Some t → t ≠ 0 → (j < MAX_TRIES)%nat →
    Svsem.sems r.1 = Svsem.sems k ∧ r.2 = inl (Svsem.St s Svsem.SEM_MAGIC 0)) ∧
   ((∀ i, (i < MAX_TRIES)%nat → stat i = Some 0) →
    Svsem.sems r.1 = delete path (Svsem.sems k) ∧ r.2 = inr ETIMEDOUT)).
Proof.
  intros Hv Hnow. cbv zeta. unfold Svsem.mysem_open. split.
  - intros Hc Hf Hs. rewrite Hc, (bool_decide_eq_false_2 _ Hf). cbn [andb Svsem.sems Svsem.files]. rewrite Hs.
    unfold UINT_MAX in Hv. rewrite u32_id by lia.
    destruct (Z.leb_spec value Svsem.SEMVMX) as [H|H].
    + rewrite (proj2 (Z.ltb_ge _ _) H). unfold Svsem.semop, Svsem.finish. cbn [Svsem.semval].
      rewrite Z.add_0_l, (proj2 (Z.ltb_ge _ _) H). rewrite (proj2 (Z.ltb_ge value 0)) by lia.
      destruct (Z.ltb_spec 0 value) as [H0|H0]; cbn; rewrite insert_insert_eq.
      * split_and!; [set_solver|done|done].
      * replace value with 0 by lia. split_and!; [set_solver|done|done].
    + rewrite (proj2 (Z.ltb_lt _ _) H). cbn. rewrite delete_insert_eq, delete_id by done. split_and!; [set_solver|done|done].
  - intros s He Hf Hs.
    rewrite (bool_decide_eq_true_2 _ Hf), He. cbn [andb Svsem.sems Svsem.files]. rewrite Hs.
    destruct (Svsem.o_creat fl);
      [destruct (open_existing_correct (Svsem.Kern ({[path]} ∪ Svsem.files k) (Svsem.sems k)) path stat s Hs) as [H1 H2]
      |destruct (open_existing_correct k path stat s Hs) as [H1 H2]].
    all: split; [intros j t ????; by rewrite (H1 j t)|intros H; by rewrite (H2 H)].
Qed.

Lemma svsem_open_correct_witness :
  let k := Svsem.Kern {[[47]]} {[[47] := Svsem.KSem 0 0]} in
  let r := Svsem.mysem_open false 1 k [47] (Svsem.OFlags true false) 3 (λ _, Some 0) in
  Svsem.sems r.1 = ∅ ∧ r.2 = inr ETIMEDOUT.
Proof.
  intros k r.
  destruct (svsem_open_correct 1 k [47] (Svsem.OFlags true false) 3 (λ _, Some 0)) as [_ H];
    [by unfold UINT_MAX|done|].
  destruct (H (Svsem.KSem 0 0)) as [_ H2]; [done|unfold k; cbn [Svsem.files]; set_solver|done|].
  destruct (H2 (λ _ _, eq_refl)) as [E1 E2]. split; [|exact E2]. refine (eq_trans E1 _). reflexivity.
Defined.
