(* ===== verification/Rio.v ===== *)
(** Robust input and output on a descriptor whose reads and writes may be short or
    interrupted: the Rio package (csapp/code/src/csapp.c), [readn]/[writen]/[readline] of
    unpv13e/lib, [readn]/[writen] of apue.3e/lib, and [readn]/[writen]/[readLine] and
    [readLineBuf] of tlpi-dist/sockets.

    A descriptor holds the bytes still to be read, the bytes written, and a schedule: what
    the next system calls do.  A call with an empty schedule transfers all it can.  Loops
    take fuel, [None] being its exhaustion; the length of the schedule bounds how often
    a loop can make no progress, from which the fuel is computed. *)

From stdpp Require Import base tactics numbers list.
From Stdlib Require Import ZArith Lia.
From S2P Require Import Prelude.

(** One system call: it transfers at most so many bytes, is interrupted, or fails. *)
Inductive event := Part (k : nat) | Intr | Err (e : Z).
Definition EINTR : Z := 4.

Record io := Io { rest : list Z; out : list Z; sched : list event; errno : Z }.

Definition fail (s : io) (e : Z) (q : list event) : io := Io (rest s) (out s) q e.

(** [read]: the bytes, none at the end of the file; [None] stands for -1.  A read
    before the end of the file gets at least one byte. *)
Definition read (s : io) (n : nat) : io * option (list Z) :=
  let get k q := (Io (drop k (rest s)) (out s) q (errno s), Some (take k (rest s))) in
  match sched s with
  | [] => get n []
  | Part k :: q => get (Nat.min n (Nat.max 1 k)) q
  | Intr :: q => (fail s EINTR q, None)
  | Err e :: q => (fail s e q, None)
  end.

(** [write]: how many bytes were written; [None] stands for -1. *)
Definition write (s : io) (data : list Z) : io * option nat :=
  let put k q := (Io (rest s) (out s ++ take k data) q (errno s), Some (Nat.min k (length data))) in
  match sched s with
  | [] => put (length data) []
  | Part k :: q => put k q
  | Intr :: q => (fail s EINTR q, None)
  | Err e :: q => (fail s e q, None)
  end.

(** ** Unbuffered *)

(** The loop of [rio_readn]; [acc] are the bytes stored so far.  The result is the bytes
    stored and the value returned. *)
Fixpoint rio_readn_loop (fuel : nat) (s : io) (n nleft : nat) (acc : list Z) : option (io * list Z * Z) :=
  match fuel with
  | O => None
  | S fuel =>
    if (0 <? nleft)%nat then
      match read s nleft with
      | (s, None) => if errno s =? EINTR then rio_readn_loop fuel s n nleft acc else Some (s, acc, -1)
      | (s, Some []) => Some (s, acc, Z.of_nat (n - nleft))
      | (s, Some b) => rio_readn_loop fuel s n (nleft - length b) (acc ++ b)
      end
    else Some (s, acc, Z.of_nat (n - nleft))
  end.
Definition rio_readn (s : io) (n : nat) : option (io * list Z * Z) :=
  rio_readn_loop (length (sched s) + 2) s n n [].

(** The loop of [rio_writen]: [errno] is also consulted when [write] returns 0. *)
Fixpoint rio_writen_loop (fuel : nat) (s : io) (n : nat) (bufp : list Z) : option (io * Z) :=
  match fuel with
  | O => None
  | S fuel =>
    if (0 <? length bufp)%nat then
      match write s bufp with
      | (s, None) | (s, Some O) => if errno s =? EINTR then rio_writen_loop fuel s n bufp else Some (s, -1)
      | (s, Some k) => rio_writen_loop fuel s n (drop k bufp)
      end
    else Some (s, Z.of_nat n)
  end.
Definition rio_writen (s : io) (usrbuf : list Z) : option (io * Z) :=
  rio_writen_loop (length (sched s) + 2) s (length usrbuf) usrbuf.

(** ** Buffered: the Rio package *)

Definition RIO_BUFSIZE : nat := Z.to_nat 8192.
Record rio_t := Rio { rio_fd : io; rio_cnt : Z; rio_bufptr : nat; rio_buf : list Z }.

(** The bytes [b] stored at the start of the buffer. *)
Definition store (b buf : list Z) : list Z := b ++ drop (length b) buf.

(** The loop that refills the buffer: [inl] if it is not empty, [inr] the value
    returned. *)
Fixpoint rio_refill (fuel : nat) (rp : rio_t) : option (rio_t * option Z) :=
  match fuel with
  | O => None
  | S fuel =>
    if rio_cnt rp <=? 0 then
      match read (rio_fd rp) RIO_BUFSIZE with
      | (s, None) =>
          let rp := Rio s (-1) (rio_bufptr rp) (rio_buf rp) in
          if errno s =? EINTR then rio_refill fuel rp else Some (rp, Some (-1))
      | (s, Some []) => Some (Rio s 0 (rio_bufptr rp) (rio_buf rp), Some 0)
      | (s, Some b) => rio_refill fuel (Rio s (Z.of_nat (length b)) 0 (store b (rio_buf rp)))
      end
    else Some (rp, None)
  end.

(** The bytes stored in [usrbuf] and the value returned. *)
Definition rio_read (rp : rio_t) (n : nat) : option (rio_t * list Z * Z) :=
  match rio_refill (length (sched (rio_fd rp)) + 2) rp with
  | None => None
  | Some (rp, Some rc) => Some (rp, [], rc)
  | Some (rp, None) =>
      let cnt := if (Z.to_nat (rio_cnt rp) <? n)%nat then Z.to_nat (rio_cnt rp) else n in
      Some (Rio (rio_fd rp) (rio_cnt rp - Z.of_nat cnt) (rio_bufptr rp + cnt) (rio_buf rp),
            take cnt (drop (rio_bufptr rp) (rio_buf rp)), Z.of_nat cnt)
  end.

(** [garbage] is what the buffer holds before its first use. *)
Definition rio_readinitb (garbage : list Z) (s : io) : rio_t := Rio s 0 0 garbage.

Fixpoint rio_readnb_loop (fuel : nat) (rp : rio_t) (n nleft : nat) (acc : list Z) : option (rio_t * list Z * Z) :=
  match fuel with
  | O => None
  | S fuel =>
    if (0 <? nleft)%nat then
      match rio_read rp nleft with
      | None => None
      | Some (rp, b, nread) =>
        if nread <? 0 then
          if errno (rio_fd rp) =? EINTR then rio_readnb_loop fuel rp n nleft acc else Some (rp, acc, -1)
        else if nread =? 0 then Some (rp, acc, Z.of_nat (n - nleft))
        else rio_readnb_loop fuel rp n (nleft - Z.to_nat nread) (acc ++ b)
      end
    else Some (rp, acc, Z.of_nat (n - nleft))
  end.
Definition rio_readnb (rp : rio_t) (n : nat) : option (rio_t * list Z * Z) :=
  rio_readnb_loop (length (sched (rio_fd rp)) + n + 2) rp n n [].

(** The loop of [rio_readlineb]: [k] iterations are left, of the counter [n].  The result
    is the line with its terminating 0, if one was stored, and the value returned. *)
Fixpoint rio_readlineb_loop (k : nat) (rp : rio_t) (n : nat) (acc : list Z) : option (rio_t * list Z * Z) :=
  match k with
  | O => Some (rp, acc ++ [0], Z.of_nat n)
  | S k =>
    match rio_read rp 1 with
    | None => None
    | Some (rp, b, rc) =>
      if rc =? 1 then
        if default 0 (head b) =? 10 then Some (rp, acc ++ b ++ [0], Z.of_nat n)
        else rio_readlineb_loop k rp (S n) (acc ++ b)
      else if rc =? 0 then
        if (n =? 1)%nat then Some (rp, acc, 0) else Some (rp, acc ++ [0], Z.of_nat n)
      else Some (rp, acc, -1)
    end
  end.
Definition rio_readlineb (rp : rio_t) (maxlen : nat) : option (rio_t * list Z * Z) :=
  rio_readlineb_loop (maxlen - 1) rp 1 [].

(** ** unpv13e/lib *)
Module Unp.

Fixpoint readn_loop (fuel : nat) (s : io) (n nleft : nat) (acc : list Z) : option (io * list Z * Z) :=
  match fuel with
  | O => None
  | S fuel =>
    if (0 <? nleft)%nat then
      match read s nleft with
      | (s, None) => if errno s =? EINTR then readn_loop fuel s n nleft acc else Some (s, acc, -1)
      | (s, Some []) => Some (s, acc, Z.of_nat (n - nleft))
      | (s, Some b) => readn_loop fuel s n (nleft - length b) (acc ++ b)
      end
    else Some (s, acc, Z.of_nat (n - nleft))
  end.
Definition readn (s : io) (n : nat) : option (io * list Z * Z) := readn_loop (length (sched s) + 2) s n n [].

Fixpoint writen_loop (fuel : nat) (s : io) (n : nat) (ptr : list Z) : option (io * Z) :=
  match fuel with
  | O => None
  | S fuel =>
    if (0 <? length ptr)%nat then
      match write s ptr with
      | (s, None) => if errno s =? EINTR then writen_loop fuel s n ptr else Some (s, -1)
      | (s, Some O) => Some (s, -1)
      | (s, Some k) => writen_loop fuel s n (drop k ptr)
      end
    else Some (s, Z.of_nat n)
  end.
Definition writen (s : io) (vptr : list Z) : option (io * Z) := writen_loop (length (sched s) + 2) s (length vptr) vptr.

(** The static buffer of readline.c and the descriptor. *)
Definition MAXLINE : nat := Z.to_nat 4096.
Record rl := Rl { fd : io; read_cnt : Z; read_ptr : nat; read_buf : list Z }.

(** The code from the label [again]: [None] for the value means that the buffer is
    filled. *)
Fixpoint my_read_again (fuel : nat) (r : rl) : option (rl * option Z) :=
  match fuel with
  | O => None
  | S fuel =>
    match read (fd r) MAXLINE with
    | (s, None) =>
        let r := Rl s (-1) (read_ptr r) (read_buf r) in
        if errno s =? EINTR then my_read_again fuel r else Some (r, Some (-1))
    | (s, Some []) => Some (Rl s 0 (read_ptr r) (read_buf r), Some 0)
    | (s, Some b) => Some (Rl s (Z.of_nat (length b)) 0 (store b (read_buf r)), None)
    end
  end.

(** The byte and the value returned. *)
Definition my_read (r : rl) : option (rl * Z * Z) :=
  match (if read_cnt r <=? 0 then my_read_again (length (sched (fd r)) + 1) r else Some (r, None)) with
  | None => None
  | Some (r, Some rc) => Some (r, 0, rc)
  | Some (r, None) =>
      Some (Rl (fd r) (read_cnt r - 1) (read_ptr r + 1) (read_buf r), default 0 (read_buf r !! read_ptr r), 1)
  end.

Fixpoint readline_loop (k : nat) (r : rl) (n : nat) (acc : list Z) : option (rl * list Z * Z) :=
  match k with
  | O => Some (r, acc ++ [0], Z.of_nat n)
  | S k =>
    match my_read r with
    | None => None
    | Some (r, c, rc) =>
      if rc =? 1 then
        if c =? 10 then Some (r, acc ++ [c; 0], Z.of_nat n) else readline_loop k r (S n) (acc ++ [c])
      else if rc =? 0 then Some (r, acc ++ [0], Z.of_nat (n - 1))
      else Some (r, acc, -1)
    end
  end.
Definition readline (r : rl) (maxlen : nat) : option (rl * list Z * Z) := readline_loop (maxlen - 1) r 1 [].
End Unp.

(** ** apue.3e/lib *)
Module Apue.

(** An error after some bytes ends the loop. *)
Fixpoint readn_loop (fuel : nat) (s : io) (n nleft : nat) (acc : list Z) : option (io * list Z * Z) :=
  match fuel with
  | O => None
  | S fuel =>
    if (0 <? nleft)%nat then
      match read s nleft with
      | (s, None) => if (nleft =? n)%nat then Some (s, acc, -1) else Some (s, acc, Z.of_nat (n - nleft))
      | (s, Some []) => Some (s, acc, Z.of_nat (n - nleft))
      | (s, Some b) => readn_loop fuel s n (nleft - length b) (acc ++ b)
      end
    else Some (s, acc, Z.of_nat (n - nleft))
  end.
Definition readn (s : io) (n : nat) : option (io * list Z * Z) := readn_loop (length (sched s) + 2) s n n [].

Fixpoint writen_loop (fuel : nat) (s : io) (n : nat) (ptr : list Z) : option (io * Z) :=
  match fuel with
  | O => None
  | S fuel =>
    if (0 <? length ptr)%nat then
      match write s ptr with
      | (s, None) => if (length ptr =? n)%nat then Some (s, -1) else Some (s, Z.of_nat (n - length ptr))
      | (s, Some O) => Some (s, Z.of_nat (n - length ptr))
      | (s, Some k) => writen_loop fuel s n (drop k ptr)
      end
    else Some (s, Z.of_nat (n - length ptr))
  end.
Definition writen (s : io) (ptr : list Z) : option (io * Z) := writen_loop (length (sched s) + 2) s (length ptr) ptr.
End Apue.

(** ** tlpi-dist/sockets *)
Module Tlpi.

Fixpoint readn_loop (fuel : nat) (s : io) (n totRead : nat) (acc : list Z) : option (io * list Z * Z) :=
  match fuel with
  | O => None
  | S fuel =>
    if (totRead <? n)%nat then
      match read s (n - totRead) with
      | (s, Some []) => Some (s, acc, Z.of_nat totRead)
      | (s, None) => if errno s =? EINTR then readn_loop fuel s n totRead acc else Some (s, acc, -1)
      | (s, Some b) => readn_loop fuel s n (totRead + length b) (acc ++ b)
      end
    else Some (s, acc, Z.of_nat totRead)
  end.
Definition readn (s : io) (n : nat) : option (io * list Z * Z) := readn_loop (length (sched s) + 2) s n 0 [].

Fixpoint writen_loop (fuel : nat) (s : io) (buf : list Z) (totWritten : nat) : option (io * Z) :=
  match fuel with
  | O => None
  | S fuel =>
    if (totWritten <? length buf)%nat then
      match write s (drop totWritten buf) with
      | (s, None) => if errno s =? EINTR then writen_loop fuel s buf totWritten else Some (s, -1)
      | (s, Some O) => Some (s, -1)
      | (s, Some k) => writen_loop fuel s buf (totWritten + k)
      end
    else Some (s, Z.of_nat totWritten)
  end.
Definition writen (s : io) (buffer : list Z) : option (io * Z) := writen_loop (length (sched s) + 2) s buffer 0.

(** One byte at a time; bytes beyond [n - 1] are discarded. *)
Fixpoint readLine_loop (fuel : nat) (s : io) (n : nat) (acc : list Z) : option (io * list Z * Z) :=
  match fuel with
  | O => None
  | S fuel =>
    match read s 1 with
    | (s, None) => if errno s =? EINTR then readLine_loop fuel s n acc else Some (s, acc, -1)
    | (s, Some []) => if (length acc =? 0)%nat then Some (s, [], 0) else Some (s, acc ++ [0], Z.of_nat (length acc))
    | (s, Some (ch :: _)) =>
      let acc := if (length acc <? n - 1)%nat then acc ++ [ch] else acc in
      if ch =? 10 then Some (s, acc ++ [0], Z.of_nat (length acc)) else readLine_loop fuel s n acc
    end
  end.
Definition EINVAL : Z := 22.
Definition readLine (s : io) (n : nat) : option (io * list Z * Z) :=
  if (n =? 0)%nat then Some (Io (rest s) (out s) (sched s) EINVAL, [], -1)
  else readLine_loop (length (sched s) + length (rest s) + 1) s n [].

Definition RL_MAX_BUF : nat := 10.
Record ReadLineBuf := RLB { fd : io; buf : list Z; next : nat; len : Z }.
Definition readLineBufInit (garbage : list Z) (s : io) : ReadLineBuf := RLB s garbage 0 0.

Fixpoint readLineBuf_loop (fuel : nat) (r : ReadLineBuf) (n : nat) (acc : list Z) : option (ReadLineBuf * list Z * Z) :=
  match fuel with
  | O => None
  | S fuel =>
    let byte (r : ReadLineBuf) :=
      let c := default 0 (buf r !! next r) in
      let r := RLB (fd r) (buf r) (S (next r)) (len r) in
      let acc := if (length acc <? n)%nat then acc ++ [c] else acc in
      if c =? 10 then Some (r, acc, Z.of_nat (length acc)) else readLineBuf_loop fuel r n acc in
    if len r <=? Z.of_nat (next r) then
      match read (fd r) RL_MAX_BUF with
      | (s, None) => Some (RLB s (buf r) (next r) (-1), acc, -1)
      | (s, Some []) => Some (RLB s (buf r) (next r) 0, acc, Z.of_nat (length acc))
      | (s, Some b) => byte (RLB s (store b (buf r)) 0 (Z.of_nat (length b)))
      end
    else byte r
  end.
Definition readLineBuf (r : ReadLineBuf) (n : nat) : option (ReadLineBuf * list Z * Z) :=
  if (n =? 0)%nat then Some (RLB (Io (rest (fd r)) (out (fd r)) (sched (fd r)) EINVAL) (buf r) (next r) (len r), [], -1)
  else readLineBuf_loop (length (sched (fd r)) + length (rest (fd r)) + length (buf r) + 1) r n [].
End Tlpi.
