(* ===== verification/RioProps.v ===== *)
(** Properties of robust input and output: short and interrupted system calls do not
    show, buffered reads deliver the same bytes, and what the line readers store and
    return. *)

From stdpp Require Import base tactics numbers list.
From Stdlib Require Import ZArith Lia.
From S2P Require Import Prelude Rio.

Definition not_err (e : event) : Prop := match e with Err _ => False | _ => True end.
Definition no_err (s : io) : Prop := Forall not_err (sched s).

(** A read of [n] bytes from [s] that leaves [s'], with outcome [r]: it fails and takes
    nothing, or takes a prefix, empty only at the end of the file, and all that was asked
    for if the schedule is empty. *)
Definition read_spec (s : io) (n : nat) (s' : io) (r : option (list Z)) : Prop :=
  out s' = out s ∧ length (sched s') = (length (sched s) - 1)%nat ∧
  match r with
  | None => rest s' = rest s ∧ sched s ≠ []
  | Some b => rest s = b ++ rest s' ∧ (length b <= n)%nat ∧ (b = [] → rest s' = []) ∧
              (sched s = [] → length b = n ∨ rest s' = [])
  end.

Lemma read_any s n : (0 < n)%nat → let '(s', r) := read s n in read_spec s n s' r.
Proof.
  intros Hn.
  assert (∀ k q, (0 < k <= n)%nat → length q = (length (sched s) - 1)%nat → (sched s = [] → k = n) →
    read_spec s n (Io (drop k (rest s)) (out s) q (errno s)) (Some (take k (rest s)))) as Hget.
  { intros k q Hk Hq Hs. unfold read_spec. cbn [out sched rest]. split_and!; [done|done|by rewrite take_drop| | |].
    - rewrite length_take. lia.
    - intros E. destruct (rest s); [by destruct k|destruct k; [lia|done]].
    - intros E. rewrite length_take. destruct (decide (n <= length (rest s))%nat); [left; specialize (Hs E); lia|].
      right. apply drop_ge. specialize (Hs E). lia. }
  unfold read. destruct (sched s) as [|[k| |e] q] eqn:E; try apply Hget; simpl; try lia || done.
  all: unfold read_spec; rewrite E; cbn [out sched rest fail length]; split_and!; try done; lia.
Qed.

Lemma read_ok s n : no_err s → (0 < n)%nat →
  let '(s', r) := read s n in read_spec s n s' r ∧ no_err s' ∧ (r = None → errno s' = EINTR).
Proof.
  intros Hs Hn. pose proof (read_any s n Hn) as H. unfold no_err in *. unfold read in *.
  destruct (sched s) as [|[k| |e] q]; try apply Forall_cons in Hs as [? Hs]; done.
Qed.

(** ** Unbuffered reads *)

(** The fuel that a loop needs: one call more than the schedule, and one that finds
    the end of the file or nothing left to do. *)
Definition need (s : io) (nleft : nat) : nat :=
  length (sched s) + (if decide (nleft = 0%nat ∨ rest s = []) then 1 else 2).

Lemma need_read s n s' b : read_spec s n s' (Some b) → b ≠ [] → (0 < n)%nat → (need s' (n - length b) < need s n)%nat.
Proof.
  intros (_ & Hl & Hr & Hle & _ & He) Hb Hn. unfold need.
  rewrite (decide_False (P := n = _ ∨ _)) by (intros [?|E]; [lia|]; rewrite E in Hr; by destruct b).
  destruct (sched s) as [|e q]; simpl in *; [|case_decide; lia].
  rewrite decide_True; [lia|]. destruct (He eq_refl); [left; lia|by right].
Qed.

Lemma need_fail s n s' : read_spec s n s' None → (0 < n)%nat → (need s' n < need s n)%nat.
Proof. intros (_ & Hl & Hr & Hq) Hn. unfold need. rewrite Hr. destruct (sched s); [done|]. simpl in *. lia. Qed.

Lemma need_pos s n : (0 < need s n)%nat.
Proof. unfold need. case_decide; lia. Qed.

(** [b] is what the loop still reads. *)
Definition read_result (s s' : io) (b : list Z) (n : nat) : Prop :=
  rest s = b ++ rest s' ∧ (length b <= n)%nat ∧ (length b = n ∨ rest s' = []) ∧ out s' = out s ∧ no_err s'.

Lemma rio_readn_loop_ok fuel s n nleft acc :
  no_err s → (nleft <= n)%nat → (need s nleft <= fuel)%nat →
  ∃ s' b, rio_readn_loop fuel s n nleft acc = Some (s', acc ++ b, Z.of_nat (n - nleft + length b)) ∧
    read_result s s' b nleft.
Proof.
  revert s nleft acc. induction fuel as [|fuel IH]; intros s nleft acc Hs Hn Hf; [pose proof (need_pos s nleft); lia|].
  cbn [rio_readn_loop]. destruct (Nat.ltb_spec 0 nleft) as [H0|H0]; last first.
  { exists s, []. rewrite app_nil_r, Nat.add_0_r. split; [done|]. split_and!; try done; simpl; lia. }
  pose proof (read_ok s nleft Hs H0) as Hr. destruct (read s nleft) as [s1 [b|]]; destruct Hr as (Hsp & Hs1 & He).
  - pose proof Hsp as (Ho & _ & Hr & Hle & Hb & _). destruct b as [|c b].
    { exists s1, []. rewrite app_nil_r, Nat.add_0_r. split; [done|]. split_and!; try done. right. by apply Hb. }
    pose proof (need_read _ _ _ _ Hsp ltac:(done) H0). remember (c :: b) as b1.
    destruct (IH s1 (nleft - length b1)%nat (acc ++ b1)) as (s' & b' & E' & Hr' & Hl' & Hd' & Ho' & Hs'); [done|lia|lia|].
    exists s', (b1 ++ b'). rewrite E', app_assoc, length_app. split; [do 2 f_equal; lia|].
    split_and!; [by rewrite Hr, Hr', app_assoc|rewrite length_app; lia| |congruence|done].
    destruct Hd'; [left; rewrite length_app; lia|by right].
  - rewrite (He eq_refl). simpl. pose proof (need_fail _ _ _ Hsp H0). destruct Hsp as (Ho & _ & Hr & _).
    destruct (IH s1 nleft acc) as (s' & b & E' & Hr' & Hl' & Hd' & Ho' & Hs'); [done|done|lia|].
    exists s', b. rewrite E'. split; [done|]. split_and!; congruence || done.
Qed.

(** The bytes of a result are the first ones. *)
Lemma read_result_take s s' b n : read_result s s' b n → b = take n (rest s) ∧ rest s' = drop n (rest s).
Proof.
  intros (-> & Hl & Hd & _). destruct Hd as [<-|Hd].
  - by rewrite take_app_length, drop_app_length.
  - rewrite Hd, app_nil_r, take_ge, drop_ge by lia. done.
Qed.

Lemma rio_readn_ok s n :
  no_err s → ∃ s', rio_readn s n = Some (s', take n (rest s), Z.of_nat (length (take n (rest s)))) ∧
    rest s' = drop n (rest s) ∧ out s' = out s.
Proof.
  intros Hs. destruct (rio_readn_loop_ok (length (sched s) + 2) s n n []) as (s' & b & E & Hr); [done|lia| |].
  { unfold need. case_decide; lia. }
  destruct (read_result_take _ _ _ _ Hr) as [<- Hr']. destruct Hr as (_ & _ & _ & Ho & _).
  exists s'. split_and!; [|done|done]. unfold rio_readn. rewrite E, Nat.sub_diag. done.
Qed.

(** The versions of [readn] that restart after interrupts do the same. *)
Lemma unp_readn_eq s n : Unp.readn s n = rio_readn s n.
Proof. reflexivity. Qed.

Lemma tlpi_readn_loop_eq fuel s n nleft acc :
  (nleft <= n)%nat → Tlpi.readn_loop fuel s n (n - nleft) acc = rio_readn_loop fuel s n nleft acc.
Proof.
  revert s nleft acc. induction fuel as [|fuel IH]; intros s nleft acc Hn; [done|].
  cbn [Tlpi.readn_loop rio_readn_loop]. replace (n - (n - nleft))%nat with nleft by lia.
  destruct (Nat.ltb_spec 0 nleft) as [H0|H0], (Nat.ltb_spec (n - nleft) n); try lia; [|done].
  pose proof (read_any s nleft H0) as Hr. destruct (read s nleft) as [s1 [b|]].
  - destruct Hr as (_ & _ & _ & Hle & _). destruct b as [|c b]; [done|]. remember (c :: b) as b1.
    rewrite <- IH by lia. f_equal. lia.
  - by rewrite IH.
Qed.

Lemma tlpi_readn_eq s n : Tlpi.readn s n = rio_readn s n.
Proof. pose proof (tlpi_readn_loop_eq (length (sched s) + 2) s n n []) as H. rewrite Nat.sub_diag in H. by apply H. Qed.

(** [readn] of apue.3e stores what it takes from the file, whatever happens. *)
Lemma apue_readn_loop_ok fuel s n nleft acc :
  (nleft <= n)%nat → length acc = (n - nleft)%nat → (need s nleft <= fuel)%nat →
  ∃ s' b rc, Apue.readn_loop fuel s n nleft acc = Some (s', acc ++ b, rc) ∧
    rest s = b ++ rest s' ∧ (length b <= nleft)%nat ∧ out s' = out s ∧
    (rc = Z.of_nat (length (acc ++ b)) ∨ rc = -1 ∧ acc ++ b = []).
Proof.
  revert s nleft acc. induction fuel as [|fuel IH]; intros s nleft acc Hn Ha Hf; [pose proof (need_pos s nleft); lia|].
  cbn [Apue.readn_loop]. destruct (Nat.ltb_spec 0 nleft) as [H0|H0]; last first.
  { exists s, [], (Z.of_nat (n - nleft)). rewrite app_nil_r. split_and!; try done; [simpl; lia|left; lia]. }
  pose proof (read_any s nleft H0) as Hsp. destruct (read s nleft) as [s1 [b|]].
  - pose proof Hsp as (Ho & _ & Hr & Hle & Hb & _). destruct b as [|c b].
    { exists s1, [], (Z.of_nat (n - nleft)). rewrite app_nil_r. split_and!; try done. left; lia. }
    pose proof (need_read _ _ _ _ Hsp ltac:(done) H0). remember (c :: b) as b1.
    destruct (IH s1 (nleft - length b1)%nat (acc ++ b1)) as (s' & b' & rc & E' & Hr' & Hl' & Ho' & Hrc);
      [lia|rewrite length_app; lia|lia|].
    exists s', (b1 ++ b'), rc. rewrite E', app_assoc.
    split_and!; [done|by rewrite Hr, Hr', app_assoc|rewrite length_app; lia|congruence|done].
  - destruct Hsp as (Ho & _ & Hr & _). exists s1, [].
    destruct (Nat.eqb_spec nleft n) as [E|E]; [exists (-1)|exists (Z.of_nat (n - nleft))]; rewrite app_nil_r.
    + split_and!; try done; [simpl; lia|right]. split; [done|]. apply nil_length_inv. lia.
    + split_and!; try done; [simpl; lia|left; lia].
Qed.

(** ** Writes *)

(** No call fails and none writes nothing. *)
Definition writes (e : event) : Prop := match e with Part k => k ≠ 0%nat | Intr => True | Err _ => False end.
Definition wok (s : io) : Prop := Forall writes (sched s).

Definition write_spec (s : io) (data : list Z) (s' : io) (r : option nat) : Prop :=
  rest s' = rest s ∧ length (sched s') = (length (sched s) - 1)%nat ∧ wok s' ∧
  match r with
  | None => out s' = out s ∧ errno s' = EINTR ∧ sched s ≠ []
  | Some k => (0 < k <= length data)%nat ∧ out s' = out s ++ take k data ∧ (sched s = [] → k = length data)
  end.

Lemma write_ok s data : wok s → data ≠ [] → let '(s', r) := write s data in write_spec s data s' r.
Proof.
  unfold write, write_spec, wok. intros Hs Hd. assert (0 < length data)%nat by (destruct data; simpl; [done|lia]).
  destruct (sched s) as [|[k| |e] q] eqn:E; cbn [rest sched out errno fail length];
    try (apply Forall_cons in Hs as [Hw Hs]; cbn in Hw).
  - rewrite Nat.min_id. split_and!; try done; lia.
  - split_and!; try done; try lia. f_equal. by rewrite <- firstn_firstn, firstn_all.
  - split_and!; try done; lia.
  - done.
Qed.

(** The fuel of a write loop. *)
Definition wneed (s : io) (data : list Z) : nat := length (sched s) + (if decide (data = []) then 1 else 2).

Lemma wneed_write s data s' k : write_spec s data s' (Some k) → (wneed s' (drop k data) < wneed s data)%nat.
Proof.
  intros (_ & Hl & _ & Hk & _ & He). unfold wneed. rewrite (decide_False (P := data = [])) by (destruct data; simpl in *; [lia|done]).
  destruct (sched s) as [|e q]; simpl in *; [|case_decide; lia].
  rewrite decide_True; [lia|]. rewrite (He eq_refl). by rewrite drop_all.
Qed.

Lemma wneed_fail s data s' : write_spec s data s' None → (wneed s' data < wneed s data)%nat.
Proof. intros (_ & Hl & _ & _ & _ & Hq). unfold wneed. destruct (sched s); [done|]. simpl in *. lia. Qed.

Lemma rio_writen_loop_ok fuel s n bufp :
  wok s → (wneed s bufp <= fuel)%nat →
  ∃ s', rio_writen_loop fuel s n bufp = Some (s', Z.of_nat n) ∧ out s' = out s ++ bufp ∧ rest s' = rest s.
Proof.
  revert s bufp. induction fuel as [|fuel IH]; intros s bufp Hs Hf; [unfold wneed in Hf; case_decide; lia|].
  cbn [rio_writen_loop]. destruct bufp as [|c l]; [exists s; by rewrite app_nil_r|].
  remember (c :: l) as b. replace (0 <? length b)%nat with true by (by subst b).
  pose proof (write_ok s b Hs ltac:(by subst b)) as Hsp. destruct (write s b) as [s1 [k|]].
  - pose proof (wneed_write _ _ _ _ Hsp). destruct Hsp as (Hr & _ & Hs1 & Hk & Ho & _). destruct k as [|k]; [lia|].
    destruct (IH s1 (drop (S k) b)) as (s' & E & Ho' & Hr'); [done|lia|].
    exists s'. rewrite E, Ho', Ho, <- app_assoc, take_drop. split_and!; congruence.
  - pose proof (wneed_fail _ _ _ Hsp). destruct Hsp as (Hr & _ & Hs1 & Ho & He & _). rewrite He. simpl.
    destruct (IH s1 b) as (s' & E & Ho' & Hr'); [done|lia|]. exists s'. rewrite E. split_and!; congruence.
Qed.

Lemma unp_writen_loop_eq fuel s n b : wok s → Unp.writen_loop fuel s n b = rio_writen_loop fuel s n b.
Proof.
  revert s b. induction fuel as [|fuel IH]; intros s b Hs; [done|]. cbn [Unp.writen_loop rio_writen_loop].
  destruct b as [|c l]; [done|]. destruct (Nat.ltb_spec 0 (length (c :: l))); [|done].
  pose proof (write_ok s (c :: l) Hs ltac:(done)) as Hsp. destruct (write s (c :: l)) as [s1 [k|]].
  - destruct Hsp as (_ & _ & Hs1 & Hk & _). destruct k as [|k]; [lia|]. by apply IH.
  - destruct Hsp as (_ & _ & Hs1 & _ & He & _). rewrite He. simpl. by apply IH.
Qed.

Lemma tlpi_writen_loop_eq fuel s b tot :
  wok s → (tot <= length b)%nat → Tlpi.writen_loop fuel s b tot = rio_writen_loop fuel s (length b) (drop tot b).
Proof.
  revert s tot. induction fuel as [|fuel IH]; intros s tot Hs Ht; [done|]. cbn [Tlpi.writen_loop rio_writen_loop].
  rewrite length_drop. destruct (Nat.ltb_spec tot (length b)), (Nat.ltb_spec 0 (length b - tot)); try lia;
    [|do 2 f_equal; lia].
  pose proof (write_ok s (drop tot b) Hs) as Hsp. destruct (write s (drop tot b)) as [s1 [k|]].
  all: destruct Hsp as (_ & _ & Hs1 & Hk); [intros E%(f_equal length); rewrite length_drop in E; simpl in E; lia|].
  - destruct Hk as [Hk _]. rewrite length_drop in Hk. destruct k as [|k]; [lia|]. rewrite IH, drop_drop by (done || lia). done.
  - destruct Hk as (_ & He & _). rewrite He. simpl. by apply IH.
Qed.

(** ** Properties of the unbuffered functions *)

Lemma apue_readn_ok s n :
  ∃ s' b rc, Apue.readn s n = Some (s', b, rc) ∧ rest s = b ++ rest s' ∧ (length b <= n)%nat ∧
    (rc = Z.of_nat (length b) ∨ rc = -1 ∧ b = []).
Proof.
  destruct (apue_readn_loop_ok (length (sched s) + 2) s n n []) as (s' & b & rc & E & Hr & Hl & _ & Hrc);
    [lia|simpl; lia|unfold need; case_decide; lia|].
  exists s', b, rc. done.
Qed.

(** [rio_readn] and the [readn] of unpv13e and tlpi-dist return the same and, if no
    system call fails with anything but EINTR, read [n] bytes or up to the end of the
    file however the reads are split and interrupted: they store exactly the next
    bytes of the file, return how many, and take no more.  The [readn] of apue.3e,
    which does not restart, never loses bytes it took: it returns how many it stored,
    and -1 only if there are none. *)
Theorem readn_correct s n :
  Unp.readn s n = rio_readn s n ∧ Tlpi.readn s n = rio_readn s n ∧
  (no_err s → ∃ s', rio_readn s n = Some (s', take n (rest s), Z.of_nat (length (take n (rest s)))) ∧
    rest s' = drop n (rest s) ∧ out s' = out s) ∧
  (∃ s' b rc, Apue.readn s n = Some (s', b, rc) ∧ rest s = b ++ rest s' ∧ (length b <= n)%nat ∧
    (rc = Z.of_nat (length b) ∨ rc = -1 ∧ b = [])).
Proof.
  split_and!; [apply unp_readn_eq|apply tlpi_readn_eq|apply rio_readn_ok|apply apue_readn_ok].
Qed.

Lemma readn_correct_witness :
  rio_readn (Io [1; 2; 3; 4; 5] [] [Part 1; Intr; Part 2; Intr] 0) 4 = Some (Io [5] [] [] EINTR, [1; 2; 3; 4], 4).
Proof.
  destruct (readn_correct (Io [1; 2; 3; 4; 5] [] [Part 1; Intr; Part 2; Intr] 0) 4) as (_ & _ & H & _).
  destruct H as (s' & E & _ & _); [by repeat constructor|]. vm_compute in E. injection E as <-. reflexivity.
Defined.

(** [rio_writen] and the [writen] of unpv13e and tlpi-dist write all of the buffer,
    once and in order, however the writes are split and interrupted, and return its
    length, if no [write] fails with anything but EINTR or returns 0. *)
Theorem writen_correct s data :
  wok s →
  ∃ s', rio_writen s data = Some (s', Z.of_nat (length data)) ∧ Unp.writen s data = rio_writen s data ∧
    Tlpi.writen s data = rio_writen s data ∧ out s' = out s ++ data ∧ rest s' = rest s.
Proof.
  intros Hs. destruct (rio_writen_loop_ok (length (sched s) + 2) s (length data) data) as (s' & E & Ho & Hr); [done| |].
  { unfold wneed. case_decide; lia. }
  exists s'. split_and!; [done|by apply unp_writen_loop_eq| |done|done].
  unfold Tlpi.writen. rewrite tlpi_writen_loop_eq by (done || lia). done.
Qed.

Lemma writen_correct_witness :
  rio_writen (Io [] [9] [Part 2; Intr; Part 1] 0) [1; 2; 3; 4] = Some (Io [] [9; 1; 2; 3; 4] [] EINTR, 4).
Proof.
  destruct (writen_correct (Io [] [9] [Part 2; Intr; Part 1] 0) [1; 2; 3; 4]) as (s' & E & _ & _); [by repeat constructor|].
  vm_compute in E. injection E as <-. reflexivity.
Defined.

(** ** Buffered reads *)

(** The bytes of the buffer that are still to be delivered, and with the file all that
    are. *)
Definition unread (rp : rio_t) : list Z := take (Z.to_nat (rio_cnt rp)) (drop (rio_bufptr rp) (rio_buf rp)).
Definition stream (rp : rio_t) : list Z := unread rp ++ rest (rio_fd rp).

Definition rio_ok (rp : rio_t) : Prop :=
  length (rio_buf rp) = RIO_BUFSIZE ∧ (0 < rio_cnt rp → (rio_bufptr rp + Z.to_nat (rio_cnt rp) <= RIO_BUFSIZE)%nat).

Lemma rio_bufsize_pos : (0 < RIO_BUFSIZE)%nat.
Proof. unfold RIO_BUFSIZE. lia. Qed.
Lemma length_store b buf : (length b <= length buf)%nat → length (store b buf) = length buf.
Proof. intros. unfold store. rewrite length_app, length_drop. lia. Qed.

Lemma unread_empty s c p b : c <= 0 → unread (Rio s c p b) = [].
Proof. intros. unfold unread. cbn [rio_cnt]. by replace (Z.to_nat c) with 0%nat by lia. Qed.

#[local] Opaque RIO_BUFSIZE.

Lemma rio_refill_ok fuel rp :
  rio_ok rp → no_err (rio_fd rp) →
  (length (sched (rio_fd rp)) + (if Z.leb (rio_cnt rp) 0%Z then 2 else 1) <= fuel)%nat →
  ∃ rp' r, rio_refill fuel rp = Some (rp', r) ∧ rio_ok rp' ∧ no_err (rio_fd rp') ∧ stream rp' = stream rp ∧
    match r with None => 0 < rio_cnt rp' | Some rc => rc = 0 ∧ stream rp = [] end.
Proof.
  revert rp. induction fuel as [|fuel IH]; intros rp Hok Hs Hf; [case_match; lia|].
  cbn [rio_refill]. destruct (Z.leb_spec (rio_cnt rp) 0) as [H0|H0]; [|by exists rp, None].
  pose proof rio_bufsize_pos as Hpos. pose proof (read_ok (rio_fd rp) RIO_BUFSIZE Hs Hpos) as Hr.
  destruct Hok as [Hlen Hptr]. destruct rp as [s c p buf]. cbn [rio_fd rio_cnt rio_bufptr rio_buf] in *.
  destruct (read s RIO_BUFSIZE) as [s1 [b|]]; destruct Hr as (Hsp & Hs1 & He).
  - destruct Hsp as (_ & Hl & Hr & Hle & Hb & _). destruct b as [|x b].
    { exists (Rio s1 0 p buf), (Some 0). split_and!; try done.
      - unfold stream. rewrite !unread_empty by lia. cbn [rio_fd]. by rewrite Hr.
      - unfold stream. rewrite unread_empty by done. cbn [rio_fd]. rewrite Hr. by apply Hb. }
    remember (x :: b) as b1. assert (0 < length b1)%nat by (subst b1; simpl; lia).
    destruct (IH (Rio s1 (Z.of_nat (length b1)) 0 (store b1 buf))) as (rp' & r & E & Hok' & Hs' & Hst & Hr');
      [split; cbn; rewrite ?length_store; lia|done|cbn [rio_cnt rio_fd]; rewrite (proj2 (Z.leb_gt _ 0)) by lia; lia|].
    assert (stream (Rio s1 (Z.of_nat (length b1)) 0 (store b1 buf)) = stream (Rio s c p buf)) as Est.
    { unfold stream at 2. rewrite unread_empty by done. unfold stream, unread, store. cbn [rio_fd rio_cnt rio_bufptr rio_buf].
      by rewrite Nat2Z.id, drop_0, take_app_length, Hr. }
    exists rp', r. rewrite Est in *. done.
  - rewrite (He eq_refl). simpl. destruct Hsp as (_ & Hl & Hr & Hq).
    destruct (IH (Rio s1 (-1) p buf)) as (rp' & r & E & Hok' & Hs' & Hst & Hr'); [done|done| |].
    { cbn [rio_cnt rio_fd]. destruct (sched s); [done|]. simpl in *. lia. }
    assert (stream (Rio s1 (-1) p buf) = stream (Rio s c p buf)) as Est.
    { unfold stream. rewrite !unread_empty by lia. cbn [rio_fd]. by rewrite Hr. }
    exists rp', r. rewrite Est in *. done.
Qed.

(** [rio_read] delivers a prefix of the stream, empty only at its end. *)
Lemma rio_read_ok rp n :
  rio_ok rp → no_err (rio_fd rp) → (0 < n)%nat →
  ∃ rp' b, rio_read rp n = Some (rp', b, Z.of_nat (length b)) ∧ rio_ok rp' ∧ no_err (rio_fd rp') ∧
    stream rp = b ++ stream rp' ∧ (length b <= n)%nat ∧ (b = [] → stream rp = []).
Proof.
  intros Hok Hs Hn.
  destruct (rio_refill_ok (length (sched (rio_fd rp)) + 2) rp) as (rp1 & r & E & Hok1 & Hs1 & Hst & Hr);
    [done|done|case_match; lia|].
  unfold rio_read. rewrite E, <- Hst. destruct r as [rc|].
  { destruct Hr as [-> Hr]. exists rp1, []. split_and!; try done; [simpl; lia|congruence]. }
  destruct Hok1 as [Hlen Hptr]. specialize (Hptr Hr).
  set (cnt := if (Z.to_nat (rio_cnt rp1) <? n)%nat then Z.to_nat (rio_cnt rp1) else n). assert (cnt = Nat.min n (Z.to_nat (rio_cnt rp1))) as Ecnt.
  { unfold cnt. destruct (Nat.ltb_spec (Z.to_nat (rio_cnt rp1)) n); lia. }
  clearbody cnt. set (u := drop (rio_bufptr rp1) (rio_buf rp1)).
  assert (length (take cnt u) = cnt) as El by (unfold u; rewrite length_take, length_drop; lia).
  eexists _, (take cnt u). rewrite El. split; [done|]. split_and!; try done.
  - split; [done|]. cbn [rio_cnt rio_bufptr]. lia.
  - unfold stream, unread. cbn [rio_fd rio_cnt rio_bufptr rio_buf]. rewrite <- drop_drop. fold u.
    rewrite app_assoc, take_take_drop. do 2 f_equal. lia.
  - lia.
  - intros Ez. apply (f_equal length) in Ez. rewrite El in Ez. simpl in Ez. lia.
Qed.

Lemma rio_readnb_loop_ok fuel rp n nleft acc :
  rio_ok rp → no_err (rio_fd rp) → (nleft <= n)%nat → (nleft < fuel)%nat →
  ∃ rp' b, rio_readnb_loop fuel rp n nleft acc = Some (rp', acc ++ b, Z.of_nat (n - nleft + length b)) ∧
    rio_ok rp' ∧ no_err (rio_fd rp') ∧ stream rp = b ++ stream rp' ∧ (length b <= nleft)%nat ∧
    (length b = nleft ∨ stream rp' = []).
Proof.
  revert rp nleft acc. induction fuel as [|fuel IH]; intros rp nleft acc Hok Hs Hn Hf; [lia|].
  cbn [rio_readnb_loop]. destruct (Nat.ltb_spec 0 nleft) as [H0|H0]; last first.
  { exists rp, []. rewrite app_nil_r, Nat.add_0_r. split_and!; try done; simpl; lia. }
  destruct (rio_read_ok rp nleft Hok Hs H0) as (rp1 & b & E & Hok1 & Hs1 & Hst & Hl & Hb). rewrite E.
  rewrite (proj2 (Z.ltb_ge _ 0)) by lia. destruct (Z.eqb_spec (Z.of_nat (length b)) 0) as [Ez|Ez].
  { assert (b = []) as -> by (apply nil_length_inv; lia). exists rp1, []. rewrite app_nil_r, Nat.add_0_r.
    split_and!; try done. right. specialize (Hb eq_refl). rewrite Hst in Hb. done. }
  rewrite Nat2Z.id.
  destruct (IH rp1 (nleft - length b)%nat (acc ++ b)) as (rp' & b' & E' & Hok' & Hs' & Hst' & Hl' & Hd); [done|done|lia|lia|].
  exists rp', (b ++ b'). rewrite E', app_assoc, length_app. split; [do 2 f_equal; lia|].
  split_and!; try done; [by rewrite Hst, Hst', app_assoc|lia|]. destruct Hd; [left; lia|by right].
Qed.

(** C35: the buffered [rio_readnb] delivers the same as an unbuffered read: after
    [rio_readinitb] and any reads, if no system call fails with anything but EINTR, it
    stores exactly the next [n] bytes of the stream, that is of the unread part of the
    buffer and the file, or all up to the end, returns how many, leaves the rest of the
    stream for the next call, and keeps its buffer within bounds. *)
Theorem rio_readnb_correct rp n :
  rio_ok rp → no_err (rio_fd rp) →
  ∃ rp', rio_readnb rp n = Some (rp', take n (stream rp), Z.of_nat (length (take n (stream rp)))) ∧
    stream rp' = drop n (stream rp) ∧ rio_ok rp' ∧ no_err (rio_fd rp') ∧
    (∀ garbage s, length garbage = RIO_BUFSIZE →
      rio_ok (rio_readinitb garbage s) ∧ stream (rio_readinitb garbage s) = rest s).
Proof.
  intros Hok Hs.
  destruct (rio_readnb_loop_ok (length (sched (rio_fd rp)) + n + 2) rp n n []) as (rp' & b & E & Hok' & Hs' & Hst & Hl & Hd);
    [done|done|lia|lia|].
  exists rp'. rewrite Hst. assert (b = take n (b ++ stream rp') ∧ stream rp' = drop n (b ++ stream rp')) as [Eb Es].
  { destruct Hd as [<-|Hd]; [by rewrite take_app_length, drop_app_length|].
    rewrite Hd, app_nil_r, take_ge, drop_ge by lia. done. }
  rewrite <- Eb, <- Es. split_and!; try done.
  unfold rio_readnb. rewrite E, Nat.sub_diag. done.
Qed.

Lemma rio_readnb_correct_witness :
  ∃ rp', rio_readnb (rio_readinitb (replicate RIO_BUFSIZE 0) (Io [1; 2; 3; 4] [] [Part 1; Intr; Part 2] 0)) 3 =
    Some (rp', [1; 2; 3], 3) ∧ stream rp' = [4].
Proof.
  destruct (rio_readnb_correct (rio_readinitb (replicate RIO_BUFSIZE 0) (Io [1; 2; 3; 4] [] [Part 1; Intr; Part 2] 0)) 3)
    as (rp' & E & Hst & _); [split; [apply length_replicate|done]|by repeat constructor|].
  exists rp'. split; [exact E|exact Hst].
Defined.

(** *** Lines *)

(** Up to [m] bytes, through the first newline. *)
Fixpoint take_line (m : nat) (l : list Z) : list Z :=
  match m, l with
  | S m, c :: l => if c =? 10 then [c] else c :: take_line m l
  | _, _ => []
  end.
Definition ends_nl (l : list Z) : bool := default 0 (last l) =? 10.

(** The value [rio_readlineb] returns for a line when its counter starts at [n] with [k]
    iterations left. *)
Definition rio_line_rc (n k : nat) (line : list Z) : Z :=
  if ends_nl line then Z.of_nat (n + length line - 1)
  else if decide (n = 1%nat ∧ line = [] ∧ k ≠ 0%nat) then 0 else Z.of_nat (n + length line).

Lemma ends_nl_cons c l : l ≠ [] → ends_nl (c :: l) = ends_nl l.
Proof. intros. unfold ends_nl. destruct l; [done|]. by rewrite last_cons_cons. Qed.

Lemma rio_readlineb_loop_ok k rp n acc :
  rio_ok rp → no_err (rio_fd rp) → (1 <= n)%nat →
  let line := take_line k (stream rp) in
  ∃ rp', rio_readlineb_loop k rp n acc =
      Some (rp', acc ++ line ++ (if decide (n = 1%nat ∧ line = [] ∧ k ≠ 0%nat) then [] else [0]), rio_line_rc n k line) ∧
    rio_ok rp' ∧ no_err (rio_fd rp') ∧ stream rp = line ++ stream rp'.
Proof.
  cbv zeta. revert rp n acc. induction k as [|k IH]; intros rp n acc Hok Hs Hn; cbn [rio_readlineb_loop].
  { exists rp. simpl. unfold rio_line_rc. rewrite !decide_False by naive_solver. simpl. rewrite Nat.add_0_r. done. }
  destruct (rio_read_ok rp 1 Hok Hs ltac:(lia)) as (rp1 & b & E & Hok1 & Hs1 & Hst & Hl & Hb). rewrite E, Hst.
  destruct b as [|c [|]]; [| |simpl in Hl; lia]; cbn [length Z.of_nat Z.eqb head default app take_line].
  - rewrite Hst in Hb. specialize (Hb eq_refl). simpl in Hb. rewrite Hb. cbn [take_line].
    destruct (Nat.eqb_spec n 1) as [->|Hn1]; exists rp1; unfold rio_line_rc.
    + rewrite !decide_True by done. rewrite !app_nil_r. done.
    + rewrite !decide_False by naive_solver. cbn [app length]. rewrite Nat.add_0_r. done.
  - change (Z.of_nat 1 =? 1) with true. change (id c) with c. cbv iota. destruct (Z.eqb_spec c 10) as [->|Hc].
    + exists rp1. rewrite !decide_False by naive_solver. split_and!; try done. unfold rio_line_rc. simpl. do 2 f_equal. lia.
    + destruct (IH rp1 (S n) (acc ++ [c])) as (rp' & E' & Hok' & Hs' & Hst'); [done|done|lia|].
      exists rp'. simpl in E'. rewrite E', <- app_assoc. rewrite !decide_False by (intros (? & ? & ?); congruence || lia). cbn [app]. split_and!; [|done|done|by rewrite Hst' at 1].
      do 2 f_equal. unfold rio_line_rc. rewrite !decide_False by (intros (? & ? & ?); congruence || lia). cbn [length].
      destruct (take_line k (stream rp1)) as [|c' l] eqn:El.
      * change (ends_nl []) with false. change (ends_nl [c]) with (c =? 10). rewrite (proj2 (Z.eqb_neq c 10) Hc). f_equal. simpl. lia.
      * rewrite (ends_nl_cons c) by done. cbn [length]. destruct (ends_nl (c' :: l)); lia.
Qed.

(** The line buffer of unpv13e. *)
Definition urest (r : Unp.rl) : list Z :=
  take (Z.to_nat (Unp.read_cnt r)) (drop (Unp.read_ptr r) (Unp.read_buf r)) ++ rest (Unp.fd r).
Definition unp_ok (r : Unp.rl) : Prop :=
  length (Unp.read_buf r) = Unp.MAXLINE ∧
  (0 < Unp.read_cnt r → (Unp.read_ptr r + Z.to_nat (Unp.read_cnt r) <= Unp.MAXLINE)%nat).

Lemma unp_maxline_pos : (0 < Unp.MAXLINE)%nat.
Proof. unfold Unp.MAXLINE. lia. Qed.
#[local] Opaque Unp.MAXLINE.

Lemma urest_empty s c p b : c <= 0 → urest (Unp.Rl s c p b) = rest s.
Proof. intros. unfold urest. cbn [Unp.read_cnt Unp.fd]. by replace (Z.to_nat c) with 0%nat by lia. Qed.

Lemma my_read_again_ok fuel r :
  unp_ok r → no_err (Unp.fd r) → Unp.read_cnt r <= 0 → (length (sched (Unp.fd r)) < fuel)%nat →
  ∃ r' v, Unp.my_read_again fuel r = Some (r', v) ∧ unp_ok r' ∧ no_err (Unp.fd r') ∧ urest r' = urest r ∧
    match v with None => 0 < Unp.read_cnt r' | Some rc => rc = 0 ∧ urest r = [] end.
Proof.
  revert r. induction fuel as [|fuel IH]; intros [s c p buf] [Hlen Hptr] Hs Hc Hf; [lia|].
  cbn [Unp.fd Unp.read_cnt Unp.read_ptr Unp.read_buf Unp.my_read_again] in *. rewrite (urest_empty s) by done.
  pose proof (read_ok s Unp.MAXLINE Hs unp_maxline_pos) as Hr.
  destruct (read s Unp.MAXLINE) as [s1 [b|]]; destruct Hr as (Hsp & Hs1 & He).
  - destruct Hsp as (_ & Hl & Hr & Hle & Hb & _). destruct b as [|x b].
    { exists (Unp.Rl s1 0 p buf), (Some 0). rewrite urest_empty by done.
      split_and!; try done. rewrite Hr. by apply Hb. }
    remember (x :: b) as b1. assert (0 < length b1)%nat by (subst b1; simpl; lia).
    eexists _, None. split; [done|]. split_and!; [|done| |cbn [Unp.read_cnt]; lia].
    + split; cbn; rewrite ?length_store; lia.
    + unfold urest, store. cbn [Unp.fd Unp.read_cnt Unp.read_ptr Unp.read_buf].
      by rewrite Nat2Z.id, drop_0, take_app_length, Hr.
  - rewrite (He eq_refl). simpl. destruct Hsp as (_ & Hl & Hr & Hq).
    destruct (IH (Unp.Rl s1 (-1) p buf)) as (r' & v & E & H); [done|done|done| |].
    { cbn [Unp.fd]. destruct (sched s); [done|]. simpl in *. lia. }
    exists r', v. rewrite urest_empty, Hr in H by done. done.
Qed.

(** [my_read] delivers the next byte. *)
Lemma my_read_ok r :
  unp_ok r → no_err (Unp.fd r) →
  match urest r with
  | [] => ∃ r', Unp.my_read r = Some (r', 0, 0) ∧ unp_ok r' ∧ no_err (Unp.fd r') ∧ urest r' = []
  | c :: l => ∃ r', Unp.my_read r = Some (r', c, 1) ∧ unp_ok r' ∧ no_err (Unp.fd r') ∧ urest r' = l
  end.
Proof.
  intros Hok Hs. unfold Unp.my_read.
  assert (∃ r' v, (if Unp.read_cnt r <=? 0 then Unp.my_read_again (length (sched (Unp.fd r)) + 1) r else Some (r, None)) =
    Some (r', v) ∧ unp_ok r' ∧ no_err (Unp.fd r') ∧ urest r' = urest r ∧
    match v with None => 0 < Unp.read_cnt r' | Some rc => rc = 0 ∧ urest r = [] end) as (r1 & v & -> & Hok1 & Hs1 & Hu & Hv).
  { destruct (Z.leb_spec (Unp.read_cnt r) 0); [apply my_read_again_ok; done || lia|by exists r, None]. }
  rewrite <- Hu. destruct v as [rc|]; [destruct Hv as [-> Hv]; rewrite Hu, Hv; exists r1; split_and!; congruence || done|].
  destruct Hok1 as [Hlen Hptr]. specialize (Hptr Hv). unfold urest.
  destruct (lookup_lt_is_Some_2 (Unp.read_buf r1) (Unp.read_ptr r1)) as [c Hc]; [lia|].
  rewrite (drop_S _ c) by done. destruct (Z.to_nat (Unp.read_cnt r1)) as [|k] eqn:Ek; [lia|]. cbn [take app].
  rewrite Hc. eexists. split; [done|]. cbn [Unp.fd Unp.read_cnt Unp.read_ptr Unp.read_buf]. split_and!; [|done|].
  - split; [done|]. cbn. lia.
  - rewrite Nat.add_1_r. do 2 f_equal. lia.
Qed.

(** The value [readline] returns: at the end of the file the counter is corrected. *)
Definition unp_line_rc (n k : nat) (line : list Z) : Z :=
  Z.of_nat (if ends_nl line || (length line <? k)%nat then n + length line - 1 else n + length line).

Lemma readline_loop_ok k r n acc :
  unp_ok r → no_err (Unp.fd r) → (1 <= n)%nat →
  let line := take_line k (urest r) in
  ∃ r', Unp.readline_loop k r n acc = Some (r', acc ++ line ++ [0], unp_line_rc n k line) ∧
    unp_ok r' ∧ no_err (Unp.fd r') ∧ urest r = line ++ urest r'.
Proof.
  cbv zeta. revert r n acc. induction k as [|k IH]; intros r n acc Hok Hs Hn; cbn [Unp.readline_loop].
  { exists r. unfold unp_line_rc. simpl. rewrite Nat.add_0_r. done. }
  pose proof (my_read_ok r Hok Hs) as Hr. destruct (urest r) as [|c l] eqn:Eu.
  { destruct Hr as (r' & -> & Hok' & Hs' & Hu). exists r'. rewrite Hu. split_and!; try done.
    unfold unp_line_rc. simpl. do 3 f_equal. lia. }
  destruct Hr as (r1 & -> & Hok1 & Hs1 & <-). change (1 =? 1) with true. cbv iota. cbn [take_line].
  destruct (Z.eqb_spec c 10) as [->|Hc].
  { exists r1. split_and!; try done. unfold unp_line_rc. simpl. do 3 f_equal. lia. }
  destruct (IH r1 (S n) (acc ++ [c])) as (r' & -> & Hok' & Hs' & Hst'); [done|done|lia|].
  exists r'. rewrite <- app_assoc. split_and!; [|done|done|by rewrite Hst' at 1]. do 2 f_equal.
  unfold unp_line_rc. cbn [length]. f_equal. destruct (take_line k (urest r1)) as [|c' l] eqn:El.
  - change (ends_nl []) with false. change (ends_nl [c]) with (c =? 10). rewrite (proj2 (Z.eqb_neq c 10) Hc). cbn [length orb].
    destruct (Nat.ltb_spec 0 k), (Nat.ltb_spec 1 (S k)); simpl; lia.
  - rewrite (ends_nl_cons c) by done. cbn [length]. destruct (ends_nl (c' :: l)); cbn [orb]; [lia|].
    destruct (Nat.ltb_spec (S (length l)) k), (Nat.ltb_spec (S (S (length l))) (S k)); lia.
Qed.

(** The bytes up to the next newline are those of the line. *)
Lemma take_line_length m l : (length (take_line m l) <= m)%nat.
Proof. revert l. induction m as [|m IH]; intros [|c l]; simpl; try lia. case_match; simpl; [lia|]. specialize (IH l). lia. Qed.

(** [rio_readlineb] and [readline] of unpv13e store the next line of the stream
    (through its newline, at most [maxlen - 1] bytes) and a terminating 0, and leave the
    rest of the stream to later calls, however reads are split and interrupted.  The
    value they return is the number of bytes of the line only if it ends with a
    newline: [rio_readlineb] returns one more when it stops at the end of the file or at
    [maxlen], and [readline] when it stops at [maxlen].  At the end of the file both
    return 0. *)
Theorem readline_correct maxlen rp r :
  (2 <= maxlen)%nat → rio_ok rp → no_err (rio_fd rp) → unp_ok r → no_err (Unp.fd r) →
  let line := take_line (maxlen - 1) (stream rp) in
  let uline := take_line (maxlen - 1) (urest r) in
  (∃ rp' data, rio_readlineb rp maxlen =
     Some (rp', data, if ends_nl line then Z.of_nat (length line)
                      else if decide (line = []) then 0 else Z.of_nat (length line) + 1) ∧
     data = (if decide (line = []) then [] else line ++ [0]) ∧ stream rp = line ++ stream rp' ∧
     rio_ok rp' ∧ no_err (rio_fd rp')) ∧
  (∃ r', Unp.readline r maxlen =
     Some (r', uline ++ [0], if ends_nl uline || (length uline <? maxlen - 1)%nat then Z.of_nat (length uline)
                            else Z.of_nat maxlen) ∧
     urest r = uline ++ urest r' ∧ unp_ok r' ∧ no_err (Unp.fd r')).
Proof.
  intros Hm Hok Hs Hok' Hs' line uline. split.
  - destruct (rio_readlineb_loop_ok (maxlen - 1) rp 1 [] Hok Hs ltac:(lia)) as (rp' & E & Ho & Hn & Hst).
    fold line in E, Hst. exists rp'. unfold rio_readlineb. rewrite E. clear E.
    destruct (decide (line = [])) as [El|El].
    + exists []. rewrite El in *. rewrite decide_True by (split_and!; [done|done|lia]).
      split_and!; try done. unfold rio_line_rc. simpl. rewrite decide_True by (split_and!; [done|done|lia]). done.
    + eexists. rewrite decide_False by naive_solver. split_and!; try done. unfold rio_line_rc.
      rewrite decide_False by naive_solver. do 2 f_equal. destruct (ends_nl line); lia.
  - destruct (readline_loop_ok (maxlen - 1) r 1 [] Hok' Hs' ltac:(lia)) as (r' & E & Ho & Hn & Hst).
    fold uline in E, Hst. exists r'. unfold Unp.readline. rewrite E. split_and!; try done. do 2 f_equal.
    unfold unp_line_rc. pose proof (take_line_length (maxlen - 1) (urest r)) as Hl. fold uline in Hl.
    destruct (ends_nl uline); simpl orb; cbv iota; [lia|]. destruct (Nat.ltb_spec (length uline) (maxlen - 1)); lia.
Qed.

(** A file that ends without a newline: four bytes are read and five returned. *)
Lemma readline_correct_witness :
  let s := Io [97; 98; 99; 100] [] [Part 3; Intr] 0 in
  (∃ rp', rio_readlineb (rio_readinitb (replicate RIO_BUFSIZE 0) s) 80 = Some (rp', [97; 98; 99; 100; 0], 5)) ∧
  (∃ r', Unp.readline (Unp.Rl s 0 0 (replicate Unp.MAXLINE 0)) 80 = Some (r', [97; 98; 99; 100; 0], 4)).
Proof.
  intros s.
  destruct (readline_correct 80 (rio_readinitb (replicate RIO_BUFSIZE 0) s) (Unp.Rl s 0 0 (replicate Unp.MAXLINE 0)))
    as [(rp' & data & E & -> & _) (r' & E' & _)];
    [lia|split; [apply length_replicate|done]|by repeat constructor|split; [apply length_replicate|done]|by repeat constructor|].
  split; [exists rp'; exact E|exists r'; exact E'].
Defined.

(** ** tlpi-dist *)

(** The whole line, and what [readLine] and [readLineBuf] keep of it: the excess is
    discarded. *)
Definition whole_line (l : list Z) : list Z := take_line (length l) l.

Lemma whole_line_cons c l : whole_line (c :: l) = if c =? 10 then [c] else c :: whole_line l.
Proof. done. Qed.

Lemma readLine_loop_ok fuel s n acc :
  no_err s → (length acc <= n - 1)%nat → (length (sched s) + length (rest s) < fuel)%nat →
  let kept := take (n - 1) (acc ++ whole_line (rest s)) in
  ∃ s', Tlpi.readLine_loop fuel s n acc =
      Some (s', if decide (kept = [] ∧ ends_nl (whole_line (rest s)) = false) then [] else kept ++ [0], Z.of_nat (length kept)) ∧
    rest s = whole_line (rest s) ++ rest s'.
Proof.
  cbv zeta. revert s acc. induction fuel as [|fuel IH]; intros s acc Hs Ha Hf; [lia|]. cbn [Tlpi.readLine_loop].
  pose proof (read_ok s 1 Hs ltac:(lia)) as Hr. destruct (read s 1) as [s1 [b|]]; destruct Hr as (Hsp & Hs1 & He).
  - destruct Hsp as (_ & Hl & Hr & Hle & Hb & _). destruct b as [|c [|]]; [| |simpl in Hle; lia].
    + rewrite Hr, (Hb eq_refl). simpl app. unfold whole_line. simpl. rewrite app_nil_r, take_ge by lia. exists s1.
      destruct acc as [|a acc]; simpl length; cbn [Nat.eqb].
      * rewrite decide_True by done. split; [done|]. symmetry. by apply Hb.
      * rewrite decide_False by naive_solver. split; [done|]. symmetry. by apply Hb.
    + rewrite Hr. cbn [app]. rewrite whole_line_cons.
      assert (∀ w, take (n - 1) (acc ++ c :: w) =
        take (n - 1) ((if (length acc <? n - 1)%nat then acc ++ [c] else acc) ++ w)) as Hk.
      { intros w. destruct (Nat.ltb_spec (length acc) (n - 1)); [by rewrite <- app_assoc|].
        rewrite !take_app. rewrite (take_ge acc) by lia. by replace (n - 1 - length acc)%nat with 0%nat by lia. }
      set (acc1 := if (length acc <? n - 1)%nat then acc ++ [c] else acc) in *.
      assert (length acc1 <= n - 1)%nat as Ha1.
      { unfold acc1. destruct (Nat.ltb_spec (length acc) (n - 1)); rewrite ?length_app; simpl; lia. }
      destruct (Z.eqb_spec c 10) as [->|Hc].
      * exists s1. rewrite Hk, app_nil_r, take_ge by done. rewrite decide_False; [done|]. intros [_ H]. discriminate H.
      * destruct (IH s1 acc1) as (s' & E & Hr'); [done|done|rewrite Hr in Hf; simpl in Hf; lia|]. fold whole_line in *.
        exists s'. rewrite E, !Hk. split; [|cbn [app]; by f_equal]. do 3 f_equal.
        assert (ends_nl (c :: whole_line (rest s1)) = ends_nl (whole_line (rest s1))) as ->; [|done].
        destruct (whole_line (rest s1)) as [|x w]; [|by apply ends_nl_cons].
        change (ends_nl []) with false. change (ends_nl [c]) with (c =? 10). by apply Z.eqb_neq.
  - rewrite (He eq_refl). simpl. destruct Hsp as (_ & Hl & Hr & Hq).
    destruct (IH s1 acc) as (s' & E & Hr'); [done|done|rewrite Hr; destruct (sched s); simpl in *; [done|lia]|].
    rewrite Hr in *. exists s'. done.
Qed.
