(* ===== verification/Sbuf.v ===== *)
(** The bounded buffer of csapp/code/conc/sbuf.c and its properties: producers and
    consumers synchronise with two counting semaphores and a mutex.

    Each statement of [sbuf_insert] and [sbuf_remove] is one step of its thread, so that
    all interleavings are covered; a [P] on a semaphore that is 0 is not enabled. *)

From stdpp Require Import base tactics numbers list gmap.
From Stdlib Require Import ZArith Lia Relations.
From S2P Require Import Prelude Cio Threads.

Record sbuf_t := Sbuf { buf : list Z; n : Z; front : Z; rear : Z; mutex : Z; slots : Z; items : Z }.

(** [Sem_init] gives the semaphores their values; [Calloc] zeroes the buffer. *)
Definition sbuf_init (n : Z) : sbuf_t := Sbuf (replicate (Z.to_nat n) 0) n 0 0 1 n 0.

Definition P (v : Z) : option Z := if 0 <? v then Some (v - 1) else None.
Definition V (v : Z) : Z := v + 1.

(** Where a thread is: before a statement of one of the two functions. *)
Inductive pc :=
  | Idle
  | InsSlots (item : Z) | InsMutex (item : Z) | InsStore (item : Z) | InsUnlock | InsItems
  | RemItems | RemMutex | RemLoad | RemUnlock (item : Z) | RemSlots (item : Z).

(** The index of [buf\[++i % n\]], with the C remainder and a 32-bit counter; [None] when
    it is outside the buffer. *)
Definition index (sp : sbuf_t) (i : Z) : option nat :=
  let k := Z.rem i (n sp) in if (0 <=? k) && (k <? Z.of_nat (length (buf sp))) then Some (Z.to_nat k) else None.

Inductive stmt_result := Blocked | Fault | Next (sp : sbuf_t) (c : pc).

(** The next statement of [sbuf_insert]. *)
Definition sbuf_insert (sp : sbuf_t) (c : pc) : stmt_result :=
  match c with
  | InsSlots item =>
      match P (slots sp) with
      | Some v => Next (Sbuf (buf sp) (n sp) (front sp) (rear sp) (mutex sp) v (items sp)) (InsMutex item)
      | None => Blocked
      end
  | InsMutex item =>
      match P (mutex sp) with
      | Some v => Next (Sbuf (buf sp) (n sp) (front sp) (rear sp) v (slots sp) (items sp)) (InsStore item)
      | None => Blocked
      end
  | InsStore item =>
      let rear := i32 (rear sp + 1) in
      match index sp rear with
      | Some k => Next (Sbuf (<[k := item]> (buf sp)) (n sp) (front sp) rear (mutex sp) (slots sp) (items sp)) InsUnlock
      | None => Fault
      end
  | InsUnlock => Next (Sbuf (buf sp) (n sp) (front sp) (rear sp) (V (mutex sp)) (slots sp) (items sp)) InsItems
  | InsItems => Next (Sbuf (buf sp) (n sp) (front sp) (rear sp) (mutex sp) (slots sp) (V (items sp))) Idle
  | _ => Blocked
  end.

(** The next statement of [sbuf_remove]; the item is returned after [RemSlots]. *)
Definition sbuf_remove (sp : sbuf_t) (c : pc) : stmt_result :=
  match c with
  | RemItems =>
      match P (items sp) with
      | Some v => Next (Sbuf (buf sp) (n sp) (front sp) (rear sp) (mutex sp) (slots sp) v) RemMutex
      | None => Blocked
      end
  | RemMutex =>
      match P (mutex sp) with
      | Some v => Next (Sbuf (buf sp) (n sp) (front sp) (rear sp) v (slots sp) (items sp)) RemLoad
      | None => Blocked
      end
  | RemLoad =>
      let front := i32 (front sp + 1) in
      match index sp front with
      | Some k => Next (Sbuf (buf sp) (n sp) front (rear sp) (mutex sp) (slots sp) (items sp))
                    (RemUnlock (default 0 (buf sp !! k)))
      | None => Fault
      end
  | RemUnlock item => Next (Sbuf (buf sp) (n sp) (front sp) (rear sp) (V (mutex sp)) (slots sp) (items sp)) (RemSlots item)
  | RemSlots item => Next (Sbuf (buf sp) (n sp) (front sp) (rear sp) (mutex sp) (V (slots sp)) (items sp)) Idle
  | _ => Blocked
  end.

Definition is_ins (c : pc) : bool :=
  match c with InsSlots _ | InsMutex _ | InsStore _ | InsUnlock | InsItems => true | _ => false end.
Definition stmt (sp : sbuf_t) (c : pc) : stmt_result := if is_ins c then sbuf_insert sp c else sbuf_remove sp c.

(** The buffer and its threads; [stored] and [loaded] are the items in the order in which
    they were stored and loaded. *)
Record sys := Sys { sp : sbuf_t; thr : gmap nat pc; stored : list Z; loaded : list Z }.

Definition log_store (c : pc) (l : list Z) : list Z := match c with InsStore x => l ++ [x] | _ => l end.
Definition log_load (c : pc) (l : list Z) : list Z := match c with RemUnlock x => l ++ [x] | _ => l end.

Inductive sb_step : sys → sys → Prop :=
  | st_insert s t item : thr s !! t = Some Idle →
      sb_step s (Sys (sp s) (<[t := InsSlots item]> (thr s)) (stored s) (loaded s))
  | st_remove s t : thr s !! t = Some Idle →
      sb_step s (Sys (sp s) (<[t := RemItems]> (thr s)) (stored s) (loaded s))
  | st_next s t c sp' c' : thr s !! t = Some c → stmt (sp s) c = Next sp' c' →
      sb_step s (Sys sp' (<[t := c']> (thr s)) (log_store c (stored s))
        (match c with RemLoad => log_load c' (loaded s) | _ => loaded s end)).

Definition sb_initial (k : Z) (s : sys) : Prop :=
  sp s = sbuf_init k ∧ (∀ t c, thr s !! t = Some c → c = Idle) ∧ stored s = [] ∧ loaded s = [].
Definition sb_reachable : sys → sys → Prop := clos_refl_trans_1n _ sb_step.

(** A thread about to do something the C language does not define. *)
Definition faulty (s : sys) : Prop := ∃ t c, thr s !! t = Some c ∧ stmt (sp s) c = Fault.

(** ** The invariant *)

Definition locked (c : pc) : bool :=
  match c with InsStore _ | InsUnlock | RemLoad | RemUnlock _ => true | _ => false end.
(** Holders of a slot: about to store, or done with one they loaded. *)
Definition holds_slot (c : pc) : bool :=
  match c with InsMutex _ | InsStore _ | RemUnlock _ | RemSlots _ => true | _ => false end.
(** Holders of an item: about to load, or yet to announce one they stored. *)
Definition holds_item (c : pc) : bool :=
  match c with RemMutex | RemLoad | InsUnlock | InsItems => true | _ => false end.

(** Item number [i], counted from 1, is at index [i mod n]. *)
Definition holds_items (b : list Z) (k : Z) (st ld : list Z) : Prop :=
  ∀ i x, (length ld <= i)%nat → st !! i = Some x → b !! Z.to_nat ((Z.of_nat i + 1) mod k) = Some x.

Record Inv (k : Z) (s : sys) : Prop := MkInv {
  iv_n : n (sp s) = k ∧ length (buf (sp s)) = Z.to_nat k;
  iv_mutex : mutex (sp s) + tcount locked (thr s) = 1 ∧ 0 <= mutex (sp s);
  iv_slots : slots (sp s) + tcount holds_slot (thr s) + (zlen (stored s) - zlen (loaded s)) = k ∧ 0 <= slots (sp s);
  iv_items : items (sp s) + tcount holds_item (thr s) = zlen (stored s) - zlen (loaded s) ∧ 0 <= items (sp s);
  iv_rear : rear (sp s) = zlen (stored s);
  iv_front : front (sp s) = zlen (loaded s);
  iv_buf : holds_items (buf (sp s)) k (stored s) (loaded s);
  iv_fifo : loaded s = take (length (loaded s)) (stored s) }.

Lemma sb_initial_inv k s : 0 < k → sb_initial k s → Inv k s.
Proof.
  intros Hk (Hsp & Ht & Hst & Hld). destruct s as [sp ts st ld]. cbn [Sbuf.sp thr stored loaded] in *. subst.
  assert (∀ Q, Q Idle = false → tcount Q ts = 0) as Hz.
  { intros Q HQ. pose proof (tcount_nonneg Q ts). destruct (decide (tcount Q ts = 0)) as [|Hne]; [done|].
    destruct (tcount_ex Q ts) as (t & c & E & Hc); [lia|]. apply Ht in E. congruence. }
  split; cbn; rewrite ?Hz, ?length_replicate by done; try done; lia.
Qed.

Lemma index_ok sp i : 0 < n sp → length (buf sp) = Z.to_nat (n sp) → 0 <= i → index sp i = Some (Z.to_nat (i mod n sp)).
Proof.
  intros Hn Hl Hi. unfold index. rewrite Z.rem_mod_nonneg, Hl by lia. pose proof (Z.mod_pos_bound i (n sp) Hn).
  rewrite (proj2 (Z.leb_le 0 _)), (proj2 (Z.ltb_lt _ _)) by lia. done.
Qed.

(** Storing item number [length st + 1] does not overwrite one that is not loaded yet. *)
Lemma holds_items_store b k st ld x :
  0 < k → length b = Z.to_nat k → zlen st - zlen ld < k → zlen ld <= zlen st → holds_items b k st ld →
  holds_items (<[Z.to_nat ((zlen st + 1) mod k) := x]> b) k (st ++ [x]) ld.
Proof.
  intros Hk Hb Hlt Hle H i y Hi Hy. unfold zlen in *. pose proof (Z.mod_pos_bound (Z.of_nat (length st) + 1) k Hk).
  apply lookup_snoc_Some in Hy as [[Hi' Hy]|[-> ->]]; [|rewrite list_lookup_insert_eq by lia; done].
  rewrite list_lookup_insert_ne; [by apply H|]. intros E.
  pose proof (Z.mod_pos_bound (Z.of_nat i + 1) k Hk). apply (f_equal Z.of_nat) in E. rewrite !Z2Nat.id in E by lia.
  assert ((Z.of_nat (length st) - Z.of_nat i) mod k = 0) as Hm.
  { apply Z.cong_iff_0 in E. rewrite <- E. f_equal. lia. }
  rewrite Z.mod_small in Hm by lia. lia.
Qed.

Lemma P_Some v v' : P v = Some v' → 0 < v ∧ v' = v - 1.
Proof. unfold P. destruct (Z.ltb_spec 0 v); intros; simplify_eq; lia. Qed.

(** The effect of a step of thread [t] on the counts, and bounds on them. *)
Ltac counts Ht :=
  rewrite ?(tcount_insert locked _ _ _ _ Ht), ?(tcount_insert holds_slot _ _ _ _ Ht), ?(tcount_insert holds_item _ _ _ _ Ht);
  cbn [locked holds_slot holds_item b2z].
Ltac sb_simpl := cbn [sp thr stored loaded buf n front rear mutex slots items V] in *.

Ltac sb_done Ht := split; sb_simpl; counts Ht; unfold V; try done; split; done || lia.
(** A [P] that succeeds. *)
Ltac sb_P E Ht :=
  match type of E with
  | context [P ?v] =>
      let w := fresh "w" in let Ew := fresh "Ew" in
      destruct (P v) as [w|] eqn:Ew; [|done]; apply P_Some in Ew as [? ->]; injection E as <- <-; intros _; sb_done Ht
  end.

Lemma locked_nonneg ts t c : ts !! t = Some c → locked c = true → 1 <= tcount locked ts.
Proof. intros Ht Hc. pose proof (tcount_pos locked _ _ _ Ht Hc). lia. Qed.

Lemma inv_step k s s' : 0 < k → Inv k s → sb_step s s' → zlen (stored s') <= INT_MAX → Inv k s'.
Proof.
  intros Hk Hi Hst. destruct Hst as [s t item Ht|s t Ht|s t c sp' c' Ht E]; destruct Hi as [[Hn Hl] [Hm Hm0] [Hs Hs0] [Hit Hit0] Hr Hf Hb Hfifo].
  1-2: intros _; sb_done Ht.
  pose proof (tcount_nonneg holds_slot (thr s)). pose proof (tcount_nonneg holds_item (thr s)).
  destruct c as [|x|x|x| | | | | |x|x]; cbn [stmt is_ins sbuf_insert sbuf_remove log_store log_load] in *; try done.
  - sb_P E Ht.
  - sb_P E Ht.
  - intros Hmax. sb_simpl. rewrite Hr in E. unfold zlen in Hmax. rewrite length_app in Hmax. simpl in Hmax.
    pose proof (tcount_pos holds_slot _ _ _ Ht eq_refl).
    rewrite i32_id in E by (unfold zlen, INT_MAX in *; lia). rewrite <- Hn in Hl.
    rewrite index_ok in E by (unfold zlen; done || lia). injection E as <- <-. rewrite Hn in *.
    assert (zlen (stored s ++ [x]) = zlen (stored s) + 1) as El by (unfold zlen; rewrite length_app; simpl; lia).
    split; sb_simpl; rewrite ?El; counts Ht; try done; try (split; done || lia).
    + split; [done|]. by rewrite length_insert.
    + apply holds_items_store; unfold zlen in *; done || lia.
    + rewrite take_app_le by (unfold zlen in *; lia). done.
  - injection E as <- <-. intros _. pose proof (locked_nonneg _ _ _ Ht eq_refl). sb_done Ht.
  - injection E as <- <-. intros _. sb_done Ht.
  - sb_P E Ht.
  - sb_P E Ht.
  - intros Hmax. sb_simpl. rewrite Hf in E. pose proof (tcount_pos holds_item _ _ _ Ht eq_refl).
    rewrite i32_id in E by (unfold zlen, INT_MAX in *; lia). rewrite <- Hn in Hl.
    rewrite index_ok in E by (unfold zlen; done || lia). rewrite Hn in *.
    destruct (lookup_lt_is_Some_2 (stored s) (length (loaded s))) as [x Hx]; [unfold zlen in *; lia|].
    unfold zlen in E. rewrite (Hb _ _ (Nat.le_refl _) Hx) in E. injection E as <- <-. cbn [default log_load].
    assert (zlen (loaded s ++ [x]) = zlen (loaded s) + 1) as El by (unfold zlen; rewrite length_app; simpl; lia).
    split; sb_simpl; rewrite ?El; counts Ht; try done; try (split; done || lia).
    + intros i y Hi. apply Hb. rewrite length_app in Hi. simpl in Hi. lia.
    + rewrite length_app, Nat.add_1_r. rewrite (take_S_r _ _ x Hx). by f_equal.
  - injection E as <- <-. intros _. pose proof (locked_nonneg _ _ _ Ht eq_refl). sb_done Ht.
  - injection E as <- <-. intros _. sb_done Ht.
Qed.

Lemma stored_mono s s' : sb_step s s' → zlen (stored s) <= zlen (stored s').
Proof. intros []; cbn [stored]; try lia. destruct c; cbn [log_store]; unfold zlen; rewrite ?length_app; lia. Qed.

Lemma stored_mono_reachable s s' : sb_reachable s s' → zlen (stored s) <= zlen (stored s').
Proof. induction 1 as [|s s1 s' Hst _ IH]; [lia|]. apply stored_mono in Hst. lia. Qed.

Lemma inv_reachable k s s' : 0 < k → Inv k s → sb_reachable s s' → zlen (stored s') <= INT_MAX → Inv k s'.
Proof.
  intros Hk Hi Hr. induction Hr as [|s s1 s' Hst Hr IH]; intros Hmax; [done|]. apply IH; [|done].
  apply stored_mono_reachable in Hr. eapply inv_step; [done|done|done|lia].
Qed.

(** A thread that has a step. *)
Definition can_step (s : sys) (c : pc) : Prop := ∃ sp' c', stmt (sp s) c = Next sp' c'.

Lemma inv_stmt k s t c : 0 < k → Inv k s → zlen (stored s) < INT_MAX → thr s !! t = Some c →
  stmt (sp s) c ≠ Fault ∧ (locked c = true ∨ c = InsItems ∨ (∃ x, c = RemSlots x) → can_step s c).
Proof.
  intros Hk [[Hn Hl] _ [Hs ?] [Hit ?] Hr Hf _ _] Hmax Ht. rewrite <- Hn in Hl, Hk.
  pose proof (tcount_nonneg holds_item (thr s)).
  assert (∀ i, 0 <= i <= zlen (stored s) → index (sp s) (i32 (i + 1)) = Some (Z.to_nat ((i + 1) mod n (sp s)))) as Hix.
  { intros i Hi. rewrite i32_id by (unfold INT_MAX in *; lia). apply index_ok; done || lia. }
  unfold can_step. destruct c; cbn [stmt is_ins sbuf_insert sbuf_remove locked]; try (by case_match; naive_solver); try naive_solver.
  - rewrite Hr, Hix by (unfold zlen; lia). naive_solver.
  - rewrite Hf, Hix by (unfold zlen in *; lia). naive_solver.
Qed.

(** If no thread can go on, every thread is outside the functions or at their first
    statement, and the buffer is not both full and empty. *)
Lemma inv_no_deadlock k s t1 t2 x :
  0 < k → Inv k s → zlen (stored s) < INT_MAX → thr s !! t1 = Some (InsSlots x) → thr s !! t2 = Some RemItems →
  ∃ t c, thr s !! t = Some c ∧ c ≠ Idle ∧ can_step s c.
Proof.
  intros Hk Hi Hmax Ht1 Ht2.
  assert (∀ t c, thr s !! t = Some c → locked c = true ∨ c = InsItems ∨ (∃ x, c = RemSlots x) →
    ∃ t c, thr s !! t = Some c ∧ c ≠ Idle ∧ can_step s c) as Hgo.
  { intros t c Ht Hc. exists t, c. split_and!; [done|naive_solver|]. by eapply inv_stmt. }
  pose proof Hi as [_ [Hm Hm0] [Hs Hs0] [Hit Hit0] _ _ _ _].
  pose proof (tcount_nonneg locked (thr s)). pose proof (tcount_nonneg holds_slot (thr s)). pose proof (tcount_nonneg holds_item (thr s)).
  destruct (decide (tcount locked (thr s) = 0)) as [E0|E0]; last first.
  { destruct (tcount_ex locked (thr s)) as (t & c & Ht & Hc); [lia|]. eauto. }
  assert (P (mutex (sp s)) = Some (mutex (sp s) - 1)) as HP by (unfold P; rewrite (proj2 (Z.ltb_lt 0 _)) by lia; done).
  destruct (decide (tcount holds_slot (thr s) = 0)) as [E1|E1]; last first.
  { destruct (tcount_ex holds_slot (thr s)) as (t & c & Ht & Hc); [lia|]. destruct c; try discriminate Hc; eauto 6.
    eexists t, _. split_and!; [done|done|]. unfold can_step, stmt. simpl. rewrite HP. eauto. }
  destruct (decide (tcount holds_item (thr s) = 0)) as [E2|E2]; last first.
  { destruct (tcount_ex holds_item (thr s)) as (t & c & Ht & Hc); [lia|]. destruct c; try discriminate Hc; eauto 6.
    eexists t, _. split_and!; [done|done|]. unfold can_step, stmt. simpl. rewrite HP. eauto. }
  destruct (decide (0 < slots (sp s))) as [E3|E3].
  - eexists t1, _. split_and!; [done|done|]. unfold can_step, stmt. simpl. unfold P. rewrite (proj2 (Z.ltb_lt 0 _)) by lia. eauto.
  - eexists t2, _. split_and!; [done|done|]. unfold can_step, stmt. simpl. unfold P. rewrite (proj2 (Z.ltb_lt 0 _)) by lia. eauto.
Qed.

(** C36: with any number of producers and consumers, under any interleaving of the
    statements of [sbuf_insert] and [sbuf_remove] and up to INT_MAX insertions, items
    are loaded in the order in which they are stored, each once; at most [k] stored
    items wait in a buffer of [k] slots; at most one thread is between the mutex
    operations; no access is outside the buffer; and a waiting producer and a waiting
    consumer never deadlock. *)
Theorem sbuf_correct k s0 s :
  0 < k → sb_initial k s0 → sb_reachable s0 s → zlen (stored s) < INT_MAX →
  loaded s `prefix_of` stored s ∧
  zlen (stored s) - zlen (loaded s) <= k ∧
  tcount locked (thr s) <= 1 ∧
  ¬ faulty s ∧
  (∀ t1 t2 x, thr s !! t1 = Some (InsSlots x) → thr s !! t2 = Some RemItems →
    ∃ t c, thr s !! t = Some c ∧ c ≠ Idle ∧ can_step s c).
Proof.
  intros Hk H0 Hr Hmax. assert (Inv k s) as Hi by (eapply inv_reachable; [done|by eapply sb_initial_inv|done|lia]).
  pose proof Hi as [_ [Hm Hm0] [Hs Hs0] _ _ _ _ Hfifo]. pose proof (tcount_nonneg holds_slot (thr s)). split_and!.
  - rewrite Hfifo. exists (drop (length (loaded s)) (stored s)). by rewrite take_drop.
  - lia.
  - lia.
  - intros (t & c & Ht & Hc). by destruct (inv_stmt k s t c Hk Hi Hmax Ht).
  - intros t1 t2 x. by apply inv_no_deadlock with k.
Qed.

(** A buffer of one slot with a producer and a consumer that wait. *)
Definition ex_s0 : sys := Sys (sbuf_init 1) (<[0%nat := Idle]> {[1%nat := Idle]}) [] [].
Definition ex_s1 : sys := Sys (sbuf_init 1) (<[0%nat := InsSlots 7]> (thr ex_s0)) [] [].
Definition ex_s2 : sys := Sys (sbuf_init 1) (<[1%nat := RemItems]> (thr ex_s1)) [] [].

Lemma sbuf_correct_witness : ∃ t c, thr ex_s2 !! t = Some c ∧ c ≠ Idle ∧ can_step ex_s2 c.
Proof.
  destruct (sbuf_correct 1 ex_s0 ex_s2) as (_ & _ & _ & _ & H).
  - done.
  - split_and!; try done. intros t c. unfold ex_s0. cbn [thr]. rewrite lookup_insert_Some, lookup_singleton_Some. naive_solver.
  - apply (rt_snoc _ _ ex_s1); [|by apply (st_remove ex_s1 1)].
    apply (rt_snoc _ _ ex_s0); [apply Relation_Operators.rt1n_refl|by apply (st_insert ex_s0 0 7)].
  - done.
  - by apply (H 0%nat 1%nat 7).
Defined.

(** Insertion number 2^31 overflows [rear], and the index becomes negative unless the
    number of slots divides 2^31. *)
Lemma sbuf_rear_overflow b st ld :
  sbuf_insert (Sbuf b 3 0 INT_MAX st 1 ld) (InsStore 7) = Fault.
Proof. reflexivity. Qed.
