(* ===== verification/Inet.v ===== *)
(** Internet addresses and the internet checksum: inet_pton.c, inet_ntop.c, inet_aton.c,
    inet_pton_ipv4.c, inet_ntop_ipv4.c and in_cksum.c of unpv13e/libfree.

    A C string is the list of its characters without the terminating 0; an address is a
    list of bytes in network order. *)

From stdpp Require Import base tactics numbers list.
From Stdlib Require Import ZArith Lia.
From S2P Require Import Prelude Cio.

Definition AF_INET : Z := 2.
Definition AF_INET6 : Z := 10.
Definition EAFNOSUPPORT : Z := 97.
Definition ENOSPC : Z := 28.
Definition IN6ADDRSZ : nat := 16.
Definition INADDRSZ : nat := 4.
Definition INT16SZ : nat := 2.
Definition DOT : Z := 46.
Definition COLON : Z := 58.

(** [strchr] in the strings of digits: the offset of the character. *)
Definition digit (ch : Z) : option Z := if is_digit ch then Some (ch - 48) else None.
Definition xdigit (ch : Z) : option Z :=
  if is_digit ch then Some (ch - 48)
  else if (97 <=? ch) && (ch <=? 102) then Some (ch - 87)
  else if (65 <=? ch) && (ch <=? 70) then Some (ch - 55)
  else None.

(** [sprintf] with "%x" of a number below [16 ^ fuel]. *)
Definition xchar (d : Z) : Z := if d <? 10 then 48 + d else 87 + d.
Fixpoint hex_digits (fuel : nat) (n : Z) : list Z :=
  match fuel with
  | O => []
  | S fuel => if n <? 16 then [xchar n] else hex_digits fuel (n / 16) ++ [xchar (n mod 16)]
  end.
Definition hex (n : Z) : list Z := hex_digits 8 n.

(** ** inet_pton.c *)

(** The loop of [inet_pton4]; [tmp] holds the octets before [*tp], which is [cur]. *)
Fixpoint pton4_loop (src tmp : list Z) (cur : Z) (saw_digit : bool) (octets : Z) : option (list Z) :=
  match src with
  | [] => if octets <? 4 then None else Some (tmp ++ [cur])
  | ch :: src =>
    match digit ch with
    | Some d =>
      let new := cur * 10 + d in
      if 255 <? new then None
      else if saw_digit then pton4_loop src tmp new true octets
      else if 4 <? octets + 1 then None else pton4_loop src tmp new true (octets + 1)
    | None =>
      if (ch =? DOT) && saw_digit then
        if octets =? 4 then None else pton4_loop src (tmp ++ [cur]) 0 false octets
      else None
    end
  end.
Definition inet_pton4 (src : list Z) : option (list Z) := pton4_loop src [] 0 false 0.

(** Two bytes of [val] stored at [tp]. *)
Definition put16 (tmp : list Z) (tp : nat) (val : Z) : list Z :=
  <[S tp := Z.land val 0xff]> (<[tp := Z.land (Z.shiftr val 8) 0xff]> tmp).

(** The variables of [inet_pton6] when the loop ends. *)
Record p6 := P6 { tmp : list Z; tp : nat; colonp : option nat; saw_xdigit : bool; val : Z }.

Fixpoint pton6_loop (src curtok : list Z) (s : p6) : option p6 :=
  match src with
  | [] => Some s
  | ch :: src =>
    match xdigit ch with
    | Some d =>
      let v := Z.lor (Z.shiftl (val s) 4) d in
      if 0xffff <? v then None else pton6_loop src curtok (P6 (tmp s) (tp s) (colonp s) true v)
    | None =>
      if ch =? COLON then
        if negb (saw_xdigit s) then
          match colonp s with
          | Some _ => None
          | None => pton6_loop src src (P6 (tmp s) (tp s) (Some (tp s)) false (val s))
          end
        else if (IN6ADDRSZ <? tp s + INT16SZ)%nat then None
        else pton6_loop src src (P6 (put16 (tmp s) (tp s) (val s)) (tp s + 2) (colonp s) false 0)
      else if (ch =? DOT) && (tp s + INADDRSZ <=? IN6ADDRSZ)%nat then
        match inet_pton4 curtok with
        | Some a => Some (P6 (list_inserts (tp s) a (tmp s)) (tp s + INADDRSZ) (colonp s) false (val s))
        | None => None
        end
      else None
    end
  end.

(** The loop that shifts the [n] bytes from [colonp] on to the end. *)
Fixpoint shift_loop (k i : nat) (colonp n : nat) (tmp : list Z) : list Z :=
  match k with
  | O => tmp
  | S k =>
    let tmp := <[(IN6ADDRSZ - i)%nat := default 0 (tmp !! (colonp + (n - i))%nat)]> tmp in
    shift_loop k (S i) colonp n (<[(colonp + (n - i))%nat := 0]> tmp)
  end.

(** What follows the loop. *)
Definition pton6_end (s : p6) : option (list Z) :=
  match
    (if saw_xdigit s then
       if (IN6ADDRSZ <? tp s + INT16SZ)%nat then None
       else Some (P6 (put16 (tmp s) (tp s) (val s)) (tp s + 2) (colonp s) (saw_xdigit s) (val s))
     else Some s)
  with
  | None => None
  | Some s =>
    match colonp s with
    | Some c => Some (shift_loop (tp s - c) 1 c (tp s - c) (tmp s))
    | None => if (tp s =? IN6ADDRSZ)%nat then Some (tmp s) else None
    end
  end.

Definition inet_pton6 (src : list Z) : option (list Z) :=
  let start src := match pton6_loop src src (P6 (replicate IN6ADDRSZ 0) 0 None false 0) with
                   | Some s => pton6_end s
                   | None => None
                   end in
  match src with
  | c :: src' => if c =? COLON then
                   match src' with
                   | c' :: _ => if c' =? COLON then start src' else None
                   | [] => None
                   end
                 else start src
  | [] => start src
  end.

(** The value returned, [dst] and [errno]. *)
Definition inet_pton (af : Z) (src dst : list Z) (errno : Z) : Z * list Z * Z :=
  let store r := match r with Some a => (1, a, errno) | None => (0, dst, errno) end in
  if af =? AF_INET then store (inet_pton4 src)
  else if af =? AF_INET6 then store (inet_pton6 src)
  else (-1, dst, EAFNOSUPPORT).

(** ** inet_ntop.c *)

(** The characters stored at [dst], with the terminating 0; [None] is a null pointer
    with ENOSPC. *)
Definition ntop4_text (src : list Z) : list Z :=
  let b i := dec (default 0 (src !! i)) in b 0%nat ++ [DOT] ++ b 1%nat ++ [DOT] ++ b 2%nat ++ [DOT] ++ b 3%nat.
Definition inet_ntop4 (src : list Z) (size : Z) : option (list Z) :=
  if size <? zlen (ntop4_text src) then None else Some (ntop4_text src ++ [0]).

(** The array [words]. *)
Definition words (src : list Z) : list Z :=
  map (λ i, Z.lor (Z.shiftl (default 0 (src !! (2 * i)%nat)) 8) (default 0 (src !! (2 * i + 1)%nat))) (seq 0 8).

(** A run of zero words: [base], -1 if there is none, and [len]. *)
Record run := Run { base : Z; len : Z }.
Definition better (cur best : run) : run :=
  if negb (base cur =? -1) && ((base best =? -1) || (len best <? len cur)) then cur else best.

(** The loop that looks for the longest run. *)
Fixpoint runs_loop (i : Z) (ws : list Z) (cur best : run) : run :=
  match ws with
  | [] => better cur best
  | w :: ws =>
    if w =? 0 then
      runs_loop (i + 1) ws (if base cur =? -1 then Run i 1 else Run (base cur) (len cur + 1)) best
    else runs_loop (i + 1) ws (Run (-1) (len cur)) (better cur best)
  end.
Definition best_run (ws : list Z) : run :=
  let b := runs_loop 0 ws (Run (-1) 0) (Run (-1) 0) in
  if negb (base b =? -1) && (len b <? 2) then Run (-1) (len b) else b.

(** The loop that formats the words from number [i] on; an embedded IPv4 address ends
    it. *)
Fixpoint fmt_loop (i : Z) (ws src : list Z) (best : run) (w5 : Z) : list Z :=
  match ws with
  | [] => []
  | w :: ws =>
    if negb (base best =? -1) && (base best <=? i) && (i <? base best + len best) then
      (if i =? base best then [COLON] else []) ++ fmt_loop (i + 1) ws src best w5
    else
      (if negb (i =? 0) then [COLON] else []) ++
      (if (i =? 6) && (base best =? 0) && ((len best =? 6) || ((len best =? 5) && (w5 =? 0xffff)))
       then ntop4_text (drop 12 src)
       else hex w ++ fmt_loop (i + 1) ws src best w5)
  end.

(** The text in [tmp], which has 46 bytes; the size passed to [inet_ntop4] is never too
    small. *)
Definition ntop6_text (src : list Z) : list Z :=
  let ws := words src in
  let best := best_run ws in
  fmt_loop 0 ws src best (default 0 (ws !! 5%nat)) ++
  (if negb (base best =? -1) && (base best + len best =? 8) then [COLON] else []).
Definition inet_ntop6 (src : list Z) (size : Z) : option (list Z) :=
  if size <? zlen (ntop6_text src) + 1 then None else Some (ntop6_text src ++ [0]).

(** What is stored at [dst], and [errno]. *)
Definition inet_ntop (af : Z) (src : list Z) (size : Z) (errno : Z) : option (list Z) * Z :=
  let store r := match r with Some t => (Some t, errno) | None => (None, ENOSPC) end in
  if af =? AF_INET then store (inet_ntop4 src size)
  else if af =? AF_INET6 then store (inet_ntop6 src size)
  else (None, EAFNOSUPPORT).

(** ** inet_aton.c, inet_pton_ipv4.c, inet_ntop_ipv4.c *)

(** The loop of [inet_aton], which also handles the terminating 0; [u_long] has 64
    bits. *)
Fixpoint aton_loop (cp : list Z) (dots acc addr : Z) : option (Z * Z) :=
  match cp with
  | [] => if 255 <? acc then None else Some (dots, Z.lor (u64 (Z.shiftl addr 8)) acc)
  | cc :: cp =>
    if is_digit cc then aton_loop cp dots (u64 (acc * 10 + (cc - 48))) addr
    else if cc =? DOT then
      if 3 <? dots + 1 then None
      else if 255 <? acc then None
      else aton_loop cp (dots + 1) 0 (Z.lor (u64 (Z.shiftl addr 8)) acc)
    else None
  end.

(** The bytes of [htonl(addr)] in memory order. *)
Definition be32 (addr : Z) : list Z :=
  map (λ k, Z.land (Z.shiftr addr k) 0xff) [24; 16; 8; 0].

Definition inet_aton (cp : list Z) : option (list Z) :=
  match aton_loop cp 0 0 0 with
  | None => None
  | Some (dots, addr) => Some (be32 (if dots <? 3 then u64 (Z.shiftl addr (8 * (3 - dots))) else addr))
  end.

Definition inet_pton_ipv4 (family : Z) (strptr addrptr : list Z) (errno : Z) : Z * list Z * Z :=
  if family =? AF_INET then
    match inet_aton strptr with Some a => (1, a, errno) | None => (0, addrptr, errno) end
  else (-1, addrptr, EAFNOSUPPORT).

Definition inet_ntop_ipv4 (family : Z) (addrptr : list Z) (len : Z) (errno : Z) : option (list Z) * Z :=
  if family =? AF_INET then
    let temp := take 15 (ntop4_text addrptr) in
    if len <=? zlen temp then (None, ENOSPC) else (Some (temp ++ [0]), errno)
  else (None, EAFNOSUPPORT).

(** ** in_cksum.c *)

(** The loop adds the 16-bit words; [w] is the memory in words of the host's order, and
    the odd byte is the first one of a word whose other byte is 0.  [lo] says whether the
    first byte of a word in memory is the low one. *)
Fixpoint cksum_loop (lo : bool) (l : list Z) (sum : Z) : Z :=
  match l with
  | a :: b :: l => cksum_loop lo l (u32 (sum + (if lo then a + 256 * b else 256 * a + b)))
  | [a] => u32 (sum + (if lo then a else 256 * a))
  | [] => sum
  end.
Definition in_cksum (lo : bool) (addr : list Z) : Z :=
  let sum := cksum_loop lo addr 0 in
  let sum := u32 (Z.shiftr sum 16 + Z.land sum 0xffff) in
  let sum := u32 (sum + Z.shiftr sum 16) in
  u16 (Z.lnot sum).
