(* ===== verification/InetProps.v ===== *)
(** Properties of the address conversions and of the internet checksum. *)

From stdpp Require Import base tactics numbers list strings.
From Stdlib Require Import ZArith Lia.
From S2P Require Import Prelude Cio Inet.

Definition is_byte (b : Z) : Prop := 0 <= b <= 255.

(** ** IPv4 *)

(** A decimal number up to 255 extends the current octet. *)
Lemma pton4_digits l src tmp cur saw oct :
  all_digits l → 0 <= cur → digits_value cur l <= 255 → l ≠ [] → oct <= 3 ∨ saw = true →
  pton4_loop (l ++ src) tmp cur saw oct =
  pton4_loop src tmp (digits_value cur l) true (if saw then oct else oct + 1).
Proof.
  intros Hl. revert cur saw oct. induction Hl as [|c l Hc Hl IH]; intros cur saw oct H0 Hv Hne Ho; [done|].
  cbn [app pton4_loop digits_value] in *. unfold digit. rewrite Hc in *.
  assert (0 <= c - 48 <= 9) as Hd by (unfold is_digit in Hc; lia).
  assert (∀ a k, all_digits k → 0 <= a → a <= digits_value a k) as Hmono.
  { clear. intros a k Hk. revert a. induction Hk as [|x k Hx _ IHk]; intros a Ha; cbn [digits_value]; [lia|].
    rewrite Hx. assert (0 <= x - 48) by (unfold is_digit in Hx; lia). specialize (IHk (a * 10 + (x - 48))). lia. }
  pose proof (Hmono (cur * 10 + (c - 48)) l Hl ltac:(lia)).
  rewrite (proj2 (Z.ltb_ge 255 _)) by lia. destruct l as [|c' l'].
  - destruct saw; [done|]. rewrite (proj2 (Z.ltb_ge 4 _)) by (destruct Ho; [lia|done]). done.
  - destruct saw; [|rewrite (proj2 (Z.ltb_ge 4 _)) by (destruct Ho; [lia|done])];
      (rewrite IH; [done|lia|done|done|by right]).
Qed.

Lemma pton4_octet b src tmp oct :
  is_byte b → oct <= 3 → pton4_loop (dec b ++ src) tmp 0 false oct = pton4_loop src tmp b true (oct + 1).
Proof.
  intros Hb Ho. destruct (dec_spec b) as [Hd Hv]; [unfold is_byte, dec_max in *; lia|].
  rewrite pton4_digits; rewrite ?Hv; try done; [unfold is_byte in Hb; lia| |by left].
  pose proof (dec_length_pos b). unfold is_byte in Hb. destruct (dec b); [simpl in *; lia|done].
Qed.

Lemma pton4_dot src tmp cur oct : oct <= 3 → pton4_loop (DOT :: src) tmp cur true oct = pton4_loop src (tmp ++ [cur]) 0 false oct.
Proof. intros Ho. cbn [pton4_loop]. by rewrite (proj2 (Z.eqb_neq oct 4)) by lia. Qed.

Lemma inet_pton4_ntop4 a b c d :
  is_byte a → is_byte b → is_byte c → is_byte d → inet_pton4 (ntop4_text [a; b; c; d]) = Some [a; b; c; d].
Proof.
  intros. unfold inet_pton4, ntop4_text. cbn [lookup list_lookup from_option]; unfold id; cbn [app].
  rewrite !pton4_octet, pton4_dot, pton4_octet, pton4_dot, pton4_octet, pton4_dot by (done || lia).
  rewrite <- (app_nil_r (dec d)), pton4_octet by (done || lia). done.
Qed.

(** What [inet_pton4] accepts is four bytes. *)
Lemma pton4_loop_bytes src tmp cur (saw : bool) oct a :
  Forall is_byte tmp → is_byte cur → Z.of_nat (length tmp) + (if saw then 1 else 0) = oct → (length tmp <= 3)%nat →
  pton4_loop src tmp cur saw oct = Some a → Forall is_byte a ∧ length a = 4%nat.
Proof.
  revert tmp cur saw oct. induction src as [|ch src IH]; intros tmp cur saw oct Ht Hc Hl Ho; cbn [pton4_loop].
  - destruct (Z.ltb_spec oct 4); intros; simplify_eq. split.
    + apply Forall_app. split; [done|by apply Forall_singleton].
    + rewrite length_app. simpl. destruct saw; lia.
  - unfold digit. destruct (is_digit ch) eqn:Ed.
    + destruct (Z.ltb_spec 255 (cur * 10 + (ch - 48))); [done|].
      assert (is_byte (cur * 10 + (ch - 48))) by (unfold is_byte, is_digit in *; lia).
      destruct saw; [apply IH; done|]. destruct (Z.ltb_spec 4 (oct + 1)); [done|]. apply IH; done || lia.
    + destruct (ch =? DOT), saw; try done. simpl. destruct (Z.eqb_spec oct 4); [done|].
      apply IH; [apply Forall_app; split; [done|by apply Forall_singleton]|by unfold is_byte|rewrite length_app; simpl; lia|rewrite length_app; simpl; lia].
Qed.

Lemma inet_pton4_bytes src a : inet_pton4 src = Some a → Forall is_byte a ∧ length a = 4%nat.
Proof. apply pton4_loop_bytes; [done|by unfold is_byte|done|simpl; lia]. Qed.

Lemma ntop4_length a b c d : is_byte a → is_byte b → is_byte c → is_byte d → zlen (ntop4_text [a; b; c; d]) <= 15.
Proof.
  unfold is_byte. intros. unfold ntop4_text. cbn [lookup list_lookup from_option]; unfold id. unfold zlen. rewrite !length_app. simpl.
  pose proof (dec_length 3 a). pose proof (dec_length 3 b). pose proof (dec_length 3 c). pose proof (dec_length 3 d). lia.
Qed.

(** ** IPv6: parsing *)

Definition is_word (w : Z) : Prop := 0 <= w <= 0xffff.
Definition wbytes (w : Z) : list Z := [Z.land (Z.shiftr w 8) 0xff; Z.land w 0xff].
Abbreviation words_bytes ws := (concat (map wbytes ws)).

Lemma length_words_bytes ws : length (words_bytes ws) = (2 * length ws)%nat.
Proof. induction ws as [|w ws IH]; [done|]. simpl. rewrite IH. lia. Qed.

(** The array [tmp] after bytes [d] were stored. *)
Definition arr (d : list Z) : list Z := d ++ replicate (16 - length d) 0.

Lemma arr_put d b : (length d < 16)%nat → <[length d := b]> (arr d) = arr (d ++ [b]).
Proof.
  intros Hd. unfold arr. rewrite insert_app_r_alt, Nat.sub_diag, length_app by lia. simpl.
  replace (16 - length d)%nat with (S (16 - (length d + 1))) by lia. simpl. by rewrite <- app_assoc.
Qed.

Lemma put16_arr d w : (length d + 2 <= 16)%nat → put16 (arr d) (length d) w = arr (d ++ wbytes w).
Proof.
  intros Hd. unfold put16. rewrite arr_put by lia.
  replace (S (length d)) with (length (d ++ [Z.land (Z.shiftr w 8) 0xff])) by (rewrite length_app; simpl; lia).
  rewrite arr_put by (rewrite length_app; simpl; lia). by rewrite <- app_assoc.
Qed.

(** The state between two tokens. *)
Abbreviation mid d c := (P6 (arr d) (length d) c false 0).

Lemma xdigit_xchar d : 0 <= d < 16 → xdigit (xchar d) = Some d.
Proof.
  intros Hd. unfold xdigit, xchar, is_digit. destruct (Z.ltb_spec d 10).
  - replace ((48 <=? 48 + d) && (48 + d <=? 57)) with true by lia. f_equal. lia.
  - replace ((48 <=? 87 + d) && (87 + d <=? 57)) with false by lia.
    replace ((97 <=? 87 + d) && (87 + d <=? 102)) with true by lia. f_equal. lia.
Qed.

(** A disjunction of bits that do not overlap is a sum. *)
Lemma lor_shiftl v d k : 0 <= k → 0 <= d < 2 ^ k → Z.lor (Z.shiftl v k) d = v * 2 ^ k + d.
Proof.
  intros Hk Hd. rewrite Z.shiftl_mul_pow2 by lia. rewrite <- Z.add_lor_land.
  assert (Z.land (v * 2 ^ k) d = 0) as ->; [|lia].
  apply Z.bits_inj'. intros j Hj. rewrite Z.land_spec, Z.bits_0.
  destruct (decide (j < k)); [rewrite Z.mul_pow2_bits_low by lia; done|].
  rewrite <- (Z.mod_small d (2 ^ k)) by done. rewrite Z.mod_pow2_bits_high by lia. apply andb_false_r.
Qed.

Lemma lor_digit v d : 0 <= d < 16 → Z.lor (Z.shiftl v 4) d = v * 16 + d.
Proof. intros. by rewrite lor_shiftl. Qed.

Lemma pton6_xdigit d src cur t p c saw v :
  0 <= v → 0 <= d < 16 → v * 16 + d <= 0xffff →
  pton6_loop (xchar d :: src) cur (P6 t p c saw v) = pton6_loop src cur (P6 t p c true (v * 16 + d)).
Proof.
  intros Hv Hd Hle. cbn [pton6_loop val tmp tp colonp]. rewrite xdigit_xchar, lor_digit by done.
  by rewrite (proj2 (Z.ltb_ge 0xffff _)) by lia.
Qed.

Lemma pton6_hex_digits fuel w src cur t p c saw :
  0 <= w < 16 ^ Z.of_nat fuel → w <= 0xffff → (0 < fuel)%nat →
  pton6_loop (hex_digits fuel w ++ src) cur (P6 t p c saw 0) = pton6_loop src cur (P6 t p c true w).
Proof.
  revert w src. induction fuel as [|fuel IH]; intros w src Hw Hle Hf; [lia|]. cbn [hex_digits].
  destruct (Z.ltb_spec w 16) as [H|H].
  - cbn [app]. rewrite pton6_xdigit by lia. done.
  - destruct fuel as [|fuel]; [change (16 ^ Z.of_nat 1) with 16 in Hw; lia|].
    assert (0 <= w / 16 < 16 ^ Z.of_nat (S fuel)).
    { split; [apply Z.div_pos; lia|]. apply Z.div_lt_upper_bound; [lia|].
      replace (Z.of_nat (S (S fuel))) with (1 + Z.of_nat (S fuel)) in Hw by lia. rewrite Z.pow_add_r in Hw by lia. lia. }
    pose proof (Z.mod_pos_bound w 16). pose proof (Z.div_mod w 16).
    rewrite <- app_assoc, IH by lia. cbn [app]. rewrite pton6_xdigit by lia. do 2 f_equal. lia.
Qed.

Lemma pton6_hex w src cur t p c saw :
  is_word w → pton6_loop (hex w ++ src) cur (P6 t p c saw 0) = pton6_loop src cur (P6 t p c true w).
Proof. unfold is_word. intros Hw. apply pton6_hex_digits; [|lia|lia]. change (16 ^ Z.of_nat 8) with 4294967296. lia. Qed.

(** A word and its colon; the double colon. *)
Lemma pton6_token w src cur d c :
  is_word w → (length d + 2 <= 16)%nat →
  pton6_loop (hex w ++ COLON :: src) cur (mid d c) = pton6_loop src src (mid (d ++ wbytes w) c).
Proof.
  intros Hw Hd. rewrite pton6_hex by done. cbn [pton6_loop]. change (xdigit COLON) with (@None Z). cbn [saw_xdigit negb tp tmp val colonp].
  change (COLON =? COLON) with true. cbv iota. rewrite (proj2 (Nat.ltb_ge 16 _)) by (unfold INT16SZ; lia).
  rewrite put16_arr by done. rewrite length_app. done.
Qed.

Lemma pton6_colons src cur d : pton6_loop (COLON :: src) cur (mid d None) = pton6_loop src src (mid d (Some (length d))).
Proof. done. Qed.

(** Words each followed by a colon, and words separated by colons. *)
Abbreviation terminated ws := (concat (map (λ w, hex w ++ [COLON]) ws)).
Fixpoint join (ws : list Z) : list Z :=
  match ws with
  | [] => []
  | w :: ws => hex w ++ match ws with [] => [] | _ => COLON :: join ws end
  end.

Lemma pton6_terminated ws src cur d c :
  Forall is_word ws → (length d + 2 * length ws <= 16)%nat →
  ∃ cur', pton6_loop (terminated ws ++ src) cur (mid d c) = pton6_loop src cur' (mid (d ++ words_bytes ws) c) ∧
    (cur = src ∨ ws ≠ [] → cur' = src).
Proof.
  intros Hws. revert cur d. induction Hws as [|w ws Hw Hws IH]; intros cur d Hd.
  - exists cur. simpl. rewrite app_nil_r. split; [done|]. intros [?|?]; done.
  - simpl in Hd. cbn [map concat]. rewrite <- !app_assoc. cbn [app]. rewrite pton6_token by (done || lia).
    destruct (IH (terminated ws ++ src) (d ++ wbytes w)) as (cur' & E & Hc); [rewrite length_app; simpl; lia|].
    rewrite E, <- app_assoc. exists cur'. split; [done|]. intros _. apply Hc. destruct ws; [by left|by right].
Qed.

Definition fin (r : option p6) : option (list Z) := match r with Some s => pton6_end s | None => None end.

Lemma pton6_join ws cur d c :
  Forall is_word ws → (length d + 2 * length ws <= 16)%nat →
  fin (pton6_loop (join ws) cur (mid d c)) = pton6_end (mid (d ++ words_bytes ws) c).
Proof.
  intros Hws. revert cur d. induction Hws as [|w ws Hw Hws IH]; intros cur d Hd.
  - simpl. by rewrite app_nil_r.
  - simpl in Hd. cbn [join map concat]. destruct ws as [|w' ws'].
    + rewrite pton6_hex by done. cbn [pton6_loop fin]. unfold pton6_end. cbn [saw_xdigit tp tmp colonp val].
      rewrite (proj2 (Nat.ltb_ge 16 _)) by (unfold INT16SZ; simpl in *; lia). rewrite put16_arr by (simpl in *; lia).
      cbn [map concat]. rewrite app_nil_r, length_app. done.
    + rewrite pton6_token by (done || (simpl in *; lia)). rewrite IH, app_assoc by (rewrite length_app; simpl in *; lia). done.
Qed.

(** The loop that shifts the bytes after the double colon. *)
Lemma shift_loop_ok P T D g n i :
  (length P + length T + S g + length D = 16)%nat → n = (length T + length D)%nat → i = S (length D) →
  shift_loop (length T) i (length P) n (P ++ T ++ replicate (S g) 0 ++ D) = P ++ replicate (S g) 0 ++ T ++ D.
Proof.
  revert D i. induction T as [|x T IH] using rev_ind; intros D i Hlen Hn Hi; [done|].
  rewrite length_app in Hlen, Hn. simpl in Hlen, Hn. rewrite length_app, Nat.add_1_r. cbn [shift_loop].
  assert ((P ++ (T ++ [x]) ++ replicate (S g) 0 ++ D) !! (length P + (n - i))%nat = Some x) as ->.
  { rewrite lookup_app_r by lia. rewrite <- app_assoc, lookup_app_r by lia.
    replace (length P + (n - i) - length P - length T)%nat with 0%nat by lia. done. }
  cbn [from_option]. unfold id.
  assert (<[(length P + (n - i))%nat := 0]> (<[(IN6ADDRSZ - i)%nat := x]> (P ++ (T ++ [x]) ++ replicate (S g) 0 ++ D)) =
    P ++ T ++ replicate (S g) 0 ++ (x :: D)) as ->.
  { replace (replicate (S g) 0 ++ D) with (replicate g 0 ++ 0 :: D)
      by (rewrite <- (Nat.add_1_r g), replicate_add, <- app_assoc; done).
    rewrite (app_assoc P), (app_assoc (P ++ T ++ [x])), insert_app_r_alt by (rewrite !length_app, length_replicate; unfold IN6ADDRSZ; simpl; lia).
    replace (IN6ADDRSZ - i - length ((P ++ T ++ [x]) ++ replicate g 0%Z))%nat with 0%nat
      by (rewrite !length_app, length_replicate; unfold IN6ADDRSZ; simpl; lia). cbn [insert list_insert].
    rewrite <- !app_assoc, insert_app_r_alt, insert_app_r_alt by lia.
    replace (length P + (n - i) - length P - length T)%nat with 0%nat by lia. done. }
  rewrite (IH (x :: D) (S i)) by (simpl; lia). by rewrite <- app_assoc.
Qed.

Lemma pton6_end_full d : length d = 16%nat → pton6_end (mid d None) = Some d.
Proof. intros Hd. unfold pton6_end, arr. simpl. rewrite Hd. simpl. by rewrite app_nil_r. Qed.

Lemma pton6_end_colons d e :
  (length d + length e < 16)%nat →
  pton6_end (mid (d ++ e) (Some (length d))) = Some (d ++ replicate (16 - length d - length e) 0 ++ e).
Proof.
  intros Hl. unfold pton6_end, arr. cbn [saw_xdigit colonp tp tmp]. rewrite !length_app, <- app_assoc. f_equal.
  replace (length d + length e - length d)%nat with (length e) by lia.
  replace (16 - (length d + length e))%nat with (S (15 - length d - length e)) by lia.
  rewrite <- (app_nil_r (replicate _ _)) at 1. rewrite shift_loop_ok by (simpl; lia). rewrite app_nil_r.
  do 3 f_equal. lia.
Qed.

(** The first character of a word is not a colon. *)
Lemma hex_digits_cons fuel w : (0 < fuel)%nat → 0 <= w → ∃ c l, hex_digits fuel w = c :: l ∧ c ≠ COLON.
Proof.
  revert w. induction fuel as [|fuel IH]; intros w Hf Hw; [lia|]. cbn [hex_digits].
  assert (∀ d, 0 <= d < 16 → xchar d ≠ COLON) as Hx by (intros d ?; unfold xchar, COLON; destruct (Z.ltb_spec d 10); lia).
  destruct (Z.ltb_spec w 16); [exists (xchar w), []; split; [done|by apply Hx]|].
  destruct fuel as [|fuel]; [exists (xchar (w mod 16)), []; split; [done|apply Hx, Z.mod_pos_bound; lia]|].
  destruct (IH (w / 16)) as (c & l & E & Hc); [lia|apply Z.div_pos; lia|]. rewrite E. eexists _, _. done.
Qed.

Lemma inet_pton6_word w src :
  is_word w → inet_pton6 (hex w ++ src) = fin (pton6_loop (hex w ++ src) (hex w ++ src) (mid (@nil Z) None)).
Proof.
  intros Hw. destruct (hex_digits_cons 8 w) as (c & l & E & Hc); [lia|unfold is_word in Hw; lia|].
  unfold hex. rewrite E. unfold inet_pton6. cbn [app]. by rewrite (proj2 (Z.eqb_neq c COLON) Hc).
Qed.

(** The text of words [pre], a double colon, and [post]. *)
Definition colons (pre tail : list Z) : list Z :=
  (match pre with [] => [COLON] | _ => terminated pre end) ++ COLON :: tail.

Lemma inet_pton6_colons pre tail :
  Forall is_word pre → (2 * length pre <= 16)%nat →
  inet_pton6 (colons pre tail) =
  fin (pton6_loop tail tail (mid (words_bytes pre) (Some (2 * length pre)%nat))).
Proof.
  intros Hp Hl. rewrite <- length_words_bytes.
  assert (∀ cur, fin (pton6_loop (terminated pre ++ COLON :: tail) cur (mid (@nil Z) None)) =
    fin (pton6_loop tail tail (mid (words_bytes pre) (Some (length (words_bytes pre)))))) as H.
  { intros cur. destruct (pton6_terminated pre (COLON :: tail) cur [] None Hp) as (cur' & E & _); [simpl; lia|].
    rewrite E. cbn [app]. by rewrite pton6_colons. }
  unfold colons. destruct pre as [|w pre]; [apply H|].
  apply Forall_cons in Hp as [Hw _]. rewrite <- (H (terminated (w :: pre) ++ COLON :: tail)).
  cbn [map concat]. rewrite <- !app_assoc. by apply inet_pton6_word.
Qed.

Lemma inet_pton6_join ws :
  Forall is_word ws → length ws = 8%nat → inet_pton6 (join ws) = Some (words_bytes ws).
Proof.
  intros Hws Hl. rewrite <- (pton6_end_full (words_bytes ws)) by (rewrite length_words_bytes; lia).
  pose proof (pton6_join ws (join ws) [] None Hws) as E. cbn [app] in E. rewrite <- E by (simpl; lia). clear E.
  destruct ws as [|w ws]; [done|]. apply Forall_cons in Hws as [Hw _]. cbn [join]. by apply inet_pton6_word.
Qed.

Lemma inet_pton6_gap pre post :
  Forall is_word pre → Forall is_word post → (length pre + length post < 8)%nat →
  inet_pton6 (colons pre (join post)) =
  Some (words_bytes pre ++ replicate (2 * (8 - length pre - length post)) 0 ++ words_bytes post).
Proof.
  intros Hp Hq Hl. rewrite inet_pton6_colons, pton6_join by (rewrite ?length_words_bytes; done || lia).
  rewrite <- length_words_bytes, pton6_end_colons by (rewrite !length_words_bytes; lia).
  rewrite !length_words_bytes. do 4 f_equal. lia.
Qed.

(** Decimal digits are read as hexadecimal ones until the dot is seen. *)
Lemma pton6_decimal l src cur t p c saw v j :
  all_digits l → 0 <= v < 16 ^ Z.of_nat j → (j + length l <= 4)%nat →
  ∃ saw' v', pton6_loop (l ++ src) cur (P6 t p c saw v) = pton6_loop src cur (P6 t p c saw' v').
Proof.
  intros Hl. revert v j saw. induction Hl as [|x l Hx Hl IH]; intros v j saw Hv Hj; [by exists saw, v|]. simpl in Hj.
  assert (0 <= x - 48 < 16) by (unfold is_digit in Hx; lia).
  assert (16 ^ Z.of_nat (S j) <= 16 ^ 4) by (apply Z.pow_le_mono_r; lia). change (16 ^ 4) with 65536 in *.
  replace (Z.of_nat (S j)) with (1 + Z.of_nat j) in * by lia. rewrite Z.pow_add_r in * by lia.
  assert (x = xchar (x - 48)) as -> by (unfold xchar, is_digit in *; destruct (Z.ltb_spec (x - 48) 10); lia).
  cbn [app]. rewrite pton6_xdigit by lia. apply (IH _ (S j)); [|lia].
  replace (Z.of_nat (S j)) with (1 + Z.of_nat j) by lia. rewrite Z.pow_add_r by lia. lia.
Qed.

(** An embedded IPv4 address after the double colon and the bytes [d]. *)
Lemma pton6_ipv4 d w x y z n :
  is_byte w → is_byte x → is_byte y → is_byte z → (length d <= 12)%nat →
  list_inserts (length d) [w; x; y; z] (arr d) = arr (d ++ [w; x; y; z]) →
  let text := ntop4_text [w; x; y; z] in
  fin (pton6_loop text text (mid d n)) = pton6_end (mid (d ++ [w; x; y; z]) n).
Proof.
  intros Hw Hx Hy Hz Hd Hins text. pose proof (inet_pton4_ntop4 w x y z Hw Hx Hy Hz) as E4. fold text in E4.
  assert (∃ src, text = dec w ++ DOT :: src) as [src Et] by (eexists; reflexivity). rewrite Et at 1.
  destruct (dec_spec w) as [Hdig _]; [unfold is_byte, dec_max in *; lia|].
  destruct (pton6_decimal (dec w) (DOT :: src) text (arr d) (length d) n false 0 0 Hdig) as (saw' & v' & ->); [done| |].
  { pose proof (dec_length 3 w). unfold is_byte in Hw. lia. }
  cbn [pton6_loop]. change (xdigit DOT) with (@None Z). change (DOT =? COLON) with false. change (DOT =? DOT) with true.
  cbv iota. cbn [tp tmp colonp val andb]. rewrite (proj2 (Nat.leb_le _ _)) by (unfold IN6ADDRSZ, INADDRSZ; lia).
  rewrite E4. cbn [fin]. unfold pton6_end. cbn [saw_xdigit tp tmp colonp]. rewrite Hins, length_app. done.
Qed.

(** ** IPv6: formatting *)

(** A run of zero words in [ws]. *)
Definition zero_run (ws : list Z) (r : run) : Prop :=
  0 <= base r ∧ 1 <= len r ∧ base r + len r <= zlen ws ∧
  ∀ j : nat, base r <= Z.of_nat j < base r + len r → ws !! j = Some 0.
Definition maybe_run (ws : list Z) (r : run) : Prop := base r = -1 ∨ zero_run ws r.

Lemma better_run ws cur best : maybe_run ws cur → maybe_run ws best → maybe_run ws (better cur best).
Proof. intros ??. unfold better. by case_match. Qed.

Lemma runs_loop_ok all pre ws cur best :
  all = pre ++ ws →
  (base cur = -1 ∨ zero_run all cur ∧ base cur + len cur = zlen pre) → maybe_run all best →
  maybe_run all (runs_loop (zlen pre) ws cur best).
Proof.
  revert pre cur best. induction ws as [|w ws IH]; intros pre cur best Hall Hc Hb; cbn [runs_loop].
  { apply better_run; [|done]. destruct Hc as [?|[? _]]; [by left|by right]. }
  assert (zlen pre + 1 = zlen (pre ++ [w])) as El by (unfold zlen; rewrite length_app; simpl; lia). rewrite El.
  assert (all = (pre ++ [w]) ++ ws) as Hall' by (by rewrite <- app_assoc).
  destruct (Z.eqb_spec w 0) as [->|Hw].
  - apply IH; [done| |done]. right. rewrite <- El.
    assert (all !! length pre = Some 0) as H0 by (rewrite Hall; by apply list_lookup_middle).
    assert (zlen pre + 1 <= zlen all) as Hlen by (rewrite Hall'; unfold zlen; rewrite !length_app; simpl; lia).
    destruct (Z.eqb_spec (base cur) (-1)) as [Eb|Eb]; unfold zero_run; cbn [base len].
    + split_and!; try (unfold zlen in *; lia). intros j Hj. by replace j with (length pre) by (unfold zlen in *; lia).
    + destruct Hc as [?|[(H1 & H2 & H3 & H4) H5]]; [done|]. split_and!; try lia. intros j Hj.
      destruct (decide (Z.of_nat j = zlen pre)) as [E|E]; [by replace j with (length pre) by (unfold zlen in *; lia)|].
      apply H4. lia.
  - apply IH; [done|by left|]. apply better_run; [|done]. destruct Hc as [?|[? _]]; [by left|by right].
Qed.

Lemma best_run_ok ws : base (best_run ws) = -1 ∨ zero_run ws (best_run ws) ∧ 2 <= len (best_run ws).
Proof.
  pose proof (runs_loop_ok ws [] ws (Run (-1) 0) (Run (-1) 0) eq_refl (or_introl eq_refl) (or_introl eq_refl)) as H.
  change (zlen []) with 0 in H. unfold best_run. cbv zeta. set (b := runs_loop 0 ws _ _) in *.
  destruct (Z.eqb_spec (base b) (-1)) as [E|E]; cbn [negb andb]; [by left|].
  destruct (Z.ltb_spec (len b) 2); [by left|]. right. destruct H; [done|]. done.
Qed.

(** Words outside the run and not an IPv4 address. *)
Fixpoint plain (i : Z) (ws : list Z) : list Z :=
  match ws with
  | [] => []
  | w :: ws => (if negb (i =? 0) then [COLON] else []) ++ hex w ++ plain (i + 1) ws
  end.
Definition in_run (best : run) (i : Z) : bool :=
  negb (base best =? -1) && (base best <=? i) && (i <? base best + len best).
Definition ipv4_at (best : run) (w5 i : Z) : bool :=
  (i =? 6) && (base best =? 0) && ((len best =? 6) || ((len best =? 5) && (w5 =? 0xffff))).

Lemma fmt_plain i pre ws src best w5 :
  (∀ k : nat, (k < length pre)%nat → in_run best (i + Z.of_nat k) = false ∧ ipv4_at best w5 (i + Z.of_nat k) = false) →
  fmt_loop i (pre ++ ws) src best w5 = plain i pre ++ fmt_loop (i + zlen pre) ws src best w5.
Proof.
  revert i. induction pre as [|w pre IH]; intros i H; [by rewrite zlen_nil, Z.add_0_r|].
  destruct (H 0%nat) as [H1 H2]; [simpl; lia|]. rewrite Z.add_0_r in *. unfold in_run, ipv4_at in H1, H2.
  cbn [app fmt_loop plain]. rewrite H1, H2, IH.
  - rewrite zlen_cons, Z.add_assoc, <- !app_assoc. done.
  - intros k Hk. replace (i + 1 + Z.of_nat k) with (i + Z.of_nat (S k)) by lia. apply H. simpl. lia.
Qed.

Lemma fmt_run_tail i zs ws src best w5 :
  base best ≠ -1 → base best < i → i + zlen zs = base best + len best →
  fmt_loop i (zs ++ ws) src best w5 = fmt_loop (i + zlen zs) ws src best w5.
Proof.
  intros Hb. revert i. induction zs as [|z zs IH]; intros i Hi Hl; [by rewrite zlen_nil, Z.add_0_r|].
  rewrite zlen_cons in *. pose proof (zlen_nonneg zs). cbn [app fmt_loop].
  rewrite (proj2 (Z.eqb_neq (base best) (-1)) Hb), (proj2 (Z.leb_le (base best) i)), (proj2 (Z.ltb_lt i _)) by lia.
  rewrite (proj2 (Z.eqb_neq i (base best))) by lia. cbn [negb andb app]. rewrite IH by lia. f_equal. lia.
Qed.

Lemma fmt_run zs ws src best w5 :
  0 <= base best → 1 <= len best → zlen zs = len best →
  fmt_loop (base best) (zs ++ ws) src best w5 = COLON :: fmt_loop (base best + len best) ws src best w5.
Proof.
  intros Hb Hl Hz. destruct zs as [|z zs]; [rewrite zlen_nil in Hz; lia|]. rewrite zlen_cons in Hz. cbn [app fmt_loop].
  rewrite (proj2 (Z.eqb_neq (base best) (-1))), Z.leb_refl, Z.eqb_refl, (proj2 (Z.ltb_lt (base best) _)) by lia.
  cbn [negb andb app]. rewrite fmt_run_tail by lia. do 2 f_equal. lia.
Qed.

Lemma plain_pos i ws : 0 < i → plain i ws = match ws with [] => [] | _ => COLON :: join ws end.
Proof.
  revert i. induction ws as [|w ws IH]; intros i Hi; [done|]. cbn [plain join].
  rewrite (proj2 (Z.eqb_neq i 0)) by lia. cbn [negb app]. rewrite IH by lia. done.
Qed.

Lemma plain_zero ws : plain 0 ws = join ws.
Proof. destruct ws as [|w ws]; [done|]. cbn [plain join]. rewrite Z.eqb_refl. cbn [negb app]. by rewrite plain_pos by lia. Qed.

Lemma join_colon ws : ws ≠ [] → join ws ++ [COLON] = terminated ws.
Proof.
  induction ws as [|w ws IH]; [done|]. intros _. cbn [join map concat]. destruct ws as [|w' ws']; [cbn [map concat]; by rewrite !app_nil_r|].
  rewrite <- !app_assoc. f_equal. cbn [app]. f_equal. by apply IH.
Qed.

Lemma plain_colons pre tail : plain 0 pre ++ COLON :: COLON :: tail = colons pre tail.
Proof.
  unfold colons. rewrite plain_zero. destruct pre as [|w pre]; [done|]. rewrite <- (join_colon (w :: pre)) by done.
  by rewrite <- app_assoc.
Qed.

(** The words around the run. *)
Lemma run_split ws r :
  zero_run ws r → ∃ pre post, ws = pre ++ replicate (Z.to_nat (len r)) 0 ++ post ∧ zlen pre = base r.
Proof.
  intros (H0 & H1 & H2 & H3). exists (take (Z.to_nat (base r)) ws), (drop (Z.to_nat (base r + len r)) ws).
  split; [|unfold zlen in *; rewrite length_take; lia].
  rewrite <- (take_drop (Z.to_nat (base r)) ws) at 1. f_equal.
  rewrite <- (take_drop (Z.to_nat (len r)) (drop _ ws)) at 1. rewrite drop_drop.
  replace (Z.to_nat (base r) + Z.to_nat (len r))%nat with (Z.to_nat (base r + len r)) by lia. f_equal.
  apply list_eq. intros j. destruct (decide (j < Z.to_nat (len r))%nat) as [Hj|Hj].
  - rewrite lookup_take_lt, lookup_drop, H3, lookup_replicate_2 by lia. done.
  - rewrite !lookup_ge_None_2; [done|rewrite length_replicate; lia|rewrite length_take; lia].
Qed.

(** The three forms of the text. *)
Lemma ntop6_forms src :
  let ws := words src in
  let tail := ntop4_text (drop 12 src) in
  ntop6_text src = join ws ∨
  (∃ pre post k, ws = pre ++ replicate (S k) 0 ++ post ∧ ntop6_text src = colons pre (join post)) ∨
  (∃ k w6 w7, (ws = replicate 6 0 ++ [w6; w7] ∧ k = [] ∨ ws = replicate 5 0 ++ [0xffff; w6; w7] ∧ k = hex 0xffff ++ [COLON]) ∧
    ntop6_text src = colons [] (k ++ tail)).
Proof.
  cbv zeta. unfold ntop6_text. set (ws := words src). assert (length ws = 8%nat) as Hlen by done. clearbody ws.
  destruct (best_run_ok ws) as [Hb|[Hr H2]].
  - left. rewrite Hb. change (-1 =? -1) with true. cbn [negb andb]. rewrite app_nil_r, <- (app_nil_r ws) at 1.
    rewrite fmt_plain by (intros; unfold in_run, ipv4_at; rewrite Hb; change (-1 =? 0) with false; by rewrite andb_false_r).
    cbn [fmt_loop]. by rewrite app_nil_r, plain_zero.
  - set (best := best_run ws) in *. clearbody best.
    destruct (run_split ws _ Hr) as (pre & post & Hws & Hpre). destruct Hr as (Hb0 & _ & Hb8 & _).
    assert (zlen ws = 8) as Hz by (unfold zlen; lia). pose proof (zlen_nonneg post) as Hpost.
    assert (zlen pre + len best + zlen post = 8) as Hsum.
    { rewrite <- Hz, Hws. unfold zlen. rewrite !length_app, length_replicate. lia. }
    right. set (w5 := default 0 (ws !! 5%nat)). rewrite (proj2 (Z.eqb_neq (base best) (-1))) by lia. cbn [negb andb].
    assert (fmt_loop 0 ws src best w5 =
      plain 0 pre ++ COLON :: fmt_loop (base best + len best) post src best w5) as ->.
    { rewrite Hws at 1. rewrite fmt_plain.
      - rewrite Z.add_0_l, Hpre, fmt_run by (done || (unfold zlen; rewrite ?length_replicate; lia)). done.
      - intros k Hk. unfold in_run, ipv4_at, zlen in *. split; [lia|]. replace (base best =? 0) with false by lia. by rewrite andb_false_r. }
    destruct (ipv4_at best w5 6) eqn:E4.
    + right. unfold ipv4_at in E4. assert (base best = 0) as Hb by lia. assert (pre = []) as ->.
      { destruct pre; [done|]. rewrite zlen_cons in Hpre. pose proof (zlen_nonneg pre). lia. }
      rewrite Hb in *. cbn [app plain] in *. rewrite zlen_nil in Hsum.
      destruct (decide (len best = 6)) as [H6|H6].
      * rewrite H6 in *. destruct post as [|w6 [|w7 [|? post]]]; rewrite ?zlen_cons, ?zlen_nil in Hsum; try lia; [|pose proof (zlen_nonneg post); lia].
        exists [], w6, w7. split; [by left|]. cbn [fmt_loop]. rewrite Hb, H6.
        change (0 + 6 =? 8) with false. cbv iota. rewrite app_nil_r. reflexivity.
      * assert (len best = 5 ∧ w5 = 0xffff) as [H5 Hw5] by lia. rewrite H5 in *.
        destruct post as [|x [|w6 [|w7 [|? post]]]]; rewrite ?zlen_cons, ?zlen_nil in Hsum; try lia; [|pose proof (zlen_nonneg post); lia].
        assert (x = 0xffff) as -> by (unfold w5 in Hw5; rewrite Hws in Hw5; done).
        exists (hex 0xffff ++ [COLON]), w6, w7. split; [by right|]. cbn [fmt_loop]. rewrite Hb, H5, Hw5.
        change (0 + 5 =? 8) with false. cbv iota. rewrite app_nil_r. reflexivity.
    + left. exists pre, post, (Z.to_nat (len best) - 1)%nat.
      replace (S (Z.to_nat (len best) - 1)) with (Z.to_nat (len best)) by lia. split; [done|].
      rewrite <- (app_nil_r post) at 1. rewrite fmt_plain.
      * cbn [fmt_loop]. rewrite app_nil_r, (plain_pos (base best + len best)), <- app_assoc by lia. cbn [app]. rewrite <- plain_colons.
        destruct post as [|w post]; [rewrite zlen_nil in Hsum; rewrite (proj2 (Z.eqb_eq _ 8)) by lia; done|].
        rewrite zlen_cons in Hsum. pose proof (zlen_nonneg post). rewrite (proj2 (Z.eqb_neq _ 8)) by lia. by rewrite app_nil_r.
      * intros k Hk. split; [unfold in_run; lia|]. unfold ipv4_at in *.
        destruct (Z.eqb_spec (base best + len best + Z.of_nat k) 6) as [E|E]; [exact E4|done].
Qed.

(** The words of an address, and back. *)
Lemma wbytes_word a b : is_byte a → is_byte b → wbytes (Z.lor (Z.shiftl a 8) b) = [a; b] ∧ is_word (Z.lor (Z.shiftl a 8) b).
Proof.
  unfold is_byte, is_word, wbytes. intros Ha Hb. rewrite lor_shiftl by lia. change (2 ^ 8) with 256. split; [|lia].
  change 0xff with (Z.ones 8). rewrite !Z.land_ones, Z.shiftr_div_pow2 by lia. change (2 ^ 8) with 256.
  rewrite Z.div_add_l, (Z.div_small b), Z.add_0_r, (Z.mod_small a) by lia.
  rewrite Z.add_comm, Z.mod_add, Z.mod_small by lia. done.
Qed.

Lemma words_bytes_words src :
  length src = 16%nat → Forall is_byte src → words_bytes (words src) = src ∧ Forall is_word (words src).
Proof.
  intros Hl Hb. do 16 (destruct src as [|? src]; [done|]). destruct src; [|done]. clear Hl.
  repeat (apply Forall_cons in Hb as [? Hb]). unfold words. cbn [seq map].
  cbn [Nat.mul Nat.add lookup list_lookup from_option]. unfold id. cbn [concat].
  repeat match goal with |- context [wbytes (Z.lor (Z.shiftl ?a 8) ?b)] =>
    rewrite (proj1 (wbytes_word a b ltac:(done) ltac:(done))) end.
  split; [done|]. repeat (constructor; [by apply wbytes_word|]). constructor.
Qed.

Lemma words_bytes_app a b : words_bytes (a ++ b) = words_bytes a ++ words_bytes b.
Proof. by rewrite map_app, concat_app. Qed.
Lemma words_bytes_zeros n : words_bytes (replicate n 0) = replicate (2 * n) 0.
Proof. induction n as [|n IH]; [done|]. replace (2 * S n)%nat with (S (S (2 * n))) by lia. simpl. by rewrite IH. Qed.

Lemma inet_pton6_ntop6 src :
  length src = 16%nat → Forall is_byte src → inet_pton6 (ntop6_text src) = Some src.
Proof.
  intros Hl Hb. destruct (words_bytes_words src Hl Hb) as [Hsrc Hw].
  destruct (ntop6_forms src) as [E|[(pre & post & k & Hws & E)|(k & w6 & w7 & Hk & E)]]; rewrite E.
  - rewrite inet_pton6_join by done. by f_equal.
  - rewrite Hws in Hw. apply Forall_app in Hw as [Hp Hw]. apply Forall_app in Hw as [_ Hq].
    assert (length (words src) = 8%nat) as H8 by done. rewrite Hws, !length_app, length_replicate in H8.
    rewrite inet_pton6_gap by (done || lia). f_equal. rewrite <- Hsrc, Hws, !words_bytes_app, words_bytes_zeros.
    do 3 f_equal. lia.
  - rewrite inet_pton6_colons by (done || (simpl; lia)). cbn [map concat]. change (2 * length (@nil Z))%nat with 0%nat. clear E.
    assert (∃ d w x y z, src = replicate (12 - length d) 0 ++ d ++ [w; x; y; z] ∧
      (d = [] ∧ k = [] ∨ d = [0xff; 0xff] ∧ k = hex 0xffff ++ [COLON])) as (d & w & x & y & z & Es & Hd).
    { do 16 (destruct src as [|? src]; [done|]). destruct src; [|done].
      destruct Hk as [[Hws ->]|[Hws ->]]; rewrite Hws in Hsrc; cbn in Hsrc; injection Hsrc as <- <- <- <- <- <- <- <- <- <- <- <- H1 H2 H3 H4.
      - eexists [], _, _, _, _. split; [reflexivity|by left].
      - eexists [0xff; 0xff], _, _, _, _. split; [reflexivity|by right]. }
    rewrite Es in Hb. apply Forall_app in Hb as [_ Hb]. apply Forall_app in Hb as [_ Hb].
    repeat (apply Forall_cons in Hb as [? Hb]).
    assert (drop 12 src = [w; x; y; z]) as -> by (rewrite Es; destruct Hd as [[-> _]|[-> _]]; done).
    transitivity (pton6_end (mid (d ++ [w; x; y; z]) (Some 0%nat))).
    { destruct Hd as [[-> ->]|[-> ->]].
      - apply (pton6_ipv4 []); done || (simpl; lia).
      - rewrite <- app_assoc. cbn [app]. rewrite pton6_token by (done || (simpl; lia)). apply (pton6_ipv4 [0xff; 0xff]); done || (simpl; lia). }
    pose proof (pton6_end_colons [] (d ++ [w; x; y; z])) as E. cbn [app length] in E. rewrite E, Es.
    + f_equal. destruct Hd as [[-> _]|[-> _]]; done.
    + destruct Hd as [[-> _]|[-> _]]; simpl; lia.
Qed.

(** *** Length of the text *)

Lemma hex_digits_length fuel w k : (0 < k)%nat → 0 <= w < 16 ^ Z.of_nat k → (length (hex_digits fuel w) <= k)%nat.
Proof.
  revert w k. induction fuel as [|fuel IH]; intros w k Hk Hw; simpl; [lia|].
  destruct (Z.ltb_spec w 16); [simpl; lia|]. rewrite length_app. simpl.
  destruct k as [|[|k]]; [lia|change (16 ^ Z.of_nat 1) with 16 in Hw; lia|].
  assert (0 <= w / 16 < 16 ^ Z.of_nat (S k)).
  { split; [apply Z.div_pos; lia|]. apply Z.div_lt_upper_bound; [lia|].
    replace (Z.of_nat (S (S k))) with (1 + Z.of_nat (S k)) in Hw by lia. rewrite Z.pow_add_r in Hw by lia. lia. }
  specialize (IH (w / 16) (S k)). lia.
Qed.

Lemma hex_length w : is_word w → (length (hex w) <= 4)%nat.
Proof. unfold is_word. intros. apply hex_digits_length; [lia|]. change (16 ^ Z.of_nat 4) with 65536. lia. Qed.

Lemma terminated_length ws : Forall is_word ws → (length (terminated ws) <= 5 * length ws)%nat.
Proof.
  induction 1 as [|w ws Hw _ IH]; [simpl; lia|]. cbn [map concat]. rewrite !length_app. pose proof (hex_length w Hw). simpl in *. lia.
Qed.
Lemma join_length ws : Forall is_word ws → (length (join ws) <= 5 * length ws)%nat.
Proof.
  intros Hw. destruct ws as [|w ws]; [done|]. pose proof (terminated_length _ Hw). rewrite <- join_colon in * by done.
  rewrite length_app in *. lia.
Qed.
Lemma colons_length pre tail : Forall is_word pre → (length (colons pre tail) <= 5 * length pre + 2 + length tail)%nat.
Proof.
  intros Hp. unfold colons. rewrite length_app. simpl. pose proof (terminated_length pre Hp). destruct pre; simpl in *; lia.
Qed.

Lemma ntop6_length src : length src = 16%nat → Forall is_byte src → zlen (ntop6_text src) <= 45.
Proof.
  intros Hl Hb. destruct (words_bytes_words src Hl Hb) as [_ Hw]. assert (length (words src) = 8%nat) as H8 by done. unfold zlen.
  destruct (ntop6_forms src) as [->|[(pre & post & k & Hws & ->)|(k & w6 & w7 & Hk & ->)]].
  - pose proof (join_length _ Hw). lia.
  - rewrite Hws in Hw, H8. apply Forall_app in Hw as [Hp Hw]. apply Forall_app in Hw as [_ Hq].
    rewrite !length_app, length_replicate in H8.
    pose proof (colons_length pre (join post) Hp). pose proof (join_length post Hq). lia.
  - pose proof (colons_length [] (k ++ ntop4_text (drop 12 src)) ltac:(done)) as Hc. rewrite length_app in Hc.
    assert (length k <= 5)%nat by (destruct Hk as [[_ ->]|[_ ->]]; vm_compute; lia).
    assert (zlen (ntop4_text (drop 12 src)) <= 15) as H4; [|unfold zlen in *; change (length (@nil Z)) with 0%nat in Hc; lia].
    assert (length (drop 12 src) = 4%nat) as Hl4 by (rewrite length_drop; lia). apply (Forall_drop _ 12) in Hb.
    destruct (drop 12 src) as [|w [|x [|y [|z [|]]]]]; try done. repeat (apply Forall_cons in Hb as [? Hb]). by apply ntop4_length.
Qed.

(** ** The checksum *)

Definition word16 (lo : bool) (a b : Z) : Z := if lo then a + 256 * b else 256 * a + b.
Fixpoint word_sum (lo : bool) (l : list Z) : Z :=
  match l with
  | a :: b :: l => word16 lo a b + word_sum lo l
  | [a] => if lo then a else 256 * a
  | [] => 0
  end.

Lemma word16_range lo a b : is_byte a → is_byte b → 0 <= word16 lo a b <= 65535.
Proof. unfold is_byte, word16. destruct lo; lia. Qed.

(** Induction on a list two elements at a time. *)
Lemma list_pair_ind (Q : list Z → Prop) :
  Q [] → (∀ a, Q [a]) → (∀ a b l, Q l → Q (a :: b :: l)) → ∀ l, Q l.
Proof.
  intros H0 H1 H2. refine (fix F l := match l with [] => H0 | [a] => H1 a | a :: b :: l => H2 a b l (F l) end).
Qed.

Lemma word_sum_range lo l : Forall is_byte l → 0 <= 2 * word_sum lo l <= (zlen l + 1) * 65535.
Proof.
  induction l as [|a|a b l IH] using list_pair_ind; intros Hl; cbn [word_sum].
  - unfold zlen. simpl. lia.
  - apply Forall_cons in Hl as [Ha _]. unfold is_byte in Ha. unfold zlen. simpl. destruct lo; lia.
  - apply Forall_cons in Hl as [Ha Hl]. apply Forall_cons in Hl as [Hb Hl]. rewrite !zlen_cons.
    pose proof (word16_range lo a b Ha Hb). specialize (IH Hl). lia.
Qed.

Lemma cksum_loop_ok lo l s :
  Forall is_byte l → 0 <= s → s + word_sum lo l < 2 ^ 32 → cksum_loop lo l s = s + word_sum lo l.
Proof.
  revert s. induction l as [|a|a b l IH] using list_pair_ind; intros s Hl Hs Hb; cbn [word_sum cksum_loop] in *.
  - lia.
  - apply Forall_cons in Hl as [Ha _]. unfold is_byte in Ha. apply u32_id. destruct lo; lia.
  - apply Forall_cons in Hl as [Ha Hl]. apply Forall_cons in Hl as [Hb' Hl].
    pose proof (word16_range lo a b Ha Hb'). pose proof (word_sum_range lo l Hl). fold (word16 lo a b).
    rewrite u32_id, IH by (done || lia). lia.
Qed.

(** The one's complement sum of 16-bit words: between 0 and 65535, 0 only for 0. *)
Definition fold16 (s : Z) : Z := if s =? 0 then 0 else (s - 1) mod 65535 + 1.

Lemma fold_ok s : 0 <= s < 2 ^ 32 →
  (let s1 := u32 (Z.shiftr s 16 + Z.land s 0xffff) in u16 (Z.lnot (u32 (s1 + Z.shiftr s1 16)))) = 65535 - fold16 s.
Proof.
  intros Hs. cbv zeta. change 0xffff with (Z.ones 16). rewrite Z.land_ones, Z.shiftr_div_pow2 by lia. change (2 ^ 16) with 65536. change (Z.ones 16) with 65535.
  assert (0 <= s / 65536 < 65536) as Hh by (split; [apply Z.div_pos; lia|apply Z.div_lt_upper_bound; lia]).
  pose proof (Z.mod_pos_bound s 65536 ltac:(lia)) as Hm. pose proof (Z.div_mod s 65536 ltac:(lia)) as Hd.
  set (h := s / 65536) in *. set (m := s mod 65536) in *. clearbody h m.
  rewrite (u32_id (h + m)) by lia. rewrite Z.shiftr_div_pow2 by lia. change (2 ^ 16) with 65536.
  unfold fold16, u16. change (2 ^ 16) with 65536. unfold Z.lnot.
  assert ((h + m) / 65536 = if h + m <? 65536 then 0 else 1) as ->.
  { destruct (Z.ltb_spec (h + m) 65536); [apply Z.div_small; lia|]. symmetry. apply Z.div_unique with (h + m - 65536); lia. }
  destruct (Z.eqb_spec s 0) as [E|E]; destruct (Z.ltb_spec (h + m) 65536) as [E1|E1]; rewrite u32_id by lia.
  - assert (h = 0 ∧ m = 0) as [-> ->] by lia. done.
  - lia.
  - replace ((s - 1) mod 65535) with (h + m - 1) by (apply Z.mod_unique with h; lia).
    symmetry. apply Z.mod_unique with (-1); lia.
  - replace ((s - 1) mod 65535) with (h + m - 65536) by (apply Z.mod_unique with (h + 1); lia).
    symmetry. apply Z.mod_unique with (-2); lia.
Qed.

Lemma in_cksum_ok lo l : Forall is_byte l → zlen l <= 131070 → in_cksum lo l = 65535 - fold16 (word_sum lo l).
Proof.
  intros Hl Hlen. pose proof (word_sum_range lo l Hl). unfold in_cksum.
  rewrite cksum_loop_ok, Z.add_0_l by (done || lia). apply fold_ok. lia.
Qed.

Lemma fold16_range s : 0 <= s → 0 <= fold16 s <= 65535 ∧ (fold16 s = 0 ↔ s = 0) ∧ ∃ k, s = fold16 s + k * 65535.
Proof.
  intros Hs. unfold fold16. destruct (Z.eqb_spec s 0) as [->|E]; [split_and!; try lia; by exists 0|].
  pose proof (Z.mod_pos_bound (s - 1) 65535). pose proof (Z.div_mod (s - 1) 65535).
  split_and!; try lia. exists ((s - 1) / 65535). lia.
Qed.

(** The bytes of a 16-bit word in memory. *)
Definition word_bytes (lo : bool) (w : Z) : list Z := if lo then [w mod 256; w / 256] else [w / 256; w mod 256].

Lemma word_sum_snoc lo l w :
  (∃ k, length l = (2 * k)%nat) → 0 <= w <= 65535 → word_sum lo (l ++ word_bytes lo w) = word_sum lo l + w.
Proof.
  intros Hev Hw. pose proof (Z.div_mod w 256 ltac:(lia)).
  induction l as [|a|a b l IH] using list_pair_ind; cbn [app word_sum].
  - unfold word_bytes, word16. destruct lo; cbn [word_sum]; unfold word16; lia.
  - destruct Hev as [k Hk]. simpl in Hk. lia.
  - rewrite IH; [lia|]. destruct Hev as [k Hk]. exists (k - 1)%nat. simpl in Hk. lia.
Qed.

(** ** The properties *)

(** C37: addresses survive the round trip through text: every IPv4 address of 4 bytes
    and every IPv6 address of 16 bytes, formatted by [inet_ntop] (with the longest run of
    zero words as a double colon, and an embedded IPv4 address in dotted form), is
    read back by [inet_pton] as the same bytes; the text has at most 45 characters, the
    size of the buffer of [inet_ntop6], so the conversion into 46 bytes always
    succeeds. *)
Theorem inet_roundtrip af a size dst errno :
  (af = AF_INET ∧ length a = 4%nat) ∨ (af = AF_INET6 ∧ length a = 16%nat) → Forall is_byte a → 46 <= size →
  ∃ text, inet_ntop af a size errno = (Some (text ++ [0]), errno) ∧ zlen text <= 45 ∧
    inet_pton af text dst errno = (1, a, errno).
Proof.
  intros Hf Hb Hsize. destruct Hf as [[-> Hl]|[-> Hl]].
  - exists (ntop4_text a). unfold inet_ntop, inet_pton. cbn [Z.eqb AF_INET Pos.eqb].
    destruct a as [|w [|x [|y [|z [|]]]]]; try done. repeat (apply Forall_cons in Hb as [? Hb]).
    pose proof (ntop4_length w x y z ltac:(done) ltac:(done) ltac:(done) ltac:(done)).
    unfold inet_ntop4. rewrite (proj2 (Z.ltb_ge size _)), inet_pton4_ntop4 by (done || lia). split_and!; done || lia.
  - exists (ntop6_text a). unfold inet_ntop, inet_pton. cbn [Z.eqb AF_INET AF_INET6 Pos.eqb].
    pose proof (ntop6_length a Hl Hb). unfold inet_ntop6. rewrite (proj2 (Z.ltb_ge size _)), inet_pton6_ntop6 by (done || lia).
    split_and!; done || lia.
Qed.

Lemma inet_roundtrip_witness :
  let a := [0x20; 0x01; 0x0d; 0xb8; 0; 0; 0; 0; 0; 0; 0; 0; 0; 0; 0; 1] in
  inet_pton AF_INET6 (bytes "2001:db8::1") [] 0 = (1, a, 0).
Proof.
  intros a.
  destruct (inet_roundtrip AF_INET6 a 46 [] 0) as (text & E & _ & E').
  - by right.
  - repeat (constructor; [unfold is_byte; lia|]). constructor.
  - done.
  - assert (inet_ntop AF_INET6 a 46 0 = (Some (bytes "2001:db8::1" ++ [0]), 0)) as E2 by reflexivity.
    rewrite E2 in E. apply (f_equal fst) in E. cbn [fst] in E. apply (inj Some), app_inj_tail in E as [<- _]. exact E'.
Defined.

(** The internet checksum: for up to 131068 bytes, [in_cksum] is the complement of
    the one's complement sum of the 16-bit words (a final odd byte being padded with 0),
    without overflow of its 32-bit accumulator, on hosts of either byte order; and a
    packet with its checksum appended has checksum 0, which is how receivers verify
    it. *)
Theorem in_cksum_correct lo l :
  Forall is_byte l → zlen l <= 131068 →
  in_cksum lo l = 65535 - fold16 (word_sum lo l) ∧
  ((∃ k, length l = (2 * k)%nat) → in_cksum lo (l ++ word_bytes lo (in_cksum lo l)) = 0).
Proof.
  intros Hl Hlen. split; [apply in_cksum_ok; done || lia|]. intros Hev. pose proof (word_sum_range lo l Hl).
  rewrite (in_cksum_ok lo l) by (done || lia).
  destruct (fold16_range (word_sum lo l)) as (Hr & Hz & k & Hk); [lia|]. set (c := 65535 - fold16 (word_sum lo l)) in *.
  assert (Forall is_byte (word_bytes lo c)) as Hc.
  { pose proof (Z.mod_pos_bound c 256). assert (0 <= c / 256 < 256) by (split; [apply Z.div_pos; lia|apply Z.div_lt_upper_bound; lia]).
    unfold word_bytes. destruct lo; repeat (constructor; [unfold is_byte; lia|]); constructor. }
  rewrite in_cksum_ok, word_sum_snoc by (rewrite ?zlen_app; try (apply Forall_app; done); try done; unfold zlen in *; destruct lo; simpl; lia).
  destruct (fold16_range (word_sum lo l + c)) as (Hr' & Hz' & k' & Hk'); lia.
Qed.

Lemma in_cksum_correct_witness : in_cksum true ([0x45; 0; 0; 0x73] ++ [0xba; 0x8c]) = 0.
Proof.
  assert (in_cksum true [0x45; 0; 0; 0x73] = word16 true 0xba 0x8c) as E by reflexivity.
  destruct (in_cksum_correct true [0x45; 0; 0; 0x73]) as [_ H].
  - repeat (constructor; [unfold is_byte; lia|]). constructor.
  - unfold zlen. simpl. lia.
  - apply H. by exists 2%nat.
Defined.

(** ** Flaws *)

(** A double colon in an address that is already complete is not ignored, as the
    comment of [inet_pton6] says: the last word is cleared. *)
Lemma inet_pton6_full_colons :
  inet_pton6 (bytes "1:2:3:4:5:6:7::8") = Some [0; 1; 0; 2; 0; 3; 0; 4; 0; 5; 0; 6; 0; 7; 0; 0].
Proof. reflexivity. Qed.

(** A single colon at the end is accepted after a double colon. *)
Lemma inet_pton6_trailing_colon : inet_pton6 (bytes "::1:") = inet_pton6 (bytes "::1") ∧ is_Some (inet_pton6 (bytes "::1")).
Proof. split; [reflexivity|by eexists]. Qed.

(** [inet_ntop4] writes one byte more than [size] when the text is exactly that long. *)
Lemma inet_ntop4_overrun a :
  ∃ text, inet_ntop4 a (zlen (ntop4_text a)) = Some text ∧ zlen text = zlen (ntop4_text a) + 1.
Proof. unfold inet_ntop4. rewrite Z.ltb_irrefl. eexists. split; [done|]. rewrite zlen_app. done. Qed.

(** [inet_aton] accepts a number of 20 digits, because its accumulator wraps around, and
    reads missing parts as zeros at the end. *)
Lemma inet_aton_wraps : inet_aton (bytes "18446744073709551617.2.3.4") = Some [1; 2; 3; 4].
Proof. reflexivity. Qed.
Lemma inet_aton_short : inet_aton (bytes "127.1") = Some [127; 1; 0; 0].
Proof. reflexivity. Qed.
