(* ===== verification/Dbl.v ===== *)
(** Double-precision arithmetic, as the calendar classes of cpp-code/date use it.

    A finite [double] is a rational number.  The result of an operation is the exact
    result rounded to 53 significant bits, to nearest with ties to even.  The exponent
    is not bounded: all values of the programs lie between 2^-60 and 2^60, where the
    format has neither overflow nor subnormal numbers.

    The lemmas bound the error of one operation, and derive when the conversion of a
    rounded value to [int] gives the integer part of the exact value. *)
From Stdlib Require Import QArith Qpower Qround Lqa.
From stdpp Require Import base tactics numbers list.
From S2P Require Import Prelude.
Local Open Scope Z_scope.

(** ** Rounding *)

(** [a / b] for [b > 0], to the nearest integer, ties to even. *)
Definition round_even (a b : Z) : Z :=
  let q := a / b in
  let r := 2 * (a mod b) in
  if r <? b then q else if b <? r then q + 1 else if Z.even q then q else q + 1.

(** [a / b * 2 ^ k] as a fraction. *)
Definition scale (a b k : Z) : Z * Z :=
  if 0 <=? k then (a * 2 ^ k, b) else (a, b * 2 ^ (- k)).

(** The number [k] of binary places that leaves 53 significant bits of [a / b]. *)
Definition places (a b : Z) : Z :=
  let k := 52 - (Z.log2 a - Z.log2 b) in
  let '(x, y) := scale a b k in if x <? 2 ^ 52 * y then k + 1 else k.

(** [m * 2 ^ - k]. *)
Definition unscale (m k : Z) : Q :=
  if 0 <=? k then Qmake m (Z.to_pos (2 ^ k)) else inject_Z (m * 2 ^ (- k)).

Definition rnd_pos (a b : Z) : Q :=
  let k := places a b in
  let '(x, y) := scale a b k in unscale (round_even x y) k.

Definition rnd (q : Q) : Q :=
  match Qnum q with
  | 0 => 0%Q
  | Z.pos a => rnd_pos (Z.pos a) (Z.pos (Qden q))
  | Z.neg a => Qopp (rnd_pos (Z.pos a) (Z.pos (Qden q)))
  end.

(** ** Operations *)

Definition double := Q.
Definition of_int (z : Z) : double := rnd (inject_Z z).
Definition dadd (x y : double) : double := rnd (x + y).
Definition dsub (x y : double) : double := rnd (x - y).
Definition dmul (x y : double) : double := rnd (x * y).
Definition ddiv (x y : double) : double := rnd (x / y).
(** Conversion to [int] drops the fraction. *)
Definition to_int (x : double) : Z := Z.quot (Qnum x) (Z.pos (Qden x)).
(** [modf]: fraction and integer part. *)
Definition modf (x : double) : double * double := (dsub x (of_int (to_int x)), of_int (to_int x)).

(** ** Error of one operation *)

Lemma round_even_near a b : 0 < b → 2 * a - b <= 2 * b * round_even a b <= 2 * a + b.
Proof.
  intros Hb. unfold round_even. pose proof (Z.div_mod a b ltac:(lia)). pose proof (Z.mod_pos_bound a b Hb).
  repeat case_match; nia.
Qed.

Lemma round_even_exact a b m : 0 < b → a = m * b → round_even a b = m.
Proof.
  intros Hb ->. unfold round_even. rewrite Z.div_mul, Z.mod_mul by lia.
  by replace (2 * 0 <? b) with true by lia.
Qed.

Lemma pow2_pos k : (0 < Qpower 2 k)%Q.
Proof. by apply Qpower_0_lt. Qed.

Lemma Qpower_Z k : 0 <= k → (Qpower 2 k == inject_Z (2 ^ k))%Q.
Proof. intros. by rewrite Zpower_Qpower. Qed.

Lemma scale_val a b k x y :
  0 < b → scale a b k = (x, y) → 0 < y ∧ (inject_Z x == inject_Z a / inject_Z b * Qpower 2 k * inject_Z y)%Q.
Proof.
  intros Hb. assert (¬ inject_Z b == 0)%Q by (intros E; apply (inject_Z_injective b 0) in E; lia).
  unfold scale. case_match eqn:E; intros [= <- <-]; rewrite ?Z.leb_le, ?Z.leb_gt in E.
  - split; [done|]. rewrite inject_Z_mult, <- Qpower_Z by done. field. done.
  - split; [apply Z.mul_pos_pos; [done|]; apply Z.pow_pos_nonneg; lia|].
    rewrite inject_Z_mult, <- Qpower_Z by lia. rewrite Qpower_opp. field. split; [|done].
    pose proof (pow2_pos k). lra.
Qed.

Lemma unscale_val m k : (unscale m k == inject_Z m / Qpower 2 k)%Q.
Proof.
  unfold unscale. case_match eqn:E; rewrite ?Z.leb_le, ?Z.leb_gt in E.
  - rewrite Qmake_Qdiv. rewrite Z2Pos.id by (apply Z.pow_pos_nonneg; lia). by rewrite Qpower_Z.
  - rewrite inject_Z_mult, <- Qpower_Z by lia. rewrite Qpower_opp. reflexivity.
Qed.

Lemma scale_big a b x y :
  0 < a → 0 < b → scale a b (52 - (Z.log2 a - Z.log2 b)) = (x, y) → 2 ^ 51 * y <= x.
Proof.
  intros Ha Hb. pose proof (Z.log2_spec a Ha) as [La _]. pose proof (Z.log2_spec b Hb) as [_ Lb].
  pose proof (Z.log2_nonneg a). pose proof (Z.log2_nonneg b).
  set (la := Z.log2 a) in *. set (lb := Z.log2 b) in *. unfold scale.
  case_match eqn:E; intros [= <- <-]; rewrite ?Z.leb_le, ?Z.leb_gt in E.
  - assert (2 ^ la * 2 ^ (52 - (la - lb)) = 2 ^ 51 * 2 ^ Z.succ lb) as P.
    { rewrite <- !Z.pow_add_r by lia. f_equal. lia. }
    pose proof (Z.pow_pos_nonneg 2 (52 - (la - lb))). nia.
  - assert (2 ^ 51 * (2 ^ Z.succ lb * 2 ^ (- (52 - (la - lb)))) = 2 ^ la) as P.
    { rewrite <- !Z.pow_add_r by lia. f_equal. lia. }
    pose proof (Z.pow_pos_nonneg 2 (- (52 - (la - lb)))). nia.
Qed.

(** With [places] binary places, the scaled value has at least 53 bits. *)
Lemma places_big a b :
  0 < a → 0 < b → (inject_Z (2 ^ 52) <= inject_Z a / inject_Z b * Qpower 2 (places a b))%Q.
Proof.
  intros Ha Hb. unfold places. destruct (scale _ _ _) as [x y] eqn:E.
  pose proof (scale_big _ _ _ _ Ha Hb E) as Hx. destruct (scale_val _ _ _ _ _ Hb E) as [Hy V].
  set (k := 52 - _) in *. set (q := (inject_Z a / inject_Z b)%Q) in *.
  rewrite Zle_Qle, inject_Z_mult in Hx. rewrite Zlt_Qlt in Hy.
  rewrite V in Hx. apply Qmult_le_r in Hx; [|done]. case_match eqn:C.
  - rewrite Qpower_plus by done. change (inject_Z (2 ^ 52)) with (2 * inject_Z (2 ^ 51))%Q.
    change (Qpower 2 1) with 2%Q. lra.
  - rewrite Z.ltb_ge, Zle_Qle, inject_Z_mult, V in C. by apply Qmult_le_r in C.
Qed.

(** The relative error of rounding is at most [ulp], the unit roundoff 2^-53. *)
Definition ulp : Q := (1 # 9007199254740992)%Q.

Lemma rnd_of_pos q : (0 < q)%Q → ∃ a b, 0 < a ∧ 0 < b ∧ (q == inject_Z a / inject_Z b)%Q ∧ rnd q = rnd_pos a b.
Proof.
  destruct q as [n d]. unfold Qlt, rnd. cbn. intros. destruct n as [|n|n]; [lia| |lia].
  exists (Z.pos n), (Z.pos d). split_and!; [lia..| |done]. by rewrite Qmake_Qdiv.
Qed.

Lemma rnd_err q : (0 < q)%Q → (q * (1 - ulp) <= rnd q <= q * (1 + ulp))%Q.
Proof.
  intros (a & b & Ha & Hb & Hq & ->)%rnd_of_pos. unfold rnd_pos.
  pose proof (places_big a b Ha Hb) as HB. set (k := places a b) in *. destruct (scale a b k) as [x y] eqn:E.
  destruct (scale_val _ _ _ _ _ Hb E) as [Hy V]. pose proof (round_even_near x y Hy) as [L U]. apply Z.le_sub_le_add_r in L.
  set (m := round_even x y) in *. rewrite <- Hq in *. pose proof (pow2_pos k) as Hp. set (p := Qpower 2 k) in *.
  rewrite Zle_Qle in L, U. rewrite inject_Z_plus, !inject_Z_mult, V in L. rewrite inject_Z_plus, !inject_Z_mult, V in U.
  rewrite Zlt_Qlt in Hy. change (inject_Z 0) with 0%Q in Hy. change (inject_Z 2) with 2%Q in *.
  change (inject_Z (2 ^ 52)) with (4503599627370496 # 1)%Q in HB.
  assert (2 * (q * p) - 1 <= 2 * inject_Z m)%Q as L' by (apply (Qmult_le_r _ _ (inject_Z y)); [done|lra]).
  assert (2 * inject_Z m <= 2 * (q * p) + 1)%Q as U' by (apply (Qmult_le_r _ _ (inject_Z y)); [done|lra]).
  rewrite unscale_val. fold p. clearbody m p. unfold ulp. split.
  - apply Qle_shift_div_l; [done|]. lra.
  - apply Qle_shift_div_r; [done|]. lra.
Qed.

(** A value with at most 53 significant bits is not changed. *)
Lemma rnd_exact q n j :
  0 <= j → 0 < n < 2 ^ 53 → (q * Qpower 2 j == inject_Z n)%Q → (rnd q == q)%Q.
Proof.
  intros Hj Hn Hq. pose proof (pow2_pos j) as Pj.
  assert (0 < q)%Q as Q0.
  { apply (Qmult_lt_r _ _ (Qpower 2 j)); [done|]. rewrite Hq, Qmult_0_l. change 0%Q with (inject_Z 0).
    rewrite <- Zlt_Qlt. lia. }
  destruct (rnd_of_pos q Q0) as (a & b & Ha & Hb & Eq & ->). unfold rnd_pos.
  pose proof (places_big a b Ha Hb) as HB. set (k := places a b) in *. destruct (scale a b k) as [x y] eqn:E.
  destruct (scale_val _ _ _ _ _ Hb E) as [Hy V]. rewrite <- Eq in *.
  assert (j <= k) as Hk.
  { destruct (Z.le_gt_cases j k); [done|]. exfalso.
    assert (Qpower 2 j == Qpower 2 (j - 1 - k) * Qpower 2 k * 2)%Q as Pe.
    { rewrite <- Qpower_plus by done. change 2%Q with (Qpower 2 1) at 3. rewrite <- Qpower_plus by done.
      by replace (j - 1 - k + k + 1) with j by lia. }
    assert (1 <= Qpower 2 (j - 1 - k))%Q as P1.
    { change 1%Q with (Qpower 2 0). apply Qpower_le_compat_l; [lia|lra]. }
    assert (inject_Z n < inject_Z (2 ^ 53))%Q as Hn' by (rewrite <- Zlt_Qlt; lia).
    rewrite <- Hq, Pe in Hn'. change (inject_Z (2 ^ 53)) with (2 * inject_Z (2 ^ 52))%Q in Hn'.
    assert (0 < q * Qpower 2 k)%Q as P2 by (apply Qmult_lt_0_compat; [done|apply pow2_pos]).
    pose proof (Qmult_le_compat_r _ _ _ P1 (Qlt_le_weak _ _ P2)). lra. }
  assert (x = n * 2 ^ (k - j) * y) as ->.
  { apply inject_Z_injective. rewrite V, !inject_Z_mult, <- Hq, <- Qpower_Z by lia.
    assert (Qpower 2 k == Qpower 2 j * Qpower 2 (k - j))%Q as ->.
    { rewrite <- Qpower_plus by done. by replace (j + (k - j)) with k by lia. }
    ring. }
  rewrite (round_even_exact _ _ (n * 2 ^ (k - j))), unscale_val by done.
  rewrite inject_Z_mult, <- Hq, <- Qpower_Z by lia.
  assert (Qpower 2 k == Qpower 2 j * Qpower 2 (k - j))%Q as ->.
  { rewrite <- Qpower_plus by done. by replace (j + (k - j)) with k by lia. }
  pose proof (pow2_pos (k - j)). field. lra.
Qed.

(** ** Conversion to [int] *)

Lemma to_int_unique x n : 0 <= n → (inject_Z n <= x)%Q → (x < inject_Z (n + 1))%Q → to_int x = n.
Proof.
  intros Hn Hl Hu. unfold to_int. destruct x as [a b]. unfold Qle, Qlt in *. cbn in *.
  symmetry. apply (Z.quot_unique a (Z.pos b) n (a - Z.pos b * n)); lia.
Qed.

Lemma to_int_eq x n : 0 <= n → (x == inject_Z n)%Q → to_int x = n.
Proof.
  intros Hn E. apply to_int_unique; [done|rewrite E; apply Qle_refl|]. rewrite E, <- Zlt_Qlt. lia.
Qed.

Lemma rnd_int q n : 0 <= n < 2 ^ 53 → (q == inject_Z n)%Q → (rnd q == inject_Z n)%Q.
Proof.
  intros Hn E. destruct (decide (n = 0)) as [->|].
  - destruct q as [a b]. unfold Qeq in E. cbn in E. assert (a = 0) as -> by lia. done.
  - rewrite <- E. apply (rnd_exact _ n 0); [done|lia|]. rewrite E. change (Qpower 2 0) with 1%Q. ring.
Qed.

Lemma of_int_exact z : 0 <= z < 2 ^ 53 → (of_int z == inject_Z z)%Q.
Proof. intros Hz. by apply rnd_int. Qed.

(** Sums and differences of integers are exact. *)
Lemma dadd_int x y a b :
  (x == inject_Z a)%Q → (y == inject_Z b)%Q → 0 <= a + b < 2 ^ 53 → (dadd x y == inject_Z (a + b))%Q.
Proof. intros Ha Hb Hr. apply rnd_int; [done|]. by rewrite Ha, Hb, inject_Z_plus. Qed.

Lemma dsub_int x y a b :
  (x == inject_Z a)%Q → (y == inject_Z b)%Q → 0 <= a - b < 2 ^ 53 → (dsub x y == inject_Z (a - b))%Q.
Proof.
  intros Ha Hb Hr. apply rnd_int; [done|]. rewrite Ha, Hb. unfold Z.sub. by rewrite inject_Z_plus, inject_Z_opp.
Qed.
