(* ===== verification/Date.v ===== *)
(** The calendar classes of cpp-code/date: the abstract class [Date] (src/date.cpp), the
    classes [Gregorian] and [Julian] derived from it (src/gregorian.cpp, src/julian.cpp),
    the template [Calendar] (includes/calendar.h), and the conversion routines of the
    utility mjd/mjd.c.

    An object carries its class, and a virtual call selects the function by it.  An
    exception is the value [OutOfRange].  [int] arithmetic is that of [Z]: the theorems
    are about dates for which no intermediate value leaves the range of [int], and
    division and remainder truncate.  [double] arithmetic is that of [Dbl]. *)
From Stdlib Require Import QArith.
From stdpp Require Import base tactics numbers list strings.
From S2P Require Import Prelude Cio Dbl.
Local Open Scope Z_scope.

Inductive cls := GREGORIAN | JULIAN.

#[export] Instance cls_eq_dec : EqDecision cls.
Proof. solve_decision. Defined.

Record date := Date { class : cls; curr_year : Z; curr_month : Z; curr_day : Z }.

Definition set_ymd (y m d : Z) (x : date) : date := Date (class x) y m d.

(** The result of a call that may throw [std::out_of_range]. *)
Inductive thrown (A : Type) := Returned (a : A) | OutOfRange (what : string).
Arguments Returned {A} a.
Arguments OutOfRange {A} what.

(** ** Literals *)
Definition lit_2400000_5 : double := rnd (24000005 # 10).
Definition lit_0_5 : double := rnd (5 # 10).
Definition lit_1867216_25 : double := rnd (186721625 # 100).
Definition lit_36524_25 : double := rnd (3652425 # 100).
Definition lit_122_1 : double := rnd (1221 # 10).
Definition lit_365_25 : double := rnd (36525 # 100).
Definition lit_30_6001 : double := rnd (306001 # 10000).

(** The table of both [week_day] functions, counted from 1. *)
Definition monthTableOffset : list Z := [-1; 0; 3; 3; 6; 1; 4; 6; 2; 5; 0; 3; 5].

(** [monthTableOffset[m]]; [None] outside the table. *)
Definition table_at (m : Z) : option Z := if m <? 0 then None else monthTableOffset !! Z.to_nat m.

Module Gregorian.

Definition leap_year (year : Z) : bool :=
  (Z.land year 3 =? 0) && (negb (Z.rem year 100 =? 0) || (Z.rem year 400 =? 0)).

Definition days_of_month (month year : Z) : Z :=
  match month with
  | 1 => 31
  | 2 => if leap_year year then 29 else 28
  | 3 => 31 | 4 => 30 | 5 => 31 | 6 => 30 | 7 => 31 | 8 => 31 | 9 => 30 | 10 => 31 | 11 => 30 | 12 => 31
  | _ => 0
  end.

Definition is_valid_date (year month day : Z) : thrown bool :=
  if (month <? 1) || (12 <? month) then OutOfRange "Month out of range"
  else if (day <? 1) || (days_of_month month year <? day) then OutOfRange "Day out of range"
  else if (year <? 1858) || (2558 <? year) then OutOfRange "Year out of range"
  else Returned true.

(** [while (weekday < 1) weekday += 7;] *)
Fixpoint weekday_loop (fuel : nat) (weekday : Z) : option Z :=
  match fuel with
  | O => None
  | S fuel => if weekday <? 1 then weekday_loop fuel (weekday + 7) else Some weekday
  end.

(** [None] if the month is outside the table. *)
Definition week_day (d : date) : option Z :=
  let century := Z.quot (curr_year d) 100 in
  let centuryOffset := Z.rem (39 - century) 4 * 2 in
  let centuryYear := Z.rem (curr_year d) 100 in
  let yearOffset := Z.rem (centuryYear + Z.quot centuryYear 4) 7 in
  let yearOffset := if leap_year (curr_year d) && (curr_month d <? 3) then yearOffset - 1 else yearOffset in
  let dayOffset := Z.rem (curr_day d) 7 in
  monthOffset ← table_at (curr_month d);
  let weekday := Z.rem (centuryOffset + yearOffset + monthOffset + dayOffset) 7 in
  weekday ← weekday_loop 2 weekday;
  Some (if weekday =? 0 then 7 else weekday).

(** The day number; the conversion of the [double] on return drops the fraction. *)
Definition mod_julian_day (x : date) : Z :=
  let '(y, m, d) := (curr_year x, curr_month x, curr_day x) in
  let y := y + 8000 in
  let '(y, m) := if m <? 3 then (y - 1, m + 12) else (y, m) in
  let jd := y * 365 + Z.quot y 4 - Z.quot y 100 + Z.quot y 400 - 1200820 + Z.quot (m * 153 + 3) 5 - 92 + d - 1 in
  to_int (dsub (of_int jd) lit_2400000_5).

(** Year, month and day of the count [A] of days, shared text of both classes. *)
Definition ymd_of_A (A : Z) (dayFrac : double) (x : date) : date :=
  let B := A + 1524 in
  let C := to_int (ddiv (dsub (of_int B) lit_122_1) lit_365_25) in
  let D := to_int (dmul lit_365_25 (of_int C)) in
  let E := to_int (ddiv (of_int (B - D)) lit_30_6001) in
  let day := to_int (dadd (of_int (B - D - to_int (dmul lit_30_6001 (of_int E)))) dayFrac) in
  let month := if E <? 14 then E - 1 else E - 13 in
  let year := if 2 <? month then C - 4716 else C - 4715 in
  set_ymd year month day x.

Definition adjust_date_from_mjd (mjd : Z) (x : date) : date :=
  let Q := dadd (dadd (of_int mjd) lit_2400000_5) lit_0_5 in
  let '(dayFrac, Z) := modf Q in
  let W := to_int (ddiv (dsub Z lit_1867216_25) lit_36524_25) in
  let X := of_int (Z.quot W 4) in
  let A := to_int (dsub (dadd (dadd Z (of_int 1)) (of_int W)) X) in
  ymd_of_A A dayFrac x.

End Gregorian.

Module Julian.

Definition leap_year (year : Z) : bool := Z.rem year 4 =? 0.

Definition days_of_month (month year : Z) : Z :=
  match month with
  | 1 => 31
  | 2 => if leap_year year then 29 else 28
  | 3 => 31 | 4 => 30 | 5 => 31 | 6 => 30 | 7 => 31 | 8 => 31 | 9 => 30 | 10 => 31 | 11 => 30 | 12 => 31
  | _ => 0
  end.

Definition is_valid_date (year month day : Z) : thrown bool :=
  if (month <? 1) || (12 <? month) then OutOfRange "Month out of range"
  else if (day <? 1) || (days_of_month month year <? day) then OutOfRange "Day out of range"
  else Returned true.

Definition week_day (d : date) : option Z :=
  let century := Z.quot (curr_year d) 100 in
  let centuryOffset := 7 - Z.rem (century + 3) 7 in
  let centuryYear := Z.rem (curr_year d) 100 in
  let yearOffset := Z.rem (centuryYear + Z.quot centuryYear 4) 7 in
  let yearOffset := if leap_year (curr_year d) && (curr_month d <=? 2) then yearOffset - 1 else yearOffset in
  let dayOffset := Z.rem (curr_day d) 7 in
  monthOffset ← table_at (curr_month d);
  let weekday := Z.rem (centuryOffset + yearOffset + monthOffset + dayOffset) 7 in
  Some (if weekday =? 0 then 7 else weekday).

Definition mod_julian_day (x : date) : Z :=
  let '(y, m, d) := (curr_year x, curr_month x, curr_day x) in
  let '(y, m) := if m <? 3 then (y - 1, m + 12) else (y, m) in
  let y := y + 4800 in
  let m := m - 3 in
  let jd := y * 365 + Z.quot y 4 + 30 * m + Z.quot (m * 3 + 2) 5 + d - 32083 in
  to_int (dsub (of_int jd) lit_2400000_5).

Definition adjust_date_from_mjd (mjd : Z) (x : date) : date :=
  let Q := dadd (dadd (of_int mjd) lit_2400000_5) lit_0_5 in
  let '(dayFrac, Z) := modf Q in
  Gregorian.ymd_of_A (to_int Z) dayFrac x.

End Julian.

(** ** Virtual functions *)

Definition leap_year (x : date) (year : Z) : bool :=
  match class x with GREGORIAN => Gregorian.leap_year year | JULIAN => Julian.leap_year year end.

Definition days_of_month (x : date) (month year : Z) : Z :=
  match class x with
  | GREGORIAN => Gregorian.days_of_month month year
  | JULIAN => Julian.days_of_month month year
  end.

Definition days_this_month (x : date) : Z := days_of_month x (curr_month x) (curr_year x).

Definition days_per_week (x : date) : Z := 7.
Definition months_per_year (x : date) : Z := 12.

Definition mod_julian_day (x : date) : Z :=
  match class x with GREGORIAN => Gregorian.mod_julian_day x | JULIAN => Julian.mod_julian_day x end.

Definition adjust_date_from_mjd (mjd : Z) (x : date) : date :=
  match class x with
  | GREGORIAN => Gregorian.adjust_date_from_mjd mjd x
  | JULIAN => Julian.adjust_date_from_mjd mjd x
  end.

Definition week_day (x : date) : option Z :=
  match class x with GREGORIAN => Gregorian.week_day x | JULIAN => Julian.week_day x end.

Definition is_valid_date (c : cls) (year month day : Z) : thrown bool :=
  match c with
  | GREGORIAN => Gregorian.is_valid_date year month day
  | JULIAN => Julian.is_valid_date year month day
  end.

(** [week_day_name] and [month_name]; [None] for the null pointer. *)
Definition gregorian_week_day_name (x : date) : option string :=
  w ← week_day x;
  match w with
  | 1 => Some "monday" | 2 => Some "tuesday" | 3 => Some "wednesday" | 4 => Some "thursday"
  | 5 => Some "friday" | 6 => Some "saturday" | 7 => Some "sunday"
  | _ => None
  end%string.

Definition julian_week_day_name (x : date) : option string :=
  w ← week_day x;
  match w with
  | 1 => Some "monday" | 2 => Some "tuesday" | 3 => Some "wednesday" | 4 => Some "thursday"
  | 5 => Some "friday" | 6 => Some "saturday" | 7 | 0 => Some "sunday"
  | _ => None
  end%string.

Definition week_day_name (x : date) : option string :=
  match class x with GREGORIAN => gregorian_week_day_name x | JULIAN => julian_week_day_name x end.

Definition gregorian_month_name (x : date) : option string :=
  match curr_month x with
  | 1 => Some "january" | 2 => Some "february" | 3 => Some "march" | 4 => Some "april"
  | 5 => Some "may" | 6 => Some "june" | 7 => Some "july" | 8 => Some "august"
  | 9 => Some "september" | 10 => Some "october" | 11 => Some "november" | 12 => Some "december"
  | _ => None
  end%string.

Definition julian_month_name (x : date) : option string :=
  match curr_month x with
  | 1 => Some "january" | 2 => Some "february" | 3 => Some "march" | 4 => Some "april"
  | 5 => Some "may" | 6 => Some "june" | 7 => Some "july" | 8 => Some "august"
  | 9 => Some "september" | 10 => Some "october" | 11 => Some "november" | 12 => Some "december"
  | _ => None
  end%string.

Definition month_name (x : date) : option string :=
  match class x with GREGORIAN => gregorian_month_name x | JULIAN => julian_month_name x end.

(** ** Constructors *)

(** From year, month and day. *)
Definition make (c : cls) (year month day : Z) : thrown date :=
  match is_valid_date c year month day with
  | Returned _ => Returned (Date c year month day)
  | OutOfRange w => OutOfRange w
  end.

(** From another date; the fields of the new object start out as [g]. *)
Definition convert (c : cls) (d : date) (g : Z * Z * Z) : date :=
  adjust_date_from_mjd (mod_julian_day d) (Date c g.1.1 g.1.2 g.2).

(** The clock of src/kattistime.cpp; [None] for the failed assertion. *)
Record clock := Clock { curtime : Z; initialized : bool }.
Definition k_time (k : clock) : option Z := if initialized k then Some (curtime k) else None.
Definition set_k_time (t : Z) (k : clock) : clock := Clock t true.

(** The default constructors: the date of the broken-down time of [gmtime], given by
    [tm_year], [tm_mon] and [tm_mday]. *)
Definition Gregorian_today (gmtime : Z → Z * Z * Z) (k : clock) : option date :=
  temp ← k_time k;
  let '(tm_year, tm_mon, tm_mday) := gmtime temp in
  Some (Date GREGORIAN (1900 + tm_year) (tm_mon + 1) tm_mday).
Definition Julian_today (gmtime : Z → Z * Z * Z) (k : clock) (g : Z * Z * Z) : option date :=
  d ← Gregorian_today gmtime k;
  Some (convert JULIAN d g).

Definition set_mod_julian_day (mjd : Z) (x : date) : date := adjust_date_from_mjd mjd x.

(** ** The operators of [Date] *)

Definition op_assign (x d : date) : date := adjust_date_from_mjd (mod_julian_day d) x.
Definition op_eq (x d : date) : bool := mod_julian_day x =? mod_julian_day d.
Definition op_ne (x d : date) : bool := negb (mod_julian_day x =? mod_julian_day d).
Definition op_lt (x d : date) : bool := mod_julian_day x <? mod_julian_day d.
Definition op_le (x d : date) : bool := mod_julian_day x <=? mod_julian_day d.
Definition op_gt (x d : date) : bool := mod_julian_day x >? mod_julian_day d.
Definition op_ge (x d : date) : bool := mod_julian_day x >=? mod_julian_day d.
Definition op_incr (x : date) : date := adjust_date_from_mjd (mod_julian_day x + 1) x.
Definition op_decr (x : date) : date := adjust_date_from_mjd (mod_julian_day x - 1) x.
Definition op_plus_assign (x : date) (n : Z) : date := adjust_date_from_mjd (mod_julian_day x + n) x.
Definition op_minus_assign (x : date) (n : Z) : date := adjust_date_from_mjd (mod_julian_day x - n) x.
Definition op_minus (x d : date) : Z := mod_julian_day x - mod_julian_day d.

(** [Gregorian::operator=]: also for a [Julian] on the right, which is a [Gregorian]. *)
Definition gregorian_assign (x d : date) : date := set_ymd (curr_year d) (curr_month d) (curr_day d) x.

(** ** Years and months *)

Definition gregorian_add_year (n : Z) (x : date) : date :=
  let y := curr_year x + n in
  if (curr_month x =? 2) && (curr_day x =? 29) && negb (leap_year x y) then set_ymd y (curr_month x) 28 x
  else set_ymd y (curr_month x) (curr_day x) x.

Definition julian_add_year (n : Z) (x : date) : date :=
  let y := curr_year x + n in
  if (curr_month x =? 2) && (curr_day x =? 29) && negb (leap_year x y) then set_ymd y (curr_month x) 28 x
  else set_ymd y (curr_month x) (curr_day x) x.

Definition add_year (n : Z) (x : date) : date :=
  match class x with GREGORIAN => gregorian_add_year n x | JULIAN => julian_add_year n x end.

(** [add_year()] of both classes. *)
Definition add_year1 (x : date) : date := add_year 1 x.

(** [add_month()] of both classes. *)
Definition gregorian_add_month1 (x : date) : date :=
  let '(y, m) := if curr_month x + 1 >? 12 then (curr_year x + 1, 1) else (curr_year x, curr_month x + 1) in
  let x' := set_ymd y m (curr_day x) x in
  if curr_day x' >? days_this_month x' then op_plus_assign x 30 else x'.

Definition julian_add_month1 (x : date) : date :=
  let '(y, m) := if curr_month x + 1 >? 12 then (curr_year x + 1, 1) else (curr_year x, curr_month x + 1) in
  let x' := set_ymd y m (curr_day x) x in
  if curr_day x' >? days_this_month x' then op_plus_assign x 30 else x'.

Definition add_month1 (x : date) : date :=
  match class x with GREGORIAN => gregorian_add_month1 x | JULIAN => julian_add_month1 x end.

Definition gregorian_sub_month (x : date) : date :=
  let '(y, m) := if curr_month x - 1 <? 1 then (curr_year x - 1, 12) else (curr_year x, curr_month x - 1) in
  let x' := set_ymd y m (curr_day x) x in
  if curr_day x' >? days_this_month x' then op_minus_assign x 30 else x'.

Definition julian_sub_month (x : date) : date :=
  let '(y, m) := if curr_month x - 1 <? 1 then (curr_year x - 1, 12) else (curr_year x, curr_month x - 1) in
  let x' := set_ymd y m (curr_day x) x in
  if curr_day x' >? days_this_month x' then op_minus_assign x 30 else x'.

Definition sub_month (x : date) : date :=
  match class x with GREGORIAN => gregorian_sub_month x | JULIAN => julian_sub_month x end.

(** [for (i = n; i < 0; ++i) sub_month();], and the loop of the other class. *)
Fixpoint up_to_0 (k : nat) (i : Z) (x : date) : date :=
  match k with O => x | S k => if i <? 0 then up_to_0 k (i + 1) (sub_month x) else x end.
Fixpoint down_to (k : nat) (i n : Z) (x : date) : date :=
  match k with O => x | S k => if i >? n then down_to k (i - 1) n (sub_month x) else x end.
(** [for (i = 0; i < n; ++i) add_month();] *)
Fixpoint count_to (k : nat) (i n : Z) (x : date) : date :=
  match k with O => x | S k => if i <? n then count_to k (i + 1) n (add_month1 x) else x end.

Definition gregorian_add_month (n : Z) (x : date) : date :=
  if n <? 0 then up_to_0 (Z.to_nat (- n)) n x else count_to (Z.to_nat n) 0 n x.

Definition julian_add_month (n : Z) (x : date) : date :=
  if n <? 0 then down_to (Z.to_nat (- n)) 0 n x else count_to (Z.to_nat n) 0 n x.

Definition add_month (n : Z) (x : date) : date :=
  match class x with GREGORIAN => gregorian_add_month n x | JULIAN => julian_add_month n x end.

(** ** Output *)

(** [os << n] for an [int]. *)
Definition show_int (n : Z) : list Z := if n <? 0 then 45 :: dec (- n) else dec n.

Definition gregorian_toString (x : date) : list Z :=
  show_int (curr_year x) ++ [45] ++ (if curr_month x <=? 9 then [48] else []) ++ show_int (curr_month x) ++
  [45] ++ (if curr_day x <=? 9 then [48] else []) ++ show_int (curr_day x).

Definition julian_toString (x : date) : list Z :=
  show_int (curr_year x) ++ [45] ++ (if curr_month x <=? 9 then [48] else []) ++ show_int (curr_month x) ++
  [45] ++ (if curr_day x <=? 9 then [48] else []) ++ show_int (curr_day x).

Definition toString (x : date) : list Z :=
  match class x with GREGORIAN => gregorian_toString x | JULIAN => julian_toString x end.

(** ** [Calendar<C>] *)

Record event := Event { event_date : date; event_str : string }.

Definition event_eq (e e' : event) : bool :=
  op_eq (event_date e) (event_date e') && String.eqb (event_str e) (event_str e').

Definition event_lt (e e' : event) : bool :=
  if op_lt (event_date e) (event_date e') then true
  else if op_gt (event_date e) (event_date e') then false
  else String.ltb (event_str e) (event_str e').

Record calendar := Calendar { cal_class : cls; current_date : date; events : list event }.

Definition set_events (es : list event) (c : calendar) : calendar := Calendar (cal_class c) (current_date c) es.

Definition set_date (year month day : Z) (c : calendar) : calendar * bool :=
  match make (cal_class c) year month day with
  | OutOfRange _ => (c, false)
  | Returned d => (Calendar (cal_class c) d (events c), true)
  end.

(** The loop over the list: [None] for the early [return false]. *)
Fixpoint add_loop (str : string) (d : date) (es : list event) : option (list event) :=
  match es with
  | [] => Some [Event d str]
  | e :: es' =>
      if op_eq (event_date e) d && String.eqb (event_str e) str then None
      else if op_gt (event_date e) d then Some (Event d str :: es)
      else es'' ← add_loop str d es'; Some (e :: es'')
  end.

Definition add_event (str : string) (d : date) (c : calendar) : calendar * bool :=
  match add_loop str d (events c) with
  | None => (c, false)
  | Some es => (set_events es c, true)
  end.

Definition add_event_ymd (str : string) (day month year : Z) (c : calendar) : calendar * bool :=
  match make (cal_class c) year month day with
  | OutOfRange _ => (c, false)
  | Returned d => add_event str d c
  end.

Definition add_event_md (str : string) (day month : Z) (c : calendar) : calendar * bool :=
  add_event_ymd str day month (curr_year (current_date c)) c.

Definition add_event_d (str : string) (day : Z) (c : calendar) : calendar * bool :=
  add_event_ymd str day (curr_month (current_date c)) (curr_year (current_date c)) c.

(** [std::list::remove] removes every element equal to its argument. *)
Definition remove_event (str : string) (d : date) (c : calendar) : calendar * bool :=
  match List.find (λ e, op_eq (event_date e) d && String.eqb (event_str e) str) (events c) with
  | Some e => (set_events (List.filter (λ e', negb (event_eq e' e)) (events c)) c, true)
  | None => (c, false)
  end.

Definition remove_event_ymd (str : string) (year month day : Z) (c : calendar) : calendar * bool :=
  match make (cal_class c) year month day with
  | OutOfRange _ => (c, false)
  | Returned d => remove_event str d c
  end.

Definition remove_event_md (str : string) (month day : Z) (c : calendar) : calendar * bool :=
  remove_event_ymd str (curr_year (current_date c)) month day c.

Definition remove_event_d (str : string) (day : Z) (c : calendar) : calendar * bool :=
  remove_event_ymd str (curr_year (current_date c)) (curr_month (current_date c)) day c.

Definition date_events (c : calendar) : list event :=
  List.filter (λ e, op_gt (event_date e) (current_date c)) (events c).

(** The output of a calendar: one line per later event. *)
Definition show_event (e : event) : list Z := toString (event_date e) ++ bytes " : " ++ bytes (event_str e).
Definition show_calendar (c : calendar) : list Z :=
  List.concat (map (λ e, show_event e ++ [10]) (date_events c)).

(** ** mjd/mjd.c *)

Module Mjd.

Definition julian_calendar_to_jd (y m d : Z) : Z :=
  let '(y, m) := if m <? 3 then (y - 1, m + 12) else (y, m) in
  let y := y + 4800 in
  let m := m - 3 in
  y * 365 + Z.quot y 4 + 30 * m + Z.quot (m * 3 + 2) 5 + d - 32083.

Definition gregorian_calendar_to_jd (y m d : Z) : Z :=
  let '(y, m) := if m <? 3 then (y - 1, m + 12) else (y, m) in
  let y := y + 8000 in
  y * 365 + Z.quot y 4 - Z.quot y 100 + Z.quot y 400 + Z.quot (m * 153 + 3) 5 - 92 + d - 1 - 1200820.

(** [for (i = i; first (i + 1) <= jd; i++);] *)
Fixpoint search (fuel : nat) (first : Z → Z) (jd i : Z) : option Z :=
  match fuel with
  | O => None
  | S fuel => if first (i + 1) <=? jd then search fuel first jd (i + 1) else Some i
  end.

Definition jd_to_calendar (fuel : nat) (jd : Z) (calendar_to_jd : Z → Z → Z → Z) : option (Z * Z * Z) :=
  y ← search fuel (λ y, calendar_to_jd y 1 1) jd (Z.quot jd 366 - 4715);
  m ← search fuel (λ m, calendar_to_jd y m 1) jd 1;
  d ← search fuel (λ d, calendar_to_jd y m d) jd 1;
  Some (y, m, d).

End Mjd.
