(* ===== verification/DateThms.v ===== *)
(** Lemmas about the calendar classes.

    Both classes convert between dates and day numbers with formulas in integers and in
    [double]s.  The reference is the calendar itself: [valid] dates, and [next_day], the
    day after a date.  The lemmas show that the day number of a date counts the days from
    the epoch, that the [double] formulas are the integer ones, that both conversions are
    inverse to each other, that the weekday formulas follow the day number, and what the
    month and year arithmetic does. *)
From Stdlib Require Import QArith Lqa.
From stdpp Require Import base tactics numbers list strings.
From S2P Require Import Prelude Cio Dbl Date.
Local Open Scope Z_scope.

(** [lia] for goals with divisions by constants. *)
Ltac dlia := Z.to_euclidean_division_equations; lia.

(** ** The reference calendar *)

Definition valid (x : date) : Prop :=
  1 <= curr_month x <= 12 ∧ 1 <= curr_day x <= days_of_month x (curr_month x) (curr_year x).

Definition next_day (x : date) : date :=
  if curr_day x <? days_this_month x then set_ymd (curr_year x) (curr_month x) (curr_day x + 1) x
  else if curr_month x <? 12 then set_ymd (curr_year x) (curr_month x + 1) 1 x
  else set_ymd (curr_year x + 1) 1 1 x.

(** The first day of the Modified Julian Day count. *)
Definition epoch (c : cls) : date :=
  match c with GREGORIAN => Date c 1858 11 17 | JULIAN => Date c 1858 11 5 end.

(** The order of dates of one calendar. *)
Definition earlier (x y : date) : Prop :=
  curr_year x < curr_year y ∨
  curr_year x = curr_year y ∧ (curr_month x < curr_month y ∨
    curr_month x = curr_month y ∧ curr_day x < curr_day y).

#[export] Instance earlier_dec x y : Decision (earlier x y).
Proof. unfold earlier. apply _. Defined.
#[export] Instance date_eq_dec : EqDecision date.
Proof. solve_decision. Defined.

(** Dates for which the count is exact: from the epoch to the year 200000. *)
Definition in_range (x : date) : Prop := ¬ earlier x (epoch (class x)) ∧ curr_year x <= 200000.

(** ** The formulas in integers *)

(** The day number of both classes, with the year and the month counted from March. *)
Definition march (y m : Z) : Z * Z := if m <? 3 then (y - 1, m + 12) else (y, m).

Definition jdn (c : cls) (y m d : Z) : Z :=
  let '(y, m) := march y m in
  match c with
  | GREGORIAN => (y + 8000) * 365 + (y + 8000) / 4 - (y + 8000) / 100 + (y + 8000) / 400 - 1200820
      + (m * 153 + 3) / 5 - 92 + d - 1
  | JULIAN => (y + 4800) * 365 + (y + 4800) / 4 + 30 * (m - 3) + ((m - 3) * 3 + 2) / 5 + d - 32083
  end.

Definition jd_of (x : date) : Z := jdn (class x) (curr_year x) (curr_month x) (curr_day x).

Lemma month_cases m (P : Prop) :
  1 <= m <= 12 →
  (m = 1 ∨ m = 2 ∨ m = 3 ∨ m = 4 ∨ m = 5 ∨ m = 6 ∨ m = 7 ∨ m = 8 ∨ m = 9 ∨ m = 10 ∨ m = 11 ∨ m = 12 → P) → P.
Proof. intros Hm HP. apply HP. lia. Qed.

Ltac months m H := apply (month_cases m); [exact H|];
  intros [->|[->|[->|[->|[->|[->|[->|[->|[->|[->|[->| ->]]]]]]]]]]].

Definition leap (c : cls) (y : Z) : bool :=
  match c with
  | GREGORIAN => (y mod 4 =? 0) && (negb (y mod 100 =? 0) || (y mod 400 =? 0))
  | JULIAN => y mod 4 =? 0
  end.

Lemma rem_0_iff a b : b ≠ 0 → (Z.rem a b =? 0) = (a mod b =? 0).
Proof.
  intros Hb. apply eq_true_iff_eq. rewrite !Z.eqb_eq, Z.rem_divide, <- Z.mod_divide by done. done.
Qed.

Lemma leap_eq x y : leap_year x y = leap (class x) y.
Proof.
  unfold leap_year. destruct (class x); cbn.
  - unfold Gregorian.leap_year. rewrite !rem_0_iff by done. change 3 with (Z.ones 2).
    by rewrite Z.land_ones by done.
  - unfold Julian.leap_year. by rewrite rem_0_iff by done.
Qed.

(** Both [days_of_month] are one table. *)
Definition dim (c : cls) (m y : Z) : Z :=
  match m with
  | 2 => if leap c y then 29 else 28
  | 4 | 6 | 9 | 11 => 30
  | 1 | 3 | 5 | 7 | 8 | 10 | 12 => 31
  | _ => 0
  end.

Lemma dim_eq x m y : days_of_month x m y = dim (class x) m y.
Proof.
  assert (days_of_month x m y = match m with 2 => if leap_year x y then 29 else 28 | _ => dim (class x) m y end) as ->.
  { unfold days_of_month, leap_year. destruct (class x); unfold Gregorian.days_of_month, Julian.days_of_month, dim;
    destruct m as [|m|m]; try done; do 4 (destruct m as [m|m|]; try done). }
  rewrite leap_eq. unfold dim. destruct m as [|m|m]; try done; do 4 (destruct m as [m|m|]; try done).
Qed.

(** ** Counting days *)

Lemma leap_spec c y :
  leap c y = true ↔ y mod 4 = 0 ∧ (c = GREGORIAN → y mod 100 ≠ 0 ∨ y mod 400 = 0).
Proof.
  destruct c; cbn; [|naive_solver lia]. rewrite andb_true_iff, orb_true_iff, negb_true_iff, !Z.eqb_eq, Z.eqb_neq.
  naive_solver.
Qed.

(** The length of February, by the difference of the day numbers around it. *)
Lemma jdn_feb c y : jdn c y 3 1 - jdn c y 2 1 = if leap c y then 29 else 28.
Proof.
  destruct (leap c y) eqn:L.
  - apply leap_spec in L as [H4 Hc]. destruct c; cbn; [destruct (Hc eq_refl)|]; dlia.
  - assert (¬ (y mod 4 = 0 ∧ (c = GREGORIAN → y mod 100 ≠ 0 ∨ y mod 400 = 0))) as N.
    { rewrite <- leap_spec, L. done. }
    destruct c; cbn.
    + destruct (decide (y mod 4 = 0)); [|dlia]. destruct (decide (y mod 100 = 0)); [|dlia].
      destruct (decide (y mod 400 = 0)); [naive_solver lia|]. dlia.
    + destruct (decide (y mod 4 = 0)); [naive_solver lia|]. dlia.
Qed.

Lemma jdn_day c y m d k : jdn c y m (d + k) = jdn c y m d + k.
Proof. unfold jdn. destruct (march y m), c; lia. Qed.

Lemma jdn_month c y m : 1 <= m < 12 → jdn c y (m + 1) 1 = jdn c y m 1 + dim c m y.
Proof.
  intros Hm. assert (1 <= m <= 12) as Hm' by lia. destruct (decide (m = 2)) as [->|N].
  { pose proof (jdn_feb c y). change (2 + 1) with 3. cbn [dim]. lia. }
  unfold jdn, march. destruct (Z.ltb_spec (m + 1) 3), (Z.ltb_spec m 3); try lia;
    revert Hm N; months m Hm'; intros Hm N; try lia; cbn [dim]; destruct c; dlia.
Qed.

Lemma jdn_year c y : jdn c (y + 1) 1 1 = jdn c y 12 1 + 31.
Proof. destruct c; cbn; replace (y + 1 - 1) with y by lia; dlia. Qed.

Lemma jd_next x : valid x → jd_of (next_day x) = jd_of x + 1.
Proof.
  intros [Hm Hd]. rewrite dim_eq in Hd. unfold next_day, days_this_month, jd_of. rewrite dim_eq.
  case_match eqn:E1; [cbn; apply jdn_day|]. rewrite Z.ltb_ge in E1. assert (curr_day x = dim (class x) (curr_month x) (curr_year x)) as -> by lia.
  pose proof (jdn_day (class x) (curr_year x) (curr_month x) 1 (dim (class x) (curr_month x) (curr_year x) - 1)) as J.
  rewrite (Z.add_sub_assoc 1), (Z.add_comm 1), Z.add_simpl_r in J. rewrite J.
  case_match eqn:E2; rewrite ?Z.ltb_lt, ?Z.ltb_ge in E2; cbn [set_ymd class curr_year curr_month curr_day].
  - rewrite jdn_month by lia. lia.
  - assert (curr_month x = 12) as -> by lia. rewrite jdn_year. cbn [dim]. lia.
Qed.

Lemma next_valid x : valid x → valid (next_day x).
Proof.
  intros [Hm Hd]. unfold next_day, days_this_month, valid in *. rewrite !dim_eq in *.
  repeat case_match; rewrite ?Z.ltb_lt, ?Z.ltb_ge in *; cbn; (split; [lia|]); [lia| |].
  - assert (1 <= curr_month x + 1 <= 12) as Hm' by lia. revert Hm'. generalize (curr_month x + 1). intros m Hm'.
    months m Hm'; cbn; try lia. case_match; lia.
  - lia.
Qed.

Lemma jd_epoch c : jd_of (epoch c) = 2400001.
Proof. by destruct c. Qed.

(** Day numbers are ordered as the dates are. *)
Lemma dim_bounds c m y : 1 <= m <= 12 → 28 <= dim c m y <= 31.
Proof. intros Hm. months m Hm; cbn; try lia. case_match; lia. Qed.

Lemma jdn_month_le c y m m' : 1 <= m < m' → m' <= 12 → jdn c y m 1 + dim c m y <= jdn c y m' 1.
Proof.
  intros Hm Hm'. assert (∀ k : nat, m + 1 + Z.of_nat k <= 12 →
    jdn c y m 1 + dim c m y <= jdn c y (m + 1 + Z.of_nat k) 1) as IH.
  { induction k as [|k IH]; intros Hk; [rewrite Z.add_0_r, jdn_month by lia; lia|].
    pose proof (jdn_month c y (m + 1 + Z.of_nat k) ltac:(lia)) as J.
    replace (m + 1 + Z.of_nat (S k)) with (m + 1 + Z.of_nat k + 1) by lia. rewrite J.
    pose proof (dim_bounds c (m + 1 + Z.of_nat k) y). lia. }
  pose proof (IH (Z.to_nat (m' - m - 1)) ltac:(lia)) as J.
  by replace (m + 1 + Z.of_nat (Z.to_nat (m' - m - 1))) with m' in J by lia.
Qed.

Lemma jdn_year_le c y y' : y < y' → jdn c y 12 1 + 31 <= jdn c y' 1 1.
Proof. intros. rewrite <- jdn_year. destruct c; cbn; dlia. Qed.

Lemma jdn_split c y m d : jdn c y m d = jdn c y m 1 + (d - 1).
Proof. rewrite <- jdn_day. f_equal. lia. Qed.

Lemma jd_mono x y : class x = class y → valid x → valid y → earlier x y → jd_of x < jd_of y.
Proof.
  intros Hc [Hm Hd] [Hm' Hd'] E. rewrite dim_eq in Hd, Hd'. unfold jd_of. rewrite <- Hc in *.
  rewrite (jdn_split _ _ _ (curr_day x)), (jdn_split _ _ _ (curr_day y)).
  destruct E as [E|[E [E'|[E' E'']]]].
  - pose proof (jdn_year_le (class x) _ _ E).
    assert (jdn (class x) (curr_year x) (curr_month x) 1 + dim (class x) (curr_month x) (curr_year x) <=
      jdn (class x) (curr_year x) 12 1 + 31).
    { destruct (decide (curr_month x = 12)) as [->|]; [done|].
      pose proof (jdn_month_le (class x) (curr_year x) (curr_month x) 12). lia. }
    assert (jdn (class x) (curr_year y) 1 1 <= jdn (class x) (curr_year y) (curr_month y) 1).
    { destruct (decide (curr_month y = 1)) as [->|]; [done|].
      pose proof (jdn_month_le (class x) (curr_year y) 1 (curr_month y)). pose proof (dim_bounds (class x) 1 (curr_year y)). lia. }
    lia.
  - rewrite E in *. pose proof (jdn_month_le (class x) (curr_year y) (curr_month x) (curr_month y)). lia.
  - rewrite E, E'. lia.
Qed.

Lemma earlier_total x y : class x = class y → ¬ earlier x y → x = y ∨ earlier y x.
Proof.
  destruct x as [c a m d], y as [c' a' m' d']; unfold earlier; cbn. intros -> N.
  destruct (decide (a = a')) as [->|]; [|right; lia]. destruct (decide (m = m')) as [->|]; [|right; lia].
  destruct (decide (d = d')) as [->|]; [by left|right; lia].
Qed.

Lemma epoch_valid c : valid (epoch c).
Proof. destruct c; vm_compute; split; split; discriminate. Qed.

Lemma epoch_class c : class (epoch c) = c.
Proof. by destruct c. Qed.

Lemma jd_range x : valid x → in_range x → 2400001 <= jd_of x <= 74800000.
Proof.
  intros V [R1 R2]. split.
  - rewrite <- (jd_epoch (class x)).
    destruct (earlier_total x (epoch (class x))) as [<-|E]; [by rewrite epoch_class|done|lia|].
    pose proof (jd_mono _ _ (epoch_class _) (epoch_valid _) V E). lia.
  - assert (jd_of x < jd_of (Date (class x) 200001 1 1)) as L.
    { apply jd_mono; [done|done|destruct (class x); vm_compute; split; split; discriminate|]. left. cbn. lia. }
    assert (jd_of (Date (class x) 200001 1 1) <= 74800000) by (destruct (class x); vm_compute; discriminate). lia.
Qed.

(** ** The formulas in [double]s *)

Lemma lit_half : (lit_2400000_5 == 48000010 # 20)%Q.
Proof. by vm_compute. Qed.

Lemma minus_half jd : 2400001 <= jd <= 100000000 → to_int (dsub (of_int jd) lit_2400000_5) = jd - 2400001.
Proof.
  intros Hj. unfold dsub.
  assert (of_int jd - lit_2400000_5 == inject_Z (2 * jd - 4800001) / 2)%Q as E.
  { rewrite of_int_exact by lia. rewrite lit_half. replace (2 * jd - 4800001) with (2 * jd + - 4800001) by lia.
    rewrite inject_Z_plus, inject_Z_mult. change (inject_Z 2) with 2%Q. change (inject_Z (- 4800001)) with (- 4800001 # 1)%Q. field. }
  assert (rnd (of_int jd - lit_2400000_5) == inject_Z (2 * jd - 4800001) / 2)%Q as E'.
  { rewrite (rnd_exact _ (2 * jd - 4800001) 1); [done|lia|lia|]. rewrite E. change (Qpower 2 1) with 2%Q. field. }
  apply to_int_unique; [lia|rewrite E'..].
  - apply Qle_shift_div_l; [done|]. change 2%Q with (inject_Z 2). rewrite <- inject_Z_mult, <- Zle_Qle. lia.
  - apply Qlt_shift_div_r; [done|]. change 2%Q with (inject_Z 2). rewrite <- inject_Z_mult, <- Zlt_Qlt. lia.
Qed.

Lemma year_range x : in_range x → 1858 <= curr_year x <= 200000.
Proof. intros [R1 R2]. split; [|done]. destruct (Z.le_gt_cases 1858 (curr_year x)); [done|]. exfalso. apply R1. left. by destruct (class x). Qed.

Lemma mjd_eq x : valid x → in_range x → mod_julian_day x = jd_of x - 2400001.
Proof.
  intros V R. pose proof (jd_range x V R). pose proof (year_range x R). destruct V as [Hm _].
  rewrite <- minus_half by lia. unfold mod_julian_day, jd_of, jdn, march in *. destruct (class x); cbn.
  - unfold Gregorian.mod_julian_day. destruct (Z.ltb_spec (curr_month x) 3); do 3 f_equal; dlia.
  - unfold Julian.mod_julian_day. destruct (Z.ltb_spec (curr_month x) 3); do 3 f_equal; dlia.
Qed.

(** [lra] after turning integer literals into rational ones. *)
Ltac qlra := repeat match goal with
  | H : context [inject_Z (Z.pos ?p)] |- _ => change (inject_Z (Z.pos p)) with (Z.pos p # 1)%Q in H
  | H : context [inject_Z (Z.neg ?p)] |- _ => change (inject_Z (Z.neg p)) with (Z.neg p # 1)%Q in H
  | |- context [inject_Z (Z.pos ?p)] => change (inject_Z (Z.pos p)) with (Z.pos p # 1)%Q
  | |- context [inject_Z (Z.neg ?p)] => change (inject_Z (Z.neg p)) with (Z.neg p # 1)%Q
  end; change (inject_Z 0) with 0%Q in *; unfold ulp in *; lra.

Lemma Zle_Q a b : a <= b → (inject_Z a <= inject_Z b)%Q.
Proof. by rewrite Zle_Qle. Qed.

Lemma lit_365 : (lit_365_25 == 1461 # 4)%Q.
Proof. by vm_compute. Qed.

Lemma lit_122 : ((122099999999999 # 1000000000000) <= lit_122_1 <= (122100000000001 # 1000000000000))%Q.
Proof. split; by vm_compute. Qed.

Lemma lit_30 : ((30600099999999 # 1000000000000) <= lit_30_6001 <= (30600100000001 # 1000000000000))%Q.
Proof. split; by vm_compute. Qed.

Lemma trunc_C B : 1000000 <= B <= 100000000 →
  to_int (ddiv (dsub (of_int B) lit_122_1) lit_365_25) = (20 * B - 2442) / 7305.
Proof.
  intros HB. set (C := (20 * B - 2442) / 7305).
  assert (7305 * C + 1 <= 20 * B + - 2442) as L by (subst C; dlia).
  assert (20 * B + - 2442 <= 7305 * C + 7304) as U by (subst C; dlia).
  apply Zle_Q in L, U. rewrite !inject_Z_plus, !inject_Z_mult in L, U.
  pose proof (of_int_exact B ltac:(lia)) as E0. destruct HB as [B1 B2].
  assert (0 <= C) as HC by (subst C; dlia). apply Zle_Q in B1, B2.
  pose proof lit_122 as [c1 c2]. unfold ddiv, dsub.
  destruct (rnd_err (of_int B - lit_122_1)) as [e1 e2].
  { rewrite E0. qlra. }
  set (t1 := rnd (of_int B - lit_122_1)) in *. rewrite E0 in e1, e2.
  assert (t1 / lit_365_25 == t1 * (4 # 1461))%Q as E by (rewrite lit_365; reflexivity).
  destruct (rnd_err (t1 / lit_365_25)) as [f1 f2]; [rewrite E; qlra|].
  set (t2 := rnd (t1 / lit_365_25)) in *. rewrite E in f1, f2.
  apply to_int_unique; [done|qlra|rewrite inject_Z_plus; qlra].
Qed.

Lemma trunc_D C : 0 < C <= 1000000 → to_int (dmul lit_365_25 (of_int C)) = 1461 * C / 4.
Proof.
  intros HC. unfold dmul. pose proof (of_int_exact C ltac:(lia)) as E0.
  assert (lit_365_25 * of_int C == inject_Z (1461 * C) * (1 # 4))%Q as E.
  { rewrite E0, lit_365, inject_Z_mult. change (inject_Z 1461) with (1461 # 1)%Q. field. }
  assert (rnd (lit_365_25 * of_int C) == inject_Z (1461 * C) * (1 # 4))%Q as R.
  { rewrite (rnd_exact _ (1461 * C) 2); [done|lia|lia|]. rewrite E. change (Qpower 2 2) with 4%Q. field. }
  set (D := 1461 * C / 4). assert (4 * D <= 1461 * C <= 4 * D + 3) as [L U] by (subst D; dlia).
  assert (0 <= D) by (subst D; dlia). apply Zle_Q in L, U. rewrite (inject_Z_mult 1461) in R, L, U. rewrite (inject_Z_mult 4) in L. rewrite inject_Z_plus, (inject_Z_mult 4) in U.
  apply to_int_unique; [done|rewrite R; qlra|rewrite R, inject_Z_plus; qlra].
Qed.

(** A property of a range of integers, by evaluation. *)
Lemma by_table (P : Z → bool) a n x : forallb P (seqZ a n) = true → a <= x < a + n → P x = true.
Proof. intros T Hx. rewrite forallb_forall in T. apply T, list_elem_of_In, elem_of_seqZ. lia. Qed.

Lemma table_E :
  forallb (λ n, to_int (ddiv (of_int n) lit_30_6001) =? 10000 * n / 306001) (seqZ 100 420) = true.
Proof. by vm_compute. Qed.
Lemma table_day :
  forallb (λ E, to_int (dmul lit_30_6001 (of_int E)) =? 306001 * E / 10000) (seqZ 1 17) = true.
Proof. by vm_compute. Qed.

Lemma trunc_E n : 100 <= n < 520 → to_int (ddiv (of_int n) lit_30_6001) = 10000 * n / 306001.
Proof. intros Hn. apply Z.eqb_eq. exact (by_table _ _ _ n table_E Hn). Qed.

Lemma trunc_day E : 1 <= E < 18 → to_int (dmul lit_30_6001 (of_int E)) = 306001 * E / 10000.
Proof. intros Hn. apply Z.eqb_eq. exact (by_table _ _ _ E table_day Hn). Qed.

(** The date of the count [A] of days in the Julian calendar, in integers. *)
Definition ymd_int (A : Z) : Z * Z * Z :=
  let B := A + 1524 in
  let C := (20 * B - 2442) / 7305 in
  let D := 1461 * C / 4 in
  let E := 10000 * (B - D) / 306001 in
  let month := if E <? 14 then E - 1 else E - 13 in
  (if 2 <? month then C - 4716 else C - 4715, month, B - D - 306001 * E / 10000).

(** [adjust_date_from_mjd] leads back to the date: the year [y] and the month [m] are
    those counted from March. *)
Lemma ymd_int_ok y m d :
  0 <= y → 3 <= m <= 14 → 1 <= d <= 31 →
  (m = 14 → d <= if leap JULIAN (y + 1) then 29 else 28) → (m = 4 ∨ m = 6 ∨ m = 9 ∨ m = 11 → d <= 30) →
  ymd_int (1461 * (y + 4716) / 4 + 306001 * (m + 1) / 10000 + d - 1524) =
    (if m <? 13 then (y, m, d) else (y + 1, m - 12, d)).
Proof.
  intros Hy Hm Hd Hf H30. unfold ymd_int. set (S := 306001 * (m + 1) / 10000). set (D := 1461 * (y + 4716) / 4).
  assert (10000 * (S + d) / 306001 = m + 1 ∧ 123 <= S + d <= 488 ∧ (S + d = 488 → m = 14)) as (HE & HS & H488).
  { assert (m = 14 → d <= 29) as Hf' by (intros M; specialize (Hf M); case_match; lia). clear Hf. subst S. assert (1 <= m - 2 <= 12) as Hm' by lia. revert Hm'. generalize (m - 2) (Z.sub_add 2 m).
    intros k <- Hk. months k Hk; clear Hk; dlia. }
  replace (D + S + d - 1524 + 1524) with (D + (S + d)) by lia.
  assert ((20 * (D + (S + d)) - 2442) / 7305 = y + 4716) as ->.
  { destruct (decide (S + d = 488)) as [E|]; [|subst D; clear - HS Hy n; dlia].
    rewrite E. assert ((y + 1) mod 4 = 0); [|subst D; clear - Hy H; dlia].
    specialize (Hf (H488 E)). destruct (leap JULIAN (y + 1)) eqn:L; [by apply leap_spec in L as []|].
    pose proof (H488 E) as M. subst S. rewrite M in E. exfalso. clear - E Hf. revert E. change (306001 * (14 + 1) / 10000) with 459. lia. }
  fold D. replace (D + (S + d) - D) with (S + d) by lia. rewrite HE. fold S.
  replace (S + d - S) with d by lia. clear - Hm.
  destruct (Z.ltb_spec (m + 1) 14), (Z.ltb_spec m 13); try lia.
  - destruct (Z.ltb_spec 2 (m + 1 - 1)); [|lia]. do 2 f_equal; lia.
  - destruct (Z.ltb_spec 2 (m + 1 - 13)); [lia|]. do 2 f_equal; lia.
Qed.

Lemma ymd_of_A_eq A f x :
  1000000 <= A <= 90000000 → (f == 0)%Q →
  Gregorian.ymd_of_A A f x = let '(y, m, d) := ymd_int A in set_ymd y m d x.
Proof.
  intros HA Hf. unfold Gregorian.ymd_of_A, ymd_int. set (B := A + 1524).
  rewrite trunc_C by (subst B; lia). set (C := (20 * B - 2442) / 7305).
  assert (2000 <= C <= 300000) by (subst C B; dlia). rewrite trunc_D by lia. set (D := 1461 * C / 4).
  assert (122 <= B - D <= 489) by (subst D C; clearbody B; dlia). rewrite trunc_E by lia.
  set (E := 10000 * (B - D) / 306001). assert (3 <= E <= 15) by (subst E; dlia). rewrite trunc_day by lia.
  set (n := B - D - 306001 * E / 10000). assert (0 <= n <= 500) by (subst n E; generalize dependent (B - D); intros; dlia).
  rewrite (to_int_eq (dadd (of_int n) f) n); [done|lia|]. rewrite <- (Z.add_0_r n) at 2.
  apply dadd_int; [apply of_int_exact; lia|exact Hf|lia].
Qed.

Lemma mjd_Q mjd :
  0 <= mjd <= 80000000 → (dadd (dadd (of_int mjd) lit_2400000_5) lit_0_5 == inject_Z (mjd + 2400001))%Q.
Proof.
  intros Hm. assert (dadd (of_int mjd) lit_2400000_5 == inject_Z (2 * mjd + 4800001) * (1 # 2))%Q as E.
  { unfold dadd. assert (of_int mjd + lit_2400000_5 == inject_Z (2 * mjd + 4800001) * (1 # 2))%Q as E'.
    { rewrite (of_int_exact mjd) by lia. rewrite lit_half, inject_Z_plus, inject_Z_mult.
      change (inject_Z 2) with 2%Q. change (inject_Z 4800001) with (4800001 # 1)%Q. field. }
    rewrite (rnd_exact _ (2 * mjd + 4800001) 1); [done|lia|lia|]. rewrite E'. change (Qpower 2 1) with 2%Q. field. }
  apply rnd_int; [lia|]. rewrite E. assert (lit_0_5 == 1 # 2)%Q as -> by by vm_compute.
  rewrite !inject_Z_plus, inject_Z_mult. change (inject_Z 2) with 2%Q. change (inject_Z 4800001) with (4800001 # 1)%Q.
  change (inject_Z 2400001) with (2400001 # 1)%Q. field.
Qed.

Lemma modf_int q n f z :
  0 <= n < 2 ^ 53 → (q == inject_Z n)%Q → modf q = (f, z) → (f == 0)%Q ∧ (z == inject_Z n)%Q.
Proof.
  intros Hn E [= <- <-]. rewrite (to_int_eq q n) by (done || lia). pose proof (of_int_exact n Hn) as E'.
  split; [|done]. rewrite <- (Z.sub_diag n). by apply dsub_int; [..|lia].
Qed.

Lemma trunc_W z n : 2400001 <= n <= 90000000 → (z == inject_Z n)%Q →
  to_int (ddiv (dsub z lit_1867216_25) lit_36524_25) = (4 * n - 7468865) / 146097.
Proof.
  intros Hn E. set (W := (4 * n - 7468865) / 146097). set (k := 4 * n - 7468865).
  assert (dsub z lit_1867216_25 == inject_Z k * (1 # 4))%Q as S.
  { assert (z - lit_1867216_25 == inject_Z k * (1 # 4))%Q as S'.
    { rewrite E. assert (lit_1867216_25 == 7468865 # 4)%Q as -> by by vm_compute. subst k. unfold Z.sub.
      rewrite inject_Z_plus, inject_Z_opp, inject_Z_mult. change (inject_Z 4) with 4%Q.
      change (inject_Z 7468865) with (7468865 # 1)%Q. field. }
    unfold dsub. rewrite (rnd_exact _ k 2); [done|lia|lia|]. rewrite S'. change (Qpower 2 2) with 4%Q. field. }
  unfold ddiv. set (t := dsub z lit_1867216_25) in *.
  assert (t / lit_36524_25 == inject_Z k * (1 # 146097))%Q as T.
  { rewrite S. assert (lit_36524_25 == 146097 # 4)%Q as -> by by vm_compute. field. }
  assert (146097 * W <= k <= 146097 * W + 146096) as [L U] by (subst W k; dlia).
  assert (0 <= W <= 10000) as HW by (subst W; dlia).
  destruct (decide (k = 146097 * W)) as [->|].
  { apply to_int_eq; [lia|]. apply rnd_int; [lia|]. rewrite T, inject_Z_mult. change (inject_Z 146097) with (146097 # 1)%Q. field. }
  assert (146097 * W + 1 <= k) as L' by lia. destruct HW as [HW HW']. assert (0 < k) as K by (subst k; lia).
  destruct (rnd_err (t / lit_36524_25)) as [f1 f2].
  { rewrite T. apply Qmult_lt_0_compat; [|done]. change 0%Q with (inject_Z 0). by rewrite <- Zlt_Qlt. }
  set (r := rnd (t / lit_36524_25)) in *. rewrite T in f1, f2. apply Zle_Q in L', U, HW'.
  rewrite inject_Z_plus, inject_Z_mult in L', U. pose proof (Zle_Q _ _ HW) as HW0.
  apply to_int_unique; [done|qlra|rewrite inject_Z_plus; qlra].
Qed.

(** Both functions in integers. *)
Lemma julian_adjust_eq mjd x : 0 <= mjd <= 80000000 →
  Julian.adjust_date_from_mjd mjd x = let '(y, m, d) := ymd_int (mjd + 2400001) in set_ymd y m d x.
Proof.
  intros Hm. unfold Julian.adjust_date_from_mjd. destruct (modf _) as [f z] eqn:M.
  apply (modf_int _ (mjd + 2400001)) in M as [Hf Hz]; [|lia|by apply mjd_Q].
  rewrite (to_int_eq z (mjd + 2400001)) by (done || lia). apply ymd_of_A_eq; [lia|done].
Qed.

Lemma gregorian_adjust_eq mjd x : 0 <= mjd <= 80000000 →
  Gregorian.adjust_date_from_mjd mjd x =
    let n := mjd + 2400001 in let W := (4 * n - 7468865) / 146097 in
    let '(y, m, d) := ymd_int (n + 1 + W - W / 4) in set_ymd y m d x.
Proof.
  intros Hm. unfold Gregorian.adjust_date_from_mjd. destruct (modf _) as [f z] eqn:M.
  apply (modf_int _ (mjd + 2400001)) in M as [Hf Hz]; [|lia|by apply mjd_Q].
  cbn zeta. set (n := mjd + 2400001) in *. rewrite (trunc_W z n) by (done || lia).
  set (W := (4 * n - 7468865) / 146097). assert (0 <= W <= 10000) by (subst W n; dlia).
  rewrite Z.quot_div_nonneg by lia. assert (0 <= W / 4 <= W) by dlia.
  rewrite (to_int_eq _ (n + 1 + W - W / 4)); [|lia|].
  - apply ymd_of_A_eq; [lia|done].
  - apply dsub_int; [|apply of_int_exact; lia|lia]. apply dadd_int; [|apply of_int_exact; lia|lia].
    apply dadd_int; [done|by apply of_int_exact|lia].
Qed.

(** The Julian count of a date given by the year and month counted from March. *)
Definition jcount (y m d : Z) : Z := 1461 * (y + 4716) / 4 + 306001 * (m + 1) / 10000 + d - 1524.

Lemma month_days m : 3 <= m <= 14 →
  306001 * (m + 1) / 10000 = 30 * (m - 3) + ((m - 3) * 3 + 2) / 5 + 122 ∧
  306001 * (m + 1) / 10000 = (m * 153 + 3) / 5 + 30.
Proof.
  intros Hm. assert (1 <= m - 2 <= 12) as Hm' by lia. revert Hm'. generalize (m - 2) (Z.sub_add 2 m).
  intros k <- Hk. by months k Hk.
Qed.

Lemma jdn_jcount_julian y m d :
  0 <= y → 3 <= m <= 14 →
  (y + 4800) * 365 + (y + 4800) / 4 + 30 * (m - 3) + ((m - 3) * 3 + 2) / 5 + d - 32083 = jcount y m d.
Proof. intros Hy Hm. unfold jcount. rewrite (proj1 (month_days m Hm)). dlia. Qed.

Lemma jdn_jcount_gregorian y m d :
  0 <= y → 3 <= m <= 14 → 1 <= d <= 31 → (m = 14 → d <= if leap GREGORIAN (y + 1) then 29 else 28) →
  let n := (y + 8000) * 365 + (y + 8000) / 4 - (y + 8000) / 100 + (y + 8000) / 400 - 1200820 + (m * 153 + 3) / 5 - 92 + d - 1 in
  let W := (4 * n - 7468865) / 146097 in n + 1 + W - W / 4 = jcount y m d.
Proof.
  intros Hy Hm Hd H29 n W.
  assert (92 <= (m * 153 + 3) / 5 + d - 1 <= 456 ∨
    (m * 153 + 3) / 5 + d - 1 = 457 ∧ ((y + 1) mod 100 ≠ 0 ∨ (y + 1) mod 400 = 0)) as HS.
  { destruct (leap GREGORIAN (y + 1)) eqn:L; [|left; clear - Hm Hd H29; dlia].
    apply leap_spec in L as [_ L]. specialize (L eq_refl).
    destruct (decide (m = 14 ∧ d = 29)) as [[-> ->]|N]; [by right|]. left. clear - Hm Hd H29 N.
    assert (m < 14 ∨ d <= 28) by lia. dlia. }
  assert (W = y / 100 - 4) as ->.
  { subst W n. revert HS. generalize ((m * 153 + 3) / 5). clear - Hy. intros S HS. dlia. }
  subst n. unfold jcount. rewrite (proj2 (month_days m Hm)). generalize ((m * 153 + 3) / 5). clear - Hy. intros S. dlia.
Qed.

Lemma leap_weaken c y : leap c y = true → leap JULIAN y = true.
Proof. intros [H _]%leap_spec. by apply Z.eqb_eq. Qed.

Lemma dim_march c y m y' m' d :
  1 <= m <= 12 → 1 <= d <= dim c m y → march y m = (y', m') → 0 <= y' →
  3 <= m' <= 14 ∧ 1 <= d <= 31 ∧ (m' = 14 → d <= if leap c (y' + 1) then 29 else 28) ∧
  (m' = 4 ∨ m' = 6 ∨ m' = 9 ∨ m' = 11 → d <= 30) ∧ (if m' <? 13 then (y', m', d) else (y' + 1, m' - 12, d)) = (y, m, d).
Proof.
  intros Hm Hd E Hy. pose proof (dim_bounds c m y Hm). unfold march in E.
  destruct (Z.ltb_spec m 3); injection E as <- <-; rewrite ?Z.sub_add; (split; [lia|]); (split; [lia|]).
  - split; [intros M; assert (m = 2) as -> by lia; apply Hd|]. split; [lia|].
    destruct (Z.ltb_spec (m + 12) 13); [lia|]. by replace (m + 12 - 12) with m by lia.
  - split; [lia|]. destruct (Z.ltb_spec m 13); [|lia]. split; [|done].
    intros [->|[->|[->| ->]]]; apply Hd.
Qed.

Lemma adjust_back x x0 :
  valid x → in_range x → class x0 = class x → adjust_date_from_mjd (jd_of x - 2400001) x0 = x.
Proof.
  intros V R Hc. pose proof (jd_range x V R) as J. pose proof (year_range x R) as Y. destruct V as [Hm Hd].
  rewrite dim_eq in Hd. destruct (march (curr_year x) (curr_month x)) as [y m] eqn:M.
  destruct (dim_march _ _ _ _ _ _ Hm Hd M) as (Hm' & Hd' & Hf & H30 & Hb).
  { unfold march in M. case_match; simplify_eq; lia. }
  assert (0 <= y) by (unfold march in M; case_match; simplify_eq; lia).
  pose proof (ymd_int_ok y m (curr_day x)) as I. fold (jcount y m (curr_day x)) in I. rewrite Hb in I.
  assert (ymd_int (jcount y m (curr_day x)) = (curr_year x, curr_month x, curr_day x)) as I'.
  { apply I; [lia|done..| |done]. intros E. specialize (Hf E).
    destruct (leap (class x) _) eqn:L; [apply leap_weaken in L; by rewrite L|case_match; lia]. }
  clear I. unfold adjust_date_from_mjd, jd_of, jdn in *. rewrite M, Hc in *. destruct (class x) eqn:Ec.
  - rewrite gregorian_adjust_eq by lia. cbn zeta. rewrite Z.sub_add, jdn_jcount_gregorian, I' by done.
    unfold set_ymd. rewrite Hc, <- Ec. by destruct x.
  - rewrite julian_adjust_eq by lia. rewrite Z.sub_add, jdn_jcount_julian, I' by done.
    unfold set_ymd. rewrite Hc, <- Ec. by destruct x.
Qed.

(** ** Conversion from day numbers *)

Lemma next_class x : class (next_day x) = class x.
Proof. unfold next_day. by repeat case_match. Qed.

Lemma next_later x : valid x → earlier x (next_day x).
Proof.
  intros [Hm Hd]. unfold next_day, earlier. repeat case_match; rewrite ?Z.ltb_lt, ?Z.ltb_ge in *; cbn; lia.
Qed.

(** Every day number from the epoch on belongs to a valid date. *)
Lemma date_of_day c (k : nat) :
  ∃ x, class x = c ∧ valid x ∧ ¬ earlier x (epoch c) ∧ jd_of x = 2400001 + Z.of_nat k.
Proof.
  induction k as [|k (x & Hc & V & N & J)].
  - exists (epoch c). split_and!; [apply epoch_class|apply epoch_valid| |apply jd_epoch]. unfold earlier. lia.
  - exists (next_day x). rewrite next_class, jd_next, J by done. split_and!; [done|by apply next_valid| |lia].
    intros E. pose proof (next_later x V) as E'. unfold earlier in *. lia.
Qed.

Lemma date_of_mjd c mjd :
  0 <= mjd <= 70000000 → ∃ x, class x = c ∧ valid x ∧ in_range x ∧ jd_of x = mjd + 2400001.
Proof.
  intros Hm. destruct (date_of_day c (Z.to_nat mjd)) as (x & Hc & V & N & J). exists x.
  split_and!; [done|done| |lia]. rewrite <- Hc in N. split; [done|].
  destruct (Z.le_gt_cases (curr_year x) 200000); [done|]. exfalso.
  assert (jd_of (Date (class x) 200000 12 31) < jd_of x).
  { apply jd_mono; [done|destruct (class x); vm_compute; split; split; discriminate|done|]. left. cbn. lia. }
  assert (72400002 < jd_of (Date (class x) 200000 12 31)) by (by destruct (class x); vm_compute). lia.
Qed.

(** The last day number of the theorems. *)
Definition last_mjd : Z := 70000000.

Lemma mjd_bounds x : valid x → in_range x → 0 <= mod_julian_day x.
Proof. intros V R. rewrite mjd_eq by done. pose proof (jd_range x V R). lia. Qed.

Lemma adjust_spec mjd x0 :
  0 <= mjd <= last_mjd →
  let d := adjust_date_from_mjd mjd x0 in
  class d = class x0 ∧ valid d ∧ in_range d ∧ mod_julian_day d = mjd.
Proof.
  intros Hm. destruct (date_of_mjd (class x0) mjd Hm) as (x & Hc & V & R & J). cbn zeta.
  pose proof (adjust_back x x0 V R (eq_sym Hc)) as A. rewrite J, Z.add_simpl_r in A. rewrite A, mjd_eq, J by done.
  split_and!; [done..|lia].
Qed.

Lemma adjust_inverse x x0 :
  valid x → in_range x → class x0 = class x → adjust_date_from_mjd (mod_julian_day x) x0 = x.
Proof. intros V R Hc. rewrite mjd_eq by done. by apply adjust_back. Qed.

Lemma mjd_inj x y :
  class x = class y → valid x → in_range x → valid y → in_range y → mod_julian_day x = mod_julian_day y → x = y.
Proof.
  intros Hc Vx Rx Vy Ry E. pose proof (adjust_inverse x y Vx Rx (eq_sym Hc)).
  pose proof (adjust_inverse y y Vy Ry eq_refl). congruence.
Qed.

Lemma mjd_lt x y :
  class x = class y → valid x → in_range x → valid y → in_range y → mod_julian_day x < mod_julian_day y ↔ earlier x y.
Proof.
  intros Hc Vx Rx Vy Ry. rewrite !mjd_eq by done. split.
  - intros L. destruct (decide (x = y)) as [->|N]; [lia|].
    assert (¬ earlier y x) as NE by (intros E; pose proof (jd_mono _ _ (eq_sym Hc) Vy Vx E); lia).
    destruct (earlier_total y x) as [->|]; done.
  - intros E. pose proof (jd_mono _ _ Hc Vx Vy E). lia.
Qed.

Lemma incr_next x : valid x → in_range x → mod_julian_day x < last_mjd → op_incr x = next_day x ∧ in_range (next_day x).
Proof.
  intros V R L. pose proof (mjd_bounds x V R). rewrite mjd_eq in * by done. unfold op_incr. rewrite mjd_eq by done.
  destruct (date_of_mjd (class x) (jd_of x - 2400001 + 1)) as (y & Hc & Vy & Ry & J); [unfold last_mjd in *; lia|].
  assert (y = next_day x) as ->; [|split; [|done]].
  - destruct (decide (y = next_day x)) as [|N]; [done|exfalso].
    pose proof (jd_next x V) as JN. pose proof (next_valid x V) as VN. pose proof (next_class x) as CN.
    assert (class y = class (next_day x)) as CE by congruence.
    destruct (decide (earlier y (next_day x))) as [E|E].
    + pose proof (jd_mono _ _ CE Vy VN E). lia.
    + destruct (earlier_total _ _ CE E) as [|E']; [done|]. pose proof (jd_mono _ _ (eq_sym CE) VN Vy E'). lia.
  - replace (jd_of x - 2400001 + 1) with (jd_of (next_day x) - 2400001) by lia. by apply adjust_back.
Qed.

(** ** Days of the week *)

Lemma month_offset m : 1 <= m <= 12 → ∃ o, table_at m = Some o ∧ 0 <= o <= 6 ∧
  (o - ((march 0 m).2 * 153 + 3) / 5) mod 7 = if m <? 3 then 1 else 2.
Proof. intros Hm. months m Hm; eexists; (split; [reflexivity|]); (split; [lia|reflexivity]). Qed.

(** [n] days after a Sunday. *)
Definition weekday_of (n : Z) : Z := (n - 1) mod 7 + 1.

Lemma weekday_loop_eq v : -7 < v < 7 → Gregorian.weekday_loop 2 v = Some (weekday_of v).
Proof.
  intros Hv. unfold weekday_of. cbn. destruct (Z.ltb_spec v 1).
  - destruct (Z.ltb_spec (v + 7) 1); [lia|]. f_equal. dlia.
  - f_equal. dlia.
Qed.

(** The offsets of the century and of the year, for the first of March. *)
Definition year_offset (c : cls) (y : Z) : Z :=
  match c with GREGORIAN => Z.rem (39 - y / 100) 4 * 2 | JULIAN => 7 - Z.rem (y / 100 + 3) 7 end + (y mod 100 + y mod 100 / 4) mod 7.

Lemma year_offset_ok c y : 0 <= y → (c = GREGORIAN → y < 4000) → (year_offset c y + 4 - (jdn c y 3 1 + 1)) mod 7 = 0.
Proof.
  intros Hy Hc. unfold year_offset, jdn, march. cbn [Z.ltb Z.compare Pos.compare Pos.compare_cont].
  destruct c; [specialize (Hc eq_refl)|clear Hc].
  - assert (y = 100 * (y / 100) + y mod 100 ∧ 0 <= y / 100 < 40 ∧ 0 <= y mod 100 < 100) as (E & Hk & Hr) by dlia.
    revert E Hk Hr. generalize (y / 100) (y mod 100). intros k r E Hk Hr.
    assert ((y + 8000) / 4 = 25 * (k + 80) + r / 4) as -> by dlia.
    assert ((y + 8000) / 100 = k + 80) as -> by dlia. assert ((y + 8000) / 400 = k / 4 + 20) as -> by dlia.
    rewrite Z.rem_mod_nonneg by lia. dlia.
  - assert (y = 100 * (y / 100) + y mod 100 ∧ 0 <= y / 100 ∧ 0 <= y mod 100 < 100) as (E & Hk & Hr) by dlia.
    revert E Hk Hr. generalize (y / 100) (y mod 100). intros k r E Hk Hr.
    assert ((y + 4800) / 4 = 25 * (k + 48) + r / 4) as -> by dlia. rewrite Z.rem_mod_nonneg by lia. dlia.
Qed.

Lemma weekday_sum c y m d o :
  0 <= y → (c = GREGORIAN → y < 4000) → 1 <= m <= 12 → table_at m = Some o →
  (year_offset c y - (if leap c y && (m <? 3) then 1 else 0) + o + d - (jdn c y m d + 1)) mod 7 = 0.
Proof.
  intros Hy Hc Hm Ho. pose proof (year_offset_ok c y Hy Hc) as Y. pose proof (jdn_feb c y) as F.
  pose proof (jdn_month c y 1 ltac:(lia)) as J. change (1 + 1) with 2 in J. cbn [dim] in J.
  rewrite (jdn_split c y m d). destruct (Z.ltb_spec m 3).
  - rewrite andb_true_r. assert (m = 1 ∧ o = 0 ∨ m = 2 ∧ o = 3) as [[-> ->]|[-> ->]].
    { assert (m = 1 ∨ m = 2) as [-> | ->] by lia; injection Ho as <-; auto. }
    + revert Y F J. generalize (jdn c y 1 1) (jdn c y 2 1) (jdn c y 3 1) (year_offset c y). clear.
      destruct (leap c y); intros; dlia.
    + revert Y F J. generalize (jdn c y 1 1) (jdn c y 2 1) (jdn c y 3 1) (year_offset c y). clear.
      destruct (leap c y); intros; dlia.
  - rewrite andb_false_r.
    assert (jdn c y m 1 = jdn c y 3 1 + (m * 153 + 3) / 5 - 92) as ->.
    { unfold jdn, march. destruct (Z.ltb_spec m 3); [lia|]. cbn [Z.ltb Z.compare Pos.compare Pos.compare_cont].
      destruct c.
      - change ((3 * 153 + 3) / 5) with 92. lia.
      - destruct (month_days m ltac:(lia)). change (((3 - 3) * 3 + 2) / 5) with 0. lia. }
    destruct (month_offset m Hm) as (o' & Ho' & _ & O). rewrite Ho in Ho'. injection Ho' as <-.
    unfold march in O. destruct (Z.ltb_spec m 3); [lia|]. cbn [snd] in O.
    revert Y O. generalize (jdn c y 3 1) (year_offset c y) ((m * 153 + 3) / 5). clear. intros. dlia.
Qed.

Lemma weekday_of_mod a b : (a - b) mod 7 = 0 → weekday_of a = weekday_of b.
Proof. unfold weekday_of. intros. f_equal. dlia. Qed.

Lemma week_day_eq x :
  valid x → in_range x → (class x = GREGORIAN → curr_year x < 4000) →
  week_day x = Some (weekday_of (mod_julian_day x + 3)).
Proof.
  intros V R Hc. rewrite mjd_eq by done. pose proof (year_range x R) as Y. destruct V as [Hm Hd]. rewrite dim_eq in Hd.
  pose proof (dim_bounds (class x) _ (curr_year x) Hm). destruct (month_offset _ Hm) as (o & Ho & Hr & _).
  pose proof (weekday_sum (class x) (curr_year x) (curr_month x) (curr_day x) o ltac:(lia) Hc Hm Ho) as W. fold (jd_of x) in W.
  unfold week_day. unfold year_offset in W. destruct (class x) eqn:C.
  - specialize (Hc eq_refl). unfold Gregorian.week_day. rewrite Ho. cbn [mbind option_bind].
    pose proof (leap_eq x (curr_year x)) as L. unfold leap_year in L. rewrite C in L. rewrite L.
    rewrite (Z.quot_div_nonneg (curr_year x) 100), (Z.rem_mod_nonneg (curr_year x) 100) by lia.
    assert (0 <= curr_year x mod 100 < 100) by dlia.
    rewrite (Z.quot_div_nonneg (curr_year x mod 100) 4), (Z.rem_mod_nonneg (curr_year x mod 100 + _) 7), (Z.rem_mod_nonneg (curr_day x) 7) by dlia.
    set (s := _ + _ + o + _). rewrite weekday_loop_eq by dlia. cbn [mbind option_bind].
    assert (weekday_of (Z.rem s 7) = weekday_of (jd_of x - 2400001 + 3)) as ->.
    { apply weekday_of_mod. clear - W. subst s. destruct (_ && _); revert W;
        generalize (Z.rem (39 - curr_year x / 100) 4 * 2) ((curr_year x mod 100 + curr_year x mod 100 / 4) mod 7); intros; dlia. }
    pose proof (Z.mod_pos_bound (jd_of x - 2400001 + 3 - 1) 7). unfold weekday_of.
    destruct (Z.eqb_spec ((jd_of x - 2400001 + 3 - 1) mod 7 + 1) 0); [lia|done].
  - unfold Julian.week_day. rewrite Ho. cbn [mbind option_bind].
    pose proof (leap_eq x (curr_year x)) as L. unfold leap_year in L. rewrite C in L. rewrite L.
    rewrite (Z.quot_div_nonneg (curr_year x) 100), (Z.rem_mod_nonneg (curr_year x) 100) by lia.
    assert (0 <= curr_year x mod 100 < 100) by dlia. assert (0 <= curr_year x / 100) by dlia.
    rewrite (Z.quot_div_nonneg (curr_year x mod 100) 4), (Z.rem_mod_nonneg (curr_year x mod 100 + _) 7), (Z.rem_mod_nonneg (curr_day x) 7) by dlia.
    replace (curr_month x <=? 2) with (curr_month x <? 3) by lia.
    rewrite (Z.rem_mod_nonneg (curr_year x / 100 + 3) 7) in * by lia. f_equal. unfold weekday_of.
    destruct (_ && _); revert W; generalize (curr_year x / 100 + 3) ((curr_year x mod 100 + curr_year x mod 100 / 4)); clear - Hr Hd.
    all: intros k r W; case_match; dlia.
Qed.

(** ** Months and years *)

(** Months since the year 0. *)
Definition months_of (x : date) : Z := 12 * curr_year x + curr_month x.

Lemma valid_28 c y m d : 1 <= m <= 12 → 1 <= d <= 28 → valid (Date c y m d).
Proof. intros Hm Hd. split; [done|]. cbn. rewrite dim_eq. pose proof (dim_bounds c m y Hm). cbn in *. lia. Qed.

(** [x'] is [x] moved by [n] months. *)
Definition month_moved (n : Z) (x x' : date) : Prop :=
  class x' = class x ∧ valid x' ∧ curr_day x' = curr_day x ∧ months_of x' = months_of x + n.

(** The two classes have the same text for these functions. *)
Lemma add_month1_text x : add_month1 x = gregorian_add_month1 x.
Proof. unfold add_month1. by destruct (class x). Qed.

Lemma sub_month_text x : sub_month x = gregorian_sub_month x.
Proof. unfold sub_month. by destruct (class x). Qed.

Lemma add_year_text n x : add_year n x = gregorian_add_year n x.
Proof. unfold add_year. by destruct (class x). Qed.

Lemma add_month1_spec x :
  valid x →
  month_moved 1 x (add_month1 x) ∨
  add_month1 x = op_plus_assign x 30 ∧ 28 < curr_day x.
Proof.
  intros [Hm Hd]. rewrite add_month1_text. unfold gregorian_add_month1, days_this_month.
  assert (∃ y m, (if curr_month x + 1 >? 12 then (curr_year x + 1, 1) else (curr_year x, curr_month x + 1)) = (y, m) ∧
    1 <= m <= 12 ∧ 12 * y + m = months_of x + 1) as (y & m & -> & Hm' & E).
  { unfold months_of. destruct (Z.gtb_spec (curr_month x + 1) 12); eexists _, _; split; [done|lia|done|lia]. }
  cbn [set_ymd curr_day curr_month curr_year]. rewrite dim_eq. cbn [class set_ymd]. pose proof (dim_bounds (class x) m y Hm').
  destruct (Z.gtb_spec (curr_day x) (dim (class x) m y)); [right; split; [done|lia]|]. left.
  split_and!; [done| |done|by rewrite <- E]. split; [done|]. rewrite dim_eq. cbn. lia.
Qed.

Lemma sub_month_spec x :
  valid x →
  month_moved (-1) x (sub_month x) ∨
  sub_month x = op_minus_assign x 30 ∧ 28 < curr_day x.
Proof.
  intros [Hm Hd]. rewrite sub_month_text. unfold gregorian_sub_month, days_this_month.
  assert (∃ y m, (if curr_month x - 1 <? 1 then (curr_year x - 1, 12) else (curr_year x, curr_month x - 1)) = (y, m) ∧
    1 <= m <= 12 ∧ 12 * y + m = months_of x - 1) as (y & m & -> & Hm' & E).
  { unfold months_of. destruct (Z.ltb_spec (curr_month x - 1) 1); eexists _, _; split; [done|lia|done|lia]. }
  cbn [set_ymd curr_day curr_month curr_year]. rewrite dim_eq. cbn [class set_ymd]. pose proof (dim_bounds (class x) m y Hm').
  destruct (Z.gtb_spec (curr_day x) (dim (class x) m y)); [right; split; [done|lia]|]. left.
  split_and!; [done| |done|unfold months_of at 1; cbn; lia]. split; [done|]. rewrite dim_eq. cbn. lia.
Qed.

Lemma iter_moved (f : date → date) s x k :
  (∀ x, valid x → curr_day x <= 28 → month_moved s x (f x)) →
  valid x → curr_day x <= 28 → month_moved (Z.of_nat k * s) x (Nat.iter k f x).
Proof.
  intros Hf V D. induction k as [|k (C & V' & D' & M)]; [split_and!; [done..|cbn; lia]|].
  rewrite Nat2Z.inj_succ. cbn [Nat.iter nat_rect]. change (nat_rect _ x (λ _, f) k) with (Nat.iter k f x).
  destruct (Hf (Nat.iter k f x)) as (C2 & V2 & D2 & M2); [done|lia|]. split_and!; [congruence|done|congruence|lia].
Qed.

Lemma up_to_0_iter k i x : i = - Z.of_nat k → up_to_0 k i x = Nat.iter k sub_month x.
Proof.
  revert i x. induction k as [|k IH]; intros i x Hi; [done|]. cbn [up_to_0]. replace (i <? 0) with true by lia.
  rewrite IH by lia. by rewrite Nat.iter_succ_r.
Qed.

Lemma down_to_iter k i n x : i - n = Z.of_nat k → down_to k i n x = Nat.iter k sub_month x.
Proof.
  revert i x. induction k as [|k IH]; intros i x Hi; [done|]. cbn [down_to]. replace (i >? n) with true by lia.
  rewrite IH by lia. by rewrite Nat.iter_succ_r.
Qed.

Lemma count_to_iter k i n x : n - i = Z.of_nat k → count_to k i n x = Nat.iter k add_month1 x.
Proof.
  revert i x. induction k as [|k IH]; intros i x Hi; [done|]. cbn [count_to]. replace (i <? n) with true by lia.
  rewrite IH by lia. by rewrite Nat.iter_succ_r.
Qed.

Lemma add_month_iter n x :
  add_month n x = if n <? 0 then Nat.iter (Z.to_nat (- n)) sub_month x else Nat.iter (Z.to_nat n) add_month1 x.
Proof.
  unfold add_month, gregorian_add_month, julian_add_month.
  destruct (class x), (Z.ltb_spec n 0); [apply up_to_0_iter|apply count_to_iter|apply down_to_iter|apply count_to_iter]; lia.
Qed.

Lemma add_month_moved n x : valid x → curr_day x <= 28 → month_moved n x (add_month n x).
Proof.
  intros V D. rewrite add_month_iter. destruct (Z.ltb_spec n 0).
  - rewrite <- (Z.opp_involutive n) at 1. rewrite <- (Z2Nat.id (- n)) at 1 by lia. rewrite Z.opp_eq_mul_m1.
    apply iter_moved; [|done..]. intros y Vy Dy. destruct (sub_month_spec y Vy) as [|[_ ?]]; [done|lia].
  - rewrite <- (Z2Nat.id n) at 1 by lia. rewrite <- (Z.mul_1_r (Z.of_nat _)).
    apply iter_moved; [|done..]. intros y Vy Dy. destruct (add_month1_spec y Vy) as [|[_ ?]]; [done|lia].
Qed.

Lemma dim_year c m y y' : m ≠ 2 → dim c m y = dim c m y'.
Proof. intros H. unfold dim. by repeat case_match. Qed.

Lemma add_year_spec n x :
  valid x →
  class (add_year n x) = class x ∧ valid (add_year n x) ∧ months_of (add_year n x) = months_of x + 12 * n ∧
  curr_day (add_year n x) =
    if decide (curr_month x = 2 ∧ curr_day x = 29 ∧ leap_year x (curr_year x + n) = false) then 28 else curr_day x.
Proof.
  intros [Hm Hd]. rewrite dim_eq in Hd. rewrite add_year_text. unfold gregorian_add_year, months_of, valid. rewrite leap_eq.
  destruct (Z.eqb_spec (curr_month x) 2) as [E|E]; cbn [andb].
  - rewrite E in Hd. destruct (Z.eqb_spec (curr_day x) 29) as [E'|E'], (leap (class x) (curr_year x + n)) eqn:L;
      cbn [andb negb set_ymd class curr_year curr_month curr_day]; rewrite dim_eq; cbn [class set_ymd]; rewrite E; cbn [dim];
      rewrite L; (split; [done|]); (split; [|split; [lia|case_decide; naive_solver lia]]); cbn [dim] in Hd; repeat case_match; lia.
  - cbn [set_ymd class curr_year curr_month curr_day]. rewrite dim_eq. cbn [class set_ymd].
    rewrite (dim_year _ _ (curr_year x + n) (curr_year x)) by done.
    split; [done|]. split; [done|]. split; [lia|]. case_decide; naive_solver lia.
Qed.
