(* ===== verification/DateProps.v ===== *)
(** Theorems about the calendar classes of cpp-code/date and about mjd.c: conversions
    between dates and day numbers, arithmetic and order of dates, days of the week, months
    and years, the calendar of events, and the search of [jd_to_calendar]. *)
From stdpp Require Import base tactics numbers list gmap strings sorting.
From S2P Require Import Prelude Cio Date DateThms.
Local Open Scope Z_scope.

(** ** Events of a calendar *)

(** What identifies an event: its day and its text. *)
Definition key (e : event) : Z * string := (mod_julian_day (event_date e), event_str e).

Definition abs (c : calendar) : gset (Z * string) := list_to_set (map key (events c)).

(** Events are in the order of their days, and no two are the same. *)
Definition ordered (es : list event) : Prop :=
  StronglySorted (λ e e', mod_julian_day (event_date e) <= mod_julian_day (event_date e')) es ∧ NoDup (map key es).

Lemma same_key e d str :
  (op_eq (event_date e) d && String.eqb (event_str e) str) = true ↔ key e = (mod_julian_day d, str).
Proof.
  unfold op_eq, key. rewrite andb_true_iff, Z.eqb_eq, String.eqb_eq. split; [by intros [-> ->]|by intros [= -> ->]].
Qed.

Lemma add_loop_present str d es :
  (mod_julian_day d, str) ∈ map key es → ordered es → add_loop str d es = None.
Proof.
  induction es as [|e es IH]; cbn; [by intros ?%elem_of_nil|]. intros Hin [Hs Hn].
  destruct (op_eq _ _ && _) eqn:E; [done|].
  assert (key e ≠ (mod_julian_day d, str)) as Ne by (intros E'%same_key; congruence).
  apply elem_of_cons in Hin as [|Hin]; [done|]. apply StronglySorted_inv in Hs as [Hs Hle]. cbn in Hn. apply NoDup_cons in Hn as [_ Hn].
  assert (op_gt (event_date e) d = false) as ->.
  { apply list_elem_of_fmap in Hin as (e' & [= Ed _] & He'). rewrite Forall_forall in Hle. specialize (Hle _ He').
    unfold op_gt. lia. }
  by rewrite IH.
Qed.

Lemma add_loop_absent str d es :
  (mod_julian_day d, str) ∉ map key es → ordered es →
  ∃ l r, es = l ++ r ∧ add_loop str d es = Some (l ++ Event d str :: r) ∧
    Forall (λ e, mod_julian_day (event_date e) <= mod_julian_day d) l ∧
    Forall (λ e, mod_julian_day d < mod_julian_day (event_date e)) r.
Proof.
  induction es as [|e es IH]; cbn; intros Hin [Hs Hn]; [by exists [], []|].
  rewrite not_elem_of_cons in Hin. destruct Hin as [Ne Hin].
  destruct (op_eq _ _ && _) eqn:E; [apply same_key in E; congruence|].
  apply StronglySorted_inv in Hs as [Hs Hle]. apply NoDup_cons in Hn as [_ Hn].
  destruct (op_gt (event_date e) d) eqn:G; unfold op_gt in G.
  - exists [], (e :: es). split_and!; [done|done|done|]. constructor; [lia|]. eapply Forall_impl; [exact Hle|]. cbn. lia.
  - destruct (IH Hin (conj Hs Hn)) as (l & r & -> & -> & Hl & Hr). exists (e :: l), r.
    split_and!; [done|done| |done]. constructor; [lia|done].
Qed.

Lemma ordered_insert l e r :
  ordered (l ++ r) → key e ∉ map key (l ++ r) →
  Forall (λ e', mod_julian_day (event_date e') <= mod_julian_day (event_date e)) l →
  Forall (λ e', mod_julian_day (event_date e) < mod_julian_day (event_date e')) r → ordered (l ++ e :: r).
Proof.
  intros [Hs Hn] Hin Hl Hr. split.
  - induction l as [|e' l IH]; cbn in *.
    + constructor; [done|]. eapply Forall_impl; [exact Hr|]. cbn. lia.
    + apply StronglySorted_inv in Hs as [Hs Hle]. apply Forall_cons in Hl as [He Hl]. apply NoDup_cons in Hn as [_ Hn].
      rewrite not_elem_of_cons in Hin. constructor; [naive_solver|].
      rewrite Forall_app in Hle. rewrite Forall_app, Forall_cons. naive_solver.
  - rewrite map_app in *. cbn. rewrite NoDup_app, NoDup_cons in *. setoid_rewrite elem_of_cons.
    rewrite elem_of_app in Hin. naive_solver.
Qed.

Lemma add_event_refines str d c :
  ordered (events c) →
  let '(c', b) := add_event str d c in
  ordered (events c') ∧ current_date c' = current_date c ∧
  b = bool_decide ((mod_julian_day d, str) ∉ abs c) ∧ abs c' = {[ (mod_julian_day d, str) ]} ∪ abs c.
Proof.
  intros O. unfold add_event, abs. destruct (decide ((mod_julian_day d, str) ∈ map key (events c))) as [Hin|Hin].
  - rewrite add_loop_present by done. split_and!; [done..| |].
    + symmetry. apply bool_decide_eq_false. rewrite elem_of_list_to_set. tauto.
    + symmetry. apply subseteq_union_1_L, singleton_subseteq_l. by rewrite elem_of_list_to_set.
  - destruct (add_loop_absent str d _ Hin O) as (l & r & E & -> & Hl & Hr). rewrite E in *.
    split_and!; [by apply ordered_insert|done| |].
    + symmetry. apply bool_decide_eq_true. by rewrite elem_of_list_to_set.
    + cbn. rewrite !map_app, !list_to_set_app_L. cbn. unfold key at 2. cbn. set_solver.
Qed.

Lemma ordered_filter (P : event → bool) es : ordered es → ordered (List.filter P es).
Proof.
  intros [Hs Hn]. split.
  - induction es as [|e es IH]; cbn; [done|]. apply StronglySorted_inv in Hs as [Hs Hle]. apply NoDup_cons in Hn as [_ Hn].
    destruct (P e); [|by apply IH]. constructor; [by apply IH|].
    apply Forall_forall. intros e' [He' _]%list_elem_of_In%List.filter_In. rewrite Forall_forall in Hle. apply Hle. by apply list_elem_of_In.
  - induction es as [|e es IH]; cbn; [done|]. apply StronglySorted_inv in Hs as [Hs Hle]. apply NoDup_cons in Hn as [Ne Hn].
    destruct (P e); [|by apply IH]. apply NoDup_cons. split; [|by apply IH].
    intros (e' & E & He')%list_elem_of_fmap. apply Ne, list_elem_of_fmap. exists e'. split; [done|].
    apply list_elem_of_In in He'. apply List.filter_In in He' as [? _]. by apply list_elem_of_In.
Qed.

Lemma event_eq_key e e' : event_eq e e' = true ↔ key e = key e'.
Proof. unfold event_eq. by rewrite same_key. Qed.

Lemma remove_event_refines str d c :
  ordered (events c) →
  let '(c', b) := remove_event str d c in
  ordered (events c') ∧ current_date c' = current_date c ∧
  b = bool_decide ((mod_julian_day d, str) ∈ abs c) ∧ abs c' = abs c ∖ {[ (mod_julian_day d, str) ]}.
Proof.
  intros O. unfold remove_event, abs. destruct (List.find _ _) as [e|] eqn:F.
  - apply List.find_some in F as [He K%same_key]. apply list_elem_of_In in He.
    split_and!; [by apply ordered_filter|done| |].
    + symmetry. apply bool_decide_eq_true. rewrite elem_of_list_to_set, <- K. by apply list_elem_of_fmap_2.
    + apply set_eq. intros k. rewrite elem_of_difference, elem_of_singleton, !elem_of_list_to_set, !list_elem_of_fmap.
      cbn. setoid_rewrite list_elem_of_In. setoid_rewrite List.filter_In. setoid_rewrite negb_true_iff.
      split.
      * intros (e' & -> & He' & Ne). split; [eauto|]. rewrite <- K, <- event_eq_key, Ne. done.
      * intros [(e' & -> & He') Ne]. exists e'. split_and!; [done..|]. apply not_true_iff_false. rewrite event_eq_key. congruence.
  - assert ((mod_julian_day d, str) ∉ map key (events c)) as N.
    { intros (e & E & He)%list_elem_of_fmap. apply list_elem_of_In in He. pose proof (List.find_none _ _ F e He) as K.
      cbn in K. symmetry in E. apply same_key in E. congruence. }
    split_and!; [done..| |].
    + symmetry. apply bool_decide_eq_false. by rewrite elem_of_list_to_set.
    + symmetry. apply difference_disjoint_L. apply disjoint_singleton_r. by rewrite elem_of_list_to_set.
Qed.

(** ** The search of [jd_to_calendar] *)

Definition calendar_to_jd (c : cls) : Z → Z → Z → Z :=
  match c with GREGORIAN => Mjd.gregorian_calendar_to_jd | JULIAN => Mjd.julian_calendar_to_jd end.

Lemma calendar_to_jd_eq c y m d : -4715 <= y → 1 <= m <= 13 → calendar_to_jd c y m d = jdn c y m d.
Proof.
  intros Hy Hm. unfold calendar_to_jd, Mjd.gregorian_calendar_to_jd, Mjd.julian_calendar_to_jd, jdn, march.
  destruct c, (Z.ltb_spec m 3); rewrite !Z.quot_div_nonneg by lia; lia.
Qed.

Lemma search_ok (first : Z → Z) jd n i fuel :
  i <= n → jd < first (n + 1) → (∀ j, i < j <= n → first j <= jd) → n - i < Z.of_nat fuel →
  Mjd.search fuel first jd i = Some n.
Proof.
  revert i. induction fuel as [|fuel IH]; intros i Hi Hn Hj Hf; [lia|]. cbn.
  destruct (Z.leb_spec (first (i + 1)) jd) as [L|L].
  - apply IH; [|done| |lia].
    + destruct (decide (i = n)) as [->|]; lia.
    + intros j Hj'. apply Hj. lia.
  - destruct (decide (i = n)) as [->|]; [done|]. specialize (Hj (i + 1) ltac:(lia)). lia.
Qed.

(** The first day of the Julian Day count. *)
Definition day0 (c : cls) : date :=
  match c with GREGORIAN => Date c (-4713) 11 24 | JULIAN => Date c (-4712) 1 1 end.

Lemma date_of_jd c (k : nat) :
  ∃ x, class x = c ∧ valid x ∧ -4713 <= curr_year x ∧ jd_of x = Z.of_nat k.
Proof.
  induction k as [|k (x & Hc & V & Hy & J)].
  - exists (day0 c). destruct c; (split_and!; [done|vm_compute; split; split; discriminate|vm_compute; discriminate|done]).
  - exists (next_day x). rewrite next_class, jd_next, J by done. split_and!; [done|by apply next_valid| |lia].
    pose proof (next_later x V) as E. unfold earlier in E. lia.
Qed.

Lemma jd_year x : valid x → jdn (class x) (curr_year x) 1 1 <= jd_of x < jdn (class x) (curr_year x + 1) 1 1.
Proof.
  intros V. pose proof V as [Hm Hd]. split.
  - destruct (decide (x = Date (class x) (curr_year x) 1 1)) as [->|N]; [done|].
    apply Z.lt_le_incl, (jd_mono (Date (class x) (curr_year x) 1 1) x); [done|by apply valid_28|done|].
    destruct x as [c y m d]; unfold earlier; cbn in *. right. split; [done|].
    destruct (decide (m = 1)) as [->|]; [right; split; [done|]|left; lia]. destruct (decide (d = 1)) as [->|]; [done|lia].
  - apply (jd_mono x (Date (class x) (curr_year x + 1) 1 1)); [done|done|by apply valid_28|]. left. cbn. lia.
Qed.

Lemma jd_month x : valid x →
  jdn (class x) (curr_year x) (curr_month x) 1 <= jd_of x < jdn (class x) (curr_year x) (curr_month x) 1 + dim (class x) (curr_month x) (curr_year x).
Proof. intros [Hm Hd]. rewrite dim_eq in Hd. unfold jd_of. rewrite (jdn_split _ _ _ (curr_day x)). lia. Qed.

(** The month after December is January of the next year. *)
Lemma jdn_13 c y : jdn c y 13 1 = jdn c (y + 1) 1 1.
Proof. unfold jdn, march. cbn [Z.ltb Z.compare Pos.compare Pos.compare_cont]. replace (y + 1 - 1) with y by lia. by destruct c. Qed.

Lemma jdn_next_month c y m : 1 <= m <= 12 → jdn c y (m + 1) 1 = jdn c y m 1 + dim c m y.
Proof.
  intros Hm. destruct (decide (m = 12)) as [->|]; [|apply jdn_month; lia].
  change (12 + 1) with 13. by rewrite jdn_13, jdn_year.
Qed.

Lemma year_start c jd x :
  0 <= jd → class x = c → valid x → jd_of x = jd →
  Z.quot jd 366 - 4715 <= curr_year x ∧ curr_year x - (Z.quot jd 366 - 4715) <= jd / 100000 + 10.
Proof.
  intros Hj <- V <-. pose proof (jd_year x V) as [L U]. rewrite Z.quot_div_nonneg by lia.
  revert L U Hj. generalize (jd_of x) (curr_year x). clear. intros jd y L U Hj. unfold jdn, march in *. cbn [Z.ltb Z.compare Pos.compare Pos.compare_cont] in *.
  destruct (class x); dlia.
Qed.

Lemma jd_to_calendar_ok c x fuel :
  class x = c → valid x → -4713 <= curr_year x → 0 <= jd_of x → jd_of x / 100000 + 40 <= Z.of_nat fuel →
  Mjd.jd_to_calendar fuel (jd_of x) (calendar_to_jd c) = Some (curr_year x, curr_month x, curr_day x).
Proof.
  intros <- V Hy Hj Hf. pose proof (year_start _ _ x Hj eq_refl V eq_refl) as [Y1 Y2].
  pose proof (jd_year x V) as [L U]. pose proof (jd_month x V) as [Lm Um]. pose proof V as [Hm Hd]. rewrite dim_eq in Hd.
  pose proof (dim_bounds (class x) (curr_month x) (curr_year x) Hm).
  assert (-4715 <= Z.quot (jd_of x) 366 - 4715) by (rewrite Z.quot_div_nonneg by lia; dlia).
  assert (0 <= jd_of x / 100000) by dlia.
  unfold Mjd.jd_to_calendar. rewrite (search_ok _ _ (curr_year x)); [|done| | |lia].
  2:{ rewrite calendar_to_jd_eq by lia. done. }
  2:{ intros j Hj'. rewrite calendar_to_jd_eq by lia. destruct (decide (j = curr_year x)) as [->|]; [done|].
      pose proof (jdn_year_le (class x) j (curr_year x)). pose proof (jdn_month_le (class x) j 1 12).
      pose proof (dim_bounds (class x) 1 j). lia. }
  cbn [mbind option_bind]. rewrite (search_ok _ _ (curr_month x)); [|lia| | |lia].
  2:{ rewrite calendar_to_jd_eq, jdn_next_month by lia. done. }
  2:{ intros j Hj'. rewrite calendar_to_jd_eq by lia. destruct (decide (j = curr_month x)) as [->|]; [done|].
      pose proof (jdn_month_le (class x) (curr_year x) j (curr_month x)).
      pose proof (dim_bounds (class x) j (curr_year x)). lia. }
  cbn [mbind option_bind]. rewrite (search_ok _ _ (curr_day x)); [done|lia| | |lia].
  - rewrite calendar_to_jd_eq, jdn_day by lia. unfold jd_of. lia.
  - intros j Hj'. rewrite calendar_to_jd_eq by lia. unfold jd_of. rewrite (jdn_split _ _ _ j), (jdn_split _ _ _ (curr_day x)). lia.
Qed.

(** ** Theorems *)

Definition ex_leap : date := Date GREGORIAN 2000 2 29.
Definition ex_julian : date := Date JULIAN 2000 1 31.

Lemma ex_leap_ok : valid ex_leap ∧ in_range ex_leap ∧ mod_julian_day ex_leap = 51603.
Proof. split; [vm_compute; split; split; discriminate|split; [split; [unfold earlier; cbn; lia|vm_compute; discriminate]|reflexivity]]. Qed.

Lemma ex_julian_ok : valid ex_julian ∧ in_range ex_julian ∧ mod_julian_day ex_julian = 51587.
Proof. split; [vm_compute; split; split; discriminate|split; [split; [unfold earlier; cbn; lia|vm_compute; discriminate]|reflexivity]]. Qed.

(** Before the epoch the count is off by one, because the conversion to [int] drops the
    fraction towards 0: the last day before the epoch is accepted and has number 0 too. *)
Lemma mjd_before_epoch :
  make GREGORIAN 1858 11 16 = Returned (Date GREGORIAN 1858 11 16) ∧
  op_eq (Date GREGORIAN 1858 11 16) (Date GREGORIAN 1858 11 17) = true.
Proof. split; reflexivity. Qed.

(** [Gregorian::operator=] copies the fields of a [Julian], so that the object denotes
    another day than the one assigned; [Date::operator=] converts. *)
Lemma gregorian_assign_julian x :
  op_eq (gregorian_assign ex_leap ex_julian) ex_julian = false ∧
  (valid x → in_range x → mod_julian_day x <= last_mjd → op_eq (op_assign ex_leap x) x = true).
Proof.
  split; [reflexivity|]. intros V R L. pose proof (mjd_bounds x V R).
  destruct (adjust_spec (mod_julian_day x) ex_leap) as (_ & _ & _ & M); [lia|].
  unfold op_eq, op_assign. rewrite M. apply Z.eqb_refl.
Qed.

(** The driver labfiles/cprog09lab23.cpp passes day, month and year to both functions;
    [remove_event] takes year, month and day, and removes nothing. *)
Lemma remove_event_order :
  let c := (add_event_ymd "x" 14 10 2100 (Calendar GREGORIAN ex_leap [])).1 in
  events c = [Event (Date GREGORIAN 2100 10 14) "x"] ∧ remove_event_ymd "x" 14 10 2100 c = (c, false).
Proof. split; reflexivity. Qed.

(** The default constructors of both classes denote the day of the clock. *)
Lemma today_agree gmtime t k g y m d :
  gmtime t = (y, m, d) → let x := Date GREGORIAN (1900 + y) (m + 1) d in
  valid x → in_range x → mod_julian_day x <= last_mjd →
  ∃ j, Gregorian_today gmtime (set_k_time t k) = Some x ∧ Julian_today gmtime (set_k_time t k) g = Some j ∧
    valid j ∧ op_eq j x = true.
Proof.
  intros E x V R L. unfold Julian_today, Gregorian_today. cbn [k_time set_k_time initialized curtime mbind option_bind].
  rewrite E. eexists. split; [done|]. split; [done|]. pose proof (mjd_bounds x V R). fold x. unfold convert, op_eq.
  destruct (adjust_spec (mod_julian_day x) (Date JULIAN g.1.1 g.1.2 g.2)) as (_ & V' & _ & M); [lia|].
  rewrite M. split; [done|apply Z.eqb_refl].
Qed.

(** From the year 4000 on [(39 - century) % 4] is negative and the Gregorian [week_day]
    is off: 31 December 3999 is a Friday, and so is 1 January 4000. *)
Lemma week_day_year_4000 :
  week_day (Date GREGORIAN 3999 12 31) = Some 5 ∧ week_day (Date GREGORIAN 4000 1 1) = Some 5.
Proof. split; reflexivity. Qed.



(** The arithmetic operators count days, and the comparisons order dates.  [++] is
    the next day of the calendar and [--] undoes it; [+=] and [-=] move by the number of
    days and [-] is their distance, also between calendars; within one calendar [<] is the
    order of year, month and day, and [==] is equality. *)
Theorem date_arithmetic x y n :
  valid x → in_range x → valid y → in_range y → mod_julian_day x < last_mjd →
  0 <= mod_julian_day x + n <= last_mjd →
  op_incr x = next_day x ∧ op_decr (next_day x) = x ∧
  valid (op_plus_assign x n) ∧ op_minus (op_plus_assign x n) x = n ∧ op_minus_assign x (- n) = op_plus_assign x n ∧
  op_minus_assign (op_plus_assign x n) n = x ∧
  (class x = class y → (op_lt x y = true ↔ earlier x y) ∧ (op_eq x y = true ↔ x = y)).
Proof.
  intros Vx Rx Vy Ry L Hn. destruct (incr_next x Vx Rx L) as [I Ri].
  destruct (adjust_spec (mod_julian_day x + n) x Hn) as (C & V & R & M).
  assert (mod_julian_day (next_day x) = mod_julian_day x + 1) as Mn.
  { rewrite !mjd_eq, jd_next by (done || by apply next_valid). lia. }
  split_and!; [done| |done| | | |].
  - unfold op_decr. rewrite Mn, Z.add_simpl_r. apply adjust_inverse; [done..|apply next_class].
  - unfold op_minus, op_plus_assign. rewrite M. lia.
  - unfold op_minus_assign, op_plus_assign. by rewrite Z.sub_opp_r.
  - unfold op_minus_assign, op_plus_assign. rewrite M, Z.add_simpl_r. by apply adjust_inverse.
  - intros Hc. unfold op_lt, op_eq. rewrite Z.ltb_lt, Z.eqb_eq. split; [by apply mjd_lt|].
    split; [by apply mjd_inj|by intros ->].
Qed.

Lemma date_arithmetic_witness : op_incr ex_leap = Date GREGORIAN 2000 3 1 ∧ op_decr (next_day ex_leap) = ex_leap.
Proof.
  destruct ex_leap_ok as (V & R & E).
  destruct (date_arithmetic ex_leap ex_leap 0) as (I & D & _); [exact V|exact R|exact V|exact R|rewrite E; reflexivity|rewrite E; unfold last_mjd; lia|].
  rewrite I. split; [reflexivity|exact D].
Defined.

(** The weekday formulas are right: the day with number 0 is a Wednesday, and every
    day has the weekday that follows the one of the day before; for the Julian calendar
    throughout, for the Gregorian calendar in years before 4000. *)
Theorem week_day_correct x :
  valid x → in_range x → mod_julian_day x <= last_mjd → (class x = GREGORIAN → curr_year x < 4000) →
  week_day x = Some ((mod_julian_day x + 2) mod 7 + 1) ∧ is_Some (week_day_name x) ∧ is_Some (month_name x).
Proof.
  intros V R _ H. pose proof (week_day_eq x V R H) as W. unfold weekday_of in W.
  replace (mod_julian_day x + 3 - 1) with (mod_julian_day x + 2) in W by lia. split; [done|]. split.
  - unfold week_day_name, gregorian_week_day_name, julian_week_day_name. rewrite W. cbn [mbind option_bind]. generalize (mod_julian_day x + 2). intros n.
    pose proof (Z.mod_pos_bound n 7 ltac:(lia)). assert (n mod 7 = 0 ∨ n mod 7 = 1 ∨ n mod 7 = 2 ∨ n mod 7 = 3 ∨
      n mod 7 = 4 ∨ n mod 7 = 5 ∨ n mod 7 = 6) as [->|[->|[->|[->|[->|[->| ->]]]]]] by lia; destruct (class x); by eexists.
  - destruct V as [Hm _]. unfold month_name, gregorian_month_name, julian_month_name.
    months (curr_month x) Hm; destruct (class x); by eexists.
Qed.

Lemma week_day_correct_witness : week_day ex_leap = Some 2.
Proof.
  destruct ex_leap_ok as (V & R & E).
  destruct (week_day_correct ex_leap V R) as [W _]; [rewrite E; unfold last_mjd; lia|intros _; reflexivity|]. rewrite W, E. reflexivity.
Defined.

(** Adding months and years gives valid dates.  With a day up to 28, [add_month n]
    keeps the day and moves by exactly [n] months, forwards or backwards; one month from
    any date keeps the day if the next month has it and is 30 days later otherwise;
    [add_year n] keeps month and day, but turns 29 February into the 28th in a year
    without it.  The years stay within [int]. *)
Theorem add_month_year_correct x n :
  valid x → Z.abs (curr_year x) + Z.abs n < 2 ^ 31 →
  (curr_day x <= 28 → month_moved n x (add_month n x)) ∧
  (in_range x → mod_julian_day x + 30 <= last_mjd →
   let d := add_month 1 x in
   valid d ∧ (month_moved 1 x d ∨ 28 < curr_day x ∧ mod_julian_day d = mod_julian_day x + 30)) ∧
  (valid (add_year n x) ∧ months_of (add_year n x) = months_of x + 12 * n ∧
   curr_day (add_year n x) =
     if decide (curr_month x = 2 ∧ curr_day x = 29 ∧ leap_year x (curr_year x + n) = false) then 28 else curr_day x).
Proof.
  intros V _. split; [by apply add_month_moved|]. split.
  - intros R L. assert (add_month 1 x = add_month1 x) as -> by apply add_month_iter. cbn zeta.
    destruct (add_month1_spec x V) as [M|[-> D]]; [split; [apply M|by left]|]. pose proof (mjd_bounds x V R).
    destruct (adjust_spec (mod_julian_day x + 30) x) as (_ & V' & _ & M); [lia|]. split; [done|by right].
  - destruct (add_year_spec n x V) as (_ & ? & ? & ?). done.
Qed.

Lemma add_month_year_correct_witness : month_moved (-13) (Date JULIAN 2000 1 5) (add_month (-13) (Date JULIAN 2000 1 5)).
Proof. apply (add_month_year_correct (Date JULIAN 2000 1 5) (-13)); [apply valid_28; lia|cbn; lia|cbn; lia]. Defined.

(** A calendar of events is a set of pairs of a day and a text, kept in the order of
    the days.  [add_event] adds the pair and returns whether it was new; [remove_event]
    removes it and returns whether it was there; [date_events] lists the later ones.  A
    year, month and day that are no date of the calendar are refused without effect. *)
Theorem calendar_refines_set c str y m d :
  ordered (events c) →
  match make (cal_class c) y m d with
  | Returned x =>
      let '(c1, b1) := add_event_ymd str d m y c in
      let '(c2, b2) := remove_event_ymd str y m d c in
      ordered (events c1) ∧ b1 = bool_decide ((mod_julian_day x, str) ∉ abs c) ∧ abs c1 = {[ (mod_julian_day x, str) ]} ∪ abs c ∧
      ordered (events c2) ∧ b2 = bool_decide ((mod_julian_day x, str) ∈ abs c) ∧ abs c2 = abs c ∖ {[ (mod_julian_day x, str) ]} ∧
      valid x
  | OutOfRange _ => add_event_ymd str d m y c = (c, false) ∧ remove_event_ymd str y m d c = (c, false) ∧
      set_date y m d c = (c, false)
  end ∧
  ordered (date_events c) ∧
  ∀ e, e ∈ date_events c ↔ e ∈ events c ∧ mod_julian_day (current_date c) < mod_julian_day (event_date e).
Proof.
  intros O. split; [|split; [by apply ordered_filter|]].
  - unfold add_event_ymd, remove_event_ymd, set_date. destruct (make _ _ _ _) as [x|w] eqn:E; [|done].
    pose proof (add_event_refines str x c O) as A. pose proof (remove_event_refines str x c O) as B.
    destruct (add_event str x c), (remove_event str x c).
    destruct A as (? & _ & ? & ?), B as (? & _ & ? & ?). split_and!; [done..|].
    unfold make, is_valid_date in E. unfold valid, days_of_month.
    destruct (cal_class c); unfold Gregorian.is_valid_date, Julian.is_valid_date in E; repeat case_match; simplify_eq; cbn; lia.
  - intros e. unfold date_events. rewrite !list_elem_of_In, List.filter_In. unfold op_gt. rewrite Z.gtb_lt. done.
Qed.

Lemma calendar_refines_set_witness :
  abs (add_event_ymd "x" 14 10 2100 (Calendar GREGORIAN ex_leap [])).1 = {[ (88355, "x"%string) ]} ∪ ∅.
Proof.
  destruct (calendar_refines_set (Calendar GREGORIAN ex_leap []) "x" 2100 10 14) as [H _]; [split; constructor|].
  destruct H as (_ & _ & H & _). exact H.
Defined.

(** [jd_to_calendar] of mjd.c finds the date of every Julian Day number up to two
    thousand million, within which no [int] overflows, in either calendar: its three searches end, and the result is the one valid date that
    [calendar_to_jd] maps to the number. *)
Theorem jd_to_calendar_correct c jd fuel :
  0 <= jd <= 2000000000 → jd / 100000 + 40 <= Z.of_nat fuel →
  ∃ y m d, Mjd.jd_to_calendar fuel jd (calendar_to_jd c) = Some (y, m, d) ∧
    valid (Date c y m d) ∧ calendar_to_jd c y m d = jd.
Proof.
  intros [Hj _] Hf. destruct (date_of_jd c (Z.to_nat jd)) as (x & <- & V & Hy & J). rewrite Z2Nat.id in J by done.
  exists (curr_year x), (curr_month x), (curr_day x). rewrite <- J in *. split_and!.
  - by apply jd_to_calendar_ok.
  - by destruct x.
  - destruct V as [Hm _]. by rewrite calendar_to_jd_eq by lia.
Qed.

Lemma jd_to_calendar_correct_witness : ∃ y m d, Mjd.jd_to_calendar 100 2451604 (calendar_to_jd GREGORIAN) = Some (y, m, d) ∧
  valid (Date GREGORIAN y m d) ∧ calendar_to_jd GREGORIAN y m d = 2451604.
Proof. apply (jd_to_calendar_correct GREGORIAN 2451604 100); [lia|vm_compute; discriminate]. Defined.
