(* ===== verification/Vector.v ===== *)
(** The template [Vector<T>] of cpp-code/vector/lab1_1.5/vector.h: a growing array with
    insertion, removal and merge sort.

    The element type, its [<] and its [==] are the variables of a section; [junk] is what
    fresh storage holds and [T_default] is [T()].  An argument of type [const T&] is a
    reference: to an object of the caller, or to an element of the vector itself.  A
    reference is read when the code reads it; reading an element whose array has been
    deleted is a [Fault], as is an access outside an array.  Sizes are below 2^31, so that
    the loops with an [int] index count to them.

    The theorems compare a vector with the list of its elements. *)
From stdpp Require Import base tactics numbers list sorting.
From S2P Require Import Prelude.
Local Open Scope nat_scope.

Definition CAPACITY : nat := 50.

Section vector.
Context {T : Type} (junk T_default : T) (ltb eqb : T → T → bool).

Record vector := Vec { _capacity : nat; _size : nat; arr : list T }.

(** The outcome of a call. *)
Inductive outcome (A : Type) := Ok (a : A) | Throw | Fault.
Arguments Ok {A} a.
Arguments Throw {A}.
Arguments Fault {A}.

Definition obind {A B} (x : outcome A) (f : A → outcome B) : outcome B :=
  match x with Ok a => f a | Throw => Throw | Fault => Fault end.
Notation "'do' x <- a ; b" := (obind a (λ x, b)) (at level 10, x pattern, a at level 100, b at level 200).

Inductive ref := Obj (x : T) | Elem (i : nat).

(** ** Arrays *)

Definition new_array (n : nat) : list T := replicate n junk.
Definition aget (a : list T) (i : nat) : outcome T := match a !! i with Some x => Ok x | None => Fault end.
Definition aset (a : list T) (i : nat) (x : T) : outcome (list T) :=
  if i <? length a then Ok (<[i := x]> a) else Fault.

(** Reading a reference; [moved] says that the array it may point into was deleted. *)
Definition deref (a : list T) (moved : bool) (e : ref) : outcome T :=
  match e with Obj x => Ok x | Elem i => if moved then Fault else aget a i end.

(** [for (i = i0; i < n; i++) dst[i] = src[i];] with [k] rounds left *)
Fixpoint copy_loop (k i : nat) (dst src : list T) : outcome (list T) :=
  match k with
  | 0 => Ok dst
  | S k => do x <- aget src i; do dst <- aset dst i x; copy_loop k (S i) dst src
  end.

(** [for (...) arr[i] = e;] *)
Fixpoint fill_loop (k i : nat) (a : list T) (x : T) : outcome (list T) :=
  match k with
  | 0 => Ok a
  | S k => do a <- aset a i x; fill_loop k (S i) a x
  end.

(** ** Members *)

Definition resize (v : vector) : outcome vector :=
  do tmp <- copy_loop (_size v) 0 (new_array (_capacity v + CAPACITY)) (arr v);
  Ok (Vec (_capacity v + CAPACITY) (_size v) tmp).

(** Also returns whether the array was replaced. *)
Definition resize_if_not_fit (v : vector) : outcome (vector * bool) :=
  if _size v =? _capacity v then do v <- resize v; Ok (v, true) else Ok (v, false).

Definition push_back (e : ref) (v : vector) : outcome vector :=
  do (v, moved) <- resize_if_not_fit v;
  do x <- deref (arr v) moved e;
  do a <- aset (arr v) (_size v) x;
  Ok (Vec (_capacity v) (S (_size v)) a).

Definition at_ (i : nat) (v : vector) : outcome T := if i <? _size v then aget (arr v) i else Throw.

(** [v[i] = x] through the reference that [operator[]] returns. *)
Definition set_at (i : nat) (x : T) (v : vector) : outcome vector :=
  if i <? _size v then do a <- aset (arr v) i x; Ok (Vec (_capacity v) (_size v) a) else Throw.

Fixpoint erase_loop (k i : nat) (a : list T) : outcome (list T) :=
  match k with
  | 0 => Ok a
  | S k => do x <- aget a (S i); do a <- aset a i x; erase_loop k (S i) a
  end.

Definition erase (p : nat) (v : vector) : outcome vector :=
  if p <? _size v then
    do a <- erase_loop (_size v - 1 - p) p (arr v);
    Ok (Vec (_capacity v) (_size v - 1) a)
  else Throw.

(** [for (i = size; i > p; i--) arr[i] = arr[i - 1];] with [k = i - p] *)
Fixpoint insert_loop (k p : nat) (a : list T) : outcome (list T) :=
  match k with
  | 0 => Ok a
  | S k' => do x <- aget a (p + k'); do a <- aset a (p + k) x; insert_loop k' p a
  end.

Definition insert (p : nat) (e : ref) (v : vector) : outcome vector :=
  if p <? _size v then
    do (v, moved) <- resize_if_not_fit v;
    do a <- insert_loop (_size v - p) p (arr v);
    do x <- deref a moved e;
    do a <- aset a p x;
    Ok (Vec (_capacity v) (S (_size v)) a)
  else if p =? _size v then push_back e v
  else Throw.

Definition clear (v : vector) : vector := Vec (_capacity v) 0 (arr v).

(** ** Constructors and assignment *)

Definition Vector_empty : vector := Vec CAPACITY 0 (new_array CAPACITY).

Definition Vector_size (sz : nat) : outcome vector :=
  let cap := max sz CAPACITY in
  do a <- fill_loop sz 0 (new_array cap) T_default; Ok (Vec cap sz a).

Definition Vector_fill (sz : nat) (x : T) : outcome vector :=
  let cap := max sz CAPACITY in
  do a <- fill_loop sz 0 (new_array cap) x; Ok (Vec cap sz a).

(** [for (i = 0; i < size; i++) dst[i] = v[i];] with the checked [operator[]] *)
Fixpoint copy_at_loop (k i : nat) (dst : list T) (v : vector) : outcome (list T) :=
  match k with
  | 0 => Ok dst
  | S k => do x <- at_ i v; do dst <- aset dst i x; copy_at_loop k (S i) dst v
  end.

Definition Vector_copy (v : vector) : outcome vector :=
  do a <- copy_at_loop (_size v) 0 (new_array (_capacity v)) v; Ok (Vec (_capacity v) (_size v) a).

(** [operator=]; for a vector assigned to itself nothing happens. *)
Definition assign (self : bool) (v old : vector) : outcome vector :=
  if self then Ok old else
    do tmp <- copy_at_loop (_size v) 0 (new_array (_capacity v)) v; Ok (Vec (_capacity v) (_size v) tmp).

Fixpoint push_all (c : list T) (v : vector) : outcome vector :=
  match c with
  | [] => Ok v
  | x :: c => do v <- push_back (Obj x) v; push_all c v
  end.

Definition Vector_list (c : list T) : outcome vector := push_all c Vector_empty.
Definition assign_list (c : list T) (v : vector) : outcome vector := push_all c (clear v).

(** ** Sorting *)

(** The three loops of [merge]; reading [a[ia++]] takes the first element left. *)
Fixpoint merge (fuel : nat) (a b : list T) (asc : bool) : list T :=
  match fuel with
  | 0 => []
  | S fuel =>
      match a, b with
      | x :: a', y :: b' =>
          if asc then (if ltb x y then x :: merge fuel a' b asc else y :: merge fuel a b' asc)
          else (if ltb x y then y :: merge fuel a b' asc else x :: merge fuel a' b asc)
      | x :: a', [] => x :: merge fuel a' [] asc
      | [], y :: b' => y :: merge fuel [] b' asc
      | [], [] => []
      end
  end.

(** Sorts the [n] elements at [a], given as a list. *)
Fixpoint m_sort (fuel : nat) (a : list T) (asc : bool) : option (list T) :=
  match fuel with
  | 0 => None
  | S fuel =>
      let n := length a in
      if n <? 2 then Some a else
        let nleft := n / 2 in
        l ← m_sort fuel (take nleft a) asc;
        r ← m_sort fuel (drop nleft a) asc;
        Some (merge n l r asc)
  end.

Definition sort (asc : bool) (v : vector) : option vector :=
  a ← m_sort (S (_size v)) (take (_size v) (arr v)) asc;
  Some (Vec (_capacity v) (_size v) (a ++ drop (_size v) (arr v))).

(** [std::unique]: of each run of equal elements the first stays. *)
Fixpoint unique (x : T) (l : list T) : list T :=
  match l with
  | [] => [x]
  | y :: l => if eqb x y then unique x l else x :: unique y l
  end.
Definition std_unique (l : list T) : list T := match l with [] => [] | x :: l => unique x l end.

(** What lies beyond the new end stays as it was. *)
Definition unique_sort (asc : bool) (v : vector) : option vector :=
  v ← sort asc v;
  let u := std_unique (take (_size v) (arr v)) in
  Some (Vec (_capacity v) (length u) (u ++ drop (length u) (arr v))).

(** [exists]: [std::find] finds the element before the end. *)
Definition exists_ (x : T) (v : vector) : bool := existsb (λ y, eqb y x) (take (_size v) (arr v)).
End vector.

Arguments Ok {A} a.
Arguments Throw {A}.
Arguments Fault {A}.
