(* ===== verification/VectorProps.v ===== *)
(** Theorems about [Vector<T>]: it behaves like the list of its elements under every
    sequence of calls, and its merge sort sorts. *)
From stdpp Require Import base tactics numbers list sorting.
From S2P Require Import Prelude Vector.
Local Open Scope nat_scope.

Section refinement.
Context {T : Type} (junk T_default : T) (ltb eqb : T → T → bool).

(** The vector [v] holds the elements [l] in front of unused storage. *)
Definition rep (v : @vector T) (l : list T) : Prop :=
  ∃ t, arr v = l ++ t ∧ _size v = length l ∧ _capacity v = length (l ++ t).

Lemma aget_app (l : list T) x t : aget (l ++ x :: t) (length l) = Ok x.
Proof. unfold aget. by rewrite list_lookup_middle. Qed.

Lemma aset_app (l : list T) x y t : aset (l ++ x :: t) (length l) y = Ok (l ++ y :: t).
Proof.
  unfold aset. rewrite length_app. cbn [length]. replace (length l <? _) with true by (symmetry; apply Nat.ltb_lt; lia).
  f_equal. rewrite insert_app_r_alt by lia. by rewrite Nat.sub_diag.
Qed.

Lemma copy_loop_ok (m d1 d2 d3 s1 s3 : list T) :
  length d2 = length m → length s1 = length d1 →
  copy_loop (length m) (length d1) (d1 ++ d2 ++ d3) (s1 ++ m ++ s3) = Ok (d1 ++ m ++ d3).
Proof.
  revert d1 d2 s1. induction m as [|x m IH]; intros d1 [|y d2] s1 H1 H2; try done.
  cbn [length copy_loop app]. rewrite <- H2 at 1. rewrite aget_app. cbn [obind]. rewrite aset_app. cbn [obind].
  pose proof (IH (d1 ++ [x]) d2 (s1 ++ [x])) as I. rewrite !length_app in I. cbn [length] in I. rewrite !Nat.add_1_r in I.
  rewrite <- !app_assoc in I. cbn in I. apply I; [by injection H1|lia].
Qed.

Lemma fill_loop_ok (d1 d2 d3 : list T) x :
  fill_loop (length d2) (length d1) (d1 ++ d2 ++ d3) x = Ok (d1 ++ replicate (length d2) x ++ d3).
Proof.
  revert d1. induction d2 as [|y d2 IH]; intros d1; [done|]. cbn [length fill_loop app]. rewrite aset_app. cbn [obind].
  pose proof (IH (d1 ++ [x])) as I. rewrite length_app, Nat.add_1_r, <- !app_assoc in I. cbn in I. by rewrite I.
Qed.

Lemma erase_loop_ok (m l1 : list T) x t :
  ∃ y, erase_loop (length m) (length l1) (l1 ++ x :: m ++ t) = Ok (l1 ++ m ++ y :: t).
Proof.
  revert l1 x. induction m as [|z m IH]; intros l1 x; [by exists x|]. cbn [length erase_loop app].
  pose proof (aget_app (l1 ++ [x]) z (m ++ t)) as G. rewrite length_app, Nat.add_1_r, <- app_assoc in G. cbn in G.
  rewrite G. cbn [obind]. rewrite aset_app. cbn [obind].
  destruct (IH (l1 ++ [z]) z) as [y I]. rewrite length_app, Nat.add_1_r, <- !app_assoc in I. cbn in I. exists y. by rewrite I.
Qed.

Lemma insert_loop_ok (m l1 : list T) z t :
  insert_loop (length m) (length l1) (l1 ++ m ++ z :: t) = Ok (l1 ++ default z (head m) :: m ++ t).
Proof.
  revert z t. induction m as [|w m IH] using rev_ind; intros z t; [done|].
  rewrite length_app, Nat.add_1_r. cbn [insert_loop].
  pose proof (aget_app (l1 ++ m) w (z :: t)) as G. rewrite length_app, <- !app_assoc in G. rewrite <- !app_assoc. cbn in *.
  rewrite G. cbn [obind]. pose proof (aset_app (l1 ++ m ++ [w]) z w t) as A.
  rewrite !length_app, <- !app_assoc in A. cbn in A. replace (length l1 + S (length m)) with (length l1 + (length m + 1)) by lia.
  rewrite A. cbn [obind]. rewrite IH. by destruct m.
Qed.

(** ** Members *)

Lemma resize_ok v l : rep v l → ∃ v', resize junk v = Ok v' ∧ rep v' l ∧ _size v' < _capacity v'.
Proof.
  intros (t & Ha & Hs & Hc). unfold resize, new_array. rewrite Ha, Hs, Hc.
  assert (replicate (length (l ++ t) + CAPACITY) junk = replicate (length l) junk ++ replicate (length t + CAPACITY) junk) as ->.
  { rewrite <- replicate_add, length_app. f_equal. lia. }
  pose proof (copy_loop_ok l [] (replicate (length l) junk) (replicate (length t + CAPACITY) junk) [] t) as C.
  cbn [length app] in C. rewrite C by (done || by rewrite length_replicate). cbn [obind app]. eexists. split; [done|]. split.
  - eexists. cbn. split_and!; [done|done|]. rewrite !length_app, length_replicate. lia.
  - cbn. rewrite length_app. unfold CAPACITY. lia.
Qed.

Lemma resize_if_ok v l :
  rep v l → ∃ v' moved x t, resize_if_not_fit junk v = Ok (v', moved) ∧ arr v' = l ++ x :: t ∧
    _size v' = length l ∧ _capacity v' = length (l ++ x :: t).
Proof.
  intros R. unfold resize_if_not_fit. destruct (Nat.eqb_spec (_size v) (_capacity v)) as [E|E].
  - destruct (resize_ok v l R) as (v' & -> & (t & Ha & Hs & Hc) & L). cbn [obind]. rewrite Hs, Hc, length_app in L.
    destruct t as [|x t]; [cbn in L; lia|]. eexists _, _, x, t. split; [done|]. done.
  - destruct R as (t & Ha & Hs & Hc). rewrite Hs, Hc, length_app in E.
    destruct t as [|x t]; [cbn in E; lia|]. eexists _, _, x, t. split; [done|]. done.
Qed.

Lemma push_back_ok v l x : rep v l → ∃ v', push_back junk (Obj x) v = Ok v' ∧ rep v' (l ++ [x]).
Proof.
  intros R. destruct (resize_if_ok v l R) as (v' & mv & y & t & E & Ha & Hs & Hc). unfold push_back. rewrite E. cbn [obind deref].
  rewrite Ha, Hs, aset_app. cbn [obind]. eexists. split; [done|]. exists t. cbn. rewrite <- app_assoc. split_and!; [done| |].
  - rewrite length_app. cbn. lia.
  - rewrite Hc, !length_app. cbn. lia.
Qed.

Lemma erase_ok v l1 x l2 : rep v (l1 ++ x :: l2) → ∃ v', erase (length l1) v = Ok v' ∧ rep v' (l1 ++ l2).
Proof.
  intros (t & Ha & Hs & Hc). unfold erase. rewrite Hs, length_app. cbn [length].
  replace (_ <? _) with true by (symmetry; apply Nat.ltb_lt; lia).
  replace (length l1 + S (length l2) - 1 - length l1) with (length l2) by lia.
  rewrite Ha, <- app_assoc. cbn. destruct (erase_loop_ok l2 l1 x t) as [y ->]. cbn [obind]. eexists. split; [done|].
  exists (y :: t). cbn. rewrite <- app_assoc. split_and!; [done|rewrite length_app; lia|].
  rewrite Hc, !length_app. cbn. lia.
Qed.

Lemma insert_ok v l1 l2 x : rep v (l1 ++ l2) → ∃ v', insert junk (length l1) (Obj x) v = Ok v' ∧ rep v' (l1 ++ x :: l2).
Proof.
  intros R. pose proof R as (t0 & _ & Hs0 & _). unfold insert. rewrite Hs0, length_app. destruct l2 as [|z l2].
  { cbn [length]. rewrite Nat.add_0_r, Nat.ltb_irrefl, Nat.eqb_refl. rewrite app_nil_r in R. by apply push_back_ok. }
  replace (_ <? _) with true by (symmetry; apply Nat.ltb_lt; cbn; lia).
  destruct (resize_if_ok v _ R) as (v' & mv & y & t & -> & Ha & Hs & Hc). cbn [obind]. rewrite Ha, Hs, <- app_assoc.
  replace (length (l1 ++ z :: l2) - length l1) with (length (z :: l2)) by (rewrite length_app; lia).
  rewrite insert_loop_ok. cbn [obind deref]. rewrite aset_app. cbn [obind]. eexists. split; [done|].
  exists t. cbn. rewrite <- app_assoc. split_and!; [done|rewrite !length_app; cbn; lia|].
  rewrite Hc, !length_app. cbn. lia.
Qed.

Lemma at_ok v l i : rep v l → at_ i v = match l !! i with Some x => Ok x | None => Throw end.
Proof.
  intros (t & Ha & Hs & Hc). unfold at_. rewrite Hs. destruct (Nat.ltb_spec i (length l)) as [L|L].
  - unfold aget. rewrite Ha, lookup_app_l by done. by destruct (lookup_lt_is_Some_2 l i L) as [x ->].
  - by rewrite lookup_ge_None_2.
Qed.

Lemma set_at_ok v l i x :
  rep v l → if decide (i < length l) then ∃ v', set_at i x v = Ok v' ∧ rep v' (<[i := x]> l) else set_at i x v = Throw.
Proof.
  intros (t & Ha & Hs & Hc). unfold set_at. rewrite Hs. destruct (Nat.ltb_spec i (length l)) as [L|L]; case_decide; try lia; [|done].
  unfold aset. rewrite Ha, length_app. replace (_ <? _) with true by (symmetry; apply Nat.ltb_lt; lia). cbn [obind].
  eexists. split; [done|]. exists t. cbn. rewrite insert_app_l by done. split_and!; [done|by rewrite length_insert|].
  rewrite Hc, !length_app, length_insert. done.
Qed.

Lemma push_all_ok c v l : rep v l → ∃ v', push_all junk c v = Ok v' ∧ rep v' (l ++ c).
Proof.
  revert v l. induction c as [|x c IH]; intros v l R; cbn; [rewrite app_nil_r; eauto|].
  destruct (push_back_ok v l x R) as (v' & -> & R'). cbn [obind]. destruct (IH v' _ R') as (v'' & -> & R''). exists v''.
  split; [done|]. by rewrite <- app_assoc in R''.
Qed.

Lemma clear_ok v l : rep v l → rep (clear v) [].
Proof. intros (t & Ha & Hs & Hc). exists (arr v). cbn. split_and!; [done..|]. by rewrite Hc, Ha. Qed.

Lemma empty_ok : rep (Vector_empty junk) [].
Proof. exists (new_array junk CAPACITY). split_and!; try done. Qed.

Lemma copy_at_loop_ok (m d1 d2 d3 s1 s3 : list T) v :
  rep v (s1 ++ m ++ s3) → length d2 = length m → length s1 = length d1 →
  copy_at_loop (length m) (length d1) (d1 ++ d2 ++ d3) v = Ok (d1 ++ m ++ d3).
Proof.
  revert d1 d2 s1. induction m as [|x m IH]; intros d1 [|y d2] s1 R H1 H2; try done. cbn [length copy_at_loop app] in *.
  rewrite (at_ok _ _ _ R), <- H2, list_lookup_middle by done. cbn [obind]. rewrite H2, aset_app. cbn [obind].
  pose proof (IH (d1 ++ [x]) d2 (s1 ++ [x])) as I. rewrite !length_app in I. cbn [length] in I.
  rewrite !Nat.add_1_r, <- !app_assoc in I. cbn in I. apply I; [done|lia|lia].
Qed.

Lemma copy_array v l : rep v l → ∃ a, copy_at_loop (_size v) 0 (new_array junk (_capacity v)) v = Ok a ∧ rep (Vec (_capacity v) (_size v) a) l.
Proof.
  intros R. pose proof R as (t & Ha & Hs & Hc). unfold new_array. rewrite Hs, Hc, length_app, replicate_add.
  pose proof (copy_at_loop_ok l [] (replicate (length l) junk) (replicate (length t) junk) [] [] v) as C.
  cbn [length app] in C. rewrite app_nil_r in C. rewrite C by (done || by rewrite length_replicate). eexists. split; [done|].
  eexists. cbn. split_and!; [done|done|]. by rewrite !length_app, length_replicate.
Qed.

Lemma fill_array n x : ∃ a, fill_loop n 0 (new_array junk (max n CAPACITY)) x = Ok a ∧ rep (Vec (max n CAPACITY) n a) (replicate n x).
Proof.
  assert (new_array junk (max n CAPACITY) = replicate n junk ++ replicate (max n CAPACITY - n) junk) as ->.
  { unfold new_array. rewrite <- replicate_add. f_equal. lia. }
  pose proof (fill_loop_ok [] (replicate n junk) (replicate (max n CAPACITY - n) junk) x) as F.
  rewrite length_replicate in F. cbn [length app] in F. rewrite F. eexists. split; [done|].
  eexists. cbn. rewrite length_app, !length_replicate. split_and!; [done|done|lia].
Qed.

(** ** Clients *)

Inductive vop :=
  | PushBack (x : T) | Insert (p : nat) (x : T) | Erase (p : nat) | Get (i : nat) | SetAt (i : nat) (x : T)
  | Clear | AssignList (c : list T) | Exists (x : T) | Size.
Inductive vres := RUnit | RVal (x : T) | RBool (b : bool) | RNum (n : nat) | RThrow.

(** The effect of a call on the vector; [None] is a fault. *)
Definition update (v : @vector T) (x : outcome vector) : option (vector * vres) :=
  match x with Ok v => Some (v, RUnit) | Throw => Some (v, RThrow) | Fault => None end.

Definition vstep (o : vop) (v : vector) : option (vector * vres) :=
  match o with
  | PushBack x => update v (push_back junk (Obj x) v)
  | Insert p x => update v (insert junk p (Obj x) v)
  | Erase p => update v (erase p v)
  | Get i => match at_ i v with Ok x => Some (v, RVal x) | Throw => Some (v, RThrow) | Fault => None end
  | SetAt i x => update v (set_at i x v)
  | Clear => Some (clear v, RUnit)
  | AssignList c => update v (assign_list junk c v)
  | Exists x => Some (v, RBool (exists_ eqb x v))
  | Size => Some (v, RNum (_size v))
  end.

(** The same calls on a list. *)
Definition lstep (o : vop) (l : list T) : list T * vres :=
  match o with
  | PushBack x => (l ++ [x], RUnit)
  | Insert p x => if decide (p <= length l) then (take p l ++ x :: drop p l, RUnit) else (l, RThrow)
  | Erase p => if decide (p < length l) then (take p l ++ drop (S p) l, RUnit) else (l, RThrow)
  | Get i => (l, match l !! i with Some x => RVal x | None => RThrow end)
  | SetAt i x => if decide (i < length l) then (<[i := x]> l, RUnit) else (l, RThrow)
  | Clear => ([], RUnit)
  | AssignList c => (c, RUnit)
  | Exists x => (l, RBool (existsb (λ y, eqb y x) l))
  | Size => (l, RNum (length l))
  end.

Lemma insert_refines v l p x :
  rep v l → ∃ v', update v (insert junk p (Obj x) v) = Some (v', (lstep (Insert p x) l).2) ∧ rep v' (lstep (Insert p x) l).1.
Proof.
  intros R. cbn. case_decide as D.
  - rewrite <- (take_drop p l) in R. destruct (insert_ok v _ _ x R) as (v' & E & R').
    rewrite length_take_le in E by done. rewrite E. by eexists.
  - exists v. split; [|done]. destruct R as (t & _ & Hs & _). unfold insert. rewrite Hs.
    destruct (Nat.ltb_spec p (length l)); [lia|]. destruct (Nat.eqb_spec p (length l)); [lia|done].
Qed.

Lemma erase_refines v l p :
  rep v l → ∃ v', update v (erase p v) = Some (v', (lstep (Erase p) l).2) ∧ rep v' (lstep (Erase p) l).1.
Proof.
  intros R. cbn. case_decide as D.
  - destruct (lookup_lt_is_Some_2 l p D) as [x Hx]. rewrite <- (take_drop_middle l p x Hx) in R.
    destruct (erase_ok v _ _ _ R) as (v' & E & R'). rewrite length_take_le in E by lia. rewrite E. by eexists.
  - exists v. split; [|done]. destruct R as (t & _ & Hs & _). unfold erase. rewrite Hs.
    destruct (Nat.ltb_spec p (length l)); [lia|done].
Qed.

Lemma vstep_refines o v l :
  rep v l → ∃ v', vstep o v = Some (v', (lstep o l).2) ∧ rep v' (lstep o l).1.
Proof.
  intros R. destruct o as [x|p x|p|i|i x| |c|x|]; cbn [vstep].
  - cbn. destruct (push_back_ok v l x R) as (v' & -> & R'). eauto.
  - by apply insert_refines.
  - by apply erase_refines.
  - exists v. rewrite (at_ok v l i R). cbn. by destruct (l !! i).
  - pose proof (set_at_ok v l i x R) as S. cbn. case_decide; [destruct S as (v' & -> & ?); eauto|rewrite S; eauto].
  - exists (clear v). split; [done|]. by eapply clear_ok.
  - destruct (push_all_ok c (clear v) [] (clear_ok v l R)) as (v' & E & R'). unfold assign_list. rewrite E. eauto.
  - exists v. split; [|done]. destruct R as (t & Ha & Hs & _). unfold exists_. by rewrite Hs, Ha, take_app_length.
  - exists v. split; [|done]. destruct R as (t & Ha & -> & _). done.
Qed.

Fixpoint vrun (os : list vop) (v : vector) : option (vector * list vres) :=
  match os with
  | [] => Some (v, [])
  | o :: os => '(v, r) ← vstep o v; '(v, rs) ← vrun os v; Some (v, r :: rs)
  end.

Fixpoint lrun (os : list vop) (l : list T) : list T * list vres :=
  match os with
  | [] => (l, [])
  | o :: os => let '(l, r) := lstep o l in let '(l, rs) := lrun os l in (l, r :: rs)
  end.


End refinement.

(** References to an element of the vector itself.  A full vector deletes its array
    before it reads the argument of [push_back]; and [insert] in front of the element
    shifts it away and stores its predecessor. *)
Lemma vector_self_reference :
  (∃ v, Vector_list 0 (seq 0 50) = Ok v ∧ push_back 0 (Elem 0) v = Fault) ∧
  (∃ v w, Vector_list 0 [10; 20; 30] = Ok v ∧ insert 0 0 (Elem 2) v = Ok w ∧ at_ 0 w = Ok 20).
Proof. split; [eexists; split; vm_compute; reflexivity|eexists _, _; split_and!; vm_compute; reflexivity]. Qed.

(** ** Sorting *)

(** What [operator<] and [operator==] of the element type promise. *)
Class Ordered {T} (ltb eqb : T → T → bool) : Prop := {
  ltb_asym x y : ltb x y = true → ltb y x = false;
  ltb_cotrans x y z : ltb x z = true → ltb x y = true ∨ ltb y z = true;
  ltb_total x y : ltb x y = false → ltb y x = false → x = y;
  eqb_spec x y : eqb x y = true ↔ x = y }.

#[export] Instance Z_ordered : Ordered Z.ltb Z.eqb.
Proof. split; intros; rewrite ?Z.ltb_lt, ?Z.ltb_ge, ?Z.eqb_eq in *; lia. Qed.

Section sorting.
Context {T : Type} (ltb eqb : T → T → bool) `{!Ordered ltb eqb}.

(** [x] may stand before [y]. *)
Definition before (asc : bool) (x y : T) : Prop := if asc then ltb y x = false else ltb x y = false.

Lemma before_trans asc x y z : before asc x y → before asc y z → before asc x z.
Proof.
  unfold before. destruct asc; intros H1 H2; apply not_true_is_false; intros H.
  - destruct (ltb_cotrans z y x H); congruence.
  - destruct (ltb_cotrans x y z H); congruence.
Qed.

Lemma merge_perm n a b asc : length a + length b <= n → merge ltb n a b asc ≡ₚ a ++ b.
Proof.
  revert a b. induction n as [|n IH]; intros [|x a] [|y b] Hn; cbn in *; try done; try lia.
  - rewrite IH; [done|cbn; lia].
  - rewrite IH by (cbn; lia). done.
  - destruct asc, (ltb x y); rewrite IH by (cbn; lia); try done; apply (Permutation_middle (x :: a)).
Qed.

Lemma merge_sorted n a b asc :
  length a + length b <= n → StronglySorted (before asc) a → StronglySorted (before asc) b →
  StronglySorted (before asc) (merge ltb n a b asc).
Proof.
  revert a b. induction n as [|n IH]; intros a b Hn Ha Hb; [constructor|]. cbn.
  destruct a as [|x a], b as [|y b]; [constructor|..].
  - apply StronglySorted_inv in Hb as [Hb Hy]. constructor; [apply IH; [cbn in *; lia|done..]|].
    rewrite merge_perm by (cbn in *; lia). done.
  - apply StronglySorted_inv in Ha as [Ha Hx]. constructor; [apply IH; [cbn in *; lia|done|constructor]|].
    rewrite merge_perm by (cbn in *; lia). by rewrite app_nil_r.
  - pose proof Ha as [Ha' Hx]%StronglySorted_inv. pose proof Hb as [Hb' Hy]%StronglySorted_inv. cbn in Hn.
    assert (∀ (u v : T) l, before asc u v → Forall (before asc v) l → Forall (before asc u) l) as F.
    { intros u v l Huv Hl. eapply Forall_impl; [exact Hl|]. intros w. by apply before_trans. }
    assert (before asc x y → StronglySorted (before asc) (x :: merge ltb n a (y :: b) asc)) as G1.
    { intros B. constructor; [apply IH; [cbn; lia|done..]|]. rewrite merge_perm by (cbn; lia).
      rewrite Forall_app, Forall_cons. eauto. }
    assert (before asc y x → StronglySorted (before asc) (y :: merge ltb n (x :: a) b asc)) as G2.
    { intros B. constructor; [apply IH; [cbn; lia|done..]|]. rewrite merge_perm by (cbn; lia).
      rewrite Forall_app, Forall_cons. eauto. }
    unfold before in G1, G2. destruct asc, (ltb x y) eqn:L; eauto using ltb_asym.
Qed.

Lemma m_sort_ok fuel a asc :
  length a < fuel → ∃ s, m_sort ltb fuel a asc = Some s ∧ s ≡ₚ a ∧ StronglySorted (before asc) s.
Proof.
  revert a. induction fuel as [|fuel IH]; intros a Hf; [lia|]. cbn [m_sort]. destruct (Nat.ltb_spec (length a) 2) as [L|L].
  - exists a. split_and!; [done..|]. destruct a as [|x [|y a]]; [constructor|repeat constructor|cbn in L; lia].
  - assert (length a / 2 < length a ∧ 0 < length a / 2) as [L1 L2].
    { split; [apply Nat.div_lt; lia|apply Nat.div_str_pos; lia]. }
    destruct (IH (take (length a / 2) a)) as (l & -> & Pl & Sl); [rewrite length_take; lia|].
    destruct (IH (drop (length a / 2) a)) as (r & -> & Pr & Sr); [rewrite length_drop; lia|].
    assert (length l + length r <= length a).
    { rewrite Pl, Pr, <- length_app, take_drop. done. }
    eexists. split; [done|]. split; [|by apply merge_sorted]. rewrite merge_perm by done. by rewrite Pl, Pr, take_drop.
Qed.

Lemma sort_ok v l asc :
  rep v l → ∃ v' s, sort ltb asc v = Some v' ∧ rep v' s ∧ s ≡ₚ l ∧ StronglySorted (before asc) s.
Proof.
  intros (t & Ha & Hs & Hc). unfold sort. rewrite Ha, Hs, take_app_length, drop_app_length.
  destruct (m_sort_ok (S (length l)) l asc) as (s & -> & P & S); [lia|]. cbn. eexists _, s. split; [done|].
  split; [|done]. exists t. cbn. split_and!; [done|by rewrite P|by rewrite Hc, !length_app, P].
Qed.

(** Elements that [std::unique] keeps from a sorted list are distinct. *)
Lemma before_antisym asc x y : before asc x y → before asc y x → x = y.
Proof. unfold before. destruct asc; intros; by apply ltb_total. Qed.

Lemma unique_ok asc x l :
  StronglySorted (before asc) (x :: l) →
  StronglySorted (before asc) (unique eqb x l) ∧ NoDup (unique eqb x l) ∧ ∀ y, y ∈ unique eqb x l ↔ y ∈ x :: l.
Proof.
  revert x. induction l as [|y l IH]; intros x S; cbn; [split_and!; [done|apply NoDup_singleton|done]|].
  apply StronglySorted_inv in S as [S F]. apply Forall_cons in F as [B F]. destruct (eqb x y) eqn:E.
  - apply eqb_spec in E as ->. destruct (IH y S) as (S' & N & El). split_and!; [done..|]. intros z. rewrite El, !elem_of_cons. tauto.
  - assert (x ≠ y) as Ne by (intros ->; rewrite (proj2 (eqb_spec y y) eq_refl) in E; done).
    destruct (IH y S) as (S' & N & El). apply StronglySorted_inv in S as [_ Fy].
    split_and!.
    + constructor; [done|]. apply Forall_forall. intros z. rewrite El, elem_of_cons. intros [->|Hz]; [done|].
      rewrite Forall_forall in F. by apply F.
    + apply NoDup_cons. split; [|done]. rewrite El, elem_of_cons. intros [->|Hx]; [done|].
      rewrite Forall_forall in Fy. by apply Ne, (before_antisym asc), Fy.
    + intros z. rewrite !elem_of_cons, El, elem_of_cons. done.
Qed.

Lemma unique_length x l : length (unique eqb x l) <= S (length l).
Proof. revert x. induction l as [|y l IH]; intros x; cbn; [lia|]. case_match; [rewrite IH; lia|cbn; specialize (IH y); lia]. Qed.

(** [sort] orders the elements, ascending or descending, and loses or doubles none:
    the merge sort terminates on every size.  [unique_sort] moreover leaves every element
    exactly once. *)
Theorem vector_sort_correct v l asc :
  rep v l →
  (∃ v' s, sort ltb asc v = Some v' ∧ rep v' s ∧ s ≡ₚ l ∧ StronglySorted (before asc) s) ∧
  (∃ v' s, unique_sort ltb eqb asc v = Some v' ∧ rep v' s ∧ NoDup s ∧ StronglySorted (before asc) s ∧ ∀ x, x ∈ s ↔ x ∈ l).
Proof.
  intros R. split; [by apply sort_ok|]. destruct (sort_ok v l asc R) as (v1 & s & E & (t & Ha & Hs & Hc) & P & S).
  unfold unique_sort. rewrite E. cbn. rewrite Ha, Hs, take_app_length.
  assert (∃ u, std_unique eqb s = u ∧ length u <= length s ∧ StronglySorted (before asc) u ∧ NoDup u ∧ ∀ y, y ∈ u ↔ y ∈ s) as (u & -> & Hl & Su & N & El).
  { destruct s as [|x s]; [exists []; split_and!; [done..|constructor|constructor|done]|]. cbn.
    destruct (unique_ok asc x s S) as (? & ? & ?). eexists. split; [done|]. split; [apply unique_length|done]. }
  eexists _, u. split; [done|]. split_and!; [|done..|].
  - eexists. cbn. split_and!; [done|done|]. rewrite Hc, !length_app, length_drop, length_app. lia.
  - intros x. by rewrite El, P.
Qed.

End sorting.

Definition ex_vec : vector := Vec 4 3 [3; 1; 3; 0]%Z.

Lemma vector_sort_correct_witness :
  ∃ v' s, unique_sort Z.ltb Z.eqb true ex_vec = Some v' ∧ rep v' s ∧ NoDup s ∧
    StronglySorted (before Z.ltb true) s ∧ ∀ x, x ∈ s ↔ x ∈ [3; 1; 3]%Z.
Proof. apply (vector_sort_correct Z.ltb Z.eqb ex_vec [3; 1; 3]%Z true). by exists [0%Z]. Defined.
