(* ===== verification/Dlist.v ===== *)
(** The template [List<T>] of cpp-code/list/List.h: a circular doubly linked list with a
    dummy node.

    Nodes live in a heap from addresses to nodes.  [new] takes the next unused address,
    [delete] removes the node, and an access to an address without a node is a fault
    ([None]).  A list object is the address of its dummy node and its size.  The functions
    are translated assignment by assignment.  An iterator is an address. *)
From stdpp Require Import base tactics numbers list gmap.
From S2P Require Import Prelude.
Local Open Scope Z_scope.

Section list.
Context {T : Type} (T_default : T).

Record node := Node { _data : T; _prev : Z; _next : Z }.
Record heap := Heap { nodes : gmap Z node; brk : Z }.
Record List := MkList { dummy : Z; _size : Z }.

(** ** Pointers *)

Definition load (h : heap) (p : Z) : option node := nodes h !! p.
Definition set_prev (p v : Z) (h : heap) : option heap :=
  n ← load h p; Some (Heap (<[p := Node (_data n) v (_next n)]> (nodes h)) (brk h)).
Definition set_next (p v : Z) (h : heap) : option heap :=
  n ← load h p; Some (Heap (<[p := Node (_data n) (_prev n) v]> (nodes h)) (brk h)).
Definition next (h : heap) (p : Z) : option Z := _next <$> load h p.
Definition prev (h : heap) (p : Z) : option Z := _prev <$> load h p.

(** [new Node(data, prev, next)]; a null pointer is replaced by the node itself. *)
Definition new_node (x : T) (p n : Z) (h : heap) : heap * Z :=
  let a := brk h in
  let p := if p =? 0 then a else p in
  let n := if n =? 0 then a else n in
  (Heap (<[a := Node x p n]> (nodes h)) (a + 1), a).

Definition delete_node (p : Z) (h : heap) : option heap :=
  _ ← load h p; Some (Heap (delete p (nodes h)) (brk h)).

(** ** Constructors *)

Definition List_empty (h : heap) : heap * List :=
  let '(h, d) := new_node T_default 0 0 h in (h, MkList d 0).

(** [pp->_next = pp->_next->_prev = new Node(data, pp, _);] *)
Definition append_after (pp d : Z) (x : T) (h : heap) : option (heap * Z) :=
  let '(h, a) := new_node x pp d h in
  q ← next h pp;
  h ← set_prev q a h;
  h ← set_next pp a h;
  Some (h, a).

(** The loop of the copy constructor, over the nodes from [p] to the dummy [e]. *)
Fixpoint copy_loop (fuel : nat) (p e pp d : Z) (h : heap) : option heap :=
  match fuel with
  | O => None
  | S fuel =>
      if p =? e then Some h else
        n ← load h p;
        '(h, _) ← append_after pp d (_data n) h;
        p ← next h p;
        pp ← next h pp;
        copy_loop fuel p e pp d h
  end.

Definition List_copy (fuel : nat) (l : List) (h : heap) : option (heap * List) :=
  let '(h, d) := new_node T_default 0 0 h in
  p ← next h (dummy l);
  h ← copy_loop fuel p (dummy l) d d h;
  Some (h, MkList d (_size l)).

(** [for (i = 0; i < n; i++) p = p->_prev = new Node(T(), _, p);] *)
Fixpoint fill_loop (n : nat) (p d : Z) (h : heap) : option (heap * Z) :=
  match n with
  | O => Some (h, p)
  | S n =>
      let '(h, a) := new_node T_default d p h in
      h ← set_prev p a h;
      fill_loop n a d h
  end.

(** [List(int n)]; the constructor [List(int n, const T& t)] has the same body. *)
Definition List_n (n : nat) (h : heap) : option (heap * List) :=
  let '(h, d) := new_node T_default 0 0 h in
  '(h, p) ← fill_loop n d d h;
  h ← set_next d p h;
  Some (h, MkList d (Z.of_nat n)).

Definition List_n_t (n : nat) (t : T) (h : heap) : option (heap * List) :=
  let '(h, d) := new_node T_default 0 0 h in
  '(h, p) ← fill_loop n d d h;
  h ← set_next d p h;
  Some (h, MkList d (Z.of_nat n)).

(** [pp->_next = new Node(p->_data, pp, _); ++_size] for the nodes from [p] to [e]. *)
Fixpoint range_loop (fuel : nat) (p e pp d size : Z) (h : heap) : option (heap * Z * Z) :=
  match fuel with
  | O => None
  | S fuel =>
      if p =? e then Some (h, pp, size) else
        n ← load h p;
        let '(h, a) := new_node (_data n) pp d h in
        h ← set_next pp a h;
        p ← next h p;
        pp ← next h pp;
        range_loop fuel p e pp d (size + 1) h
  end.

Definition List_range (fuel : nat) (it1 it2 : Z) (h : heap) : option (heap * List) :=
  let '(h, d) := new_node T_default 0 0 h in
  '(h, pp, size) ← range_loop fuel it1 it2 d d 0 h;
  h ← set_prev d pp h;
  Some (h, MkList d size).

(** The destructor. *)
Fixpoint delete_loop (fuel : nat) (p d : Z) (h : heap) : option heap :=
  match fuel with
  | O => None
  | S fuel =>
      if p =? d then Some h else
        pp ← next h p;
        h ← delete_node p h;
        delete_loop fuel pp d h
  end.

Definition List_delete (fuel : nat) (l : List) (h : heap) : option heap :=
  p ← next h (dummy l);
  h ← delete_loop fuel p (dummy l) h;
  delete_node (dummy l) h.

(** ** Members *)

Definition size (l : List) : Z := _size l.
Definition empty (l : List) : bool := _size l =? 0.
Definition front (l : List) (h : heap) : option T := p ← next h (dummy l); _data <$> load h p.
Definition back (l : List) (h : heap) : option T := p ← prev h (dummy l); _data <$> load h p.
Definition begin (l : List) (h : heap) : option Z := next h (dummy l).
Definition end_ (l : List) : Z := dummy l.

(** [_->_next = _->_next->_prev = new Node(x, _, _->_next);] *)
Definition push_front (x : T) (l : List) (h : heap) : option (heap * List) :=
  let d := dummy l in
  q ← next h d;
  let '(h, a) := new_node x d q h in
  h ← set_prev q a h;
  h ← set_next d a h;
  Some (h, MkList d (_size l + 1)).

(** [_->_prev = _->_prev->_next = new Node(x, _->_prev, _);] *)
Definition push_back (x : T) (l : List) (h : heap) : option (heap * List) :=
  let d := dummy l in
  q ← prev h d;
  let '(h, a) := new_node x q d h in
  h ← set_next q a h;
  h ← set_prev d a h;
  Some (h, MkList d (_size l + 1)).

Definition pop_front (l : List) (h : heap) : option (heap * List) :=
  let d := dummy l in
  p ← next h d;
  q ← next h p;
  h ← set_prev q d h;
  q ← next h p;
  h ← set_next d q h;
  h ← delete_node p h;
  Some (h, MkList d (_size l - 1)).

Definition pop_back (l : List) (h : heap) : option (heap * List) :=
  let d := dummy l in
  p ← prev h d;
  q ← prev h p;
  h ← set_prev d q h;
  q ← prev h p;
  h ← set_next q d h;
  h ← delete_node p h;
  Some (h, MkList d (_size l - 1)).

(** [insert(it, x)] also moves the iterator to the new node. *)
Definition insert (it : Z) (x : T) (l : List) (h : heap) : option (heap * List * Z) :=
  q ← prev h it;
  let '(h, a) := new_node x q it h in
  h ← set_next q a h;
  h ← set_prev it a h;
  it ← prev h it;
  Some (h, MkList (dummy l) (_size l + 1), it).

End list.
