(* ===== verification/DlistProps.v ===== *)
(** Theorems about [List<T>]: under every sequence of calls the ring of nodes represents
    the list of the elements, no call touches other nodes, and the destructor frees
    exactly the nodes of the list. *)
From stdpp Require Import base tactics numbers list gmap.
From S2P Require Import Prelude Cio Dlist.
Local Open Scope Z_scope.

(** ** Chains of pointers *)

(** Following [f] from [a] leads through the addresses [l] to [b]. *)
Fixpoint chain (f : Z → option Z) (a : Z) (l : list Z) (b : Z) : Prop :=
  match l with
  | [] => f a = Some b
  | x :: l => f a = Some x ∧ chain f x l b
  end.

Lemma chain_ext f f' a l b : (∀ z, z ∈ a :: l → f' z = f z) → chain f a l b → chain f' a l b.
Proof.
  revert a. induction l as [|x l IH]; cbn; intros a E.
  - by rewrite E by left.
  - intros [? ?]. split; [rewrite E by left; done|]. apply IH; [|done]. intros z Hz. apply E. by right.
Qed.

Lemma chain_split f a l1 x l2 b : chain f a (l1 ++ x :: l2) b ↔ chain f a l1 x ∧ chain f x l2 b.
Proof. revert a. induction l1 as [|y l1 IH]; intros a; cbn; [done|]. rewrite IH. tauto. Qed.

Lemma last_cons {A} (x a : A) l : List.last (x :: l) a = List.last l x.
Proof. revert x a. induction l as [|y l IH]; intros x a; [done|]. change (List.last (y :: l) a = List.last (y :: l) x). by rewrite !IH. Qed.

Lemma last_in {A} (a : A) l : List.last l a ∈ a :: l.
Proof. revert a. induction l as [|x l IH]; intros a; [by left|]. rewrite last_cons. right. apply IH. Qed.

Lemma chain_end f a l b : chain f a l b → f (List.last l a) = Some b.
Proof. revert a. induction l as [|x l IH]; intros a; [done|]. rewrite last_cons. intros [_ H]. by apply IH. Qed.

(** The pointer from the end of [l1] leads to the front of [l2]. *)
Lemma chain_mid f s l1 l2 e : chain f s (l1 ++ l2) e → f (List.last l1 s) = Some (List.last (reverse l2) e).
Proof.
  destruct l2 as [|x l2]; [rewrite app_nil_r; apply chain_end|]. rewrite chain_split, reverse_cons, List.last_last.
  intros [C _]. by apply chain_end.
Qed.

(** Linking a new address behind the last one of [l1]. *)
Lemma chain_insert f f' s l1 l2 e a :
  chain f s (l1 ++ l2) e → NoDup (s :: l1 ++ l2) → a ∉ s :: l1 ++ l2 →
  f' (List.last l1 s) = Some a → f' a = f (List.last l1 s) →
  (∀ z, z ≠ List.last l1 s → z ≠ a → f' z = f z) →
  chain f' s (l1 ++ a :: l2) e.
Proof.
  revert s. induction l1 as [|x l1 IH]; intros s C N A E1 E2 E3.
  - cbn in *. split; [done|]. apply NoDup_cons in N as [N _]. rewrite not_elem_of_cons in A. destruct l2 as [|y l2]; cbn in *.
    + by rewrite E2.
    + destruct C as [C1 C2]. split; [by rewrite E2|]. eapply chain_ext; [|exact C2]. intros z Hz. apply E3; intros ->; tauto.
  - rewrite last_cons in *. cbn in *. destruct C as [C1 C2]. apply NoDup_cons in N as [N1 N2].
    rewrite not_elem_of_cons in A. destruct A as [A1 A2]. split; [|by apply IH].
    rewrite E3; [done| |done]. intros ->. apply N1. pose proof (last_in x l1). set_solver.
Qed.

(** Unlinking the address behind the last one of [l1]. *)
Lemma chain_delete f f' s l1 l2 e a :
  chain f s (l1 ++ a :: l2) e → NoDup (s :: l1 ++ a :: l2) →
  f' (List.last l1 s) = f a → (∀ z, z ≠ List.last l1 s → z ≠ a → f' z = f z) →
  chain f' s (l1 ++ l2) e.
Proof.
  revert s. induction l1 as [|x l1 IH]; intros s C N E1 E3.
  - cbn in *. destruct C as [_ C]. apply NoDup_cons in N as [N1 N2]. apply NoDup_cons in N2 as [N2 _].
    destruct l2 as [|y l2]; cbn in *; [by rewrite E1|]. destruct C as [C1 C2]. split; [by rewrite E1|].
    eapply chain_ext; [|exact C2]. intros z Hz. apply E3; intros ->; [apply N1; by right|by apply N2].
  - rewrite last_cons in *. cbn in *. destruct C as [C1 C2]. apply NoDup_cons in N as [N1 N2]. split; [|by apply IH].
    rewrite E3; [done|intros ->|intros ->; set_solver]. apply N1. pose proof (last_in x l1). set_solver.
Qed.

Section dlist.
Context {T : Type} (T_default : T).
Implicit Types (h : @heap T) (L : List).

Definition dat h (p : Z) : option T := _data <$> load h p.

(** Addresses in use are positive and below the next one to be used. *)
Definition heap_ok h : Prop := 0 < brk h ∧ ∀ a, is_Some (nodes h !! a) → 0 < a < brk h.

(** The nodes [ls] of the list object [L] hold the elements [xs]. *)
Record rep h L (ls : list Z) (xs : list T) : Prop := MkRep {
  rep_heap : heap_ok h;
  rep_next : chain (next h) (dummy L) ls (dummy L);
  rep_prev : chain (prev h) (dummy L) (reverse ls) (dummy L);
  rep_dat : map (dat h) ls = map Some xs;
  rep_nodup : NoDup (dummy L :: ls);
  rep_dom : Forall (λ a, is_Some (nodes h !! a)) (dummy L :: ls);
  rep_size : _size L = zlen xs }.

(** [h'] is [h] with a new node for [x] between [p] and [q]. *)
Record linked h h' (p q : Z) (x : T) : Prop := MkLinked {
  ln_brk : brk h' = brk h + 1;
  ln_next z : next h' z = if decide (z = brk h) then Some q else if decide (z = p) then Some (brk h) else next h z;
  ln_prev z : prev h' z = if decide (z = brk h) then Some p else if decide (z = q) then Some (brk h) else prev h z;
  ln_dat z : dat h' z = if decide (z = brk h) then Some x else dat h z;
  ln_frame z : z ≠ brk h → z ≠ p → z ≠ q → nodes h' !! z = nodes h !! z }.

(** One pointer field is changed. *)
Record upd_next h h' (p v : Z) : Prop := MkUpdNext {
  un_brk : brk h' = brk h;
  un_next z : next h' z = if decide (z = p) then Some v else next h z;
  un_prev z : prev h' z = prev h z;
  un_dat z : dat h' z = dat h z;
  un_frame z : z ≠ p → nodes h' !! z = nodes h !! z }.

Record upd_prev h h' (p v : Z) : Prop := MkUpdPrev {
  ur_brk : brk h' = brk h;
  ur_next z : next h' z = next h z;
  ur_prev z : prev h' z = if decide (z = p) then Some v else prev h z;
  ur_dat z : dat h' z = dat h z;
  ur_frame z : z ≠ p → nodes h' !! z = nodes h !! z }.

Lemma set_next_ok p v h : is_Some (nodes h !! p) → ∃ h', set_next p v h = Some h' ∧ upd_next h h' p v.
Proof.
  intros [n Hn]. unfold set_next, load. rewrite Hn. eexists. split; [done|]. split; try done; intros z;
    unfold next, prev, dat, load; cbn; destruct (decide (z = p)) as [->|]; rewrite ?lookup_insert_eq, ?lookup_insert_ne, ?Hn by done; done.
Qed.

Lemma set_prev_ok p v h : is_Some (nodes h !! p) → ∃ h', set_prev p v h = Some h' ∧ upd_prev h h' p v.
Proof.
  intros [n Hn]. unfold set_prev, load. rewrite Hn. eexists. split; [done|]. split; try done; intros z;
    unfold next, prev, dat, load; cbn; destruct (decide (z = p)) as [->|]; rewrite ?lookup_insert_eq, ?lookup_insert_ne, ?Hn by done; done.
Qed.

Lemma dat_dom h z : is_Some (nodes h !! z) ↔ is_Some (dat h z).
Proof. unfold dat, load. by rewrite fmap_is_Some. Qed.

Lemma new_link x p q h :
  heap_ok h → is_Some (nodes h !! p) → is_Some (nodes h !! q) →
  new_node x p q h = (Heap (<[brk h := Node x p q]> (nodes h)) (brk h + 1), brk h).
Proof.
  intros [_ H] Hp%H Hq%H. unfold new_node. by replace (p =? 0) with false by lia; replace (q =? 0) with false by lia.
Qed.

Lemma new_views x p q h z :
  let h1 := Heap (<[brk h := Node x p q]> (nodes h)) (brk h + 1) in
  next h1 z = (if decide (z = brk h) then Some q else next h z) ∧
  prev h1 z = (if decide (z = brk h) then Some p else prev h z) ∧
  dat h1 z = (if decide (z = brk h) then Some x else dat h z).
Proof.
  unfold next, prev, dat, load. cbn. case_decide as D; [subst z; by rewrite lookup_insert_eq|].
  by rewrite lookup_insert_ne by done.
Qed.

Lemma link_ok x p q h :
  heap_ok h → is_Some (nodes h !! p) → is_Some (nodes h !! q) →
  let h1 := Heap (<[brk h := Node x p q]> (nodes h)) (brk h + 1) in
  (∃ h2 h3, set_prev q (brk h) h1 = Some h2 ∧ set_next p (brk h) h2 = Some h3 ∧ linked h h3 p q x) ∧
  (∃ h2 h3, set_next p (brk h) h1 = Some h2 ∧ set_prev q (brk h) h2 = Some h3 ∧ linked h h3 p q x).
Proof.
  intros [_ H] Hp Hq h1. pose proof (H _ Hp). pose proof (H _ Hq).
  assert (∀ z, is_Some (nodes h !! z) → is_Some (nodes h1 !! z)) as D.
  { intros z Hz. subst h1. cbn. destruct (decide (z = brk h)) as [->|]; [rewrite lookup_insert_eq; eauto|by rewrite lookup_insert_ne]. }
  assert (∀ z, z ≠ brk h → nodes h1 !! z = nodes h !! z) as F by (intros z Hz; subst h1; cbn; by rewrite lookup_insert_ne).
  pose proof (new_views x p q h) as V. fold h1 in V. cbn zeta in V. split.
  - destruct (set_prev_ok q (brk h) h1 (D _ Hq)) as (h2 & E2 & U2).
    destruct (set_next_ok p (brk h) h2) as (h3 & E3 & U3).
    { rewrite dat_dom, (ur_dat _ _ _ _ U2), <- dat_dom. by apply D. }
    exists h2, h3. split_and!; [done..|]. split.
    + by rewrite (un_brk _ _ _ _ U3), (ur_brk _ _ _ _ U2).
    + intros z. rewrite (un_next _ _ _ _ U3), (ur_next _ _ _ _ U2). destruct (V z) as (-> & _). repeat case_decide; subst; done || lia.
    + intros z. rewrite (un_prev _ _ _ _ U3), (ur_prev _ _ _ _ U2). destruct (V z) as (_ & -> & _). repeat case_decide; subst; done || lia.
    + intros z. rewrite (un_dat _ _ _ _ U3), (ur_dat _ _ _ _ U2). apply (V z).
    + intros z Z1 Z2 Z3. rewrite (un_frame _ _ _ _ U3), (ur_frame _ _ _ _ U2) by done. by apply F.
  - destruct (set_next_ok p (brk h) h1 (D _ Hp)) as (h2 & E2 & U2).
    destruct (set_prev_ok q (brk h) h2) as (h3 & E3 & U3).
    { rewrite dat_dom, (un_dat _ _ _ _ U2), <- dat_dom. by apply D. }
    exists h2, h3. split_and!; [done..|]. split.
    + by rewrite (ur_brk _ _ _ _ U3), (un_brk _ _ _ _ U2).
    + intros z. rewrite (ur_next _ _ _ _ U3), (un_next _ _ _ _ U2). destruct (V z) as (-> & _). repeat case_decide; subst; done || lia.
    + intros z. rewrite (ur_prev _ _ _ _ U3), (un_prev _ _ _ _ U2). destruct (V z) as (_ & -> & _). repeat case_decide; subst; done || lia.
    + intros z. rewrite (ur_dat _ _ _ _ U3), (un_dat _ _ _ _ U2). apply (V z).
    + intros z Z1 Z2 Z3. rewrite (ur_frame _ _ _ _ U3), (un_frame _ _ _ _ U2) by done. by apply F.
Qed.

(** Linking keeps the representation. *)
Lemma link_rep h h' L l1 l2 xs1 xs2 x :
  rep h L (l1 ++ l2) (xs1 ++ xs2) → length l1 = length xs1 →
  linked h h' (List.last l1 (dummy L)) (List.last (reverse l2) (dummy L)) x →
  rep h' (MkList (dummy L) (_size L + 1)) (l1 ++ brk h :: l2) (xs1 ++ x :: xs2).
Proof.
  intros [Hh Hn Hp Hd Nd Dm Sz] Hl K. assert (brk h ∉ dummy L :: l1 ++ l2) as Fr.
  { intros Hin. rewrite Forall_forall in Dm. pose proof (proj2 Hh _ (Dm _ Hin)). lia. }
  assert (∀ z, is_Some (nodes h' !! z) ↔ z = brk h ∨ is_Some (nodes h !! z)) as Dom.
  { intros z. rewrite !dat_dom, (ln_dat _ _ _ _ _ K). case_decide; naive_solver. }
  assert (List.last l1 (dummy L) ≠ brk h ∧ List.last (reverse l2) (dummy L) ≠ brk h) as [Np Nq].
  { pose proof (last_in (dummy L) l1). pose proof (last_in (dummy L) (reverse l2)).
    split; intros E; apply Fr; rewrite <- E; set_solver. }
  split; cbn [dummy _size].
  - split; [rewrite (ln_brk _ _ _ _ _ K); destruct Hh; lia|]. intros a [->|Ha]%Dom; rewrite (ln_brk _ _ _ _ _ K); [destruct Hh; lia|].
    apply Hh in Ha. lia.
  - apply (chain_insert (next h)); [done..| | |]; [rewrite (ln_next _ _ _ _ _ K)..|intros z Z1 Z2; rewrite (ln_next _ _ _ _ _ K)];
      repeat case_decide; try done. by rewrite (chain_mid _ _ _ _ _ Hn).
  - rewrite reverse_app, reverse_cons, <- app_assoc in *. cbn [app].
    apply (chain_insert (prev h)); [done| | | | |].
    + apply NoDup_cons in Nd as [Nd1 Nd2]. rewrite <- reverse_app. apply NoDup_cons. split; [by rewrite elem_of_reverse|].
      by rewrite reverse_Permutation.
    + rewrite <- reverse_app, elem_of_cons, elem_of_reverse. by rewrite elem_of_cons in Fr.
    + rewrite (ln_prev _ _ _ _ _ K). repeat case_decide; done.
    + rewrite (ln_prev _ _ _ _ _ K). case_decide; [|done]. rewrite (chain_mid _ _ _ _ _ Hp). by rewrite reverse_involutive.
    + intros z Z1 Z2. rewrite (ln_prev _ _ _ _ _ K). repeat case_decide; done.
  - assert (∀ l, brk h ∉ l → map (dat h') l = map (dat h) l) as M.
    { intros l Hl'. apply map_ext_in. intros z Hz%list_elem_of_In. rewrite (ln_dat _ _ _ _ _ K). case_decide; [by subst|done]. }
    rewrite !map_app in *. apply app_inj_1 in Hd as [Hd1 Hd2]; [|by rewrite !length_map].
    cbn [map]. rewrite !M, Hd1, Hd2, (ln_dat _ _ _ _ _ K) by set_solver. by case_decide.
  - apply NoDup_cons in Nd as [Nd1 Nd2]. rewrite <- Permutation_middle. apply NoDup_cons. split; [set_solver|].
    apply NoDup_cons. split; [set_solver|done].
  - rewrite Forall_forall in *. intros z Hz. apply Dom. destruct (decide (z = brk h)); [by left|right]. apply Dm. set_solver.
  - rewrite Sz. unfold zlen. rewrite !length_app. cbn. lia.
Qed.

(** [h'] is [h] without the node [a], whose neighbours [p] and [q] are linked. *)
Record unlinked h h' (p q a : Z) : Prop := MkUnlinked {
  ul_brk : brk h' = brk h;
  ul_next z : next h' z = if decide (z = a) then None else if decide (z = p) then Some q else next h z;
  ul_prev z : prev h' z = if decide (z = a) then None else if decide (z = q) then Some p else prev h z;
  ul_dat z : dat h' z = if decide (z = a) then None else dat h z;
  ul_frame z : z ≠ a → z ≠ p → z ≠ q → nodes h' !! z = nodes h !! z }.

Lemma delete_node_ok a h : is_Some (nodes h !! a) → ∃ h', delete_node a h = Some h' ∧ brk h' = brk h ∧
  (∀ z, nodes h' !! z = if decide (z = a) then None else nodes h !! z).
Proof.
  intros [n Hn]. unfold delete_node, load. rewrite Hn. eexists. split; [done|]. split; [done|]. intros z. cbn.
  case_decide; [subst; by rewrite lookup_delete_eq|by rewrite lookup_delete_ne].
Qed.

Lemma deleted_views a h h' z :
  (∀ z, nodes h' !! z = if decide (z = a) then None else nodes h !! z) →
  next h' z = (if decide (z = a) then None else next h z) ∧
  prev h' z = (if decide (z = a) then None else prev h z) ∧ dat h' z = (if decide (z = a) then None else dat h z).
Proof. intros E. unfold next, prev, dat, load. rewrite E. by case_decide. Qed.

(** The three assignments of [pop_front] and of [pop_back]. *)
Lemma unlink_ok p q a h :
  is_Some (nodes h !! p) → is_Some (nodes h !! q) → is_Some (nodes h !! a) → p ≠ a → q ≠ a →
  (∃ h1 h2 h3, set_prev q p h = Some h1 ∧ next h1 a = next h a ∧ set_next p q h1 = Some h2 ∧
     delete_node a h2 = Some h3 ∧ unlinked h h3 p q a) ∧
  (∃ h1 h2 h3, set_prev q p h = Some h1 ∧ prev h1 a = prev h a ∧ set_next p q h1 = Some h2 ∧
     delete_node a h2 = Some h3 ∧ unlinked h h3 p q a).
Proof.
  intros Hp Hq Ha Np Nq. destruct (set_prev_ok q p h Hq) as (h1 & E1 & U1).
  destruct (set_next_ok p q h1) as (h2 & E2 & U2); [by rewrite dat_dom, (ur_dat _ _ _ _ U1), <- dat_dom|].
  destruct (delete_node_ok a h2) as (h3 & E3 & B3 & N3).
  { by rewrite dat_dom, (un_dat _ _ _ _ U2), (ur_dat _ _ _ _ U1), <- dat_dom. }
  assert (unlinked h h3 p q a) as U.
  { pose proof (λ z, deleted_views a h2 h3 z N3) as V. split.
    - by rewrite B3, (un_brk _ _ _ _ U2), (ur_brk _ _ _ _ U1).
    - intros z. destruct (V z) as (-> & _). rewrite (un_next _ _ _ _ U2), (ur_next _ _ _ _ U1). done.
    - intros z. destruct (V z) as (_ & -> & _). rewrite (un_prev _ _ _ _ U2), (ur_prev _ _ _ _ U1). done.
    - intros z. destruct (V z) as (_ & _ & ->). by rewrite (un_dat _ _ _ _ U2), (ur_dat _ _ _ _ U1).
    - intros z Z1 Z2 Z3. rewrite N3. case_decide; [done|]. by rewrite (un_frame _ _ _ _ U2), (ur_frame _ _ _ _ U1). }
  split; exists h1, h2, h3; split_and!; try done.
  - apply (ur_next _ _ _ _ U1).
  - rewrite (ur_prev _ _ _ _ U1). by case_decide.
Qed.

Lemma unlink_rep h h' L l1 a l2 xs1 x xs2 :
  rep h L (l1 ++ a :: l2) (xs1 ++ x :: xs2) → length l1 = length xs1 →
  unlinked h h' (List.last l1 (dummy L)) (List.last (reverse l2) (dummy L)) a →
  rep h' (MkList (dummy L) (_size L - 1)) (l1 ++ l2) (xs1 ++ xs2).
Proof.
  intros [Hh Hn Hp Hd Nd Dm Sz] Hl K.
  assert ((a ∉ dummy L :: l1 ++ l2) ∧ NoDup (dummy L :: l1 ++ l2)) as [Fr Nd'].
  { rewrite <- Permutation_middle, Permutation_swap in Nd. by apply NoDup_cons in Nd. }
  assert (∀ z, is_Some (nodes h' !! z) ↔ z ≠ a ∧ is_Some (nodes h !! z)) as Dom.
  { intros z. rewrite !dat_dom, (ul_dat _ _ _ _ _ K). case_decide; [split; [by intros []|tauto]|naive_solver]. }
  assert (List.last l1 (dummy L) ≠ a ∧ List.last (reverse l2) (dummy L) ≠ a) as [Np Nq].
  { pose proof (last_in (dummy L) l1). pose proof (last_in (dummy L) (reverse l2)).
    split; intros E; apply Fr; rewrite <- E; set_solver. }
  split; cbn [dummy _size].
  - split; [rewrite (ul_brk _ _ _ _ _ K); apply (proj1 Hh)|]. intros z Hz. destruct (proj1 (Dom z) Hz) as [Nz Hz2]. rewrite (ul_brk _ _ _ _ _ K). by apply (proj2 Hh).
  - apply (chain_delete (next h) _ _ _ _ _ a); [done|done|rewrite (ul_next _ _ _ _ _ K)|intros z Z1 Z2; rewrite (ul_next _ _ _ _ _ K)];
      repeat case_decide; try done. rewrite chain_split in Hn. destruct Hn as [_ Hn]. symmetry. apply (chain_mid _ _ [] _ _ Hn).
  - rewrite reverse_app in *. rewrite reverse_cons, <- app_assoc in Hp. cbn [app] in Hp.
    apply (chain_delete (prev h) _ _ _ _ _ a); [done| | |].
    + assert (reverse l2 ++ a :: reverse l1 ≡ₚ l1 ++ a :: l2) as ->; [|done].
      rewrite !reverse_Permutation, Permutation_app_comm. cbn. by rewrite Permutation_middle.
    + rewrite (ul_prev _ _ _ _ _ K). repeat case_decide; try done. rewrite chain_split in Hp. destruct Hp as [_ Hp].
      symmetry. rewrite <- (reverse_involutive l1) at 1. apply (chain_mid _ _ [] _ _ Hp).
    + intros z Z1 Z2. rewrite (ul_prev _ _ _ _ _ K). repeat case_decide; done.
  - assert (∀ l, a ∉ l → map (dat h') l = map (dat h) l) as M.
    { intros l Hl'. apply map_ext_in. intros z Hz%list_elem_of_In. rewrite (ul_dat _ _ _ _ _ K). case_decide; [by subst|done]. }
    rewrite !map_app in *. apply app_inj_1 in Hd as [Hd1 Hd2]; [|by rewrite !length_map].
    cbn [map] in Hd2. injection Hd2 as _ Hd2. by rewrite !M, Hd1, Hd2 by set_solver.
  - done.
  - rewrite Forall_forall in *. intros z Hz. apply Dom. split; [by intros ->|]. apply Dm. set_solver.
  - rewrite Sz. unfold zlen. rewrite !length_app. cbn. lia.
Qed.

(** ** Calls *)

Definition grown L : List := MkList (dummy L) (_size L + 1).
Definition shrunk L : List := MkList (dummy L) (_size L - 1).

Lemma rep_ends h L ls xs :
  rep h L ls xs →
  next h (dummy L) = Some (List.last (reverse ls) (dummy L)) ∧ prev h (dummy L) = Some (List.last ls (dummy L)).
Proof.
  intros [_ Hn Hp _ _ _ _]. split; [apply (chain_mid _ _ [] _ _ Hn)|].
  rewrite <- (reverse_involutive ls). apply (chain_mid _ _ [] _ _ Hp).
Qed.

Lemma rep_dom_last h L ls xs l :
  rep h L ls xs → l ⊆ ls → is_Some (nodes h !! List.last l (dummy L)).
Proof.
  intros R Hl. pose proof (rep_dom _ _ _ _ R) as D. rewrite Forall_forall in D. apply D.
  pose proof (last_in (dummy L) l). set_solver.
Qed.

Lemma push_front_ok x h L ls xs :
  rep h L ls xs → ∃ h', push_front x L h = Some (h', grown L) ∧ linked h h' (dummy L) (List.last (reverse ls) (dummy L)) x.
Proof.
  intros R. unfold push_front. rewrite (proj1 (rep_ends _ _ _ _ R)). cbn [mbind option_bind].
  pose proof (rep_dom_last h L ls xs [] R ltac:(set_solver)) as D1.
  pose proof (rep_dom_last h L ls xs (reverse ls) R ltac:(set_solver)) as D2.
  rewrite new_link by (done || apply R). destruct (link_ok x _ _ h (rep_heap _ _ _ _ R) D1 D2) as [(h2 & h3 & E2 & E3 & K) _].
  cbn zeta in E2. cbn [List.last] in *. rewrite E2. cbn [mbind option_bind]. rewrite E3. by exists h3.
Qed.

Lemma list_push_back_ok x h L ls xs :
  rep h L ls xs → ∃ h', push_back x L h = Some (h', grown L) ∧ linked h h' (List.last ls (dummy L)) (dummy L) x.
Proof.
  intros R. unfold push_back. rewrite (proj2 (rep_ends _ _ _ _ R)). cbn [mbind option_bind].
  pose proof (rep_dom_last h L ls xs ls R ltac:(set_solver)) as D1.
  pose proof (rep_dom_last h L ls xs [] R ltac:(set_solver)) as D2.
  rewrite new_link by (done || apply R). destruct (link_ok x _ _ h (rep_heap _ _ _ _ R) D1 D2) as [_ (h2 & h3 & E2 & E3 & K)].
  cbn zeta in E2. cbn [List.last] in *. rewrite E2. cbn [mbind option_bind]. rewrite E3. by exists h3.
Qed.

(** [insert] in front of the iterator that points to the front of [l2]. *)
Lemma list_insert_ok x h L l1 l2 xs :
  rep h L (l1 ++ l2) xs →
  let it := List.last (reverse l2) (dummy L) in
  ∃ h', insert it x L h = Some (h', grown L, brk h) ∧ linked h h' (List.last l1 (dummy L)) it x.
Proof.
  intros R it. pose proof (rep_prev _ _ _ _ R) as P. rewrite reverse_app in P. pose proof (chain_mid _ _ _ _ _ P) as E.
  rewrite reverse_involutive in E. unfold insert. fold it in E. rewrite E. cbn [mbind option_bind].
  pose proof (rep_dom_last h L _ xs l1 R ltac:(set_solver)) as D1.
  pose proof (rep_dom_last h L _ xs (reverse l2) R ltac:(set_solver)) as D2. fold it in D2.
  rewrite new_link by (done || apply R). destruct (link_ok x _ _ h (rep_heap _ _ _ _ R) D1 D2) as [_ (h2 & h3 & E2 & E3 & K)].
  cbn zeta in E2. rewrite E2. cbn [mbind option_bind]. rewrite E3. cbn [mbind option_bind].
  rewrite (ln_prev _ _ _ _ _ K). pose proof (proj2 (rep_heap _ _ _ _ R) _ D2).
  case_decide; [lia|]. case_decide; [|done]. by exists h3.
Qed.

Lemma pop_front_ok h L a ls xs :
  rep h L (a :: ls) xs → ∃ h', pop_front L h = Some (h', shrunk L) ∧ unlinked h h' (dummy L) (List.last (reverse ls) (dummy L)) a.
Proof.
  intros R. unfold pop_front. pose proof (rep_next _ _ _ _ R) as C. destruct C as [C1 C2]. rewrite C1. cbn [mbind option_bind].
  pose proof (chain_mid _ _ [] _ _ C2) as E. cbn [List.last] in E. rewrite E. cbn [mbind option_bind].
  pose proof (rep_dom_last h L _ xs [] R ltac:(set_solver)) as D1.
  pose proof (rep_dom_last h L _ xs (reverse ls) R ltac:(set_solver)) as D2.
  pose proof (rep_dom _ _ _ _ R) as D. rewrite Forall_forall in D. pose proof (rep_nodup _ _ _ _ R) as N.
  apply NoDup_cons in N as [N1 N2]. apply NoDup_cons in N2 as [N2 _]. pose proof (last_in (dummy L) (reverse ls)).
  destruct (unlink_ok _ _ a h D1 D2) as [(h1 & h2 & h3 & E1 & Ea & E2 & E3 & U) _]; [apply D; set_solver|set_solver|set_solver|].
  cbn [List.last] in *. rewrite E1. cbn [mbind option_bind]. rewrite Ea, E. cbn [mbind option_bind]. rewrite E2.
  cbn [mbind option_bind]. rewrite E3. by exists h3.
Qed.

Lemma pop_back_ok h L ls a xs :
  rep h L (ls ++ [a]) xs → ∃ h', pop_back L h = Some (h', shrunk L) ∧ unlinked h h' (List.last ls (dummy L)) (dummy L) a.
Proof.
  intros R. unfold pop_back. rewrite (proj2 (rep_ends _ _ _ _ R)), List.last_last. cbn [mbind option_bind].
  pose proof (rep_prev _ _ _ _ R) as C. rewrite reverse_snoc in C. destruct C as [C1 C2].
  pose proof (chain_mid _ _ [] _ _ C2) as E. cbn [List.last] in E. rewrite reverse_involutive in E. rewrite E. cbn [mbind option_bind].
  pose proof (rep_dom_last h L _ xs ls R ltac:(set_solver)) as D1.
  pose proof (rep_dom_last h L _ xs [] R ltac:(set_solver)) as D2.
  pose proof (rep_dom _ _ _ _ R) as D. rewrite Forall_forall in D. pose proof (rep_nodup _ _ _ _ R) as N.
  assert (a ∉ dummy L :: ls) as Na by (rewrite <- Permutation_cons_append, Permutation_swap in N; apply NoDup_cons in N as [N _]; exact N).
  pose proof (last_in (dummy L) ls).
  destruct (unlink_ok _ _ a h D1 D2) as [_ (h1 & h2 & h3 & E1 & Ea & E2 & E3 & U)]; [apply D; set_solver|set_solver|set_solver|].
  cbn [List.last] in *. rewrite E1. cbn [mbind option_bind]. rewrite Ea, E. cbn [mbind option_bind]. rewrite E2.
  cbn [mbind option_bind]. rewrite E3. by exists h3.
Qed.

(** ** Destruction *)

Definition from (f : Z → option Z) (ls : list Z) (d : Z) : Prop :=
  match ls with [] => True | a :: l => chain f a l d end.

Lemma head_cons (a d : Z) l : List.last (reverse (a :: l)) d = a.
Proof. by rewrite reverse_cons, List.last_last. Qed.

Lemma chain_from f s a l d : chain f s (a :: l) d → from f (a :: l) d.
Proof. by intros [_ H]. Qed.

Lemma delete_loop_ok ls d h fuel :
  from (next h) ls d → NoDup ls → d ∉ ls → (length ls < fuel)%nat →
  ∃ h', delete_loop fuel (List.last (reverse ls) d) d h = Some h' ∧
    ∀ z, nodes h' !! z = if decide (z ∈ ls) then None else nodes h !! z.
Proof.
  revert h fuel. induction ls as [|a ls IH]; intros h [|fuel] C N D Hf; try (cbn in Hf; lia).
  - exists h. cbn. rewrite Z.eqb_refl. split; [done|]. intros z. case_decide as E; [by apply elem_of_nil in E|done].
  - rewrite head_cons. cbn [delete_loop]. apply NoDup_cons in N as [N1 N2]. rewrite not_elem_of_cons in D. destruct D as [D1 D2].
    replace (a =? d) with false by (symmetry; apply Z.eqb_neq; congruence).
    pose proof (chain_mid _ _ [] _ _ C) as E. cbn [List.last] in E. rewrite E. cbn [mbind option_bind].
    destruct (delete_node_ok a h) as (h1 & E1 & _ & N3).
    { unfold next, load in E. destruct (nodes h !! a); [by eexists|done]. }
    rewrite E1. cbn [mbind option_bind]. destruct (IH h1 fuel) as (h' & E' & V).
    + destruct ls as [|b ls]; [done|]. apply chain_from in C. cbn in *. eapply chain_ext; [|exact C].
      intros z Hz. destruct (deleted_views a h h1 z N3) as (-> & _). case_decide; [subst; done|done].
    + done.
    + done.
    + cbn in Hf. lia.
    + exists h'. split; [done|]. intros z. rewrite V, N3. repeat case_decide; set_solver.
Qed.

Lemma List_delete_ok h L ls xs fuel :
  rep h L ls xs → (length ls < fuel)%nat →
  ∃ h', List_delete fuel L h = Some h' ∧ ∀ z, nodes h' !! z = if decide (z ∈ dummy L :: ls) then None else nodes h !! z.
Proof.
  intros R Hf. unfold List_delete. rewrite (proj1 (rep_ends _ _ _ _ R)). cbn [mbind option_bind].
  pose proof (rep_nodup _ _ _ _ R) as N. apply NoDup_cons in N as [N1 N2].
  destruct (delete_loop_ok ls (dummy L) h fuel) as (h1 & -> & V1); [|done..|].
  { pose proof (rep_next _ _ _ _ R) as C. destruct ls; [done|]. by apply chain_from in C. }
  cbn [mbind option_bind]. destruct (delete_node_ok (dummy L) h1) as (h2 & E2 & _ & V2).
  { rewrite V1. case_decide; [done|]. apply (rep_dom_last h L ls xs [] R). set_solver. }
  exists h2. split; [done|]. intros z. rewrite V2, V1. repeat case_decide; set_solver.
Qed.

(** ** Ownership *)

(** Compared with the heap [h0], in which the list was created, only the nodes of the
    list are new, and all others are as they were. *)
Record owned h0 h L (ls : list Z) : Prop := MkOwned {
  own_old z : z < brk h0 → nodes h !! z = nodes h0 !! z;
  own_new z : brk h0 <= z → is_Some (nodes h !! z) → z ∈ dummy L :: ls;
  own_ge : Forall (λ a, brk h0 <= a) (dummy L :: ls) }.

Lemma own_link h0 h h' L l1 l2 xs x :
  rep h L (l1 ++ l2) xs → owned h0 h L (l1 ++ l2) →
  linked h h' (List.last l1 (dummy L)) (List.last (reverse l2) (dummy L)) x → owned h0 h' (grown L) (l1 ++ brk h :: l2).
Proof.
  intros R [O1 O2 O3] K. rewrite Forall_forall in O3.
  pose proof (last_in (dummy L) l1). pose proof (last_in (dummy L) (reverse l2)).
  assert (brk h0 <= dummy L < brk h).
  { split; [apply O3; by left|]. apply (proj2 (rep_heap _ _ _ _ R)). apply (rep_dom_last h L _ xs [] R). set_solver. }
  assert (brk h0 <= List.last l1 (dummy L)) by (apply O3; set_solver).
  assert (brk h0 <= List.last (reverse l2) (dummy L)) by (apply O3; set_solver).
  split; cbn [dummy grown].
  - intros z Hz. rewrite (ln_frame _ _ _ _ _ K) by lia. by apply O1.
  - intros z Hz Hs. rewrite dat_dom, (ln_dat _ _ _ _ _ K) in Hs. case_decide; [set_solver|].
    rewrite <- dat_dom in Hs. specialize (O2 z Hz Hs). set_solver.
  - rewrite Forall_forall. intros z Hz. destruct (decide (z = brk h)) as [->|]; [lia|]. apply O3. set_solver.
Qed.

Lemma own_unlink h0 h h' L l1 a l2 xs :
  rep h L (l1 ++ a :: l2) xs → owned h0 h L (l1 ++ a :: l2) →
  unlinked h h' (List.last l1 (dummy L)) (List.last (reverse l2) (dummy L)) a → owned h0 h' (shrunk L) (l1 ++ l2).
Proof.
  intros R [O1 O2 O3] K. rewrite Forall_forall in O3.
  pose proof (last_in (dummy L) l1). pose proof (last_in (dummy L) (reverse l2)).
  assert (brk h0 <= List.last l1 (dummy L)) by (apply O3; set_solver).
  assert (brk h0 <= List.last (reverse l2) (dummy L)) by (apply O3; set_solver).
  assert (brk h0 <= a) by (apply O3; set_solver).
  split; cbn [dummy shrunk].
  - intros z Hz. rewrite (ul_frame _ _ _ _ _ K) by lia. by apply O1.
  - intros z Hz Hs. rewrite dat_dom, (ul_dat _ _ _ _ _ K) in Hs. case_decide; [by destruct Hs|].
    rewrite <- dat_dom in Hs. specialize (O2 z Hz Hs). set_solver.
  - rewrite Forall_forall. intros z Hz. apply O3. set_solver.
Qed.

Lemma list_empty_ok h0 : heap_ok h0 →
  let '(h, L) := List_empty T_default h0 in rep h L [] [] ∧ owned h0 h L [].
Proof.
  intros [Hb H]. assert (nodes h0 !! brk h0 = None) as Hn.
  { destruct (nodes h0 !! brk h0) eqn:E; [|done]. pose proof (H (brk h0) (mk_is_Some _ _ E)). lia. }
  unfold List_empty, new_node. cbn. split; split; cbn; try done.
  - split; cbn; [lia|]. intros a Ha. destruct (decide (a = brk h0)) as [->|]; [lia|]. rewrite lookup_insert_ne in Ha by done.
    apply H in Ha. lia.
  - unfold next, load. cbn. by rewrite lookup_insert_eq.
  - unfold prev, load. cbn. by rewrite lookup_insert_eq.
  - apply NoDup_singleton.
  - constructor; [|done]. rewrite lookup_insert_eq. by eexists.
  - intros z Hz. by rewrite lookup_insert_ne by lia.
  - intros z Hz Hs. destruct (decide (z = brk h0)) as [->|]; [set_solver|]. rewrite lookup_insert_ne in Hs by done.
    apply H in Hs. lia.
  - constructor; [lia|done].
Qed.

(** ** Clients *)

(** [++it], [i] times. *)
Fixpoint advance (i : nat) (it : Z) h : option Z :=
  match i with O => Some it | S i => it ← next h it; advance i it h end.

(** [for (; it != end; ++it)] reading [*it] *)
Fixpoint values (fuel : nat) (it e : Z) h : option (list T) :=
  match fuel with
  | O => None
  | S fuel => if it =? e then Some [] else x ← dat h it; it ← next h it; xs ← values fuel it e h; Some (x :: xs)
  end.

Inductive dop := PushFront (x : T) | PushBack (x : T) | PopFront | PopBack | InsertAt (i : nat) (x : T).

Definition dstep (o : dop) L h : option (heap * List) :=
  match o with
  | PushFront x => push_front x L h
  | PushBack x => push_back x L h
  | PopFront => pop_front L h
  | PopBack => pop_back L h
  | InsertAt i x => it ← begin L h; it ← advance i it h; '(h, L, _) ← insert it x L h; Some (h, L)
  end.

Definition lstep (o : dop) (xs : list T) : list T :=
  match o with
  | PushFront x => x :: xs
  | PushBack x => xs ++ [x]
  | PopFront => tail xs
  | PopBack => take (length xs - 1) xs
  | InsertAt i x => take i xs ++ x :: drop i xs
  end.

(** Elements are only removed from a list that has some, and inserted up to its end. *)
Definition ok_op (o : dop) (xs : list T) : Prop :=
  match o with PopFront | PopBack => xs ≠ [] | InsertAt i _ => (i <= length xs)%nat | _ => True end.

Lemma advance_ok f l1 l2 s e h :
  f = next h → chain f s (l1 ++ l2) e → advance (length l1) (List.last (reverse (l1 ++ l2)) e) h = Some (List.last (reverse l2) e).
Proof.
  intros ->. revert s. induction l1 as [|x l1 IH]; intros s C; [done|]. cbn [app] in *. rewrite head_cons. cbn [length advance].
  destruct C as [_ C]. pose proof (chain_mid _ _ [] _ _ C) as E. cbn [List.last] in E. rewrite E. cbn [mbind option_bind]. by eapply IH.
Qed.

Lemma values_ok h s ls e xs fuel :
  chain (next h) s ls e → e ∉ ls → map (dat h) ls = map Some xs → (length ls < fuel)%nat →
  values fuel (List.last (reverse ls) e) e h = Some xs.
Proof.
  revert s xs fuel. induction ls as [|a ls IH]; intros s [|x xs] [|fuel] C N D Hf; try done; try (cbn in Hf; lia).
  - cbn. by rewrite Z.eqb_refl.
  - rewrite head_cons. cbn [values]. rewrite not_elem_of_cons in N. destruct N as [N1 N2].
    replace (a =? e) with false by (symmetry; apply Z.eqb_neq; congruence). injection D as -> D. cbn [mbind option_bind].
    destruct C as [_ C]. pose proof (chain_mid _ _ [] _ _ C) as E. cbn [List.last] in E. rewrite E. cbn [mbind option_bind].
    rewrite (IH a xs fuel) by (done || (cbn in Hf; lia)). done.
Qed.

Lemma rep_length h L ls xs : rep h L ls xs → length ls = length xs.
Proof. intros R. pose proof (rep_dat _ _ _ _ R) as D. apply (f_equal length) in D. by rewrite !length_map in D. Qed.

Lemma dstep_ok o h0 h L ls xs :
  rep h L ls xs → owned h0 h L ls → ok_op o xs →
  ∃ h' L' ls', dstep o L h = Some (h', L') ∧ rep h' L' ls' (lstep o xs) ∧ owned h0 h' L' ls'.
Proof.
  intros R O Ho. pose proof (rep_length _ _ _ _ R) as Len. destruct o as [x|x| | |i x]; cbn [dstep lstep ok_op] in *.
  - destruct (push_front_ok x h L ls xs R) as (h' & -> & K). eexists h', _, (brk h :: ls). split; [done|]. split.
    + apply (link_rep h h' L [] ls [] xs x); done.
    + apply (own_link h0 h h' L [] ls xs x); done.
  - destruct (list_push_back_ok x h L ls xs R) as (h' & -> & K). rewrite <- (app_nil_r ls), <- (app_nil_r xs) in R. rewrite <- (app_nil_r ls) in O.
    eexists h', _, (ls ++ [brk h]). split; [done|]. split.
    + apply (link_rep h h' L ls [] xs [] x); done.
    + apply (own_link h0 h h' L ls [] (xs ++ []) x); done.
  - destruct xs as [|y xs]; [done|]. destruct ls as [|a ls]; [done|].
    destruct (pop_front_ok h L a ls _ R) as (h' & -> & K). eexists h', _, ls. split; [done|]. split.
    + apply (unlink_rep h h' L [] a ls [] y xs); done.
    + apply (own_unlink h0 h h' L [] a ls (y :: xs)); done.
  - destruct xs as [|y xs _] using rev_ind; [done|]. destruct ls as [|a ls _] using rev_ind; [rewrite length_app in Len; cbn in Len; lia|].
    rewrite !length_app in *. cbn [length] in *. replace (take (length xs + 1 - 1) (xs ++ [y])) with xs by (rewrite Nat.add_sub; by rewrite take_app_length).
    destruct (pop_back_ok h L ls a _ R) as (h' & -> & K). eexists h', _, ls. split; [done|]. split.
    + rewrite <- (app_nil_r ls), <- (app_nil_r xs). apply (unlink_rep h h' L ls a [] xs y []); [done|lia|done].
    + rewrite <- (app_nil_r ls). apply (own_unlink h0 h h' L ls a [] (xs ++ [y])); done.
  - rewrite <- (take_drop i ls), <- (take_drop i xs) in R. rewrite <- (take_drop i ls) in O.
    destruct (list_insert_ok x h L _ _ _ R) as (h' & E & K). unfold begin. rewrite (proj1 (rep_ends _ _ _ _ R)). cbn [mbind option_bind].
    pose proof (advance_ok (next h) (take i ls) (drop i ls) _ _ h eq_refl (rep_next _ _ _ _ R)) as A.
    rewrite length_take_le in A by lia. rewrite A. cbn [mbind option_bind]. rewrite E. cbn [mbind option_bind].
    eexists h', _, _. split; [done|]. split.
    + apply (link_rep h h' L (take i ls) (drop i ls) (take i xs) (drop i xs) x); [done|rewrite !length_take_le by lia; done|done].
    + eapply own_link; done.
Qed.

Fixpoint drun (os : list dop) L h : option (heap * List) :=
  match os with [] => Some (h, L) | o :: os => '(h, L) ← dstep o L h; drun os L h end.

Fixpoint ok_ops (os : list dop) (xs : list T) : Prop :=
  match os with [] => True | o :: os => ok_op o xs ∧ ok_ops os (lstep o xs) end.

Definition lrun (os : list dop) (xs : list T) : list T := fold_left (λ xs o, lstep o xs) os xs.

Lemma drun_ok os h0 h L ls xs :
  rep h L ls xs → owned h0 h L ls → ok_ops os xs →
  ∃ h' L' ls', drun os L h = Some (h', L') ∧ rep h' L' ls' (lrun os xs) ∧ owned h0 h' L' ls'.
Proof.
  revert h L ls xs. induction os as [|o os IH]; intros h L ls xs R O Ho; [by eexists _, _, _|]. destruct Ho as [Ho Hos]. cbn.
  destruct (dstep_ok o h0 h L ls xs R O Ho) as (h1 & L1 & ls1 & -> & R1 & O1). cbn [mbind option_bind]. by apply (IH h1 L1 ls1).
Qed.

Lemma rep_values h L ls xs fuel :
  rep h L ls xs → (length xs < fuel)%nat → values fuel (List.last (reverse ls) (dummy L)) (end_ L) h = Some xs.
Proof.
  intros R Hf. pose proof (rep_length _ _ _ _ R). pose proof (rep_nodup _ _ _ _ R) as N. apply NoDup_cons in N as [N _].
  apply (values_ok h (dummy L) ls); [apply R|done|apply R|lia].
Qed.

(** ** Constructors *)

Lemma append_after_ok x h L ls xs :
  rep h L ls xs → ∃ h', append_after (List.last ls (dummy L)) (dummy L) x h = Some (h', brk h) ∧
    linked h h' (List.last ls (dummy L)) (dummy L) x.
Proof.
  intros R. unfold append_after. pose proof (rep_dom_last h L ls xs ls R ltac:(set_solver)) as D1.
  pose proof (rep_dom_last h L ls xs [] R ltac:(set_solver)) as D2. cbn [List.last] in D2.
  rewrite new_link by (done || apply R). destruct (link_ok x _ _ h (rep_heap _ _ _ _ R) D1 D2) as [(h2 & h3 & E2 & E3 & K) _].
  cbn zeta in E2. pose proof (new_views x (List.last ls (dummy L)) (dummy L) h (List.last ls (dummy L))) as (V & _). rewrite V.
  pose proof (proj2 (rep_heap _ _ _ _ R) _ D1). case_decide; [lia|].
  rewrite (chain_end _ _ _ _ (rep_next _ _ _ _ R)). cbn [mbind option_bind]. rewrite E2. cbn [mbind option_bind]. rewrite E3. by exists h3.
Qed.

Lemma rep_frame h h' L ls xs :
  rep h L ls xs → heap_ok h' → (∀ z, z ∈ dummy L :: ls → nodes h' !! z = nodes h !! z) → rep h' L ls xs.
Proof.
  intros [Hh Hn Hp Hd Nd Dm Sz] Hh' F. split; try done.
  - eapply chain_ext; [|exact Hn]. intros z Hz. unfold next, load. by rewrite F.
  - eapply chain_ext; [|exact Hp]. intros z Hz. unfold prev, load. rewrite F; [done|]. set_solver.
  - rewrite <- Hd. apply map_ext_in. intros z Hz%list_elem_of_In. unfold dat, load. rewrite F; [done|by right].
  - rewrite Forall_forall in *. intros z Hz. rewrite F by done. by apply Dm.
Qed.

(** The loop of the copy constructor, with the nodes [rs] of the source still to come. *)
Lemma list_copy_loop_ok rs zs e h D bs ys fuel :
  rep h D bs ys → from (next h) rs e → map (dat h) rs = map Some zs → (e ∉ rs) → NoDup rs →
  (∀ z, z ∈ rs → z ∉ dummy D :: bs) → (length rs < fuel)%nat →
  ∃ h' cs, copy_loop fuel (List.last (reverse rs) e) e (List.last bs (dummy D)) (dummy D) h = Some h' ∧
    rep h' (MkList (dummy D) (_size D + zlen zs)) (bs ++ cs) (ys ++ zs) ∧ Forall (λ a, brk h <= a) cs ∧
    (∀ z, z < brk h → z ∉ dummy D :: bs → nodes h' !! z = nodes h !! z).
Proof.
  revert zs h D bs ys fuel. induction rs as [|a rs IH]; intros [|y zs] h D bs ys [|fuel] R C Hd E N Dj Hf; try done; try (cbn in Hf; lia).
  - exists h, []. cbn. rewrite Z.eqb_refl, !app_nil_r. split_and!; [done| |done|done]. unfold zlen. cbn. rewrite Z.add_0_r. by destruct D.
  - rewrite head_cons. cbn [copy_loop]. rewrite not_elem_of_cons in E. destruct E as [E1 E2]. apply NoDup_cons in N as [N1 N2].
    replace (a =? e) with false by (symmetry; apply Z.eqb_neq; congruence). injection Hd as Hy Hd.
    unfold dat in Hy. destruct (load h a) as [n|] eqn:La; [|done]. injection Hy as Hy. cbn [mbind option_bind]. rewrite Hy.
    destruct (append_after_ok y h D bs ys R) as (h1 & -> & K). cbn [mbind option_bind].
    pose proof (last_in (dummy D) bs) as Hl. assert (∀ z, z ∈ a :: rs → is_Some (nodes h !! z)) as Ds.
    { intros z Hz. rewrite dat_dom. assert (dat h z ∈ map (dat h) (a :: rs)) as M by (by apply list_elem_of_fmap_2).
      cbn in M. unfold dat in M at 2. rewrite La, Hd in M. cbn in M. set_unfold. destruct M as [->|(v & -> & _)]; by eexists. }
    assert (∀ z, z ∈ a :: rs → nodes h1 !! z = nodes h !! z) as F.
    { intros z Hz. pose proof (proj2 (rep_heap _ _ _ _ R) z (Ds z Hz)). specialize (Dj z Hz).
      apply (ln_frame _ _ _ _ _ K); [lia|intros ->; by apply Dj|intros ->; apply Dj; by left]. }
    assert (next h1 a = next h a) as -> by (unfold next, load; rewrite F; [done|by left]).
    pose proof (chain_mid _ _ [] _ _ C) as Ea. cbn [List.last] in Ea. rewrite Ea. cbn [mbind option_bind].
    pose proof (ln_next _ _ _ _ _ K (List.last bs (dummy D))) as En.
    pose proof (rep_dom_last h D bs ys bs R ltac:(set_solver)) as Dl. pose proof (proj2 (rep_heap _ _ _ _ R) _ Dl).
    case_decide; [lia|]. case_decide; [|done]. rewrite En. cbn [mbind option_bind].
    pose proof R as R'. rewrite <- (app_nil_r bs), <- (app_nil_r ys) in R'.
    pose proof (link_rep h h1 D bs [] ys [] y R' (rep_length _ _ _ _ R) K) as R1.
    destruct (IH zs h1 _ (bs ++ [brk h]) (ys ++ [y]) fuel R1) as (h2 & cs & Ec & R2 & G2 & F2).
    + destruct rs as [|b rs]; [done|]. apply chain_from in C. eapply chain_ext; [|exact C]. intros z Hz. unfold next, load. rewrite F; [done|by right].
    + rewrite <- Hd. apply map_ext_in. intros z Hz%list_elem_of_In. unfold dat, load. rewrite F; [done|by right].
    + done.
    + done.
    + intros z Hz. cbn [dummy]. pose proof (proj2 (rep_heap _ _ _ _ R) z (Ds z ltac:(by right))).
      specialize (Dj z ltac:(by right)). assert (z ≠ brk h) by lia. set_solver.
    + cbn in Hf. lia.
    + exists h2, (brk h :: cs). rewrite List.last_last in Ec. cbn [dummy _size] in *.
      rewrite <- !app_assoc in R2. split_and!; [done| | |].
      * replace (_size D + zlen (y :: zs)) with (_size D + 1 + zlen zs) by (unfold zlen; cbn [length]; lia). done.
      * constructor; [lia|]. eapply Forall_impl; [exact G2|]. cbn. rewrite (ln_brk _ _ _ _ _ K). lia.
      * intros z Hz Nz. rewrite F2; [|rewrite (ln_brk _ _ _ _ _ K); lia|assert (z ≠ brk h) by lia; set_solver].
        apply (ln_frame _ _ _ _ _ K); [lia|intros ->; by apply Nz|intros ->; apply Nz; by left].
Qed.

Lemma List_copy_ok h L ls xs fuel :
  rep h L ls xs → (length ls < fuel)%nat →
  ∃ h' L' ls', List_copy T_default fuel L h = Some (h', L') ∧ rep h' L' ls' xs ∧ rep h' L ls xs ∧
    ∀ z, z ∈ dummy L' :: ls' → z ∉ dummy L :: ls.
Proof.
  intros R Hf. pose proof (list_empty_ok h (rep_heap _ _ _ _ R)) as E0. unfold List_copy. unfold List_empty in E0.
  destruct (new_node T_default 0 0 h) as [h1 d] eqn:En. destruct E0 as [R1 O1]. injection En as <- <-.
  set (h1 := Heap _ _) in *. pose proof (rep_dom _ _ _ _ R) as D. rewrite Forall_forall in D.
  assert (∀ z, z ∈ dummy L :: ls → z < brk h) as Lt by (intros z Hz; apply (proj2 (rep_heap _ _ _ _ R)), D, Hz).
  assert (rep h1 L ls xs) as R'.
  { apply (rep_frame h); [done|apply R1|]. intros z Hz. apply (own_old _ _ _ _ O1). by apply Lt. }
  rewrite (proj1 (rep_ends _ _ _ _ R')). cbn [mbind option_bind]. pose proof (rep_nodup _ _ _ _ R) as N. apply NoDup_cons in N as [N1 N2].
  destruct (list_copy_loop_ok ls xs (dummy L) h1 (MkList (brk h) 0) [] [] fuel R1) as (h2 & cs & Ec & R2 & G & F).
  - pose proof (rep_next _ _ _ _ R') as C. destruct ls; [done|]. by apply chain_from in C.
  - apply R'.
  - done.
  - done.
  - intros z Hz Hin. apply elem_of_cons in Hin as [->|Hin]; [|by apply elem_of_nil in Hin]. specialize (Lt (brk h) ltac:(by right)). lia.
  - done.
  - cbn [dummy List.last _size app] in *. rewrite Ec. cbn [mbind option_bind].
    assert (MkList (brk h) (0 + zlen xs) = MkList (brk h) (_size L)) as EL by (by rewrite (rep_size _ _ _ _ R)).
    rewrite EL in R2. eexists h2, _, cs. split; [done|]. split; [done|]. rewrite Forall_forall in G. split.
    + apply (rep_frame h1); [done|apply R2|]. intros z Hz. specialize (Lt z Hz). apply F; [subst h1; cbn; lia|].
      intros Hin. apply elem_of_cons in Hin as [->|Hin]; [lia|by apply elem_of_nil in Hin].
    + cbn [dummy]. intros z Hz Hz'. specialize (Lt z Hz'). apply elem_of_cons in Hz as [->|Hz]; [lia|].
      specialize (G z Hz). subst h1. cbn in G. lia.
Qed.

(** The nodes that [fill_loop] has built: backward pointers around the ring, forward
    pointers from the first node on. *)
Record filled h (d : Z) (ls : list Z) (xs : list T) : Prop := MkFilled {
  fl_heap : heap_ok h;
  fl_next : from (next h) ls d;
  fl_prev : chain (prev h) d (reverse ls) d;
  fl_dat : map (dat h) ls = map Some xs;
  fl_nodup : NoDup (d :: ls);
  fl_dom : Forall (λ a, is_Some (nodes h !! a)) (d :: ls) }.

Lemma fill_step h d ls xs :
  filled h d ls xs →
  ∃ h', set_prev (List.last (reverse ls) d) (brk h) (Heap (<[brk h := Node T_default d (List.last (reverse ls) d)]> (nodes h)) (brk h + 1)) = Some h' ∧
    filled h' d (brk h :: ls) (T_default :: xs) ∧ brk h' = brk h + 1.
Proof.
  intros [Hh Hn Hp Hd Nd Dm]. rewrite Forall_forall in Dm. set (p := List.last (reverse ls) d) in *. set (h1 := Heap _ _).
  assert (p ∈ d :: ls) as Ip by (pose proof (last_in d (reverse ls)); set_solver).
  assert (∀ z, z ∈ d :: ls → z < brk h) as Lt by (intros z Hz; apply (proj2 Hh), Dm, Hz).
  pose proof (new_views T_default d p h) as V. fold h1 in V. cbn zeta in V.
  assert (∀ z, is_Some (nodes h1 !! z) ↔ z = brk h ∨ is_Some (nodes h !! z)) as Dom1.
  { intros z. rewrite !dat_dom. destruct (V z) as (_ & _ & ->). case_decide; naive_solver. }
  destruct (set_prev_ok p (brk h) h1) as (h2 & E & U); [apply Dom1; right; by apply Dm|]. exists h2. split; [done|].
  assert (∀ z, is_Some (nodes h2 !! z) ↔ z = brk h ∨ is_Some (nodes h !! z)) as Dom2.
  { intros z. rewrite dat_dom, (ur_dat _ _ _ _ U), <- dat_dom. apply Dom1. }
  assert (∀ z, z ∈ d :: ls → z ≠ brk h) as Ne by (intros z Hz ->; specialize (Lt _ Hz); lia).
  split; [|by rewrite (ur_brk _ _ _ _ U)]. split.
  - split; rewrite (ur_brk _ _ _ _ U); [destruct Hh; cbn; lia|]. intros z [->|Hz]%Dom2; cbn; [destruct Hh; lia|]. apply (proj2 Hh) in Hz. lia.
  - assert (∀ z, z ∈ d :: ls → next h2 z = next h z) as Nx.
    { intros z Hz. rewrite (ur_next _ _ _ _ U). destruct (V z) as (-> & _). case_decide; [by apply Ne in Hz|done]. }
    assert (next h2 (brk h) = Some p) as Na.
    { rewrite (ur_next _ _ _ _ U). destruct (V (brk h)) as (-> & _). by case_decide. }
    subst p. destruct ls as [|b ls]; [done|]. rewrite head_cons in Na. split; [done|]. eapply chain_ext; [|exact Hn].
    intros z Hz. apply Nx. by right.
  - rewrite reverse_cons. apply (chain_insert (prev h)); [by rewrite app_nil_r|rewrite app_nil_r|rewrite app_nil_r| | |].
    + by rewrite reverse_Permutation.
    + intros Hin. apply (Ne (brk h)); [|done]. set_solver.
    + rewrite (ur_prev _ _ _ _ U). by case_decide.
    + rewrite (ur_prev _ _ _ _ U). case_decide as Ep; [exfalso; by apply (Ne p)|]. destruct (V (brk h)) as (_ & -> & _).
      case_decide; [|done]. symmetry. by apply chain_end.
    + intros z Z1 Z2. rewrite (ur_prev _ _ _ _ U). case_decide; [done|]. destruct (V z) as (_ & -> & _). by case_decide.
  - cbn [map]. rewrite <- Hd. f_equal.
    + rewrite (ur_dat _ _ _ _ U). destruct (V (brk h)) as (_ & _ & ->). by case_decide.
    + apply map_ext_in. intros z Hz%list_elem_of_In. rewrite (ur_dat _ _ _ _ U). destruct (V z) as (_ & _ & ->).
      case_decide; [exfalso; by apply (Ne z); [right|]|done].
  - rewrite Permutation_swap. apply NoDup_cons. split; [intros Hin; by apply (Ne _ Hin)|done].
  - rewrite Forall_forall. intros z Hz. apply Dom2. destruct (decide (z = brk h)); [by left|right]. apply Dm. set_solver.
Qed.

Lemma list_fill_loop_ok n h d ls xs :
  filled h d ls xs → ∃ h' ls', fill_loop T_default n (List.last (reverse ls) d) d h = Some (h', List.last (reverse ls') d) ∧
    filled h' d ls' (replicate n T_default ++ xs).
Proof.
  revert h ls xs. induction n as [|n IH]; intros h ls xs F; [by exists h, ls|]. cbn [fill_loop].
  pose proof (fl_dom _ _ _ _ F) as D. rewrite Forall_forall in D.
  rewrite new_link; [|apply F|apply D; by left|apply D; pose proof (last_in d (reverse ls)); set_solver].
  destruct (fill_step h d ls xs F) as (h1 & -> & F1 & _). cbn [mbind option_bind].
  destruct (IH h1 (brk h :: ls) (T_default :: xs) F1) as (h2 & ls2 & E & F2). rewrite head_cons in E. exists h2, ls2. split; [done|].
  assert (replicate (S n) T_default ++ xs = replicate n T_default ++ T_default :: xs) as ->; [|done].
  rewrite replicate_S_end, <- app_assoc. done.
Qed.

(** [List(n)] has [n] default elements; [List(n, t)] too: it does not use [t]. *)
Lemma List_n_ok n t h0 :
  heap_ok h0 → ∃ h L ls, List_n T_default n h0 = Some (h, L) ∧ rep h L ls (replicate n T_default) ∧
    List_n_t T_default n t h0 = Some (h, L).
Proof.
  intros H0. pose proof (list_empty_ok h0 H0) as E0. unfold List_n, List_n_t. unfold List_empty in E0.
  destruct (new_node T_default 0 0 h0) as [h1 d]. destruct E0 as [[Hh Hn Hp Hd Nd Dm Sz] _]. cbn [dummy] in *.
  destruct (list_fill_loop_ok n h1 d [] []) as (h2 & ls & E & F); [by split|]. cbn [reverse rev_append List.last] in E. change (List.last (reverse []) d) with d in E.
  rewrite E. cbn [mbind option_bind]. rewrite app_nil_r in F. destruct F as [Fh Fn Fp Fd FN FD]. rewrite Forall_forall in FD.
  destruct (set_next_ok d (List.last (reverse ls) d) h2) as (h3 & E3 & U); [apply FD; by left|]. rewrite E3. cbn [mbind option_bind].
  eexists h3, _, ls. split; [done|]. split; [|done]. apply NoDup_cons in FN as [N1 N2]. split; cbn [dummy _size].
  - split; rewrite (un_brk _ _ _ _ U); [apply (proj1 Fh)|]. intros z. rewrite dat_dom, (un_dat _ _ _ _ U), <- dat_dom. apply (proj2 Fh).
  - assert (next h3 d = Some (List.last (reverse ls) d)) as Nd3 by (rewrite (un_next _ _ _ _ U); by case_decide).
    destruct ls as [|b ls]; [done|]. rewrite head_cons in Nd3. split; [done|]. eapply chain_ext; [|exact Fn].
    intros z Hz. rewrite (un_next _ _ _ _ U). case_decide; [subst; done|done].
  - eapply chain_ext; [|exact Fp]. intros z _. apply (un_prev _ _ _ _ U).
  - rewrite <- Fd. apply map_ext. intros z. apply (un_dat _ _ _ _ U).
  - by apply NoDup_cons.
  - rewrite Forall_forall. intros z Hz. rewrite dat_dom, (un_dat _ _ _ _ U), <- dat_dom. by apply FD.
  - unfold zlen. by rewrite length_replicate.
Qed.

(** C40: a list behaves like the sequence of its elements.  After any calls of
    [push_front], [push_back], [pop_front], [pop_back] and [insert] through an iterator,
    where elements are removed only from a list that has some, a traversal from [begin]
    to [end] ends and reads exactly the elements; [size], [front] and [back] agree with
    them; a copy holds the same elements, apart from the list; every other node of the
    heap is unchanged; and the destructor returns exactly the memory that the list took. *)
Theorem dlist_refines os h0 fuel :
  heap_ok h0 → ok_ops os [] → (length (lrun os []) < fuel)%nat →
  ∃ h L it h' h2 L2 it2, (let '(h1, L1) := List_empty T_default h0 in drun os L1 h1) = Some (h, L) ∧
    begin L h = Some it ∧ values fuel it (end_ L) h = Some (lrun os []) ∧
    size L = zlen (lrun os []) ∧ empty L = bool_decide (lrun os [] = []) ∧
    (lrun os [] ≠ [] → front L h = head (lrun os []) ∧ back L h = last (lrun os [])) ∧
    List_copy T_default fuel L h = Some (h2, L2) ∧ begin L2 h2 = Some it2 ∧
    values fuel it2 (end_ L2) h2 = Some (lrun os []) ∧ values fuel it (end_ L) h2 = Some (lrun os []) ∧
    (∀ z, z < brk h0 → nodes h !! z = nodes h0 !! z) ∧
    List_delete fuel L h = Some h' ∧ nodes h' = nodes h0.
Proof.
  intros H0 Hos Hf. pose proof (list_empty_ok h0 H0) as E0. destruct (List_empty T_default h0) as [h1 L1]. destruct E0 as [R1 O1].
  destruct (drun_ok os h0 h1 L1 [] [] R1 O1 Hos) as (h & L & ls & E & R & O). set (xs := lrun os []) in *.
  pose proof (rep_length _ _ _ _ R) as Len. destruct (rep_ends _ _ _ _ R) as [Hn Hp].
  destruct (List_delete_ok h L ls xs fuel R ltac:(lia)) as (h' & Ed & Vd).
  destruct (List_copy_ok h L ls xs fuel R ltac:(lia)) as (h2 & L2 & ls2 & Ec & Rc & R' & _).
  exists h, L, (List.last (reverse ls) (dummy L)), h', h2, L2, (List.last (reverse ls2) (dummy L2)).
  split_and!; [done|done|by apply (rep_values h L)|apply R| | |done|apply (rep_ends _ _ _ _ Rc)|by apply (rep_values h2 L2)|by apply (rep_values h2 L)|apply O|done|].
  - unfold empty. rewrite (rep_size _ _ _ _ R). destruct xs; [done|]. rewrite bool_decide_eq_false_2 by done. apply Z.eqb_neq. unfold zlen. cbn [length]. lia.
  - intros Hx. pose proof (rep_dat _ _ _ _ R) as D. unfold front, back. rewrite Hn, Hp. cbn [mbind option_bind].
    destruct xs as [|y ys]; [done|]. destruct ls as [|a ls]; [done|]. split.
    + rewrite head_cons. injection D as D _. exact D.
    + destruct ls as [|b ls _] using rev_ind; destruct ys as [|z ys _] using rev_ind; cbn in Len; rewrite ?length_app in Len; cbn in Len; try lia.
      * injection D as D. exact D.
      * change (a :: ls ++ [b]) with ((a :: ls) ++ [b]) in *. change (y :: ys ++ [z]) with ((y :: ys) ++ [z]) in *.
        rewrite List.last_last, last_snoc. rewrite !map_app in D. apply app_inj_2 in D as [_ D]; [|done].
        injection D as D. exact D.
  - apply map_eq. intros z. rewrite Vd. destruct O as [O1' O2 O3]. rewrite Forall_forall in O3. case_decide as Hz.
    + specialize (O3 z Hz). symmetry. destruct (nodes h0 !! z) eqn:En; [|done]. pose proof (proj2 H0 z (mk_is_Some _ _ En)). lia.
    + destruct (Z.lt_ge_cases z (brk h0)); [by apply O1'|].
      destruct (nodes h0 !! z) eqn:En; [pose proof (proj2 H0 z (mk_is_Some _ _ En)); lia|].
      destruct (nodes h !! z) eqn:Eh; [|done]. exfalso. apply Hz, O2; [done|by eexists].
Qed.
End dlist.

Definition ex_heap0 : @heap Z := Heap ∅ 1.

Lemma ex_heap0_ok : heap_ok ex_heap0.
Proof. split; [done|]. cbn. intros a [n Hn]. by rewrite lookup_empty in Hn. Qed.

Lemma dlist_refines_witness :
  ∃ h L it, (let '(h1, L1) := List_empty 0 ex_heap0 in drun [PushBack 1; PushFront 2; PopBack; InsertAt 1 5] L1 h1) = Some (h, L) ∧
    begin L h = Some it ∧ values 3 it (end_ L) h = Some [2; 5].
Proof.
  destruct (dlist_refines 0 [PushBack 1; PushFront 2; PopBack; InsertAt 1 5] ex_heap0 3 ex_heap0_ok)
    as (h & L & it & _ & _ & _ & _ & E & B & V & _); [cbn; split_and!; (done || lia)|cbn; lia|].
  exists h, L, it. split; [exact E|split; [exact B|exact V]].
Defined.

(** Removing from an empty list deletes the dummy node, so that the next call faults. *)
Lemma dlist_pop_empty :
  ∃ h L, (let '(h, L) := List_empty 0 ex_heap0 in pop_front L h) = Some (h, L) ∧ size L = -1 ∧ push_back 7 L h = None.
Proof. eexists _, _. split; [vm_compute; reflexivity|]. split; vm_compute; reflexivity. Qed.
