(* ===== verification/Dtree.v ===== *)
(** The directory tree monitor tlpi-dist/inotify/inotify_dtree.c: a cache of the watched
    directories of some trees, kept up to date from inotify events.

    The kernel (inotify, [nftw], [lstat], the reads from the inotify descriptor) is a class
    of operations on a state of its own, [K].  A pathname is a C string, the list of its
    characters without the terminating 0.  [exit], [abort], and the accesses the C language
    leaves undefined, are failures that end the process.  Log messages are left out; they
    do not change the state.  A call of [read] delivers whole events, as inotify does. *)

From stdpp Require Import base tactics numbers list gmap strings.
From Stdlib Require Import ZArith Lia.
From S2P Require Import Prelude Cio.

Abbreviation pathname := (list Z).

Definition PATH_MAX : Z := 4096.
Definition NAME_MAX : Z := 255.
Definition IN_MOVED_FROM : Z := 0x40.
Definition IN_MOVED_TO : Z := 0x80.
Definition IN_CREATE : Z := 0x100.
Definition IN_DELETE_SELF : Z := 0x400.
Definition IN_MOVE_SELF : Z := 0x800.
Definition IN_UNMOUNT : Z := 0x2000.
Definition IN_Q_OVERFLOW : Z := 0x4000.
Definition IN_IGNORED : Z := 0x8000.
Definition IN_ONLYDIR : Z := 0x1000000.
Definition IN_ISDIR : Z := 0x40000000.
Definition ENOENT : Z := 2.
Definition SLASH : Z := 47.

(** [sizeof(struct inotify_event)] *)
Definition EVENT_SIZE : Z := 16.
Definition INOTIFY_READ_BUF_LEN : Z := 100 * (EVENT_SIZE + NAME_MAX + 1).
Definition ALLOC_INCR : nat := 200.

Record watch := Watch { wd : Z; path : pathname }.
Record event := Event { ev_wd : Z; mask : Z; cookie : Z; ev_len : Z; name : pathname }.
Record stat := Stat { st_dev : Z; st_ino : Z; is_dir : bool }.

(** The result of a read from the inotify descriptor. *)
Inductive readres := Got (evs : list event) | Eintr | Errno | Eof.

(** The calls the program makes of the system. *)
Class Kernel (K : Type) := {
  inotify_init : K → K * Z;
  inotify_close : K → Z → K;
  inotify_add_watch : K → Z → pathname → Z → K * (Z + Z) (** watch descriptor or error number *);
  inotify_rm_watch : K → Z → Z → K * bool;
  nftw : K → pathname → list (pathname * bool) (** the objects visited, and whether they are directories *);
  lstat : K → pathname → option stat;
  read_events : K → Z → Z → K * readres;
  write_lines : K → pathname → list pathname → K * bool (** create and write a file *) }.

Inductive fault := Exit (code : Z) | Abort | NullFile | Uninitialised | Unterminated | BadIndex | NoFuel.

Section dtree.
Context {K : Type} `{!Kernel K}.

Record state := State {
  kern : K;
  wlCache : list watch;
  rootDirPaths : list (option pathname);
  ignoreRootDirs : Z;
  reinitCnt : Z;
  overflowCnt : Z;
  inotifyReadCnt : Z;
  dirCnt : Z;
  verboseMask : Z;
  checkCache : bool;
  dumpCache : bool;
  logfp : bool               (** a log file is open *);
  abortOnCacheProblem : bool;
  readBufferSize : Z }.

Definition set_kern k s := State k (wlCache s) (rootDirPaths s) (ignoreRootDirs s) (reinitCnt s) (overflowCnt s) (inotifyReadCnt s) (dirCnt s) (verboseMask s) (checkCache s) (dumpCache s) (logfp s) (abortOnCacheProblem s) (readBufferSize s).
Definition set_wlCache c s := State (kern s) c (rootDirPaths s) (ignoreRootDirs s) (reinitCnt s) (overflowCnt s) (inotifyReadCnt s) (dirCnt s) (verboseMask s) (checkCache s) (dumpCache s) (logfp s) (abortOnCacheProblem s) (readBufferSize s).
Definition set_roots r i s := State (kern s) (wlCache s) r i (reinitCnt s) (overflowCnt s) (inotifyReadCnt s) (dirCnt s) (verboseMask s) (checkCache s) (dumpCache s) (logfp s) (abortOnCacheProblem s) (readBufferSize s).
Definition set_counts r o i d s := State (kern s) (wlCache s) (rootDirPaths s) (ignoreRootDirs s) r o i d (verboseMask s) (checkCache s) (dumpCache s) (logfp s) (abortOnCacheProblem s) (readBufferSize s).
Definition set_modes v c d s := State (kern s) (wlCache s) (rootDirPaths s) (ignoreRootDirs s) (reinitCnt s) (overflowCnt s) (inotifyReadCnt s) (dirCnt s) v c d (logfp s) (abortOnCacheProblem s) (readBufferSize s).
Definition set_reinitCnt n s := set_counts n (overflowCnt s) (inotifyReadCnt s) (dirCnt s) s.
Definition set_overflowCnt n s := set_counts (reinitCnt s) n (inotifyReadCnt s) (dirCnt s) s.
Definition set_inotifyReadCnt n s := set_counts (reinitCnt s) (overflowCnt s) n (dirCnt s) s.
Definition set_dirCnt n s := set_counts (reinitCnt s) (overflowCnt s) (inotifyReadCnt s) n s.

Abbreviation DM := (M state fault).

(** A system call. *)
Definition syscall {A} (f : K → K * A) : DM A := λ s,
  let '(k, a) := f (kern s) in (set_kern k s, Done a).

(** ** The watch list cache *)

Definition freeCache : DM unit := modify (set_wlCache []).

(** [for (j = 0; j < cacheSize; j++) if (p(slot j)) return j; return -1;] *)
Fixpoint find_from {A} (j : Z) (p : A → bool) (l : list A) : Z :=
  match l with
  | [] => -1
  | x :: l => if p x then j else find_from (j + 1) p l
  end.

Definition findWatch (d : Z) : DM Z := gets (λ s, find_from 0 (λ w, wd w =? d) (wlCache s)).

(** [wlCache[j]] *)
Definition slot (j : Z) : DM watch :=
  let! s := get in
  if j <? 0 then fail BadIndex
  else match wlCache s !! Z.to_nat j with Some w => ret w | None => fail BadIndex end.

Definition set_slot (j : Z) (w : watch) : DM unit :=
  slot j;;;
  modify (λ s, set_wlCache (<[Z.to_nat j := w]> (wlCache s)) s).

Definition dumpCacheToLog : DM unit :=
  let! s := get in if logfp s then ret tt else fail NullFile.

Definition createStopFileAndAbort {A} : DM A := dumpCacheToLog;;; fail Abort.

Definition findWatchChecked (d : Z) : DM Z :=
  let! j := findWatch d in
  if 0 <=? j then ret j
  else
    let! s := get in
    if abortOnCacheProblem s then createStopFileAndAbort else ret (-1).

Definition markCacheSlotEmpty (j : Z) : DM unit := set_slot j (Watch (-1) []).

(** The new slots are marked empty one by one. *)
Definition findEmptyCacheSlot : DM Z :=
  let! s := get in
  let j := find_from 0 (λ w, wd w =? -1) (wlCache s) in
  if 0 <=? j then ret j
  else
    modify (set_wlCache (wlCache s ++ replicate ALLOC_INCR (Watch (-1) [])));;;
    ret (zlen (wlCache s)).

(** [strncpy] leaves the copy of a longer name without terminating 0. *)
Definition addWatchToCache (d : Z) (pn : pathname) : DM Z :=
  let! j := findEmptyCacheSlot in
  if PATH_MAX <=? zlen pn then fail Unterminated
  else set_slot j (Watch d pn);;; ret j.

Definition pathnameToCacheSlot (pn : pathname) : DM Z :=
  gets (λ s, find_from 0 (λ w, (0 <=? wd w) && bool_decide (path w = pn)) (wlCache s)).

Definition pathnameInCache (pn : pathname) : DM bool :=
  let! j := pathnameToCacheSlot pn in ret (0 <=? j).

(** The loop over the cache that compares it with the file system: the numbers of entries
    found and missing; [None] if an entry is no directory, which ends the process. *)
Fixpoint verify_loop (k : K) (c : list watch) (cnt failures : Z) : option (Z * Z) :=
  match c with
  | [] => Some (cnt, failures)
  | w :: c =>
      if 0 <=? wd w then
        match lstat k (path w) with
        | None => verify_loop k c cnt (failures + 1)
        | Some sb => if is_dir sb then verify_loop k c (cnt + 1) failures else None
        end
      else verify_loop k c cnt failures
  end.

Definition checkCacheConsistency : DM unit :=
  let! s := get in
  match verify_loop (kern s) (wlCache s) 0 0 with
  | None => fail (Exit 1)
  | Some _ => ret tt
  end.

(** ** The root directories *)

Fixpoint check_args (k : K) (argv : list pathname) : bool :=
  match argv with
  | [] => true
  | p :: argv => match lstat k p with Some sb => is_dir sb && check_args k argv | None => false end
  end.

(** The loop that copies the names: [None] for a duplicate or a failing [lstat]. *)
Fixpoint copy_roots (k : K) (argv : list pathname) (seen : list stat) : option (list (option pathname)) :=
  match argv with
  | [] => Some []
  | p :: argv =>
      sb ← lstat k p;
      if existsb (λ sb', (st_ino sb =? st_ino sb') && (st_dev sb =? st_dev sb')) seen then None
      else rest ← copy_roots k argv (seen ++ [sb]); Some (Some p :: rest)
  end.

Definition copyRootDirPaths (argv : list pathname) : DM unit :=
  let! s := get in
  if negb (check_args (kern s) argv) then fail (Exit 1)
  else
    match copy_roots (kern s) argv [] with
    | None => fail (Exit 1)
    | Some roots => modify (set_roots roots 0)
    end.

Definition findRootDirPath (pn : pathname) : DM Z :=
  gets (λ s, find_from 0 (λ o, bool_decide (o = Some pn)) (rootDirPaths s)).

Definition isRootDirPath (pn : pathname) : DM bool :=
  let! j := findRootDirPath pn in ret (0 <=? j).

Definition zapRootDirPath (pn : pathname) : DM unit :=
  let! j := findRootDirPath pn in
  if j <? 0 then fail (Exit 1)
  else
    modify (λ s, set_roots (<[Z.to_nat j := None]> (rootDirPaths s)) (ignoreRootDirs s + 1) s);;;
    let! s := get in
    if ignoreRootDirs s =? zlen (rootDirPaths s) then fail (Exit 0) else ret tt.

(** ** Watching a tree *)

Definition traverseTree (ifd : Z) (pn : pathname) (isdir : bool) : DM unit :=
  if negb isdir then ret tt
  else
    let flags := Z.lor (Z.lor (Z.lor IN_CREATE IN_MOVED_FROM) IN_MOVED_TO) IN_DELETE_SELF in
    let! root := isRootDirPath pn in
    let flags := if root : bool then Z.lor flags IN_MOVE_SELF else flags in
    let! r := syscall (λ k, inotify_add_watch k ifd pn (Z.lor flags IN_ONLYDIR)) in
    match r with
    | inr errno => if errno =? ENOENT then ret tt else fail (Exit 1)
    | inl d =>
        let! j := findWatch d in
        if 0 <=? j then ret tt
        else
          modify (λ s, set_dirCnt (dirCnt s + 1) s);;;
          addWatchToCache d pn;;;
          ret tt
    end.

(** [nftw] calls [traverseTree] for each object it visits. *)
Fixpoint traverse_all (ifd : Z) (visits : list (pathname * bool)) : DM unit :=
  match visits with
  | [] => ret tt
  | (pn, isdir) :: visits => traverseTree ifd pn isdir;;; traverse_all ifd visits
  end.

(** A failing [nftw] is logged only. *)
Definition watchDir (inotifyFd : Z) (pn : pathname) : DM Z :=
  modify (set_dirCnt 0);;;
  let! s := get in
  traverse_all inotifyFd (nftw (kern s) pn);;;
  gets dirCnt.

Definition watchSubtree (inotifyFd : Z) (pn : pathname) : DM unit :=
  watchDir inotifyFd pn;;; ret tt.

(** ** Changes of the cache *)

(** [snprintf] into a buffer of [PATH_MAX] bytes *)
Definition path_buffer (l : list Z) : pathname := ztake (PATH_MAX - 1) l.
Definition join (prefix nm : pathname) : pathname := path_buffer (prefix ++ SLASH :: nm).

(** [strncmp(pn, p, len) == 0 && (p[len] == '/' || p[len] == '\0')] with [len = strlen(pn)] *)
Definition under (pn p : pathname) : bool :=
  bool_decide (take (length pn) p = pn) &&
  match drop (length pn) p with [] => true | c :: _ => c =? SLASH end.

Definition rewrite_entry (fullPath newPrefix : pathname) (w : watch) : watch :=
  if under fullPath (path w)
  then Watch (wd w) (path_buffer (newPrefix ++ drop (length fullPath) (path w)))
  else w.

Definition rewriteCachedPaths (oldPathPrefix oldName newPathPrefix newName : pathname) : DM unit :=
  let fullPath := join oldPathPrefix oldName in
  let newPrefix := join newPathPrefix newName in
  modify (λ s, set_wlCache (map (rewrite_entry fullPath newPrefix) (wlCache s)) s).

(** The loop over the slots from [j] on. *)
Fixpoint zap_loop (n : nat) (inotifyFd : Z) (pn : pathname) (j cnt : Z) : DM Z :=
  match n with
  | O => ret cnt
  | S n =>
      let! w := slot j in
      if (0 <=? wd w) && under pn (path w) then
        let! ok := syscall (λ k, inotify_rm_watch k inotifyFd (wd w)) in
        if ok : bool then markCacheSlotEmpty j;;; zap_loop n inotifyFd pn (j + 1) (cnt + 1)
        else ret (-1)
      else zap_loop n inotifyFd pn (j + 1) cnt
  end.

Definition zapSubtree (inotifyFd : Z) (pn : pathname) : DM Z :=
  let! s := get in zap_loop (length (wlCache s)) inotifyFd pn 0 0.

(** The loop over the roots that are still monitored. *)
Fixpoint watch_roots (inotifyFd : Z) (roots : list (option pathname)) : DM unit :=
  match roots with
  | [] => ret tt
  | Some p :: roots => watchSubtree inotifyFd p;;; watch_roots inotifyFd roots
  | None :: roots => watch_roots inotifyFd roots
  end.

Definition reinitialize (oldInotifyFd : Z) : DM Z :=
  (if 0 <=? oldInotifyFd then
     syscall (λ k, (inotify_close k oldInotifyFd, tt));;;
     modify (λ s, set_reinitCnt (reinitCnt s + 1) s)
   else modify (set_reinitCnt 0));;;
  let! inotifyFd := syscall inotify_init in
  if inotifyFd =? -1 then fail (Exit 1)
  else
    freeCache;;;
    let! s := get in
    watch_roots inotifyFd (rootDirPaths s);;;
    ret inotifyFd.

(** ** Events *)

Definition has (m bits : Z) : bool := negb (Z.land m bits =? 0).

Definition ev_size (ev : event) : Z := EVENT_SIZE + ev_len ev.
Fixpoint total (evs : list event) : Z :=
  match evs with [] => 0 | ev :: evs => ev_size ev + total evs end.

(** The path cached in the event's slot, which has no value if it was not looked up. *)
Definition slot_path (j : option Z) : DM pathname :=
  match j with None => fail Uninitialised | Some j => let! w := slot j in ret (path w) end.
Definition empty_slot (j : option Z) : DM unit :=
  match j with None => fail Uninitialised | Some j => markCacheSlotEmpty j end.

(** The cache is rebuilt, and the events left in the buffer are discarded. *)
Definition rebuild (inotifyFd : Z) : DM (Z * Z) :=
  let! fd := reinitialize inotifyFd in ret (fd, INOTIFY_READ_BUF_LEN).

(** The checks at the end of [processNextInotifyEvent]. *)
Definition finish (inotifyFd evLen : Z) : DM (Z * Z) :=
  let! s := get in
  (if checkCache s then checkCacheConsistency else ret tt);;;
  (if dumpCache s then dumpCacheToLog else ret tt);;;
  ret (inotifyFd, evLen).

(** The branch for a directory that is moved away: renamed within the trees if the next
    event tells where to, out of them otherwise; [rest] is the buffer behind the event. *)
Definition moved_from (inotifyFd : Z) (ev : event) (rest : list event) (bufSize : Z) (firstTry : bool)
    (evCacheSlot : option Z) : DM (Z * Z) :=
  let evLen := ev_size ev in
  let more := evLen <? bufSize in
  let! renamed :=
    (if more then
       match rest with
       | [] => fail Uninitialised
       | nextEv :: _ =>
           ret (if has (mask nextEv) IN_MOVED_TO && (cookie nextEv =? cookie ev) then Some nextEv else None)
       end
     else ret None) in
  match renamed with
  | Some nextEv =>
      let! j := findWatchChecked (ev_wd nextEv) in
      if j =? -1 then rebuild inotifyFd
      else
        let! p := slot_path evCacheSlot in
        let! q := slot_path (Some j) in
        rewriteCachedPaths p (name ev) q (name nextEv);;;
        finish inotifyFd (evLen + ev_size nextEv)
  | None =>
      if more || negb firstTry then
        let! p := slot_path evCacheSlot in
        let! cnt := zapSubtree inotifyFd (join p (name ev)) in
        if cnt =? -1 then rebuild inotifyFd else finish inotifyFd evLen
      else ret (inotifyFd, -1)
  end.

(** The new descriptor and the number of bytes consumed; -1 asks for another read. *)
Definition processNextInotifyEvent (inotifyFd : Z) (buf : list event) (bufSize : Z) (firstTry : bool) : DM (Z * Z) :=
  match buf with
  | [] => fail Uninitialised
  | ev :: rest =>
      let m := mask ev in
      let! evCacheSlot :=
        (if negb (ev_wd ev =? -1) && negb (has m IN_IGNORED)
         then let! j := findWatchChecked (ev_wd ev) in ret (Some j) else ret None) in
      let evLen := ev_size ev in
      if bool_decide (evCacheSlot = Some (-1)) then rebuild inotifyFd
      else if has m IN_ISDIR && has m (Z.lor IN_CREATE IN_MOVED_TO) then
        let! p := slot_path evCacheSlot in
        let fullPath := join p (name ev) in
        let! cached := pathnameInCache fullPath in
        (if cached : bool then ret tt else watchSubtree inotifyFd fullPath);;;
        finish inotifyFd evLen
      else if has m IN_DELETE_SELF then
        let! p := slot_path evCacheSlot in
        let! root := isRootDirPath p in
        (if root : bool then zapRootDirPath p else ret tt);;;
        empty_slot evCacheSlot;;;
        finish inotifyFd evLen
      else if Z.land m (Z.lor IN_MOVED_FROM IN_ISDIR) =? Z.lor IN_MOVED_FROM IN_ISDIR then
        moved_from inotifyFd ev rest bufSize firstTry evCacheSlot
      else if has m IN_Q_OVERFLOW then
        modify (λ s, set_overflowCnt (overflowCnt s + 1) s);;;
        let! fd := reinitialize inotifyFd in
        finish fd INOTIFY_READ_BUF_LEN
      else if has m IN_UNMOUNT then
        empty_slot evCacheSlot;;;
        finish inotifyFd evLen
      else
        let! moved := (if has m IN_MOVE_SELF then let! p := slot_path evCacheSlot in isRootDirPath p else ret false) in
        if moved : bool then
          let! p := slot_path evCacheSlot in
          zapRootDirPath p;;;
          let! cnt := zapSubtree inotifyFd p in
          if cnt =? -1 then rebuild inotifyFd else finish inotifyFd evLen
        else finish inotifyFd evLen
  end.

(** The pointer into the buffer moves on by [n] bytes. *)
Fixpoint advance (n : Z) (evs : list event) : list event :=
  match evs with
  | [] => []
  | ev :: evs' => if n <=? 0 then evs else advance (n - ev_size ev) evs'
  end.

(** The loop over the buffer: the events from the pointer on, and the bytes that are left.
    After the second read the code tests [errno != -1], which always holds: also when the
    read was interrupted and [nr] is -1. *)
Fixpoint events_loop (fuel : nat) (inotifyFd : Z) (evs : list event) (left : Z) (firstTry : bool) : DM Z :=
  if left <=? 0 then ret inotifyFd
  else
    match fuel with
    | O => fail NoFuel
    | S fuel =>
        let! r := processNextInotifyEvent inotifyFd evs left firstTry in
        let '(inotifyFd, evLen) := r in
        if 0 <? evLen then events_loop fuel inotifyFd (advance evLen evs) (left - evLen) true
        else
          let! rr := syscall (λ k, read_events k inotifyFd (INOTIFY_READ_BUF_LEN - left)) in
          match rr with
          | Errno | Eof => fail (Exit 1)
          | Got new =>
              modify (λ s, set_inotifyReadCnt (inotifyReadCnt s + 1) s);;;
              events_loop fuel inotifyFd (evs ++ new) (left + total new) false
          | Eintr =>
              modify (λ s, set_inotifyReadCnt (inotifyReadCnt s + 1) s);;;
              events_loop fuel inotifyFd evs (left - 1) false
          end
    end.

Definition processInotifyEvents (fuel : nat) (inotifyFd : Z) : DM Z :=
  let! s := get in
  let cnt := if 0 <? readBufferSize s then readBufferSize s else INOTIFY_READ_BUF_LEN in
  let! rr := syscall (λ k, read_events k inotifyFd cnt) in
  match rr with
  | Eintr | Errno | Eof => fail (Exit 1)
  | Got evs =>
      modify (λ s, set_inotifyReadCnt (inotifyReadCnt s + 1) s);;;
      events_loop fuel inotifyFd evs (total evs) true
  end.

(** ** Commands *)

(** [sscanf(line, "%c %s\n", &cmd, arg)]: the second word, if there is one. *)
Fixpoint word (l : list Z) : list Z :=
  match l with
  | [] => []
  | c :: l => if is_space c then [] else c :: word l
  end.
Definition scan_arg (l : list Z) : option (list Z) :=
  match word (skip_space l) with [] => None | a => Some a end.

Definition used_paths (c : list watch) : list pathname := map path (List.filter (λ w, 0 <=? wd w) c).

(** [line] is what [read] returned, with the newline. *)
Definition executeCommand (inotifyFd : Z) (line : list Z) : DM Z :=
  match line with
  | [] => fail (Exit 1)
  | _ :: _ =>
      match cstr (removelast line) with
      | [] => ret inotifyFd
      | cmd :: l =>
          let arg := match scan_arg l with Some a => ret a | None => fail Uninitialised end in
          if cmd =? 97 (* a *) then
            let! a := arg in
            zapSubtree inotifyFd a;;;
            watchSubtree inotifyFd a;;;
            ret inotifyFd
          else if (cmd =? 99) || (cmd =? 67) (* c, C *) then
            checkCacheConsistency;;; ret inotifyFd
          else if cmd =? 108 (* l *) then ret inotifyFd
          else if cmd =? 113 (* q *) then fail (Exit 0)
          else if cmd =? 118 (* v *) then
            modify (λ s, set_modes
              (match scan_arg l with
               | Some a => atol a
               | None => if verboseMask s =? 0 then 1 else 0
               end) (checkCache s) (dumpCache s) s);;;
            ret inotifyFd
          else if cmd =? 100 (* d *) then
            modify (λ s, set_modes (verboseMask s) (checkCache s) (negb (dumpCache s)) s);;; ret inotifyFd
          else if cmd =? 120 (* x *) then
            modify (λ s, set_modes (verboseMask s) (negb (checkCache s)) (dumpCache s) s);;; ret inotifyFd
          else if cmd =? 119 (* w *) then
            let! a := arg in
            let! s := get in
            let! ok := syscall (λ k, write_lines k a (used_paths (wlCache s))) in
            if ok : bool then ret inotifyFd else fail NullFile
          else if cmd =? 122 (* z *) then
            let! a := arg in
            zapSubtree inotifyFd a;;; ret inotifyFd
          else if cmd =? 48 (* 0 *) then
            syscall (λ k, (inotify_close k inotifyFd, tt));;;
            reinitialize (-1)
          else ret inotifyFd
      end
  end.

(** ** [main] *)

(** What [select] reports: a line from the terminal, events, or both. *)
Record ready := Ready { command : option (list Z); inotify_ready : bool }.

(** One round of the loop, after the options are parsed and the roots watched. *)
Definition main_round (fuel : nat) (inotifyFd : Z) (r : ready) : DM Z :=
  let! fd := match command r with Some line => executeCommand inotifyFd line | None => ret inotifyFd end in
  if inotify_ready r then processInotifyEvents fuel fd else ret fd.

Fixpoint main_loop (fuel : nat) (inotifyFd : Z) (rs : list ready) : DM Z :=
  match rs with
  | [] => ret inotifyFd
  | r :: rs => let! fd := main_round fuel inotifyFd r in main_loop fuel fd rs
  end.

Definition start (argv : list pathname) : DM Z := copyRootDirPaths argv;;; reinitialize (-1).

End dtree.
Arguments state K : clear implicits.
