(* ===== verification/DtreeThms.v ===== *)
(** Lemmas about the directory tree monitor: the invariant of its cache, and a logic for
    programs that may also end the process. *)

From stdpp Require Import base tactics numbers list gmap strings.
From Stdlib Require Import ZArith Lia.
From S2P Require Import Prelude Cio Dtree.

(** ** The cache *)

(** A slot is free, with an empty name, or holds a watch descriptor and a terminated name. *)
Definition slot_ok (w : watch) : Prop :=
  (wd w = -1 ∧ path w = []) ∨ (0 <= wd w ∧ zlen (path w) < PATH_MAX).

(** No watch descriptor is in two slots. *)
Record cache_ok (c : list watch) : Prop := CacheOk {
  slots_ok : Forall slot_ok c;
  slots_once i j w w' : c !! i = Some w → c !! j = Some w' → wd w = wd w' → 0 <= wd w → i = j }.

(** The cache has the directory [p] under the watch descriptor [d]. *)
Definition cached (c : list watch) (d : Z) (p : pathname) : Prop := 0 <= d ∧ Watch d p ∈ c.

Definition free_slot : watch := Watch (-1) [].

Lemma cached_lookup c d p : cached c d p ↔ 0 <= d ∧ ∃ i, c !! i = Some (Watch d p).
Proof. unfold cached. by rewrite list_elem_of_lookup. Qed.

Lemma cached_once c d p p' : cache_ok c → cached c d p → cached c d p' → p = p'.
Proof.
  rewrite !cached_lookup. intros Hc [Hd [i Hi]] [_ [j Hj]].
  assert (i = j) as <- by by eapply (slots_once c Hc i j). congruence.
Qed.

Lemma cache_ok_nil : cache_ok [].
Proof. split; [constructor|]. intros i j w w' H. by rewrite lookup_nil in H. Qed.

Lemma slot_free w : slot_ok w → wd w < 0 → w = free_slot.
Proof. destruct w as [d p]. intros [[E1 E2]|[E1 _]] Hw; cbn in *; [by subst|lia]. Qed.

(** The search for a slot. *)
Lemma find_from_spec {A} (p : A → bool) l j :
  0 <= j →
  (find_from j p l = -1 ∧ (∀ i x, l !! i = Some x → p x = false)) ∨
  (∃ i x, l !! i = Some x ∧ p x = true ∧ find_from j p l = j + Z.of_nat i).
Proof.
  revert j. induction l as [|x l IH]; intros j Hj; cbn.
  - left. split; [done|]. intros i x H. by rewrite lookup_nil in H.
  - destruct (p x) eqn:E; [right; exists O, x; split_and!; [done..|lia]|].
    destruct (IH (j + 1) ltac:(lia)) as [[-> H]|(i & y & Hi & Hy & ->)].
    + left. split; [done|]. intros [|i] y Hy; cbn in Hy; [by simplify_eq|eauto].
    + right. exists (S i), y. split_and!; [done..|lia].
Qed.

Lemma findWatch_spec c d : 0 <= d →
  (find_from 0 (λ w, wd w =? d) c = -1 ∧ ∀ p, ¬ cached c d p) ∨
  (∃ i w, c !! i = Some w ∧ wd w = d ∧ cached c d (path w) ∧ find_from 0 (λ w, wd w =? d) c = Z.of_nat i).
Proof.
  intros Hd. destruct (find_from_spec (λ w, wd w =? d) c 0 ltac:(lia)) as [[-> H]|(i & w & Hi & Hw & ->)].
  - left. split; [done|]. intros p [_ [i Hi]%list_elem_of_lookup]. apply H in Hi. cbn in Hi. lia.
  - right. exists i, w. apply Z.eqb_eq in Hw as <-. split_and!; [done..| |lia].
    split; [done|]. apply list_elem_of_lookup. exists i. by destruct w.
Qed.

(** A watch is stored in a free slot. *)
Lemma store_ok c i d p :
  cache_ok c → c !! i = Some free_slot → 0 <= d → zlen p < PATH_MAX → (∀ q, ¬ cached c d q) →
  cache_ok (<[i := Watch d p]> c) ∧
  ∀ d' p', cached (<[i := Watch d p]> c) d' p' ↔ cached c d' p' ∨ (d' = d ∧ p' = p).
Proof.
  intros Hc Hi Hd Hp Hn. assert (i < length c)%nat by by eapply lookup_lt_Some.
  assert (∀ j w, j ≠ i → c !! j = Some w → wd w ≠ d) as Hne.
  { intros j [d' q] Hj Hjw E. cbn in E. subst d'. apply (Hn q). rewrite cached_lookup. eauto. }
  split; [split|].
  - apply Forall_insert; [apply Hc|by right].
  - intros j k w w' Hj Hk E Hw. rewrite list_lookup_insert_Some in Hj, Hk.
    destruct Hj as [(<- & <- & _)|[Hj1 Hj]], Hk as [(<- & <- & _)|[Hk1 Hk]]; cbn in *; [done| | |].
    + by destruct (Hne k w' (not_eq_sym Hk1) Hk).
    + by destruct (Hne j w (not_eq_sym Hj1) Hj).
    + by eapply (slots_once c Hc).
  - intros d' p'. rewrite !cached_lookup. setoid_rewrite list_lookup_insert_Some. split.
    + intros [Hd' [j [(<- & E & _)|[Hj Hjw]]]]; [right; by simplify_eq|left; eauto].
    + intros [[Hd' [j Hj]]|[-> ->]]; [|split; [done|]; exists i; by left].
      split; [done|]. exists j. right. split; [|done]. intros <-. rewrite Hi in Hj. unfold free_slot in Hj. simplify_eq. lia.
Qed.

(** A slot is freed. *)
Lemma clear_slot_ok c i w :
  cache_ok c → c !! i = Some w →
  cache_ok (<[i := free_slot]> c) ∧
  ∀ d p, cached (<[i := free_slot]> c) d p ↔ cached c d p ∧ d ≠ wd w.
Proof.
  intros Hc Hi. split; [split|].
  - apply Forall_insert; [apply Hc|by left].
  - intros j k x y Hj Hk E Hx. rewrite list_lookup_insert_Some in Hj, Hk.
    destruct Hj as [(<- & <- & _)|[_ Hj]], Hk as [(<- & <- & _)|[_ Hk]]; cbn in *; [done|lia|lia|].
    by eapply (slots_once c Hc).
  - intros d p. rewrite !cached_lookup. setoid_rewrite list_lookup_insert_Some. split.
    + intros [Hd [j [(_ & E & _)|[Hj Hjw]]]]; [unfold free_slot in E; simplify_eq; lia|]. split; [eauto|].
      intros ->. apply Hj. symmetry. by eapply (slots_once c Hc j i).
    + intros [[Hd [j Hj]] Hne]. split; [done|]. exists j. right. split; [|done]. intros <-. by simplify_eq.
Qed.

(** The cache grows by free slots. *)
Lemma grow_ok c n :
  cache_ok c → cache_ok (c ++ replicate n free_slot) ∧
  ∀ d p, cached (c ++ replicate n free_slot) d p ↔ cached c d p.
Proof.
  intros Hc.
  assert (∀ i w, (c ++ replicate n free_slot) !! i = Some w → 0 <= wd w → c !! i = Some w) as Hl.
  { intros i w [Hi|[_ Hi]]%lookup_app_Some Hw; [done|]. apply lookup_replicate in Hi as [-> _]. cbn in Hw. lia. }
  split; [split|].
  - apply Forall_app. split; [apply Hc|]. apply Forall_replicate. by left.
  - intros i j w w' Hi Hj E Hw. eapply (slots_once c Hc i j w w'); [by apply Hl|by apply Hl; [|lia]|done..].
  - intros d p. rewrite !cached_lookup. split.
    + intros [Hd [i Hi]]. split; [done|]. exists i. by apply Hl.
    + intros [Hd [i Hi]]. split; [done|]. exists i. by apply lookup_app_l_Some.
Qed.

(** A change of the names alone. *)
Lemma map_path_ok c (f : watch → watch) :
  (∀ w, wd (f w) = wd w) → (∀ w, slot_ok w → slot_ok (f w)) → cache_ok c →
  cache_ok (map f c) ∧ ∀ d p, cached (map f c) d p ↔ ∃ q, cached c d q ∧ path (f (Watch d q)) = p.
Proof.
  intros Hw Hs Hc. split; [split|].
  - apply Forall_map. eapply Forall_impl; [apply Hc|]. cbn. auto.
  - intros i j w w' Hi Hj E H. rewrite list_lookup_fmap_Some in Hi, Hj.
    destruct Hi as (x & -> & Hi), Hj as (y & -> & Hj). rewrite !Hw in *. by eapply (slots_once c Hc).
  - intros d p. rewrite cached_lookup. setoid_rewrite list_lookup_fmap_Some. split.
    + intros (Hd & i & [d' q] & E & Hi). pose proof (Hw (Watch d' q)) as E'. rewrite <- E in E'. cbn in E'. subst d'.
      exists q. rewrite <- E. split; [|done]. rewrite cached_lookup. eauto.
    + intros (q & [Hd [i Hi]]%cached_lookup & <-). split; [done|]. exists i, (Watch d q). split; [|done].
      pose proof (Hw (Watch d q)) as E. cbn in E. destruct (f (Watch d q)). cbn in *. by subst.
Qed.

(** Counting the roots that are no longer monitored. *)
Definition zapped (roots : list (option pathname)) : Z := zlen (List.filter (λ o, bool_decide (o = None)) roots).

Lemma zapped_insert roots i p : roots !! i = Some (Some p) → zapped (<[i := None]> roots) = zapped roots + 1.
Proof.
  unfold zapped. revert i. induction roots as [|o roots IH]; intros [|i] H; cbn in *; simplify_eq.
  - cbn. rewrite zlen_cons. lia.
  - destruct (bool_decide (o = None)); rewrite ?zlen_cons, IH by done; lia.
Qed.

Lemma zapped_le roots : 0 <= zapped roots <= zlen roots.
Proof.
  unfold zapped, zlen. pose proof (List.filter_length_le (λ o : option pathname, bool_decide (o = None)) roots). lia.
Qed.

(** ** What every run keeps *)

Section invariant.
Context {K : Type} `{!Kernel K}.

(** The invariant of the program, whatever the kernel answers. *)
Record inv (s : state K) : Prop := Inv {
  inv_cache : cache_ok (wlCache s);
  inv_roots : ignoreRootDirs s = zapped (rootDirPaths s) }.

(** [hoare P m Q]: from [P], [m] returns with [Q], or ends the process for a reason other
    than an index outside the cache, with the invariant. *)
Definition hoare {A} (P : state K → Prop) (m : M (state K) fault A) (Q : A → state K → Prop) : Prop :=
  ∀ s, P s → match m s with
             | (s', Done a) => Q a s'
             | (s', Fail e) => inv s' ∧ e ≠ BadIndex
             end.
Abbreviation keeps m := (hoare inv m (λ _ s, inv s)).

Lemma hoare_ret {A} (a : A) (Q : A → state K → Prop) : hoare (Q a) (ret a) Q.
Proof. by intros s. Qed.

Lemma hoare_fail {A} e (Q : A → state K → Prop) : e ≠ BadIndex → hoare inv (fail e) Q.
Proof. by intros ? s. Qed.

Lemma hoare_bind {A B} (m : M (state K) fault A) (k : A → M (state K) fault B) P Q R :
  hoare P m R → (∀ a, hoare (R a) (k a) Q) → hoare P (bind m k) Q.
Proof.
  intros Hm Hk s Hs. specialize (Hm s Hs). unfold bind. destruct (m s) as [s' [a|e]]; [|done]. by apply Hk.
Qed.

Lemma hoare_get {A} (P : state K → Prop) (k : state K → M (state K) fault A) (Q : A → state K → Prop) :
  (∀ s, P s → hoare (λ s', s' = s) (k s) Q) → hoare P (bind get k) Q.
Proof. intros H s Hs. by apply (H s Hs s). Qed.

Lemma hoare_gets {A} (f : state K → A) (P : state K → Prop) : hoare P (gets f) (λ a s, P s ∧ a = f s).
Proof. by intros s Hs. Qed.

Lemma hoare_modify (f : state K → state K) (Q : state K → Prop) : hoare (λ s, Q (f s)) (modify f) (λ _ s, Q s).
Proof. by intros s Hs. Qed.

Lemma hoare_weaken {A} (m : M (state K) fault A) (P P' : state K → Prop) (Q Q' : A → state K → Prop) :
  hoare P m Q → (∀ s, P' s → P s) → (∀ a s, Q a s → Q' a s) → hoare P' m Q'.
Proof. intros H HP HQ s Hs. specialize (H s (HP s Hs)). destruct (m s) as [s' [a|e]]; auto. Qed.

Lemma hoare_if {A} (b : bool) (m m' : M (state K) fault A) P Q :
  hoare P m Q → hoare P m' Q → hoare P (if b then m else m') Q.
Proof. by destruct b. Qed.

Lemma keeps_bind {A B} (m : M (state K) fault A) (k : A → M (state K) fault B) :
  keeps m → (∀ a, keeps (k a)) → keeps (bind m k).
Proof. apply hoare_bind. Qed.

Lemma keeps_get {B} (k : state K → M (state K) fault B) : (∀ s, keeps (k s)) → keeps (bind get k).
Proof. intros H s Hs. by apply (H s s). Qed.

Lemma keeps_gets {A} (f : state K → A) : keeps (gets f).
Proof. by intros s Hs. Qed.

Lemma keeps_ret {A} (a : A) : keeps (ret a : M (state K) fault A).
Proof. by intros s Hs. Qed.

Lemma keeps_fail {A} e : e ≠ BadIndex → keeps (fail e : M (state K) fault A).
Proof. by intros ? s Hs. Qed.

Lemma keeps_modify f : (∀ s, wlCache (f s) = wlCache s) → (∀ s, rootDirPaths (f s) = rootDirPaths s) →
  (∀ s, ignoreRootDirs (f s) = ignoreRootDirs s) → keeps (modify f).
Proof. intros E1 E2 E3 s [H1 H2]. cbn. split; [by rewrite E1|by rewrite E2, E3]. Qed.

Lemma syscall_run {A} (f : K → K * A) s : syscall f s = (set_kern (f (kern s)).1 s, Done (f (kern s)).2).
Proof. unfold syscall. by destruct (f (kern s)). Qed.

Lemma keeps_syscall {A} (f : K → K * A) : keeps (syscall f).
Proof. intros s [H1 H2]. rewrite syscall_run. by split. Qed.

(** An index of the cache. *)
Definition in_cache (j : Z) (s : state K) : Prop := inv s ∧ 0 <= j < zlen (wlCache s).

Lemma slot_run j s : in_cache j s → ∃ w, slot j s = (s, Done w) ∧ wlCache s !! Z.to_nat j = Some w.
Proof.
  intros [_ Hj]. unfold slot, bind, get. replace (j <? 0) with false by lia.
  destruct (lookup_lt_is_Some_2 (wlCache s) (Z.to_nat j)) as [w Hw]; [unfold zlen in Hj; lia|].
  exists w. by rewrite Hw.
Qed.

Lemma hoare_slot j : hoare (in_cache j) (slot j) (λ w s, in_cache j s ∧ wlCache s !! Z.to_nat j = Some w).
Proof. intros s Hs. destruct (slot_run j s Hs) as (w & -> & Hw). done. Qed.

Lemma mark_run j s : in_cache j s →
  markCacheSlotEmpty j s = (set_wlCache (<[Z.to_nat j := free_slot]> (wlCache s)) s, Done tt).
Proof. intros Hs. destruct (slot_run j s Hs) as (w & E & _). unfold markCacheSlotEmpty, set_slot, bind. by rewrite E. Qed.

Lemma hoare_mark j : hoare (in_cache j) (markCacheSlotEmpty j) (λ _ s, inv s).
Proof.
  intros s Hs. rewrite (mark_run j s Hs). destruct (slot_run j s Hs) as (w & _ & Hw). destruct Hs as [[H1 H2] _].
  split; [|done]. by destruct (clear_slot_ok _ _ _ H1 Hw).
Qed.

Lemma hoare_findWatchChecked d : hoare inv (findWatchChecked d) (λ j s, inv s ∧ (j = -1 ∨ in_cache j s)).
Proof.
  intros s Hs. unfold findWatchChecked, findWatch, bind, gets, get.
  destruct (find_from_spec (λ w, wd w =? d) (wlCache s) 0 ltac:(lia)) as [[-> _]|(i & w & Hi & _ & ->)].
  - change (0 <=? -1) with false. cbv beta iota. destruct (abortOnCacheProblem s); [|cbn; auto].
    unfold createStopFileAndAbort, dumpCacheToLog, bind, get. cbv beta iota. destruct (logfp s); by split.
  - apply lookup_lt_Some in Hi. replace (0 <=? 0 + Z.of_nat i) with true by lia. cbn. split; [done|]. right.
    split; [done|]. unfold zlen. lia.
Qed.

Lemma findWatchChecked_state d (s s' : state K) j : findWatchChecked d s = (s', Done j) → s' = s.
Proof.
  unfold findWatchChecked, findWatch. rewrite bind_gets. destruct (0 <=? _); [by injection 1|]. rewrite bind_get.
  destruct (abortOnCacheProblem s); [|by injection 1].
  unfold createStopFileAndAbort, dumpCacheToLog, bind, get. cbv beta iota. by destruct (logfp s).
Qed.

(** [findEmptyCacheSlot] returns a free slot and changes no watch. *)
Lemma findEmpty_run s : inv s → ∃ i c, findEmptyCacheSlot s = (set_wlCache c s, Done (Z.of_nat i)) ∧
  cache_ok c ∧ c !! i = Some free_slot ∧ ∀ d p, cached c d p ↔ cached (wlCache s) d p.
Proof.
  intros [Hc _]. unfold findEmptyCacheSlot, bind, get, modify, ret.
  destruct (find_from_spec (λ w, wd w =? -1) (wlCache s) 0 ltac:(lia)) as [[-> _]|(i & w & Hi & Hw & ->)].
  - change (0 <=? -1) with false. cbv beta iota. destruct (grow_ok _ ALLOC_INCR Hc) as [H1 H2]. eexists _, _. split; [done|]. split; [exact H1|]. split; [|exact H2].
    rewrite lookup_app_r, Nat.sub_diag by done. done.
  - apply Z.eqb_eq in Hw. rewrite (proj2 (Z.leb_le 0 (0 + Z.of_nat i))) by (clear; lia). exists i, (wlCache s). split; [by destruct s|]. split_and!; [done| |done].
    rewrite Hi. f_equal. apply slot_free; [|lia]. by eapply (Forall_lookup_1 _ _ _ _ (slots_ok _ Hc)).
Qed.

(** [addWatchToCache] stores a watch that is not cached yet, if its name fits. *)
Lemma addWatch_run s d p : inv s → 0 <= d → (∀ q, ¬ cached (wlCache s) d q) → zlen p < PATH_MAX →
  ∃ j c, addWatchToCache d p s = (set_wlCache c s, Done j) ∧ cache_ok c ∧
    ∀ d' p', cached c d' p' ↔ cached (wlCache s) d' p' ∨ (d' = d ∧ p' = p).
Proof.
  intros Hs Hd Hn Hp. destruct (findEmpty_run s Hs) as (i & c & E & Hc & Hi & Hcc).
  unfold addWatchToCache. rewrite (bind_done _ _ _ _ _ E). replace (PATH_MAX <=? zlen p) with false by lia.
  destruct (store_ok c i d p Hc Hi Hd Hp) as [H1 H2]; [intros q; rewrite Hcc; apply Hn|].
  pose proof (Nat2Z.is_nonneg i). exists (Z.of_nat i), (<[i := Watch d p]> c). split_and!; [|done|].
  - unfold set_slot, slot, bind, get, modify, ret. replace (Z.of_nat i <? 0) with false by lia.
    rewrite Nat2Z.id. cbn [wlCache set_wlCache]. by rewrite Hi.
  - intros d' p'. by rewrite H2, Hcc.
Qed.

Lemma hoare_addWatch d p : 0 <= d →
  hoare (λ s, inv s ∧ ∀ q, ¬ cached (wlCache s) d q) (addWatchToCache d p) (λ _ s, inv s).
Proof.
  intros Hd s [Hs Hn]. destruct (Z.lt_ge_cases (zlen p) PATH_MAX) as [Hp|Hp].
  - destruct (addWatch_run s d p Hs Hd Hn Hp) as (j & c & -> & Hc & _). split; [done|apply Hs].
  - destruct (findEmpty_run s Hs) as (i & c & E & Hc & _). unfold addWatchToCache. rewrite (bind_done _ _ _ _ _ E).
    replace (PATH_MAX <=? zlen p) with true by lia. cbn. split; [|done]. split; [done|apply Hs].
Qed.
End invariant.
Abbreviation keeps m := (hoare inv m (λ _ s, inv s)).

(** ** The operations keep the invariant *)

(** One step through a program whose parts keep the invariant; [call] deals with the
    functions it calls. *)
Ltac keep_step call :=
  lazymatch goal with
  | |- ∀ _, _ => intro
  | |- hoare _ (ret _) _ => apply keeps_ret
  | |- hoare _ (gets _) _ => apply keeps_gets
  | |- hoare _ (syscall _) _ => apply keeps_syscall
  | |- hoare _ (fail _) _ => apply keeps_fail; discriminate
  | |- hoare _ (modify _) _ => apply keeps_modify; intros; reflexivity
  | |- hoare _ (bind get _) _ => apply keeps_get
  | |- hoare _ (bind _ _) _ => apply keeps_bind
  | |- hoare _ (match ?x with _ => _ end) _ => destruct x
  | |- _ => call
  end.

Section keeps.
Context {K : Type} `{!Kernel K}.
#[local] Abbreviation keeps m := (hoare (inv (K:=K)) m (λ _ s, inv s)).
(** Watch descriptors are not negative. *)
Hypothesis wd_nonneg : ∀ k fd p f k' d, inotify_add_watch k fd p f = (k', inl d) → 0 <= d.

Ltac keep := repeat keep_step assumption.

Lemma keeps_dump : keeps dumpCacheToLog.
Proof. unfold dumpCacheToLog. keep. Qed.

Lemma keeps_check : keeps checkCacheConsistency.
Proof. unfold checkCacheConsistency. keep. Qed.

Lemma keeps_isRoot p : keeps (isRootDirPath p).
Proof. unfold isRootDirPath, findRootDirPath. keep. Qed.

Lemma keeps_pathnameInCache p : keeps (pathnameInCache p).
Proof. unfold pathnameInCache, pathnameToCacheSlot. keep. Qed.

(** [zapRootDirPath] leaves the cache alone. *)
Lemma hoare_zapRoot p c :
  hoare (λ s : state K, inv s ∧ wlCache s = c) (zapRootDirPath p) (λ _ s, inv s ∧ wlCache s = c).
Proof.
  intros s [Hs <-]. unfold zapRootDirPath, findRootDirPath, bind, gets, get, modify.
  destruct (find_from_spec (λ o, bool_decide (o = Some p)) (rootDirPaths s) 0 ltac:(lia)) as [[-> _]|(i & o & Hi & Ho & ->)].
  - change (-1 <? 0) with true. cbn. by split.
  - rewrite (proj2 (Z.ltb_ge (0 + Z.of_nat i) 0)) by (clear; lia). cbv beta iota. rewrite Z.add_0_l, Nat2Z.id.
    apply bool_decide_eq_true in Ho as ->. destruct Hs as [H1 H2].
    assert (inv (set_roots (<[i := None]> (rootDirPaths s)) (ignoreRootDirs s + 1) s)).
    { split; [done|]. cbn. by rewrite (zapped_insert _ _ p), H2. }
    destruct (_ =? _); cbn; by split.
Qed.

Lemma keeps_traverseTree fd p b : keeps (traverseTree fd p b).
Proof.
  unfold traverseTree. apply hoare_if; [keep|]. apply keeps_bind; [apply keeps_isRoot|]. intros root.
  intros s Hs. unfold bind at 1. rewrite syscall_run. cbv beta iota.
  destruct (inotify_add_watch _ _ _ _) as [k' [d|e]] eqn:E; [|cbn; destruct (e =? ENOENT); cbn; [split; apply Hs|split; [split; apply Hs|done]]].
  apply wd_nonneg in E. cbn [snd fst]. set (s1 := set_kern k' s). assert (inv s1) as Hs1 by (split; apply Hs).
  destruct (findWatch_spec (wlCache s1) d E) as [[Ef Hn]|(i & w & _ & _ & _ & Ef)]; unfold findWatch; rewrite bind_gets, Ef.
  - change (0 <=? -1) with false. cbv iota. rewrite bind_modify.
    pose proof (hoare_addWatch d p E (set_dirCnt (dirCnt s1 + 1) s1)) as H. cbn beta in H. unfold bind.
    destruct (addWatchToCache d p _) as [s2 [j|e]]; apply H; split; done || (split; apply Hs).
  - rewrite (proj2 (Z.leb_le 0 (Z.of_nat i))) by (clear; lia). done.
Qed.

Lemma keeps_traverse_all fd vs : keeps (traverse_all fd vs).
Proof.
  induction vs as [|[p b] vs IH]; cbn [traverse_all]; keep. apply keeps_traverseTree.
Qed.

Lemma keeps_watchSubtree fd p : keeps (watchSubtree fd p).
Proof. unfold watchSubtree, watchDir. keep. apply keeps_traverse_all. Qed.

Lemma keeps_watch_roots fd rs : keeps (watch_roots fd rs).
Proof. induction rs as [|[p|] rs IH]; cbn [watch_roots]; keep. apply keeps_watchSubtree. Qed.

Lemma keeps_freeCache : keeps (freeCache : M (state K) fault unit).
Proof. intros s Hs. split; [apply cache_ok_nil|apply Hs]. Qed.

Lemma keeps_reinitialize fd : keeps (reinitialize fd).
Proof. unfold reinitialize. keep; [apply keeps_freeCache|apply keeps_watch_roots]. Qed.

Lemma rewrite_entry_ok f n w : slot_ok w → f ≠ [] → slot_ok (rewrite_entry f n w).
Proof.
  intros Hw Hf. unfold rewrite_entry. destruct (under f (path w)) eqn:E; [|done].
  destruct Hw as [[_ Hp]|[Hd _]].
  - exfalso. unfold under in E. rewrite Hp, take_nil in E. apply andb_prop in E as [E _].
    apply bool_decide_eq_true in E. by subst.
  - right. split; [done|]. cbn. unfold path_buffer, ztake, zlen. rewrite length_take. unfold PATH_MAX. lia.
Qed.

Lemma join_nonempty p n : join p n ≠ [].
Proof.
  unfold join, path_buffer, ztake, PATH_MAX. intros E%(f_equal length). rewrite length_take, length_app in E. cbn in E. lia.
Qed.

Lemma keeps_rewrite p n q n' : keeps (rewriteCachedPaths p n q n').
Proof.
  intros s [H1 H2]. cbn. split; [|done]. apply map_path_ok; [|intros; by apply rewrite_entry_ok, join_nonempty|done].
  intros w. unfold rewrite_entry. by destruct (under _ _).
Qed.

Lemma zap_loop_keeps n fd p j cnt : 0 <= j →
  hoare (λ s : state K, inv s ∧ j + Z.of_nat n = zlen (wlCache s)) (zap_loop n fd p j cnt) (λ _ s, inv s).
Proof.
  revert j cnt. induction n as [|n IH]; intros j cnt Hj s [Hs Hn]; cbn [zap_loop]; [done|].
  destruct (slot_run j s) as (w & E & Hw); [split; [done|lia]|]. rewrite (bind_done _ _ _ _ _ E).
  destruct (_ && _); [|apply IH; [lia|split; [done|lia]]].
  unfold bind at 1. rewrite syscall_run. cbv beta iota. set (s1 := set_kern _ s).
  destruct (inotify_rm_watch _ _ _) as [k [|]]; cbn [snd fst] in *; [|split; apply Hs].
  assert (in_cache j s1) as H1 by (split; [split; apply Hs|cbn; lia]).
  rewrite (bind_done _ _ _ _ _ (mark_run j s1 H1)). apply IH; [lia|]. split; [|cbn; unfold zlen in *; rewrite length_insert; lia].
  pose proof (hoare_mark j s1 H1) as H2. by rewrite (mark_run j s1 H1) in H2.
Qed.

Lemma keeps_zapSubtree fd p : keeps (zapSubtree fd p).
Proof. intros s Hs. by apply zap_loop_keeps. Qed.
End keeps.

(** ** Events and commands keep the invariant *)

Section events.
Context {K : Type} `{!Kernel K}.
#[local] Abbreviation keeps m := (hoare (inv (K:=K)) m (λ _ s, inv s)).
Hypothesis wd_nonneg : ∀ k fd p f k' d, inotify_add_watch k fd p f = (k', inl d) → 0 <= d.

Ltac keep := repeat keep_step ltac:(first
  [ assumption | apply keeps_dump | apply keeps_check | apply keeps_isRoot | apply keeps_pathnameInCache
  | apply keeps_zapSubtree | apply keeps_rewrite
  | apply keeps_watchSubtree; assumption | apply keeps_reinitialize; assumption ]).

(** The slot of an event, if it has one. *)
Definition valid_slot (o : option Z) (s : state K) : Prop :=
  inv s ∧ match o with Some j => in_cache j s | None => True end.

Lemma valid_inv o s : valid_slot o s → inv s.
Proof. by intros []. Qed.

Lemma hoare_slot_path o : hoare (valid_slot o) (slot_path o) (λ _ s, valid_slot o s).
Proof.
  destruct o as [j|]; [|by intros s [? _]]. intros s [Hs Hj]. cbn.
  destruct (slot_run j s Hj) as (w & E & _). by rewrite (bind_done _ _ _ _ _ E).
Qed.

Lemma hoare_empty_slot o : hoare (valid_slot o) (empty_slot o) (λ _ s, inv s).
Proof. destruct o as [j|]; [|by intros s [? _]]. intros s [Hs Hj]. by apply hoare_mark. Qed.

Lemma hoare_isRoot o p : hoare (valid_slot o) (isRootDirPath p) (λ _ s, valid_slot o s).
Proof. by intros s Hs. Qed.

Lemma hoare_zapRoot_slot o p : hoare (valid_slot o) (zapRootDirPath p) (λ _ s, valid_slot o s).
Proof.
  intros s [Hs Ho]. pose proof (hoare_zapRoot p (wlCache s) s (conj Hs eq_refl)) as H.
  destruct (zapRootDirPath p s) as [s' [a|e]]; [|done]. destruct H as [H1 H2]. split; [done|].
  destruct o; [|done]. split; [done|]. rewrite H2. apply Ho.
Qed.

Lemma keeps_finish fd n : keeps (finish fd n).
Proof. unfold finish. keep. Qed.

Lemma keeps_rebuild fd : keeps (rebuild fd).
Proof. unfold rebuild. keep. Qed.

(** From here on only the invariant is used. *)
Lemma then_keeps {A} o (m : M (state K) fault A) : keeps m → hoare (valid_slot o) m (λ _ s, inv s).
Proof. intros H. eapply hoare_weaken; [exact H|apply valid_inv|done]. Qed.

Lemma keeps_moved_from fd ev rest n ft o :
  hoare (valid_slot o) (moved_from fd ev rest n ft o) (λ _ s, inv s).
Proof.
  unfold moved_from. eapply hoare_bind with (R := λ _ s, valid_slot o s).
  { apply hoare_if; [|by intros s]. destruct rest; [by intros s []|by intros s]. }
  intros [nx|].
  - eapply hoare_bind with (R := λ j s, valid_slot o s ∧ (j = -1 ∨ in_cache j s)).
    { intros s [Hs Ho]. pose proof (hoare_findWatchChecked (ev_wd nx) s Hs) as H.
      destruct (findWatchChecked _ s) as [s' [j|e]] eqn:E; [|done]. destruct H as [H1 H2].
      apply findWatchChecked_state in E as ->. by split. }
    intros j. destruct (Z.eqb_spec j (-1)) as [->|Hj].
    + eapply hoare_weaken; [apply keeps_rebuild|by intros s [[? _] _]|done].
    + eapply hoare_bind with (R := λ _ s, valid_slot (Some j) s).
      { intros s [Hs [?|Hc]]; [done|]. destruct o as [i|]; [|by split; [apply Hs|]].
        destruct (slot_run i s (proj2 Hs)) as (w & E & _). cbn [slot_path]. rewrite (bind_done _ _ _ _ _ E). by split; [apply Hs|]. }
      intros p. eapply hoare_bind; [apply hoare_slot_path|]. intros q. apply then_keeps. keep. apply keeps_finish.
  - apply hoare_if; [|by intros s []].
    eapply hoare_bind; [apply hoare_slot_path|]. intros p. apply then_keeps. keep; [apply keeps_rebuild|apply keeps_finish].
Qed.

Lemma keeps_processNext fd buf n ft : keeps (processNextInotifyEvent fd buf n ft).
Proof.
  unfold processNextInotifyEvent. destruct buf as [|ev rest]; [keep|].
  eapply hoare_bind with (R := λ o s, inv s ∧ (o = Some (-1) ∨ valid_slot o s)).
  { apply hoare_if; [|intros s Hs; split; [done|by right]].
    eapply hoare_bind; [apply hoare_findWatchChecked|]. intros j s [Hs [->|Hj]]; cbn; split; auto. right. by split. }
  intros o. destruct (bool_decide_reflect (o = Some (-1))) as [->|Ho].
  { eapply hoare_weaken; [apply keeps_rebuild|by intros s []|done]. }
  eapply hoare_weaken with (P := valid_slot o) (Q := λ _ s, inv s); [|by intros s [_ [?|?]]|done].
  apply hoare_if.
  { eapply hoare_bind; [apply hoare_slot_path|]. intros p. apply then_keeps. keep. apply keeps_finish. }
  apply hoare_if.
  { eapply hoare_bind; [apply hoare_slot_path|]. intros p. eapply hoare_bind; [apply hoare_isRoot|]. intros root.
    eapply hoare_bind with (R := λ _, valid_slot o); [apply hoare_if; [apply hoare_zapRoot_slot|by intros s]|]. intros ?; cbn beta.
    eapply hoare_bind; [apply hoare_empty_slot|]. intros ?; cbn beta. apply keeps_finish. }
  apply hoare_if; [apply keeps_moved_from|].
  apply hoare_if; [apply then_keeps; keep; apply keeps_finish|].
  apply hoare_if.
  { eapply hoare_bind; [apply hoare_empty_slot|]. intros ?; cbn beta. apply keeps_finish. }
  eapply hoare_bind with (R := λ _, valid_slot o).
  { apply hoare_if; [|by intros s]. eapply hoare_bind; [apply hoare_slot_path|]. intros p. apply hoare_isRoot. }
  intros root. apply hoare_if; [|apply then_keeps, keeps_finish].
  eapply hoare_bind; [apply hoare_slot_path|]. intros p. eapply hoare_bind; [apply hoare_zapRoot_slot|]. intros ?; cbn beta.
  apply then_keeps. keep; [apply keeps_rebuild|apply keeps_finish].
Qed.

Lemma keeps_events_loop fuel fd evs left ft : keeps (events_loop fuel fd evs left ft).
Proof.
  revert fd evs left ft. induction fuel as [|fuel IH]; intros fd evs left ft; cbn [events_loop]; keep;
    first [apply keeps_processNext|apply IH].
Qed.

Lemma keeps_processInotifyEvents fuel fd : keeps (processInotifyEvents fuel fd).
Proof.
  unfold processInotifyEvents. keep. apply keeps_events_loop.
Qed.

Lemma keeps_executeCommand fd line : keeps (executeCommand fd line).
Proof.
  unfold executeCommand. destruct line as [|c line]; [keep|]. destruct (cstr _) as [|cmd l]; [keep|]. cbn zeta. keep.
Qed.

Lemma keeps_main_loop fuel fd rs : keeps (main_loop fuel fd rs).
Proof.
  revert fd. induction rs as [|r rs IH]; intros fd; cbn [main_loop]; unfold main_round; keep;
    [apply keeps_executeCommand|apply keeps_processInotifyEvents|apply IH].
Qed.

Lemma copy_roots_zapped (k : K) argv seen roots : copy_roots k argv seen = Some roots → zapped roots = 0.
Proof.
  revert seen roots. induction argv as [|p argv IH]; intros seen roots H; cbn in H; [by simplify_eq|].
  destruct (lstat k p); [|done]. cbn in H. destruct (existsb _ _); [done|].
  destruct (copy_roots k argv _) as [rest|] eqn:E; [|done]. cbn in H. simplify_eq. by apply IH in E.
Qed.

Lemma keeps_start argv : keeps (start argv).
Proof.
  unfold start. apply keeps_bind; [|intros _; by apply keeps_reinitialize].
  intros s Hs. unfold copyRootDirPaths, bind, get. destruct (check_args _ _); cbn; [|by split].
  destruct (copy_roots _ _ _) as [roots|] eqn:E; cbn; [|by split]. split; [apply Hs|]. cbn. symmetry. by eapply copy_roots_zapped.
Qed.
End events.
