(* ===== verification/DtreeProps.v ===== *)
(** Properties of the directory tree monitor: the invariant of its cache under any events,
    and that the cache agrees with the file system once the events of a change are
    processed. *)

From stdpp Require Import base tactics numbers list gmap strings.
From Stdlib Require Import ZArith Lia.
From S2P Require Import Prelude Cio Dtree DtreeThms.

(** ** Paths *)

Lemma under_spec p q : under p q = true ↔ ∃ r, q = p ++ r ∧ (r = [] ∨ ∃ r', r = SLASH :: r').
Proof.
  unfold under. rewrite andb_true_iff, bool_decide_eq_true. split.
  - intros [E H]. exists (drop (length p) q). split; [by rewrite <- E at 1; rewrite take_drop|].
    destruct (drop (length p) q) as [|c r]; [by left|]. apply Z.eqb_eq in H as ->. eauto.
  - intros (r & -> & H). rewrite take_app_length, drop_app_length. split; [done|].
    destruct H as [->|[r' ->]]; [done|apply Z.eqb_refl].
Qed.

Lemma under_refl p : under p p = true.
Proof. apply under_spec. exists []. rewrite app_nil_r. auto. Qed.

Lemma under_trans p q r : under p q = true → under q r = true → under p r = true.
Proof.
  rewrite !under_spec. intros (a & -> & Ha) (b & -> & Hb). exists (a ++ b). rewrite <- app_assoc. split; [done|].
  destruct Ha as [->|[a' ->]]; [by destruct Hb as [->|[b' ->]]; eauto|eauto].
Qed.

(** The name of an entry of a directory, if it fits into a buffer. *)
Definition fits (p n : pathname) : Prop := zlen p + 1 + zlen n < PATH_MAX.

Lemma path_buffer_id l : zlen l < PATH_MAX → path_buffer l = l.
Proof. intros. unfold path_buffer. apply ztake_all. lia. Qed.

Lemma join_eq p n : fits p n → join p n = p ++ SLASH :: n.
Proof. intros. unfold join. apply path_buffer_id. unfold fits in *. rewrite zlen_app, zlen_cons. lia. Qed.

Lemma under_join p n : fits p n → under p (join p n) = true.
Proof. intros. rewrite join_eq by done. apply under_spec. eauto. Qed.

(** Where a path is after the directory [old] is renamed to [new]. *)
Definition renamed (old new q : pathname) : pathname :=
  if under old q then new ++ drop (length old) q else q.

Lemma under_renamed old new q : under old q = true → under new (renamed old new q) = true.
Proof.
  intros H. unfold renamed. rewrite H. apply under_spec in H as (r & -> & Hr). rewrite drop_app_length.
  apply under_spec. eauto.
Qed.

(** ** The file system *)

Definition monitored (roots : list (option pathname)) (p : pathname) : Prop :=
  ∃ r, Some r ∈ roots ∧ under r p = true.

Lemma monitored_under roots p q : monitored roots p → under p q = true → monitored roots q.
Proof. intros (r & Hr & H) Hq. exists r. split; [done|]. by eapply under_trans. Qed.

(** A directory has one name, and names fit into buffers of [PATH_MAX] bytes. *)
Record tree_ok (D : gmap pathname Z) : Prop := TreeOk {
  tree_inj p q i : D !! p = Some i → D !! q = Some i → p = q;
  tree_fits p i : D !! p = Some i → zlen p < PATH_MAX }.

(** What the documentation of the system calls says, for a tree of directories that does
    not change during the calls: [dirs] maps the directories to their inodes, [watches] the
    watch descriptors of a descriptor to the inodes they watch. *)
Class FsKernel (K : Type) `{!Kernel K} := {
  dirs : K → gmap pathname Z;
  watches : K → Z → gmap Z Z;
  law_init k : ∃ k' fd, inotify_init k = (k', fd) ∧ 0 <= fd ∧ dirs k' = dirs k ∧ watches k' fd = ∅;
  law_close k fd : dirs (inotify_close k fd) = dirs k;
  (** a second watch of the same directory has the descriptor of the first *)
  law_add k fd p f i : dirs k !! p = Some i →
    ∃ k' d, inotify_add_watch k fd p f = (k', inl d) ∧ 0 <= d ∧ dirs k' = dirs k ∧
      watches k' fd = <[d := i]> (watches k fd) ∧
      (∀ d' i', watches k fd !! d' = Some i' → d' = d ↔ i' = i);
  law_rm k fd d i : watches k fd !! d = Some i →
    ∃ k', inotify_rm_watch k fd d = (k', true) ∧ dirs k' = dirs k ∧ watches k' fd = delete d (watches k fd);
  law_nftw k p q : (q, true) ∈ nftw k p ↔ under p q = true ∧ is_Some (dirs k !! q);
  law_lstat k p i : dirs k !! p = Some i → ∃ sb, lstat k p = Some sb ∧ is_dir sb = true }.

Section sync.
Context {K : Type} `{!Kernel K, !FsKernel K}.
Implicit Types s : state K.

(** What the functions that change the cache leave alone. *)
Record same s s' : Prop := Same {
  same_dirs : dirs (kern s') = dirs (kern s);
  same_roots : rootDirPaths s' = rootDirPaths s;
  same_check : checkCache s' = checkCache s;
  same_dump : dumpCache s' = dumpCache s;
  same_log : logfp s' = logfp s }.

Lemma same_refl s : same s s.
Proof. by split. Qed.
Lemma same_trans s s' s'' : same s s' → same s' s'' → same s s''.
Proof. intros [] []. split; congruence. Qed.

(** Every cached path names the directory that its descriptor watches, in a monitored tree. *)
Record sound (fd : Z) s : Prop := Sound {
  so_inv : inv s;
  so_tree : tree_ok (dirs (kern s));
  so_once d d' i : watches (kern s) fd !! d = Some i → watches (kern s) fd !! d' = Some i → d = d';
  so_cached d p : cached (wlCache s) d p → ∃ i, watches (kern s) fd !! d = Some i ∧
    dirs (kern s) !! p = Some i ∧ monitored (rootDirPaths s) p }.

(** The cache and the file system agree: the cache is sound, and no directory of the
    monitored trees is missing. *)
Definition synced (fd : Z) s : Prop :=
  sound fd s ∧ ∀ p, is_Some (dirs (kern s) !! p) → monitored (rootDirPaths s) p → ∃ d, cached (wlCache s) d p.

(** Dumps of the cache need a log file. *)
Definition modes_ok s : Prop := dumpCache s = true → logfp s = true.

Lemma same_modes s s' : same s s' → modes_ok s → modes_ok s'.
Proof. unfold modes_ok. by intros [_ _ _ -> ->]. Qed.

(** [traverseTree] on a directory of a monitored tree. *)
Lemma traverseTree_ok fd p s :
  sound fd s → is_Some (dirs (kern s) !! p) → monitored (rootDirPaths s) p →
  wp (traverseTree fd p true) (λ _ s', sound fd s' ∧ same s s' ∧ (∃ d, cached (wlCache s') d p) ∧
    ∀ d q, cached (wlCache s) d q → cached (wlCache s') d q) s.
Proof.
  intros [Hi Ht Ho Hc] [i Hp] Hm. unfold traverseTree. cbn [negb]. unfold isRootDirPath, findRootDirPath.
  wp_step. wp_step. cbn beta. set (f := Z.lor _ _).
  destruct (law_add (kern s) fd p f i Hp) as (k & d & E & Hd & HD & HW & Hnew).
  apply wp_bind. eapply wp_run; [rewrite syscall_run, E; reflexivity|]. cbn [fst snd].
  set (s1 := set_kern k s). assert (∀ d' q, cached (wlCache s) d' q → ∃ i', watches k fd !! d' = Some i' ∧
    dirs k !! q = Some i' ∧ monitored (rootDirPaths s) q) as Hc1.
  { intros d' q Hq. destruct (Hc d' q Hq) as (i' & Hw & Hq' & ?). exists i'. rewrite HD, HW. split_and!; [|done..].
    destruct (decide (d' = d)) as [->|Hne]; [|by rewrite lookup_insert_ne by done].
    rewrite lookup_insert_eq. f_equal. symmetry. by apply (Hnew d i' Hw). }
  assert (∀ d1 d2 i', watches k fd !! d1 = Some i' → watches k fd !! d2 = Some i' → d1 = d2) as Ho1.
  { intros d1 d2 i'. rewrite HW, !lookup_insert_Some. intros [[<- <-]|[? H1]] [[<- ?]|[? H2]]; [done| | |by eapply Ho].
    - by apply Hnew in H2; symmetry; apply H2.
    - subst i'. by apply (Hnew _ _ H1). }
  destruct (findWatch_spec (wlCache s1) d Hd) as [[Ef Hn]|(j & w & _ & _ & Hw & Ef)]; unfold findWatch; wp_step; rewrite Ef.
  - change (0 <=? -1) with false. cbv iota. wp_step. set (s2 := set_dirCnt _ s1).
    destruct (addWatch_run s2 d p) as (j & c & Ea & Hc' & Hcc); [split; apply Hi|done|exact Hn|by eapply tree_fits|].
    apply wp_bind. eapply wp_run; [exact Ea|]. apply wp_ret. split_and!.
    + split; [split; [done|apply Hi]|cbn; by rewrite HD|exact Ho1|]. cbn. intros d' q. rewrite Hcc. intros [H|[-> ->]]; [by apply Hc1|].
      exists i. by rewrite HW, lookup_insert_eq, HD.
    + by split.
    + exists d. apply Hcc. auto.
    + intros d' q H. apply Hcc. by left.
  - rewrite (proj2 (Z.leb_le 0 (Z.of_nat j))) by (clear; lia). apply wp_ret. split_and!; [|by split| |done].
    + split; [split; apply Hi|cbn; by rewrite HD|exact Ho1|exact Hc1].
    + exists d. destruct (Hc1 d (path w) Hw) as (i' & Hd' & Hq & _). rewrite HW, lookup_insert_eq in Hd'. rewrite HD in Hq. simplify_eq.
      by rewrite <- (tree_inj _ Ht _ _ _ Hq Hp).
Qed.

(** After a walk over directories of monitored trees all of them are cached. *)
Definition walked fd (ps : pathname → Prop) s s' : Prop :=
  sound fd s' ∧ same s s' ∧ (∀ d q, cached (wlCache s) d q → cached (wlCache s') d q) ∧
  ∀ q, ps q → ∃ d, cached (wlCache s') d q.

Lemma walked_trans fd ps ps' s s' s'' : walked fd ps s s' → walked fd ps' s' s'' → walked fd (λ q, ps q ∨ ps' q) s s''.
Proof.
  intros (_ & S1 & C1 & P1) (H2 & S2 & C2 & P2). split; [done|]. split; [by eapply same_trans|]. split; [auto|].
  intros q [Hq|Hq]; [|auto]. destruct (P1 q Hq) as [d Hd]. eauto.
Qed.

Lemma walked_mono fd (ps ps' : pathname → Prop) s s' : (∀ q, ps' q → ps q) → walked fd ps s s' → walked fd ps' s s'.
Proof. intros H (? & ? & ? & P). split_and!; auto. Qed.

Lemma traverse_all_ok fd vs s :
  sound fd s → (∀ q, (q, true) ∈ vs → is_Some (dirs (kern s) !! q) ∧ monitored (rootDirPaths s) q) →
  wp (traverse_all fd vs) (λ _ s', walked fd (λ q, (q, true) ∈ vs) s s') s.
Proof.
  revert s. induction vs as [|[p b] vs IH]; intros s Hs Hv; cbn [traverse_all].
  - apply wp_ret. split_and!; [done|apply same_refl|done|]. by intros q Hq%elem_of_nil.
  - apply wp_bind. destruct b.
    + destruct (Hv p ltac:(left)) as [Hp Hm]. eapply wp_mono; [by apply traverseTree_ok|].
      intros _ s1 (H1 & S1 & [d Hd] & C1). eapply wp_mono.
      { apply IH; [done|]. rewrite (same_dirs _ _ S1), (same_roots _ _ S1). intros q Hq. apply Hv. by right. }
      intros _ s2 (H2 & S2 & C2 & P2). split_and!; [done|by eapply same_trans|auto|].
      intros q [E|Hq]%elem_of_cons; [simplify_eq; eauto|auto].
    + apply wp_ret. eapply wp_mono; [apply IH; [done|]; intros q Hq; apply Hv; by right|].
      cbn. intros _ s2. apply walked_mono. intros q [E|Hq]%elem_of_cons; [done|done].
Qed.

Lemma watchSubtree_ok fd p s :
  sound fd s → monitored (rootDirPaths s) p →
  wp (watchSubtree fd p) (λ _ s', walked fd (λ q, under p q = true ∧ is_Some (dirs (kern s) !! q)) s s') s.
Proof.
  intros Hs Hm. unfold watchSubtree, watchDir. apply wp_bind. wp_step. apply wp_bind, wp_get.
  set (s1 := set_dirCnt 0 s). apply wp_bind. eapply wp_mono.
  - apply traverse_all_ok; [split; [split| | |]; apply Hs|]. intros q [Hu Hq]%law_nftw. split; [done|]. by eapply monitored_under.
  - intros _ s2 (H2 & S2 & C2 & P2). apply wp_gets, wp_ret. split_and!; [done| |done|].
    + by destruct S2.
    + intros q Hq. by apply P2, law_nftw.
Qed.

Lemma watch_roots_ok fd rs s :
  sound fd s → (∀ r, Some r ∈ rs → Some r ∈ rootDirPaths s) →
  wp (watch_roots fd rs) (λ _ s', walked fd (λ q, monitored rs q ∧ is_Some (dirs (kern s) !! q)) s s') s.
Proof.
  revert s. induction rs as [|[r|] rs IH]; intros s Hs Hr; cbn [watch_roots].
  - apply wp_ret. split_and!; [done|apply same_refl|done|]. intros q [(r & Hr' & _) _]. by apply elem_of_nil in Hr'.
  - apply wp_bind. eapply wp_mono; [apply watchSubtree_ok; [done|]; exists r; split; [apply Hr; left|apply under_refl]|].
    intros ? s1 H1. cbn beta in H1. eapply wp_mono.
    { apply IH; [apply H1|]. rewrite (same_roots _ _ (proj1 (proj2 H1))). intros r' Hr'. apply Hr. by right. }
    intros ? s2 H2. cbn beta in H2. eapply walked_mono; [|eapply walked_trans; [exact H1|exact H2]]. cbn.
    rewrite (same_dirs _ _ (proj1 (proj2 H1))). intros q [(r' & [E|Hr']%elem_of_cons & Hu) Hq]; [simplify_eq; auto|].
    right. split; [|done]. by exists r'.
  - eapply wp_mono; [apply IH; [done|]; intros r Hr'; apply Hr; by right|]. intros ? s1. cbn beta. apply walked_mono.
    intros q [(r & [E|Hr']%elem_of_cons & Hu) Hq]; [done|]. split; [|done]. by exists r.
Qed.

(** The rebuilt cache agrees with the file system. *)
Lemma reinitialize_ok fd s :
  inv s → tree_ok (dirs (kern s)) →
  wp (reinitialize fd) (λ fd' s', synced fd' s' ∧ same s s') s.
Proof.
  intros Hi Ht. unfold reinitialize. apply wp_bind.
  assert (wp (if 0 <=? fd
              then syscall (λ k, (inotify_close k fd, tt));;; modify (λ s, set_reinitCnt (reinitCnt s + 1) s)
              else modify (set_reinitCnt 0)) (λ _ s1, same s s1 ∧ inv s1) s) as H.
  { destruct (0 <=? fd); [|wp_step; split; [by split|split; apply Hi]].
    apply wp_bind. eapply wp_run; [rewrite syscall_run; reflexivity|]. wp_step.
    split; [split; [apply law_close|done..]|split; apply Hi]. }
  eapply wp_mono; [exact H|]. clear H. intros _ s1 [S1 I1]. apply wp_bind.
  destruct (law_init (kern s1)) as (k & fd' & E & Hfd & HD & HW).
  eapply wp_run; [rewrite syscall_run, E; reflexivity|]. cbn [fst snd]. replace (fd' =? -1) with false by lia.
  apply wp_bind. wp_step. apply wp_bind, wp_get. set (s2 := set_wlCache [] _).
  assert (same s s2) as S2 by (eapply same_trans; [exact S1|]; by split).
  assert (sound fd' s2) as H2.
  { split; [split; [apply cache_ok_nil|apply I1]|by rewrite (same_dirs _ _ S2)| |]; cbn; [by rewrite HW|]. intros d p [_ H]. by apply elem_of_nil in H. }
  apply wp_bind. eapply wp_mono; [by apply watch_roots_ok|]. intros _ s3 (H3 & S3 & _ & P3). apply wp_ret.
  split; [|by eapply same_trans]. split; [done|]. rewrite (same_dirs _ _ S3), (same_roots _ _ S3). auto.
Qed.

(** ** The end of the processing of an event *)

Lemma verify_ok k c cnt failures :
  (∀ d p, cached c d p → is_Some (dirs k !! p)) → is_Some (verify_loop k c cnt failures).
Proof.
  revert cnt failures. induction c as [|[d p] c IH]; intros cnt failures H; cbn; [done|].
  assert (∀ d p, cached c d p → is_Some (dirs k !! p)) as Hc.
  { intros d' p' [? ?]. apply (H d' p'). split; [done|by right]. }
  destruct (Z.leb_spec 0 d); [|by apply IH]. destruct (H d p) as [i Hi]; [split; [done|left]|].
  destruct (law_lstat k p i Hi) as (sb & -> & ->). by apply IH.
Qed.

Lemma finish_ok fd n s (Q : Z * Z → state K → Prop) : sound fd s → modes_ok s → Q (fd, n) s → wp (finish fd n) Q s.
Proof.
  intros Hs Hm HQ. unfold finish. apply wp_bind, wp_get. apply wp_bind.
  assert (wp checkCacheConsistency (λ _ s', s' = s) s) as Hc.
  { unfold checkCacheConsistency. apply wp_bind, wp_get. edestruct (verify_ok (kern s) (wlCache s) 0 0) as [r ->]; [|by apply wp_ret].
    intros d p (i & _ & ? & _)%(so_cached _ _ Hs). eauto. }
  assert (wp dumpCacheToLog (λ _ s', s' = s) s ∨ dumpCache s = false) as Hd.
  { destruct (dumpCache s) eqn:E; [left|by right]. unfold dumpCacheToLog. apply wp_bind, wp_get. by rewrite (Hm E). }
  eapply wp_mono with (Q := λ _ s', s' = s); [by destruct (checkCache s)|]. intros _ ? ->. apply wp_bind.
  eapply wp_mono with (Q := λ _ s', s' = s); [destruct Hd as [Hd| ->]; [by destruct (dumpCache s)|done]|]. intros _ ? ->. by apply wp_ret.
Qed.

(** ** Removing a subtree *)

Definition hit (p : pathname) (w : watch) : bool := (0 <=? wd w) && under p (path w).
Definition zap_entry (p : pathname) (w : watch) : watch := if hit p w then free_slot else w.

Lemma cached_zap p c d q : cached (map (zap_entry p) c) d q ↔ cached c d q ∧ under p q = false.
Proof.
  unfold cached. rewrite list_elem_of_fmap. split.
  - intros (Hd & [d' q'] & E & H). unfold zap_entry, hit in E. cbn in E. destruct (_ && _) eqn:Eh; [unfold free_slot in E; simplify_eq; lia|].
    simplify_eq. apply andb_false_iff in Eh as [?|?]; [lia|done].
  - intros [[Hd H] Hu]. split; [done|]. exists (Watch d q). split; [|done]. unfold zap_entry, hit. cbn. by rewrite Hu, andb_false_r.
Qed.

Lemma zap_entry_ok p c : cache_ok c → cache_ok (map (zap_entry p) c).
Proof.
  intros Hc. split.
  - apply Forall_map. eapply Forall_impl; [apply Hc|]. cbn. intros w Hw. unfold zap_entry. destruct (hit p w); [by left|done].
  - intros i j w w' Hi Hj E Hw. rewrite list_lookup_fmap_Some in Hi, Hj. destruct Hi as (x & -> & Hi), Hj as (y & -> & Hj).
    unfold zap_entry in *. destruct (hit p x), (hit p y); cbn in *; try lia. by eapply (slots_once c Hc).
Qed.

Lemma zap_loop_ok n fd p l1 l2 cnt s :
  inv s → wlCache s = l1 ++ l2 → n = length l2 → 0 <= cnt →
  (∀ w, w ∈ l2 → hit p w = true → is_Some (watches (kern s) fd !! wd w)) →
  wp (zap_loop n fd p (zlen l1) cnt) (λ r s', 0 <= r ∧ inv s' ∧ same s s' ∧ wlCache s' = l1 ++ map (zap_entry p) l2 ∧
    watches (kern s') fd ⊆ watches (kern s) fd ∧
    ∀ d, (∀ w, w ∈ l2 → hit p w = true → wd w ≠ d) → watches (kern s') fd !! d = watches (kern s) fd !! d) s.
Proof.
  revert l1 l2 cnt s. induction n as [|n IH]; intros l1 l2 cnt s Hi Hl Hn Hcnt Hw; cbn [zap_loop].
  { symmetry in Hn. apply length_zero_iff_nil in Hn as ->. apply wp_ret. by split_and!; [| |apply same_refl|..]. }
  destruct l2 as [|w l2]; [done|]. injection Hn as Hn.
  assert (in_cache (zlen l1) s) as Hj.
  { split; [done|]. rewrite Hl, zlen_app, zlen_cons. pose proof (zlen_nonneg l1). pose proof (zlen_nonneg l2). lia. }
  assert (Z.to_nat (zlen l1) = length l1) as El by (unfold zlen; lia).
  destruct (slot_run _ s Hj) as (w' & E & Hw'). rewrite El, Hl, list_lookup_middle in Hw' by done. injection Hw' as <-.
  apply wp_bind. eapply wp_run; [exact E|]. fold (hit p w).
  assert (∀ x, zlen l1 + 1 = zlen (l1 ++ [x : watch])) as Es by (intros; rewrite zlen_app; done).
  destruct (hit p w) eqn:Eh.
  - destruct (Hw w ltac:(left) Eh) as [i Hwi]. destruct (law_rm _ _ _ _ Hwi) as (k & Er & HD & HW).
    apply wp_bind. eapply wp_run; [rewrite syscall_run, Er; reflexivity|]. cbn [fst snd]. set (s1 := set_kern k s).
    assert (in_cache (zlen l1) s1) as Hj1 by (split; [split; apply Hi|apply Hj]).
    apply wp_bind. eapply wp_run; [exact (mark_run _ s1 Hj1)|]. set (s2 := set_wlCache _ s1).
    assert (∀ x, x ∈ l2 → hit p x = true → wd x ≠ wd w) as Hne.
    { intros x Hx Hh Ex. apply list_elem_of_lookup in Hx as [m Hm]. unfold hit in Eh.
      assert (length l1 = length l1 + S m)%nat; [|lia].
      eapply (slots_once _ (inv_cache _ Hi)); [rewrite Hl; by apply list_lookup_middle| |by rewrite Ex|lia].
      rewrite Hl, lookup_app_r by lia. by replace (length l1 + S m - length l1)%nat with (S m) by lia. }
    rewrite (Es free_slot). eapply wp_mono.
    { apply (IH (l1 ++ [free_slot]) l2 (cnt + 1) s2); [| |done|lia|].
      - pose proof (hoare_mark _ s1 Hj1) as H. by rewrite (mark_run _ s1 Hj1) in H.
      - cbn. rewrite El, Hl, <- app_assoc. by rewrite insert_app_r_alt, Nat.sub_diag by done.
      - intros x Hx Hh. cbn. rewrite HW, lookup_delete_ne by (by apply not_eq_sym, Hne). apply Hw; [by right|done]. }
    intros r s3 (? & ? & S3 & Hc3 & Hsub & Hw3). split_and!; [done|done| | | |].
    + eapply same_trans; [|exact S3]. by split.
    + rewrite Hc3, <- app_assoc. cbn [map app]. by assert (zap_entry p w = free_slot) as -> by (unfold zap_entry; by rewrite Eh).
    + etrans; [exact Hsub|]. cbn. rewrite HW. apply delete_subseteq.
    + intros d Hd. rewrite Hw3 by (intros x Hx; apply Hd; by right). cbn. rewrite HW. apply lookup_delete_ne. apply Hd; [left|done].
  - rewrite (Es w). eapply wp_mono.
    { apply (IH (l1 ++ [w]) l2 cnt s); [done|by rewrite <- app_assoc|done|done|]. intros x Hx. apply Hw. by right. }
    intros r s3 (? & ? & S3 & Hc3 & ? & Hw3). split_and!; [done..| |done|].
    + rewrite Hc3, <- app_assoc. cbn [map app]. by assert (zap_entry p w = w) as -> by (unfold zap_entry; by rewrite Eh).
    + intros d Hd. apply Hw3. intros x Hx. apply Hd. by right.
Qed.

(** [zapSubtree] removes exactly the entries below a path. *)
Lemma zapSubtree_ok fd p s :
  inv s → (∀ d q, cached (wlCache s) d q → under p q = true → is_Some (watches (kern s) fd !! d)) →
  wp (zapSubtree fd p) (λ r s', 0 <= r ∧ inv s' ∧ same s s' ∧
    (∀ d q, cached (wlCache s') d q ↔ cached (wlCache s) d q ∧ under p q = false) ∧
    watches (kern s') fd ⊆ watches (kern s) fd ∧
    ∀ d q, cached (wlCache s') d q → watches (kern s') fd !! d = watches (kern s) fd !! d) s.
Proof.
  intros Hi Hw. unfold zapSubtree. apply wp_bind, wp_get. eapply wp_mono.
  { apply (zap_loop_ok _ fd p [] (wlCache s) 0 s); [done..|]. intros [d q] Hx Hh. unfold hit in Hh. apply andb_prop in Hh as [Hd Hu].
    apply (Hw d q); [|done]. split; [cbn in Hd; lia|done]. }
  intros r s' (Hr & Hi' & Hs & Hc & Hsub & Hd). cbn in Hc. rewrite Hc. split_and!; [done..| |done|].
  - intros d q. apply cached_zap.
  - intros d q [Hq Hu]%cached_zap. apply Hd. intros [d' q'] Hx Hh Hne. cbn in Hne. subst d'.
    unfold hit in Hh. cbn in Hh. apply andb_prop in Hh as [Hd' Hu'].
    rewrite (cached_once _ d q q' (inv_cache _ Hi)) in Hu; [congruence|done|]. split; [lia|done].
Qed.

(** ** Changes of the file system and their events *)

(** The directory [p] of a monitored tree, watched under [d]. *)
Definition watched (roots : list (option pathname)) (D : gmap pathname Z) (W : gmap Z Z) (d : Z) (p : pathname) : Prop :=
  monitored roots p ∧ ∃ i, W !! d = Some i ∧ D !! p = Some i.

(** A change of the directories from [D] to [D'] and of the watches from [W] to [W'], with
    the events it generates.
    - A directory appears in [p], by [mkdir] or by a rename from elsewhere, possibly with
      others already below it.
    - A directory moves within the monitored trees, with everything below it.
    - An empty directory is removed.
    - A directory moves out of the trees.
    - Any change, with more events than the queue holds. *)
Inductive change (roots : list (option pathname)) (D : gmap pathname Z) (W : gmap Z Z) :
    gmap pathname Z → gmap Z Z → list event → Prop :=
  | Created D' d p nm n c m :
      watched roots D W d p → fits p nm → D !! join p nm = None → D ⊆ D' →
      (∀ q, is_Some (D' !! q) → is_Some (D !! q) ∨ under (join p nm) q = true) →
      m = IN_CREATE ∨ m = IN_MOVED_TO → 0 <= n →
      change roots D W D' W [Event d (Z.lor IN_ISDIR m) c n nm]
  | Renamed D' d1 p1 n1 d2 p2 n2 c l1 l2 :
      watched roots D W d1 p1 → watched roots D W d2 p2 → fits p1 n1 → fits p2 n2 → Some (join p1 n1) ∉ roots →
      (∀ q i, D' !! q = Some i ↔ ∃ q0, D !! q0 = Some i ∧ q = renamed (join p1 n1) (join p2 n2) q0) →
      0 <= l1 → 0 <= l2 →
      change roots D W D' W [Event d1 (Z.lor IN_ISDIR IN_MOVED_FROM) c l1 n1; Event d2 (Z.lor IN_ISDIR IN_MOVED_TO) c l2 n2]
  | Removed d p :
      watched roots D W d p → Some p ∉ roots →
      change roots D W (delete p D) (delete d W) [Event d IN_DELETE_SELF 0 0 []; Event d IN_IGNORED 0 0 []]
  | MovedOut D' d p nm n c :
      watched roots D W d p → fits p nm → Some (join p nm) ∉ roots →
      (∀ q i, D' !! q = Some i ↔ D !! q = Some i ∧ under (join p nm) q = false) → 0 <= n →
      change roots D W D' W [Event d (Z.lor IN_ISDIR IN_MOVED_FROM) c n nm]
  | Overflow D' W' : change roots D W D' W' [Event (-1) IN_Q_OVERFLOW 0 0 []].

(** A read returns the events; there is nothing more to read then. *)
Definition delivers (k : K) (fd : Z) (evs : list event) (D' : gmap pathname Z) (W' : gmap Z Z) : Prop :=
  ∃ k1, (∀ n, total evs <= n → read_events k fd n = (k1, Got evs)) ∧ dirs k1 = D' ∧ watches k1 fd = W' ∧
    ∀ n, ∃ k2, read_events k1 fd n = (k2, Eintr) ∧ dirs k2 = D' ∧ watches k2 fd = W'.

(** ** Processing an event *)

Lemma findWatchChecked_run d p s : inv s → cached (wlCache s) d p →
  ∃ j, findWatchChecked d s = (s, Done j) ∧ 0 <= j ∧ in_cache j s ∧ slot j s = (s, Done (Watch d p)) ∧
    wlCache s !! Z.to_nat j = Some (Watch d p).
Proof.
  intros Hi Hp. destruct (findWatch_spec (wlCache s) d (proj1 Hp)) as [[_ Hn]|(i & w & Hw & Ed & Hq & E)]; [by destruct (Hn p)|].
  exists (Z.of_nat i). assert (w = Watch d p) as ->.
  { destruct w as [d' q]. cbn in *. subst d'. by rewrite (cached_once _ _ _ _ (inv_cache _ Hi) Hq Hp). }
  assert (in_cache (Z.of_nat i) s) as Hj by (split; [done|]; apply lookup_lt_Some in Hw; unfold zlen; lia).
  split_and!; [|lia|done| |by rewrite Nat2Z.id].
  - unfold findWatchChecked, findWatch. rewrite bind_gets, E. by rewrite (proj2 (Z.leb_le 0 (Z.of_nat i))) by (clear; lia).
  - destruct (slot_run _ s Hj) as (w & -> & Hw'). rewrite Nat2Z.id in Hw'. by simplify_eq.
Qed.

Lemma pathnameInCache_run p s : (∀ d, ¬ cached (wlCache s) d p) → pathnameInCache p s = (s, Done false).
Proof.
  intros Hn. unfold pathnameInCache, pathnameToCacheSlot. rewrite bind_gets.
  destruct (find_from_spec (λ w, (0 <=? wd w) && bool_decide (path w = p)) (wlCache s) 0 ltac:(lia)) as [[-> _]|(i & [d q] & Hi & Hw & _)]; [done|].
  exfalso. cbn in Hw. apply andb_prop in Hw as [Hd Hq%bool_decide_eq_true]. subst q. apply (Hn d). rewrite cached_lookup. split; [lia|eauto].
Qed.

Lemma isRootDirPath_run p s : Some p ∉ rootDirPaths s → isRootDirPath p s = (s, Done false).
Proof.
  intros Hn. unfold isRootDirPath, findRootDirPath. rewrite bind_gets.
  destruct (find_from_spec (λ o, bool_decide (o = Some p)) (rootDirPaths s) 0 ltac:(lia)) as [[-> _]|(i & o & Hi & Ho & _)]; [done|].
  apply bool_decide_eq_true in Ho as ->. destruct Hn. by apply list_elem_of_lookup_2 in Hi.
Qed.

(** The first steps of [processNextInotifyEvent] on an event for a cached directory. *)
Lemma event_start fd ev rest n ft p s (Q : Z * Z → state K → Prop) :
  inv s → cached (wlCache s) (ev_wd ev) p → has (mask ev) IN_IGNORED = false →
  (∀ j, 0 <= j → in_cache j s → slot j s = (s, Done (Watch (ev_wd ev) p)) →
     wlCache s !! Z.to_nat j = Some (Watch (ev_wd ev) p) →
     wp (if has (mask ev) IN_ISDIR && has (mask ev) (Z.lor IN_CREATE IN_MOVED_TO) then
           let! cached := pathnameInCache (join p (name ev)) in
           (if cached : bool then ret tt else watchSubtree fd (join p (name ev)));;;
           finish fd (ev_size ev)
         else if has (mask ev) IN_DELETE_SELF then
           let! root := isRootDirPath p in
           (if root : bool then zapRootDirPath p else ret tt);;;
           markCacheSlotEmpty j;;;
           finish fd (ev_size ev)
         else if Z.land (mask ev) (Z.lor IN_MOVED_FROM IN_ISDIR) =? Z.lor IN_MOVED_FROM IN_ISDIR then
           moved_from fd ev rest n ft (Some j)
         else fail NoFuel) Q s) →
  (Z.land (mask ev) (Z.lor IN_MOVED_FROM IN_ISDIR) =? Z.lor IN_MOVED_FROM IN_ISDIR) = true ∨
    has (mask ev) IN_DELETE_SELF = true ∨ has (mask ev) IN_ISDIR && has (mask ev) (Z.lor IN_CREATE IN_MOVED_TO) = true →
  wp (processNextInotifyEvent fd (ev :: rest) n ft) Q s.
Proof.
  intros Hi Hp Hm H Hcase. destruct (findWatchChecked_run _ p s Hi Hp) as (j & E & Hj & Hc & Es & Hl). specialize (H j Hj Hc Es Hl).
  unfold processNextInotifyEvent. destruct Hp as [Hd _]. replace (ev_wd ev =? -1) with false by lia. rewrite Hm. cbn [negb andb].
  apply wp_bind, wp_bind. eapply wp_run; [exact E|]. apply wp_ret. cbn zeta.
  rewrite bool_decide_eq_false_2 by (injection 1; lia). cbv iota.
  destruct (has (mask ev) IN_ISDIR && _) eqn:E1.
  { cbn [slot_path]. apply wp_bind, wp_bind. eapply wp_run; [exact Es|]. by apply wp_ret. }
  destruct (has (mask ev) IN_DELETE_SELF) eqn:E2.
  { cbn [slot_path]. apply wp_bind, wp_bind. eapply wp_run; [exact Es|]. by apply wp_ret. }
  destruct Hcase as [E3|[?|?]]; [|done|done]. rewrite E3 in *. exact H.
Qed.

(** What the processing of events achieves. *)
Definition followed D' roots fd s : Prop :=
  synced fd s ∧ dirs (kern s) = D' ∧ rootDirPaths s = roots ∧ modes_ok s.

(** The state before the processing: the cache still agrees with the directories [D] and the
    watches [W] of before the change. *)
Record stale (D : gmap pathname Z) (W : gmap Z Z) s : Prop := Stale {
  st_inv : inv s;
  st_modes : modes_ok s;
  st_once d d' i : W !! d = Some i → W !! d' = Some i → d = d';
  st_cached d q : cached (wlCache s) d q → ∃ i, W !! d = Some i ∧ D !! q = Some i ∧ monitored (rootDirPaths s) q;
  st_all q : is_Some (D !! q) → monitored (rootDirPaths s) q → ∃ d, cached (wlCache s) d q }.

Lemma synced_stale fd s k : synced fd s → modes_ok s → stale (dirs (kern s)) (watches (kern s) fd) (set_kern k s).
Proof. intros [[Hi Ht Ho Hc] Ha] Hm. by split; [split; apply Hi|..]. Qed.

Lemma stale_watched D W d p s : stale D W s → watched (rootDirPaths s) D W d p → cached (wlCache s) d p.
Proof.
  intros Hs (Hm & i & Hd & Hp). destruct (st_all _ _ _ Hs p) as [d' Hd']; [by eexists|done|].
  destruct (st_cached _ _ _ Hs _ _ Hd') as (i' & Hw & Hp' & _). simplify_eq.
  by rewrite (st_once _ _ _ Hs d d' i).
Qed.

Lemma created_ok (D D' : gmap pathname Z) W fd ev rest n ft p s :
  stale D W s → watches (kern s) fd = W → dirs (kern s) = D' → tree_ok D' →
  watched (rootDirPaths s) D W (ev_wd ev) p → fits p (name ev) → D !! join p (name ev) = None → D ⊆ D' →
  (∀ q, is_Some (D' !! q) → is_Some (D !! q) ∨ under (join p (name ev)) q = true) →
  mask ev = Z.lor IN_ISDIR IN_CREATE ∨ mask ev = Z.lor IN_ISDIR IN_MOVED_TO →
  wp (processNextInotifyEvent fd (ev :: rest) n ft)
     (λ r s', r = (fd, ev_size ev) ∧ followed D' (rootDirPaths s) fd s') s.
Proof.
  intros St HW HD Ht Hp Hf Hnone Hsub Hnew Hmask. pose proof St as [Hi Hmo Ho Hc Hall].
  assert (sound fd s) as Hs.
  { split; [done|by rewrite HD|by rewrite HW|]. intros d q Hq. destruct (Hc d q Hq) as (i & ? & Hq' & ?). exists i.
    rewrite HW, HD. split_and!; [done| |done]. by eapply lookup_weaken. }
  eapply event_start; [done|by eapply stale_watched|by destruct Hmask as [-> | ->]| |destruct Hmask as [-> | ->]; auto].
  intros j _ _ _ _. assert (has (mask ev) IN_ISDIR && has (mask ev) (Z.lor IN_CREATE IN_MOVED_TO) = true) as ->
    by by destruct Hmask as [-> | ->].
  apply wp_bind. eapply wp_run; [apply pathnameInCache_run|].
  { intros d Hd. destruct (Hc _ _ Hd) as (i & _ & ? & _). congruence. }
  apply wp_bind. eapply wp_mono; [apply watchSubtree_ok; [done|]; eapply monitored_under; [apply Hp|by apply under_join]|].
  intros _ s' (Hs' & S' & C' & P'). apply finish_ok; [done|by eapply same_modes|]. split; [done|].
  split; [|split; [by rewrite (same_dirs _ _ S')|split; [apply S'|by eapply same_modes]]]. split; [done|].
  rewrite (same_dirs _ _ S'), (same_roots _ _ S'), HD. intros q Hq Hmq. destruct (Hnew q Hq) as [Hold|Hu].
  - destruct (Hall q Hold Hmq) as [d Hd]. eauto.
  - apply P'. by rewrite HD.
Qed.

(** The names in the cache after a rename. *)
Lemma rename_cache (D D' : gmap pathname Z) (W : gmap Z Z) old new c roots :
  cache_ok c → old ≠ [] → tree_ok D' →
  (∀ q i, D' !! q = Some i ↔ ∃ q0, D !! q0 = Some i ∧ q = renamed old new q0) →
  (∀ d q, cached c d q → ∃ i, W !! d = Some i ∧ D !! q = Some i ∧ monitored roots q) →
  cache_ok (map (rewrite_entry old new) c) ∧
  ∀ d q, cached (map (rewrite_entry old new) c) d q ↔ ∃ q0, cached c d q0 ∧ q = renamed old new q0.
Proof.
  intros Hc Hne Ht HD' Hs. destruct (map_path_ok c (rewrite_entry old new)) as [H1 H2]; [|intros; by apply rewrite_entry_ok|done|].
  { intros w. unfold rewrite_entry. by destruct (under _ _). }
  split; [done|]. intros d q. rewrite H2.
  assert (∀ q0, cached c d q0 → path (rewrite_entry old new (Watch d q0)) = renamed old new q0) as He;
    [|split; intros (q0 & Hq0 & <-) || intros (q0 & Hq0 & ->); exists q0; by rewrite He].
  intros q0 Hq0.
  destruct (Hs d q0 Hq0) as (i & _ & Hi & _). assert (D' !! renamed old new q0 = Some i) as Hf%(tree_fits _ Ht) by (apply HD'; eauto).
  unfold rewrite_entry, renamed in *. cbn. destruct (under old q0); [|done]. by apply path_buffer_id.
Qed.

Lemma monitored_renamed roots p1 n1 p2 n2 q :
  fits p1 n1 → fits p2 n2 → monitored roots p1 → monitored roots p2 →
  monitored roots q ↔ monitored roots (renamed (join p1 n1) (join p2 n2) q) ∧ (under (join p1 n1) q = true ∨ monitored roots q).
Proof.
  intros F1 F2 M1 M2. destruct (under (join p1 n1) q) eqn:E.
  - split; [|intros _]; [|eapply monitored_under; [exact M1|]; by eapply under_trans; [apply under_join|]].
    intros Hq. split; [|by left]. eapply monitored_under; [exact M2|]. eapply under_trans; [by apply under_join|by apply under_renamed].
  - unfold renamed. rewrite E. naive_solver.
Qed.

Lemma renamed_ok (D D' : gmap pathname Z) W fd ev nx rest n ft p1 p2 s :
  stale D W s → watches (kern s) fd = W → dirs (kern s) = D' → tree_ok D' →
  watched (rootDirPaths s) D W (ev_wd ev) p1 → watched (rootDirPaths s) D W (ev_wd nx) p2 →
  fits p1 (name ev) → fits p2 (name nx) →
  (∀ q i, D' !! q = Some i ↔ ∃ q0, D !! q0 = Some i ∧ q = renamed (join p1 (name ev)) (join p2 (name nx)) q0) →
  mask ev = Z.lor IN_ISDIR IN_MOVED_FROM → mask nx = Z.lor IN_ISDIR IN_MOVED_TO → cookie nx = cookie ev → ev_size ev < n →
  wp (processNextInotifyEvent fd (ev :: nx :: rest) n ft)
     (λ r s', r = (fd, ev_size ev + ev_size nx) ∧ followed D' (rootDirPaths s) fd s') s.
Proof.
  intros St HW HD Ht Hp1 Hp2 F1 F2 HD' M1 M2 Hck Hn. pose proof St as [Hi Hmo Ho Hc Hall].
  eapply event_start; [done|by eapply stale_watched|by rewrite M1| |rewrite M1; auto].
  intros j Hj Hjc Es _. rewrite M1. change (has _ IN_ISDIR && _) with false. change (has _ IN_DELETE_SELF) with false.
  change (Z.land _ _ =? _) with true. cbv iota. unfold moved_from. replace (ev_size ev <? n) with true by lia.
  apply wp_bind, wp_ret. rewrite M2, Hck, Z.eqb_refl. change (has _ IN_MOVED_TO && true) with true. cbv iota.
  destruct (findWatchChecked_run (ev_wd nx) p2 s Hi) as (j2 & E2 & Hj2 & _ & Es2 & _); [by eapply stale_watched|].
  apply wp_bind. eapply wp_run; [exact E2|]. replace (j2 =? -1) with false by lia. cbn [slot_path].
  apply wp_bind, wp_bind. eapply wp_run; [exact Es|]. apply wp_ret. apply wp_bind, wp_bind. eapply wp_run; [exact Es2|]. apply wp_ret.
  apply wp_bind. unfold rewriteCachedPaths. wp_step. cbn [path]. set (s' := set_wlCache _ s).
  destruct (rename_cache D D' W _ _ _ _ (inv_cache _ Hi) (join_nonempty p1 (name ev)) Ht HD' Hc) as [H1 H2].
  destruct Hp1 as [Hm1 _], Hp2 as [Hm2 _].
  assert (sound fd s') as Hs'.
  { split; [split; [exact H1|apply Hi]|cbn; by rewrite HD|cbn; by rewrite HW|]. cbn. intros d q (q0 & Hq0 & ->)%H2.
    destruct (Hc d q0 Hq0) as (i & ? & ? & Hmq). exists i. rewrite HW, HD. split_and!; [done|apply HD'; eauto|].
    by apply (monitored_renamed _ p1 (name ev) p2 (name nx)) in Hmq as [? _]. }
  apply finish_ok; [done|done|]. split; [done|]. split; [|by rewrite <- HD]. split; [done|].
  cbn. rewrite HD. intros q [i (q0 & Hq0 & ->)%HD'] Hmq. destruct (Hall q0) as [d Hd]; [by eexists| |exists d; apply H2; eauto].
  apply (monitored_renamed _ p1 (name ev) p2 (name nx)); [done..|]. split; [done|].
  destruct (under (join p1 (name ev)) q0) eqn:E; [by left|right]. unfold renamed in Hmq. by rewrite E in Hmq.
Qed.

(** The entries below a path are removed; the rest of the cache stays. *)
Lemma moved_out_ok (D D' : gmap pathname Z) W fd ev n p s :
  stale D W s → watches (kern s) fd = W → dirs (kern s) = D' → tree_ok D' →
  watched (rootDirPaths s) D W (ev_wd ev) p →
  (∀ q i, D' !! q = Some i ↔ D !! q = Some i ∧ under (join p (name ev)) q = false) →
  mask ev = Z.lor IN_ISDIR IN_MOVED_FROM → n <= ev_size ev →
  wp (processNextInotifyEvent fd [ev] n false)
     (λ r s', r = (fd, ev_size ev) ∧ followed D' (rootDirPaths s) fd s') s.
Proof.
  intros St HW HD Ht Hp HD' M Hn. pose proof St as [Hi Hmo Ho Hc Hall].
  eapply event_start; [done|by eapply stale_watched|by rewrite M| |rewrite M; auto].
  intros j Hj Hjc Es _. rewrite M. change (has _ IN_ISDIR && _) with false. change (has _ IN_DELETE_SELF) with false.
  change (Z.land _ _ =? _) with true. cbv iota. unfold moved_from. replace (ev_size ev <? n) with false by lia.
  apply wp_bind, wp_ret. cbn [orb negb]. cbv iota. cbn [slot_path]. apply wp_bind, wp_bind. eapply wp_run; [exact Es|]. apply wp_ret.
  apply wp_bind. eapply wp_mono; [apply zapSubtree_ok; [done|]|].
  { intros d q Hq _. destruct (Hc d q Hq) as (i & ? & _). rewrite HW. by eexists. }
  intros r s' (Hr & Hi' & S' & Hc' & Hsub & Hw'). replace (r =? -1) with false by lia. cbn [path] in *.
  assert (sound fd s') as Hs'.
  { split; [done|by rewrite (same_dirs _ _ S'), HD| |].
    - intros d d' i H1 H2. rewrite HW in Hsub. eapply Ho; by eapply lookup_weaken.
    - intros d q Hq. rewrite (Hw' d q Hq), (same_dirs _ _ S'), (same_roots _ _ S'), HW, HD.
      apply Hc' in Hq as [Hq Hu]. destruct (Hc d q Hq) as (i & ? & ? & ?). exists i. split_and!; [done| |done]. by apply HD'. }
  apply finish_ok; [done|by eapply same_modes|]. split; [done|].
  split; [|split; [by rewrite (same_dirs _ _ S')|split; [apply S'|by eapply same_modes]]]. split; [done|].
  rewrite (same_dirs _ _ S'), (same_roots _ _ S'), HD. intros q [i [Hq Hu]%HD'] Hmq.
  destruct (Hall q) as [d Hd]; [by eexists|done|]. exists d. by apply Hc'.
Qed.

(** A removed directory, whose watch the kernel has dropped. *)
Lemma removed_ok (D : gmap pathname Z) W fd ev rest n ft p s :
  stale D W s → watches (kern s) fd = delete (ev_wd ev) W → dirs (kern s) = delete p D → tree_ok (delete p D) → tree_ok D →
  watched (rootDirPaths s) D W (ev_wd ev) p → Some p ∉ rootDirPaths s → mask ev = IN_DELETE_SELF →
  wp (processNextInotifyEvent fd (ev :: rest) n ft)
     (λ r s', r = (fd, ev_size ev) ∧ followed (delete p D) (rootDirPaths s) fd s') s.
Proof.
  intros St HW HD Ht Ht0 Hp Hr M. pose proof St as [Hi Hmo Ho Hc Hall].
  assert (cached (wlCache s) (ev_wd ev) p) as Hcp by by eapply stale_watched.
  eapply event_start; [done|exact Hcp|by rewrite M| |rewrite M; auto].
  intros j Hj Hjc Es Hl. rewrite M. change (has _ IN_ISDIR && _) with false. change (has _ IN_DELETE_SELF) with true. cbv iota.
  apply wp_bind. eapply wp_run; [by apply isRootDirPath_run|]. apply wp_bind, wp_ret.
  apply wp_bind. eapply wp_run; [by apply mark_run|]. set (s' := set_wlCache _ s).
  destruct (clear_slot_ok _ _ _ (inv_cache _ Hi) Hl) as [H1 H2]. cbn [wd] in H2.
  assert (∀ d q, cached (wlCache s) d q → d ≠ ev_wd ev ↔ q ≠ p) as Hne.
  { intros d q Hq. destruct (Hc d q Hq) as (i & Hw & Hq' & _), (Hc _ _ Hcp) as (i0 & Hw0 & Hp0 & _). split; intros Hne ->; destruct Hne.
    - simplify_eq. by eapply Ho.
    - by eapply cached_once; [apply Hi|..]. }
  assert (sound fd s') as Hs'.
  { split; [split; [exact H1|apply Hi]|cbn; by rewrite HD| |]; cbn; rewrite ?HW, ?HD.
    - intros d d' i [_ A]%lookup_delete_Some [_ B]%lookup_delete_Some. by eapply Ho.
    - intros d q [Hq Hd]%H2. destruct (Hc d q Hq) as (i & ? & ? & ?). exists i.
      rewrite !lookup_delete_ne; [done|by apply not_eq_sym, (Hne d q)|done]. }
  apply finish_ok; [done|done|]. split; [done|]. split; [|by rewrite <- HD]. split; [done|].
  cbn. rewrite HD. intros q [i [Hqp Hq]%lookup_delete_Some] Hmq. destruct (Hall q) as [d Hd]; [by eexists|done|].
  exists d. apply H2. split; [done|]. by apply (Hne d q), not_eq_sym.
Qed.

(** Events that change nothing: the end of a watch. *)
Lemma ignored_ok fd ev rest n ft D' roots s :
  followed D' roots fd s → mask ev = IN_IGNORED →
  wp (processNextInotifyEvent fd (ev :: rest) n ft) (λ r s', r = (fd, ev_size ev) ∧ followed D' roots fd s') s.
Proof.
  intros Hs M. unfold processNextInotifyEvent. rewrite M, andb_comm. cbn [has]. change (negb (has IN_IGNORED IN_IGNORED)) with false.
  cbn [andb]. apply wp_bind, wp_ret. rewrite bool_decide_eq_false_2 by done.
  apply wp_bind, wp_ret. apply finish_ok; [apply Hs|apply Hs|done].
Qed.

Lemma overflow_ok fd ev rest n ft s :
  inv s → tree_ok (dirs (kern s)) → modes_ok s → ev_wd ev = -1 → mask ev = IN_Q_OVERFLOW →
  wp (processNextInotifyEvent fd (ev :: rest) n ft)
     (λ r s', r.2 = INOTIFY_READ_BUF_LEN ∧ followed (dirs (kern s)) (rootDirPaths s) r.1 s') s.
Proof.
  intros Hi Ht Hm E M. unfold processNextInotifyEvent. rewrite E, M. apply wp_bind, wp_ret. rewrite bool_decide_eq_false_2 by done.
  apply wp_bind, wp_modify. apply wp_bind. eapply wp_mono; [apply reinitialize_ok; [split; apply Hi|done]|].
  intros fd' s' [Hs' S']. apply finish_ok; [apply Hs'|exact (same_modes _ _ S' Hm)|]. split; [done|].
  split; [done|]. split; [apply S'|]. split; [apply S'|]. exact (same_modes _ _ S' Hm).
Qed.

(** ** The loop over the buffer *)

Lemma loop_done fuel fd evs left ft s (Q : Z → state K → Prop) :
  left <= 0 → Q fd s → wp (events_loop fuel fd evs left ft) Q s.
Proof. intros Hl HQ. destruct fuel; cbn [events_loop]; rewrite (proj2 (Z.leb_le left 0)) by done; by apply wp_ret. Qed.

Lemma loop_consume fuel fd evs left ft s (Q : Z → state K → Prop) :
  0 < left →
  wp (processNextInotifyEvent fd evs left ft)
     (λ r s', 0 < r.2 ∧ wp (events_loop fuel r.1 (advance r.2 evs) (left - r.2) true) Q s') s →
  wp (events_loop (S fuel) fd evs left ft) Q s.
Proof.
  intros Hl H. cbn [events_loop]. replace (left <=? 0) with false by lia. apply wp_bind. eapply wp_mono; [exact H|].
  intros [fd' n] s' [Hn H']. cbn [fst snd] in *. by replace (0 <? n) with true by lia.
Qed.

(** A single event that the processing consumes. *)
Lemma loop_one fuel fd fd' ev n ft s (Q : Z → state K → Prop) (P : state K → Prop) left :
  0 < left <= n → wp (processNextInotifyEvent fd [ev] left ft) (λ r s', r = (fd', n) ∧ P s') s →
  (∀ s', P s' → Q fd' s') → wp (events_loop (S fuel) fd [ev] left ft) Q s.
Proof.
  intros Hl H HQ. apply loop_consume; [lia|]. eapply wp_mono; [exact H|]. intros r s' [-> HP]. cbn [fst snd].
  split; [lia|]. apply loop_done; [lia|auto].
Qed.

(** The events of a change bring the cache up to date. *)
Lemma process_change fuel fd s k D' W' evs :
  synced fd s → modes_ok s → change (rootDirPaths s) (dirs (kern s)) (watches (kern s) fd) D' W' evs →
  tree_ok D' → delivers k fd evs D' W' →
  total evs <= INOTIFY_READ_BUF_LEN → (0 < readBufferSize s → total evs <= readBufferSize s) → (2 <= fuel)%nat →
  wp (processInotifyEvents fuel fd) (λ fd' s', followed D' (rootDirPaths s) fd' s') (set_kern k s).
Proof.
  intros Hs Hm Hch Ht (k1 & Hr & HD & HW & Hr2) Htot Hbuf Hfuel. unfold processInotifyEvents. apply wp_bind, wp_get. apply wp_bind.
  eapply wp_run; [rewrite syscall_run, Hr; [reflexivity|]|].
  { cbn. destruct (Z.ltb_spec 0 (readBufferSize s)); auto. }
  cbn [fst snd]. apply wp_bind, wp_modify. set (s1 := set_inotifyReadCnt _ _).
  assert (stale (dirs (kern s)) (watches (kern s) fd) s1) as St.
  { destruct (synced_stale fd s k1 Hs Hm) as [Hi ? ? ? ?]. by split; [split; apply Hi|..]. }
  destruct fuel as [|[|fuel]]; [lia|lia|].
  destruct Hch as [D' d p nm n c m Hp Hf Hno Hsub Hnew Hmask Hn|D' d1 p1 n1 d2 p2 n2 c l1 l2 Hp1 Hp2 F1 F2 Hr1 HD' Hl1 Hl2
    |d p Hp Hroot|D' d p nm n c Hp Hf Hroot HD' Hn|D' W']; cbn [total] in *.
  - eapply loop_one; [|eapply (created_ok (dirs (kern s)) D'); [exact St|exact HW|exact HD|done|exact Hp|done..|]|by intros]; cbn.
    + unfold ev_size, EVENT_SIZE. cbn. lia.
    + destruct Hmask as [-> | ->]; auto.
  - apply loop_consume; [unfold ev_size, EVENT_SIZE; cbn; lia|]. eapply wp_mono.
    { eapply (renamed_ok (dirs (kern s)) D'); [exact St|exact HW|exact HD|done|exact Hp1|exact Hp2|done..|].
      unfold ev_size, EVENT_SIZE. cbn. lia. }
    intros r s' [-> H']. cbn [fst snd]. split; [unfold ev_size, EVENT_SIZE; cbn; lia|].
    apply loop_done; [unfold ev_size; cbn; lia|done].
  - apply loop_consume; [done|]. eapply wp_mono.
    { eapply (removed_ok (dirs (kern s))); [exact St|exact HW|exact HD|done|apply Hs|exact Hp|done..]. }
    intros r s' [-> H']. split; [done|]. eapply loop_one; [|by apply ignored_ok|by intros].
    unfold ev_size, EVENT_SIZE. cbn. lia.
  - assert (0 < ev_size (Event d (Z.lor IN_ISDIR IN_MOVED_FROM) c n nm)) as Hsz by (unfold ev_size, EVENT_SIZE; cbn; lia).
    set (ev := Event d _ c n nm) in *. rewrite Z.add_0_r. cbn [events_loop]. replace (ev_size ev <=? 0) with false by lia.
    apply wp_bind. eapply wp_mono with (Q := λ r s', r = (fd, -1) ∧ s' = s1).
    { eapply event_start; [apply St|by eapply stale_watched|done| |by left]. intros j _ _ _ _. cbn [mask ev].
      change (has _ IN_ISDIR && _) with false. change (has _ IN_DELETE_SELF) with false. change (Z.land _ _ =? _) with true.
      cbv iota. unfold moved_from. rewrite Z.ltb_irrefl. apply wp_bind, wp_ret. by apply wp_ret. }
    intros r ? [-> ->]. cbn match. change (0 <? -1) with false. cbv iota. apply wp_bind.
    destruct (Hr2 (INOTIFY_READ_BUF_LEN - ev_size ev)) as (k2 & E2 & HD2 & HW2).
    eapply wp_run; [rewrite syscall_run; cbn [kern s1 set_inotifyReadCnt set_counts set_kern]; rewrite E2; reflexivity|].
    cbn [fst snd]. apply wp_bind, wp_modify. change (if ev_size ev - 1 <=? 0 then _ else _) with (events_loop (S fuel) fd [ev] (ev_size ev - 1) false).
    set (s2 := set_inotifyReadCnt _ _). eapply (loop_one fuel fd fd ev (ev_size ev)); [|eapply (moved_out_ok (dirs (kern s)) D')|].
    + unfold ev_size, EVENT_SIZE in *. cbn in *. lia.
    + destruct St as [Hi ? ? ? ?]. by split; [split; apply Hi|..].
    + exact HW2.
    + exact HD2.
    + done.
    + exact Hp.
    + exact HD'.
    + done.
    + lia.
    + by intros.
  - apply loop_consume; [done|]. eapply wp_mono; [apply overflow_ok; [apply St|cbn; by rewrite HD|done..]|].
    intros r s' [E H']. rewrite E. split; [done|]. apply loop_done; [cbn; lia|]. cbn in H'. by rewrite HD in H'.
Qed.

(** ** Runs *)

(** The kernel's state changes to each of [ks] in turn, and its events are processed. *)
Fixpoint feed (fuel : nat) (ks : list K) (fd : Z) : M (state K) fault Z :=
  match ks with
  | [] => ret fd
  | k :: ks => modify (set_kern k);;; let! fd := processInotifyEvents fuel fd in feed fuel ks fd
  end.

(** Each of the changes is one of [change], and delivers its events. *)
Fixpoint world (fuel : nat) (ks : list K) (fd : Z) (s : state K) : Prop :=
  match ks with
  | [] => True
  | k :: ks =>
      (∃ D' W' evs, change (rootDirPaths s) (dirs (kern s)) (watches (kern s) fd) D' W' evs ∧
        tree_ok D' ∧ delivers k fd evs D' W' ∧
        total evs <= INOTIFY_READ_BUF_LEN ∧ (0 < readBufferSize s → total evs <= readBufferSize s)) ∧
      ∀ fd' s', processInotifyEvents fuel fd (set_kern k s) = (s', Done fd') → world fuel ks fd' s'
  end.

Lemma feed_ok fuel ks fd s :
  synced fd s → modes_ok s → (2 <= fuel)%nat → world fuel ks fd s → wp (feed fuel ks fd) (λ fd' s', synced fd' s') s.
Proof.
  revert fd s. induction ks as [|k ks IH]; intros fd s Hs Hm Hf Hw; cbn [feed]; [by apply wp_ret|].
  destruct Hw as [(D' & W' & evs & Hch & Ht & Hd & H1 & H2) Hw]. apply wp_bind, wp_modify. apply wp_bind.
  destruct (wp_elim _ _ _ (process_change fuel fd s k D' W' evs Hs Hm Hch Ht Hd H1 H2 Hf)) as (fd' & s' & E & Hs' & _ & _ & Hm').
  eapply wp_run; [exact E|]. by apply IH; [..|apply Hw].
Qed.

Lemma dtree_start_ok argv s s1 fd :
  inv s → modes_ok s → tree_ok (dirs (kern s)) → start argv s = (s1, Done fd) → synced fd s1 ∧ modes_ok s1.
Proof.
  intros Hi Hm Ht E. unfold start in E.
  assert (∃ roots, zapped roots = 0 ∧ copyRootDirPaths argv s = (set_roots roots 0 s, Done tt)) as (roots & Hz & Ec).
  { unfold copyRootDirPaths, bind, get in *. destruct (check_args _ _); [|done]. cbn in *.
    destruct (copy_roots _ _ _) as [roots|] eqn:Er; [|done]. exists roots. split; [by eapply copy_roots_zapped|done]. }
  rewrite (bind_done _ _ _ _ _ Ec) in E.
  pose proof (reinitialize_ok (-1) (set_roots roots 0 s)) as H. unfold wp in H. rewrite E in H.
  destruct H as [Hs S]; [split; [apply Hi|by cbn]|done|]. split; [done|]. by eapply same_modes.
Qed.
End sync.

(** ** A kernel

    A kernel that satisfies the laws: the watch descriptor of a directory is its inode, and
    the events of a change are queued with it. *)

Record toy := Toy { t_dirs : gmap pathname nat; t_watched : gmap Z unit; t_queue : list event }.

#[export] Instance toy_kernel : Kernel toy := {
  inotify_init k := (Toy (t_dirs k) ∅ (t_queue k), 3);
  inotify_close k _ := Toy (t_dirs k) ∅ [];
  inotify_add_watch k _ p _ :=
    match t_dirs k !! p with
    | Some i => (Toy (t_dirs k) (<[Z.of_nat i := tt]> (t_watched k)) (t_queue k), inl (Z.of_nat i))
    | None => (k, inr ENOENT)
    end;
  inotify_rm_watch k _ d :=
    match t_watched k !! d with
    | Some _ => (Toy (t_dirs k) (delete d (t_watched k)) (t_queue k), true)
    | None => (k, false)
    end;
  nftw k p := map (λ q, (q, true)) (List.filter (under p) (elements (dom (t_dirs k))));
  lstat k p := (λ i, Stat 0 (Z.of_nat i) true) <$> t_dirs k !! p;
  read_events k _ _ := match t_queue k with [] => (k, Eintr) | q => (Toy (t_dirs k) (t_watched k) [], Got q) end;
  write_lines k _ _ := (k, true) }.

#[export] Instance toy_fs : FsKernel toy.
Proof.
  refine {| dirs k := Z.of_nat <$> t_dirs k; watches k _ := map_imap (λ d _, Some d) (t_watched k) |}.
  - intros k. by exists (Toy (t_dirs k) ∅ (t_queue k)), 3.
  - done.
  - intros k fd p f i. rewrite lookup_fmap_Some. intros (n & <- & Hn). cbn. rewrite Hn. eexists _, _. split; [done|].
    split_and!; [lia|done|apply map_eq; intros j; rewrite lookup_insert, !map_lookup_imap; cbn; rewrite lookup_insert; by case_decide; subst|].
    intros d' i'. rewrite map_lookup_imap. destruct (t_watched k !! d'); [|done]. cbn. intros E. simplify_eq. done.
  - intros k fd d i. rewrite map_lookup_imap. cbn. destruct (t_watched k !! d) eqn:E; [|done]. intros _. eexists.
    split_and!; [done..|]. cbn. apply map_eq; intros j. rewrite lookup_delete, !map_lookup_imap, lookup_delete. by case_decide.
  - intros k p q. cbn. rewrite list_elem_of_In, in_map_iff, lookup_fmap, fmap_is_Some. split.
    + intros (q' & E & H). simplify_eq. apply filter_In in H as [H1 H2]. split; [done|].
      by apply list_elem_of_In, elem_of_elements, elem_of_dom in H1.
    + intros [H1 H2]. exists q. split; [done|]. apply filter_In. split; [|done].
      by apply list_elem_of_In, elem_of_elements, elem_of_dom.
  - intros k p i. rewrite lookup_fmap_Some. intros (n & <- & Hn). cbn. rewrite Hn. by eexists.
Defined.

(** ** The properties *)


Definition ex_a : pathname := bytes "/a".
Definition ex_dirs : gmap pathname nat := {[ ex_a := 1%nat; bytes "/a/b" := 2%nat ]}.
Definition ex_state (k : toy) : state toy := State k [] [] 0 0 0 0 0 0 true false false false 0.
Definition ex_start : state toy := ex_state (Toy ex_dirs ∅ []).


(** C17: the cache follows the file system.  With a kernel that behaves as documented, the
    cache agrees with the directories of the monitored trees after the start, and again
    each time the events of a change have been processed: directories created or moved in
    (with what is already below them), moved within the trees, removed, or moved out, and
    any change whose events overflow the queue.  The processing always ends. *)
Theorem dtree_follows {K} `{!Kernel K, !FsKernel K} argv fuel ks (s s1 : state K) fd :
  inv s → modes_ok s → tree_ok (dirs (kern s)) → start argv s = (s1, Done fd) → (2 <= fuel)%nat →
  world fuel ks fd s1 → synced fd s1 ∧ wp (feed fuel ks fd) (λ fd' s', synced fd' s') s1.
Proof. intros Hi Hm Ht E Hf Hw. destruct (dtree_start_ok argv s s1 fd Hi Hm Ht E) as [Hs Hm1]. split; [done|by apply feed_ok]. Qed.

(** [/a/b] is renamed to [/a/c]. *)
Definition ex_dirs' : gmap pathname nat := {[ ex_a := 1%nat; bytes "/a/c" := 2%nat ]}.
Definition ex_events : list event :=
  [Event 1 (Z.lor IN_ISDIR IN_MOVED_FROM) 7 16 (bytes "b"); Event 1 (Z.lor IN_ISDIR IN_MOVED_TO) 7 16 (bytes "c")].
Definition ex_renamed : toy := Toy ex_dirs' {[ 1 := tt; 2 := tt ]} ex_events.
Definition ex_started : state toy := (start [ex_a] ex_start).1.

Lemma ex_tree_ok (D : gmap pathname nat) (p q : pathname) :
  D = {[ p := 1%nat; q := 2%nat ]} → p ≠ q → zlen p < PATH_MAX → zlen q < PATH_MAX → tree_ok (Z.of_nat <$> D).
Proof.
  intros -> Hpq Hp Hq. split.
  - intros x y i. rewrite !lookup_fmap_Some. intros (m & <- & Hx) (n & E & Hy). apply Nat2Z.inj in E. subst n.
    rewrite lookup_insert_Some, lookup_singleton_Some in Hx, Hy. naive_solver.
  - intros x i. rewrite lookup_fmap_Some. intros (m & _ & Hx). rewrite lookup_insert_Some, lookup_singleton_Some in Hx. naive_solver.
Qed.

Lemma ex_world : world 2 [ex_renamed] 3 ex_started.
Proof.
  split; [|done]. exists (Z.of_nat <$> ex_dirs'), (watches (kern ex_started) 3), ex_events.
  assert (∃ i, watches (kern ex_started) 3 !! 1 = Some i ∧ dirs (kern ex_started) !! ex_a = Some i) as Hw
    by (exists 1; split; vm_compute; reflexivity).
  assert (watched (rootDirPaths ex_started) (dirs (kern ex_started)) (watches (kern ex_started) 3) 1 ex_a) as Hwa.
  { split; [|exact Hw]. exists ex_a. split; [vm_compute; left|apply under_refl]. }
  split; [|split; [|split; [|split; [vm_compute; discriminate|vm_compute; discriminate]]]].
  - apply (Renamed _ _ _ _ 1 ex_a (bytes "b") 1 ex_a (bytes "c") 7 16 16); [exact Hwa|exact Hwa|reflexivity|reflexivity| | |lia|lia].
    + rewrite list_elem_of_In. vm_compute. intros [H|[]]. discriminate.
    + intros q i. change (dirs (kern ex_started)) with (Z.of_nat <$> ex_dirs). rewrite lookup_fmap_Some.
      setoid_rewrite lookup_fmap_Some. unfold ex_dirs, ex_dirs'. setoid_rewrite lookup_insert_Some.
      setoid_rewrite lookup_singleton_Some. split.
      * intros (n & <- & [[<- <-]|[_ [<- <-]]]); [exists ex_a|exists (bytes "/a/b")]; (split; [|vm_compute; reflexivity]).
        -- exists 1%nat. auto.
        -- exists 2%nat. split; [done|]. right. by split; [vm_compute; discriminate|].
      * intros (q0 & (n & <- & [[<- <-]|[_ [<- <-]]]) & ->); [exists 1%nat|exists 2%nat]; (split; [done|]).
        -- left. by split; [vm_compute|].
        -- right. split; [vm_compute; discriminate|]. by split; [vm_compute|].
  - by apply (ex_tree_ok _ ex_a (bytes "/a/c")).
  - exists (Toy ex_dirs' {[ 1 := tt; 2 := tt ]} []). split; [done|]. split; [done|]. split; [vm_compute; reflexivity|].
    intros n. exists (Toy ex_dirs' {[ 1 := tt; 2 := tt ]} []). split; [done|]. split; [done|vm_compute; reflexivity].
Qed.

Lemma dtree_follows_witness :
  synced 3 ex_started ∧ wp (feed 2 [ex_renamed] 3) (λ fd' s', synced fd' s') ex_started.
Proof.
  apply (dtree_follows [ex_a] 2 [ex_renamed] ex_start ex_started 3).
  - split; [apply cache_ok_nil|done].
  - intros H. discriminate H.
  - by apply (ex_tree_ok _ ex_a (bytes "/a/b")).
  - vm_compute. reflexivity.
  - lia.
  - apply ex_world.
Defined.

(** ** What goes wrong *)

(** Moves a directory out of the tree: there is no second event, and the second read is interrupted. *)
Definition ex_moved_out : toy :=
  Toy {[ ex_a := 1%nat ]} {[ 1 := tt; 2 := tt ]} [Event 1 (Z.lor IN_ISDIR IN_MOVED_FROM) 7 16 (bytes "b")].

(** The interrupted read is taken for one that returned -1 bytes, and counted. *)
Lemma eintr_is_counted :
  inotifyReadCnt ex_started = 0 ∧
  inotifyReadCnt (processInotifyEvents 2 3 (set_kern ex_moved_out ex_started)).1 = 2.
Proof. split; vm_compute; reflexivity. Qed.

(** The command [d] without a log file: the next event writes the cache to a null stream. *)
Lemma dump_without_log :
  (bind (main_round 2 3 (Ready (Some [100; 10]) false)) (λ fd, processInotifyEvents 2 fd) (set_kern ex_renamed ex_started)).2 =
    Fail NullFile.
Proof. vm_compute. reflexivity. Qed.

(** The commands that need an argument use an uninitialised buffer when it is missing. *)
Lemma command_without_argument :
  Forall (λ c, (main_round 2 3 (Ready (Some [c; 10]) false) ex_started).2 = Fail Uninitialised) [97; 119; 122].
Proof. repeat constructor. Qed.
