(* ===== verification/ByteOrder.v ===== *)
(** Byte order: the memory of 16- and 32-bit numbers on a little-endian host, and [htons] and
    [htonl]. *)
From stdpp Require Import base tactics numbers list.
From Stdlib Require Import ZArith Lia.
From S2P Require Import Prelude.
Local Open Scope Z_scope.

Definition le16 (x : Z) : list Z := [x mod 256; x / 256 mod 256].
Definition le32 (x : Z) : list Z := [x mod 256; x / 256 mod 256; x / 65536 mod 256; x / 16777216 mod 256].
Fixpoint of_le (l : list Z) : Z :=
  match l with
  | [] => 0
  | c :: l => c + 256 * of_le l
  end.

(** Byte order conversion, both ways. *)
Definition htonl (x : Z) : Z := of_le (rev (le32 x)).
Definition htons (x : Z) : Z := of_le (rev (le16 x)).

Definition byte (x : Z) : Prop := 0 <= x < 256.

Lemma mod_byte x : byte (x mod 256).
Proof. unfold byte. pose proof (Z.mod_pos_bound x 256). lia. Qed.

Lemma le16_of_le a b : byte a → byte b → le16 (of_le [a; b]) = [a; b].
Proof.
  unfold byte, le16, of_le. intros Ha Hb. f_equal; [|f_equal].
  - symmetry. apply (Z.mod_unique_pos _ _ (b + 256 * 0)); lia.
  - replace ((a + 256 * (b + 256 * 0)) / 256) with b by (apply (Z.div_unique_pos _ _ _ a); lia). apply Z.mod_small. lia.
Qed.

Lemma le32_of_le a b c d : byte a → byte b → byte c → byte d → le32 (of_le [a; b; c; d]) = [a; b; c; d].
Proof.
  unfold byte, le32, of_le. intros Ha Hb Hc Hd. set (x := a + _). f_equal; [|f_equal; [|f_equal; [|f_equal]]].
  - symmetry. apply (Z.mod_unique_pos _ _ (b + 256 * (c + 256 * d))); lia.
  - replace (x / 256) with (b + 256 * (c + 256 * d)) by (apply (Z.div_unique_pos _ _ _ a); lia).
    symmetry. apply (Z.mod_unique_pos _ _ (c + 256 * d)); lia.
  - replace (x / 65536) with (c + 256 * d) by (apply (Z.div_unique_pos _ _ _ (a + 256 * b)); lia).
    symmetry. apply (Z.mod_unique_pos _ _ d); lia.
  - replace (x / 16777216) with d by (apply (Z.div_unique_pos _ _ _ (a + 256 * b + 65536 * c)); lia).
    apply Z.mod_small. lia.
Qed.

(** The bytes of a converted number are in network order. *)
Lemma le16_htons x : le16 (htons x) = [x / 256 mod 256; x mod 256].
Proof. unfold htons. cbn [le16 rev app]. apply le16_of_le; apply mod_byte. Qed.
Lemma le32_htonl x : le32 (htonl x) = rev (le32 x).
Proof. unfold htonl. cbn [le32 rev app]. apply le32_of_le; apply mod_byte. Qed.

Lemma of_le32 x : of_le (le32 x) = u32 x.
Proof.
  unfold le32, of_le, u32. apply (Z.mod_unique_pos _ _ (x / 16777216 / 256)).
  - pose proof (mod_byte x). pose proof (mod_byte (x / 256)). pose proof (mod_byte (x / 65536)). pose proof (mod_byte (x / 16777216)).
    unfold byte in *. lia.
  - replace (x / 16777216) with (x / 256 / 256 / 256) by (rewrite !Z.div_div by lia; reflexivity).
    replace (x / 65536) with (x / 256 / 256) by (rewrite !Z.div_div by lia; reflexivity).
    pose proof (Z.div_mod x 256). pose proof (Z.div_mod (x / 256) 256). pose proof (Z.div_mod (x / 256 / 256) 256).
    pose proof (Z.div_mod (x / 256 / 256 / 256) 256). lia.
Qed.

Lemma htonl_htonl x : htonl (htonl x) = u32 x.
Proof. unfold htonl at 1. rewrite le32_htonl, rev_involutive. apply of_le32. Qed.

Lemma of_be16 x : 0 <= x < 65536 → 256 * (x / 256 mod 256) + x mod 256 = x.
Proof. intros Hx. pose proof (Z.div_mod x 256). rewrite (Z.mod_small (x / 256)) by (pose proof (Z.div_lt_upper_bound x 256 256); pose proof (Z.div_pos x 256); lia). lia. Qed.

Lemma htonl_range x : 0 <= htonl x < 2 ^ 32.
Proof.
  unfold htonl. cbn [le32 rev app of_le]. pose proof (mod_byte x). pose proof (mod_byte (x / 256)).
  pose proof (mod_byte (x / 65536)). pose proof (mod_byte (x / 16777216)). unfold byte in *. lia.
Qed.

Lemma of_le16 x : of_le (le16 x) = u16 x.
Proof.
  unfold le16, of_le, u16. apply (Z.mod_unique_pos _ _ (x / 256 / 256)).
  - pose proof (mod_byte x). pose proof (mod_byte (x / 256)). unfold byte in *. lia.
  - pose proof (Z.div_mod x 256). pose proof (Z.div_mod (x / 256) 256). lia.
Qed.
Lemma htons_htons x : htons (htons x) = u16 x.
Proof. unfold htons at 1. rewrite le16_htons. apply of_le16. Qed.
Lemma htons_range x : 0 <= htons x < 2 ^ 16.
Proof.
  unfold htons. cbn [le16 rev app of_le]. pose proof (mod_byte x). pose proof (mod_byte (x / 256)). unfold byte in *. lia.
Qed.
