(* ===== verification/Print.v ===== *)
(** The print command and the routines it shares with the print daemon: apue.3e/printer
    print.h, util.c and print.c.

    Sockets and files are descriptors of Rio.v; a time-out of [select] is an event [Err
    ETIME] of the schedule.  The C structures are records, with the bytes they have on a
    little-endian machine; memory that the code does not initialise before it is sent
    is an argument [garbage].  The resolver and the password file are arguments. *)
From stdpp Require Import base tactics numbers list strings.
From Stdlib Require Import ZArith Lia.
From S2P Require Import Rio.
From S2P Require Import Prelude.
From S2P Require Import ByteOrder.
From S2P Require Import Cio.
Local Open Scope Z_scope.

Definition FILENMSZ : nat := 64.
Definition USERNM_MAX : nat := 64.
Definition JOBNM_MAX : nat := 256.
Definition MSGLEN_MAX : nat := 512.
Definition IPP_PORT : Z := 631.
Definition IBUFSZ : nat := 512.
Definition HBUFSZ : nat := 512.
Definition IOBUFSZ : nat := Z.to_nat 8192.
Definition PR_TEXT : Z := 1.
Definition ETIME : Z := 62.
Definition EIO : Z := 5.

(** ** Representation of the structures *)

Record printreq := Req { size : Z; flags : Z; usernm : list Z; jobnm : list Z }.
Definition sizeof_printreq : nat := 4 + 4 + USERNM_MAX + JOBNM_MAX.
Definition bytes_of_req (r : printreq) : list Z := le32 (size r) ++ le32 (flags r) ++ usernm r ++ jobnm r.
Definition req_of_bytes (b : list Z) : printreq :=
  Req (of_le (take 4 b)) (of_le (take 4 (drop 4 b))) (take USERNM_MAX (drop 8 b)) (take JOBNM_MAX (drop (8 + USERNM_MAX) b)).

Record printresp := Resp { retcode : Z; res_jobid : Z; msg : list Z }.
Definition sizeof_printresp : nat := 4 + 4 + MSGLEN_MAX.
Definition bytes_of_resp (r : printresp) : list Z := le32 (retcode r) ++ le32 (res_jobid r) ++ msg r.
Definition resp_of_bytes (b : list Z) : printresp :=
  Resp (of_le (take 4 b)) (of_le (take 4 (drop 4 b))) (take MSGLEN_MAX (drop 8 b)).

(** [strncpy]: at most [n] characters, padded with zeros. *)
Definition strncpy (s : list Z) (n : nat) : list Z := take n s ++ replicate (n - length s) 0.

(** ** util.c *)

(** The fields of the hints that differ from 0. *)
Record hints := Hints { h_canonname : bool; h_inet : bool; h_stream : bool }.
Definition print_hints : hints := Hints true true true.

Definition getaddrlist {A} (getaddrinfo : list Z → list Z → hints → Z * A) (host service : list Z) : Z * A :=
  getaddrinfo host service print_hints.

Definition MAXCFGLINE : nat := 512.
Definition MAXKWLEN : nat := 16.

(** [fgets]: a line with its newline, or [n - 1] characters of it; the rest of the file. *)
Fixpoint fgets (n : nat) (l : list Z) : list Z * list Z :=
  match n, l with
  | S n, c :: l => if c =? NEWLINE then ([c], l) else let '(a, b) := fgets n l in (c :: a, b)
  | _, _ => ([], l)
  end.

(** [%ns]: white space, then up to [n] other characters; [None] if there are none. *)
Fixpoint nonspace (n : nat) (l : list Z) : list Z * list Z :=
  match n, l with
  | S n, c :: l => if is_space c then ([], c :: l) else let '(a, b) := nonspace n l in (c :: a, b)
  | _, _ => ([], l)
  end.
Definition scan_word (n : nat) (l : list Z) : option (list Z * list Z) :=
  match nonspace n (skip_space l) with
  | ([], _) => None
  | w => Some w
  end.

(** [sscanf(line, "%15s %511s", keybuf, valbuf)] with the result 2. *)
Definition scan_line (line : list Z) : option (list Z * list Z) :=
  match scan_word (MAXKWLEN - 1) (cstr line) with
  | Some (key, l) => match scan_word (MAXCFGLINE - 1) l with Some (v, _) => Some (key, v) | None => None end
  | None => None
  end.

(** The lines of the file, with fuel for their number. *)
Fixpoint config_loop (fuel : nat) (file keyword : list Z) : option (option (list Z)) :=
  match fuel with
  | O => None
  | S fuel =>
      match fgets (MAXCFGLINE - 1) file with
      | ([], _) => Some None
      | (line, file) =>
          match scan_line line with
          | Some (k, v) => if bool_decide (keyword = k) then Some (Some v) else config_loop fuel file keyword
          | None => config_loop fuel file keyword
          end
      end
  end.
Definition scan_configfile (file keyword : list Z) : option (option (list Z)) :=
  config_loop (S (length file)) file keyword.

Definition get_printserver (file : list Z) : option (option (list Z)) := scan_configfile file (bytes "printserver").

(** [None] stands for [NULL]. *)
Definition get_printaddr {A} (getaddrinfo : list Z → list Z → hints → Z * A) (file : list Z) : option (option A) :=
  match scan_configfile file (bytes "printer") with
  | None => None
  | Some None => Some None
  | Some (Some p) =>
      let '(err, ailist) := getaddrlist getaddrinfo p (bytes "ipp") in
      Some (if err =? 0 then Some ailist else None)
  end.

Definition tread (s : io) (n : nat) : io * option (list Z) := read s n.

Fixpoint treadn_loop (fuel : nat) (s : io) (nbytes nleft : nat) (acc : list Z) : option (io * list Z * Z) :=
  match fuel with
  | O => None
  | S fuel =>
      if (0 <? nleft)%nat then
        match tread s nleft with
        | (s, None) => if (nleft =? nbytes)%nat then Some (s, acc, -1) else Some (s, acc, Z.of_nat (nbytes - nleft))
        | (s, Some []) => Some (s, acc, Z.of_nat (nbytes - nleft))
        | (s, Some b) => treadn_loop fuel s nbytes (nleft - length b) (acc ++ b)
        end
      else Some (s, acc, Z.of_nat (nbytes - nleft))
  end.
(** The bytes stored and the value returned. *)
Definition treadn (s : io) (nbytes : nat) : option (io * list Z * Z) :=
  treadn_loop (length (sched s) + 2) s nbytes nbytes [].

(** [connect_retry] of sockets/clconn2.c: what the attempts to create and connect
    a socket give, until one succeeds or the delay passes [MAXSLEEP] seconds. *)
Definition MAXSLEEP : Z := 128.
Inductive attempt {A} := NoSocket | Refused | Connected (a : A).
Arguments attempt A : clear implicits.
Fixpoint connect_loop {A} (fuel : nat) (numsec slept : Z) (l : list (attempt A)) : option (option A * Z) :=
  match fuel with
  | O => None
  | S fuel =>
      if numsec <=? MAXSLEEP then
        match l with
        | Connected a :: _ => Some (Some a, slept)
        | Refused :: l =>
            connect_loop fuel (2 * numsec) (if numsec <=? MAXSLEEP / 2 then slept + numsec else slept) l
        | NoSocket :: _ | [] => Some (None, slept)
        end
      else Some (None, slept)
  end.
(** The connection and the seconds slept. *)
Definition connect_retry {A} (l : list (attempt A)) : option (option A * Z) := connect_loop 9 1 0 l.

(** ** print.c *)

(** The request that [submit_file] sends. *)
Definition request (garbage : printreq) (pw_name : option (list Z)) (nbytes : Z) (text : bool) (fname : list Z) : printreq :=
  Req (htonl (u32 nbytes))
      (if text then htonl PR_TEXT else 0)
      (match pw_name with
       | None => overlay (usernm garbage) (bytes "unknown" ++ [0])
       | Some n => strncpy n (USERNM_MAX - 1) ++ [0]
       end)
      (let len := length fname in
       if (JOBNM_MAX <=? len)%nat then
         bytes "... " ++ take (JOBNM_MAX - 5) (drop (len - JOBNM_MAX + 5) fname) ++ [0]
       else overlay (jobnm garbage) (fname ++ [0])).

(** A read error is not tested: [writen] is called with the length -1. *)
Inductive submitted := JobId (n : Z) | Rejected (m : list Z) | ErrQuit | WriteMinusOne.

Fixpoint send_file (fuel : nat) (fd sock : io) : option (io * option submitted) :=
  match fuel with
  | O => None
  | S fuel =>
      match read fd IOBUFSZ with
      | (_, Some []) => Some (sock, None)
      | (_, None) => Some (sock, Some WriteMinusOne)
      | (fd, Some b) =>
          match Apue.writen sock b with
          | None => None
          | Some (sock, nw) => if nw =? zlen b then send_file fuel fd sock else Some (sock, Some ErrQuit)
          end
      end
  end.

Definition submit_file (garbage : printreq) (pw_name : option (list Z)) (fd sock : io) (fname : list Z)
    (nbytes : Z) (text : bool) : option (io * submitted) :=
  match Apue.writen sock (bytes_of_req (request garbage pw_name nbytes text fname)) with
  | None => None
  | Some (sock, nw) =>
      if nw =? Z.of_nat sizeof_printreq then
        match send_file (length (sched fd) + length (rest fd) + 2) fd sock with
        | None => None
        | Some (sock, Some e) => Some (sock, e)
        | Some (sock, None) =>
            match Apue.readn sock sizeof_printresp with
            | None => None
            | Some (sock, b, nr) =>
                if nr =? Z.of_nat sizeof_printresp then
                  let res := resp_of_bytes b in
                  Some (sock, if retcode res =? 0 then JobId (htonl (res_jobid res)) else Rejected (cstr (msg res)))
                else Some (sock, ErrQuit)
            end
        end
      else Some (sock, ErrQuit)
  end.

(** The loop of [main] over the addresses of the server: the first that answers gets the file. *)
Definition submit_first {A} (submit : A → submitted) (l : list (list (attempt A))) : option (option submitted) :=
  fold_right (λ att r, match connect_retry att with
                       | Some (Some c, _) => Some (Some (submit c))
                       | Some (None, _) => r
                       | None => None
                       end) (Some None) l.
