(* ===== verification/Ipp.v ===== *)
(** The messages between the print daemon and the printer: the IPP and HTTP headers that
    [printer_thread] builds and the response that [printer_status] parses
    (apue.3e/printer/printd.c and ipp.h).

    The daemon's buffers have fixed sizes.  A write behind the end of one is the fault
    [Overrun]; an access outside the buffer of the response is [OutOfBounds]. *)
From stdpp Require Import base tactics numbers list strings.
From Stdlib Require Import ZArith Lia.
From S2P Require Import Rio.
From S2P Require Import Prelude.
From S2P Require Import ByteOrder.
From S2P Require Import Cio.
From S2P Require Import Print.
Local Open Scope Z_scope.

Definition OP_PRINT_JOB : Z := 0x02.
Definition TAG_OPERATION_ATTR : Z := 0x01.
Definition TAG_END_OF_ATTR : Z := 0x03.
Definition TAG_NAMEWOLANG : Z := 0x42.
Definition TAG_URI : Z := 0x45.
Definition TAG_CHARSET : Z := 0x47.
Definition TAG_NATULANG : Z := 0x48.
Definition TAG_MIMETYPE : Z := 0x49.

(** ** The request *)

(** Writes to a buffer of [sz] bytes, behind the bytes [acc] that it holds. *)
Definition put (sz : nat) (acc b : list Z) : option (list Z) :=
  if (length acc + length b <=? sz)%nat then Some (acc ++ b) else None.

(** [strcpy]: the terminating 0 has to fit, and is overwritten by what follows. *)
Definition put_str (sz : nat) (acc s : list Z) : option (list Z) :=
  _ ← put sz acc (s ++ [0]); Some (acc ++ s).

Definition add_option (acc : list Z) (tag : Z) (optname optval : list Z) : option (list Z) :=
  acc ← put IBUFSZ acc [tag];
  acc ← put IBUFSZ acc (le16 (htons (zlen optname)));
  acc ← put_str IBUFSZ acc optname;
  acc ← put IBUFSZ acc (le16 (htons (zlen optval)));
  put_str IBUFSZ acc optval.

(** The string at the start of [mem]; [None] if no 0 ends it. *)
Definition string_at (mem : list Z) : option (list Z) := if bool_decide (0 ∈ mem) then Some (cstr mem) else None.

(** [sprintf(str, "http://%s/ipp", printer_name)], with [char str[64]]. *)
Definition printer_uri (printer_name : list Z) : option (list Z) :=
  put_str 64 [] (bytes "http://" ++ printer_name ++ bytes "/ipp").

Definition document_format (r : printreq) : list Z :=
  if Z.land (flags r) PR_TEXT =? 0 then bytes "application/postscript" else bytes "text/plain".

(** The IPP header.  A user name without a terminating 0 goes on into the job name, which
    is behind it in the structure. *)
Definition ipp_header (jobid : Z) (r : printreq) (printer_name : list Z) : option (list Z) :=
  let icp := [1; 1] ++ le16 (htons OP_PRINT_JOB) ++ le32 (htonl (u32 jobid)) in
  icp ← put IBUFSZ icp [TAG_OPERATION_ATTR];
  icp ← add_option icp TAG_CHARSET (bytes "attributes-charset") (bytes "utf-8");
  icp ← add_option icp TAG_NATULANG (bytes "attributes-natural-language") (bytes "en-us");
  str ← printer_uri printer_name;
  icp ← add_option icp TAG_URI (bytes "printer-uri") str;
  user ← string_at (usernm r ++ jobnm r);
  icp ← add_option icp TAG_NAMEWOLANG (bytes "requesting-user-name") user;
  name ← string_at (jobnm r);
  icp ← add_option icp TAG_NAMEWOLANG (bytes "job-name") name;
  icp ← add_option icp TAG_MIMETYPE (bytes "document-format") (document_format r);
  put IBUFSZ icp [TAG_END_OF_ATTR].

Definition CRLF : list Z := [13; 10].

Definition http_header (st_size ilen extra : Z) (printer_name : list Z) : option (list Z) :=
  hcp ← put_str HBUFSZ [] (bytes "POST /ipp HTTP/1.1" ++ CRLF);
  hcp ← put_str HBUFSZ hcp (bytes "Content-Length: " ++ dec (st_size + ilen + extra) ++ CRLF);
  hcp ← put_str HBUFSZ hcp (bytes "Content-Type: application/ipp" ++ CRLF);
  hcp ← put_str HBUFSZ hcp (bytes "Host: " ++ printer_name ++ bytes ":" ++ dec IPP_PORT ++ CRLF);
  put HBUFSZ hcp CRLF.

(** ** The response *)

Inductive pfault := OutOfBounds | NoFuel.

(** The connection and the buffer, which [malloc] and [realloc] leave uninitialised. *)
Record pstate := PState { conn : io; bp : list Z }.
Abbreviation PM := (M pstate pfault).

Definition rd (i : nat) : PM Z := λ s, match bp s !! i with Some c => (s, Done c) | None => (s, Fail OutOfBounds) end.
Definition wr (i : nat) (c : Z) : PM unit := λ s,
  if (i <? length (bp s))%nat then (PState (conn s) (<[i := c]> (bp s)), Done tt) else (s, Fail OutOfBounds).

(** [tread(sfd, &bp[off], n, _)]: [None] stands for -1. *)
Definition tread_at (off n : nat) : PM (option nat) := λ s,
  match tread (conn s) n with
  | (c, None) => (PState c (bp s), Done None)
  | (c, Some b) => (PState c (take off (bp s) ++ b ++ drop (off + length b) (bp s)), Done (Some (length b)))
  end.

(** [None] stands for -1. *)
Definition readmore (garbage : list Z) (off : nat) : PM (option nat) :=
  modify (λ s, if (length (bp s) <=? off)%nat then PState (conn s) (bp s ++ garbage) else s);;;
  let! s := get in
  let! nr := tread_at off (length (bp s) - off) in
  ret (match nr with Some (S n) => Some (off + S n)%nat | _ => None end).

(** [while (p( *cp)) cp++] *)
Fixpoint skip_while (fuel : nat) (p : Z → bool) (i : nat) : PM nat :=
  match fuel with
  | O => fail NoFuel
  | S fuel => let! c := rd i in if p c then skip_while fuel p (S i) else ret i
  end.

Definition lower (c : Z) : Z := if (65 <=? c) && (c <=? 90) then c + 32 else c.

(** [strncasecmp(cp, t, strlen(t)) == 0] *)
Fixpoint casecmp (t : list Z) (i : nat) : PM bool :=
  match t with
  | [] => ret true
  | c :: t => let! x := rd i in if lower x =? lower c then casecmp t (S i) else ret false
  end.

(** [atoi] of the digits from [i] to [j]. *)
Definition digits_at (i j : nat) : PM Z := gets (λ s, atol (take (j - i) (drop i (bp s)))).

(** [while ( *cp != 'C' && *cp != 'c' && i < datsz) ...] *)
Fixpoint find_c (fuel : nat) (i datsz : nat) : PM nat :=
  match fuel with
  | O => fail NoFuel
  | S fuel =>
      let! c := rd i in
      if (c =? 67) || (c =? 99) || (datsz <=? i)%nat then ret i else find_c fuel (S i) datsz
  end.

(** Get more of the response when [i >= datsz]; the count returned by [readmore] includes
    the offset.  [None] is the jump to [out]. *)
Definition more (garbage : list Z) (i datsz : nat) : PM (option nat) :=
  if (datsz <=? i)%nat then
    let! nr := readmore garbage i in
    ret (match nr with Some n => Some (datsz + n)%nat | None => None end)
  else ret (Some datsz).

(** The search for the length of the contents: where it ends, [datsz], and the length. *)
Fixpoint find_length (fuel : nat) (garbage : list Z) (i datsz : nat) : PM (option (nat * nat * Z)) :=
  match fuel with
  | O => fail NoFuel
  | S fuel' =>
      let! i := find_c fuel i datsz in
      let! d := more garbage i datsz in
      match d with
      | None => ret None
      | Some datsz =>
          let! eq := casecmp (bytes "Content-Length:") i in
          if eq : bool then
            let! contentlen := skip_while fuel is_space (i + 15) in
            let! j := skip_while fuel is_digit contentlen in
            wr j 0;;;
            let! len := digits_at contentlen j in
            ret (Some (S j, datsz, len))
          else find_length fuel' garbage (S i) datsz
      end
  end.

(** [while (i < datsz - 2)]: whether the end of the header was found, and where. *)
Fixpoint scan_end (fuel : nat) (i datsz : nat) : PM (bool * nat) :=
  match fuel with
  | O => fail NoFuel
  | S fuel =>
      if (Z.of_nat i <? Z.of_nat datsz - 2) then
        let! a := rd i in
        let! b := if a =? 10 then rd (i + 1) else ret 0 in
        let! c := if (a =? 10) && (b =? 13) then rd (i + 2) else ret 0 in
        if (a =? 10) && (b =? 13) && (c =? 10) then ret (true, (i + 3)%nat) else scan_end fuel (S i) datsz
      else ret (false, i)
  end.

Fixpoint find_end (fuel : nat) (garbage : list Z) (i datsz : nat) : PM (option (nat * nat)) :=
  match fuel with
  | O => fail NoFuel
  | S fuel' =>
      let! r := scan_end fuel i datsz in
      let! d := more garbage r.2 datsz in
      match d with
      | None => ret None
      | Some datsz => if r.1 : bool then ret (Some (r.2, datsz)) else find_end fuel' garbage r.2 datsz
      end
  end.

(** The status and the request of the IPP header at [i], and whether the job succeeded. *)
Definition ipp_status (i : nat) (jobid : Z) : PM bool :=
  let! s := get in
  let st := htons (of_le (take 2 (drop (i + 2) (bp s)))) in
  let rq := i32 (htonl (of_le (take 4 (drop (i + 4) (bp s))))) in
  let! _ := rd (i + 7) in
  ret (bool_decide (rq = jobid) && (st <=? 0xff)).

(** A successful HTTP response: the rest of the header, and the IPP response. *)
Definition http_success (fuel : nat) (garbage : list Z) (i datsz : nat) (jobid : Z) : PM bool :=
  let! r := find_length fuel garbage i datsz in
  match r with
  | None => ret false
  | Some (i, datsz, len) =>
      let! d := more garbage i datsz in
      match d with
      | None => ret false
      | Some datsz =>
          let! r := find_end fuel garbage i datsz in
          match r with
          | None => ret false
          | Some (i, datsz) =>
              if Z.of_nat datsz - Z.of_nat i <? len then
                let! nr := readmore garbage i in
                match nr with None => ret false | Some _ => ipp_status i jobid end
              else ipp_status i jobid
          end
      end
  end.

Definition HTTP_INFO (x : Z) : bool := (100 <=? x) && (x <=? 199).
Definition HTTP_SUCCESS (x : Z) : bool := (200 <=? x) && (x <=? 299).

(** [None] for [continue]; the result otherwise. *)
Definition one_response (fuel : nat) (garbage : list Z) (datsz : nat) (jobid : Z) : PM (option bool) :=
  let! statcode := skip_while fuel is_space 8 in
  let! cp := skip_while fuel is_digit statcode in
  if (cp =? statcode)%nat then ret None
  else
    wr cp 0;;;
    let! cp' := skip_while fuel (λ c, negb ((c =? 13) || (c =? 10))) (S cp) in
    wr cp' 0;;;
    let! code := digits_at statcode cp in
    if HTTP_INFO code then ret None
    else if negb (HTTP_SUCCESS code) then wr datsz 0;;; ret (Some false)
    else let! r := http_success fuel garbage cp' datsz jobid in ret (Some r).

Fixpoint status_loop (fuel : nat) (garbage : list Z) (jobid : Z) : PM bool :=
  match fuel with
  | O => fail NoFuel
  | S fuel' =>
      let! s := get in
      let! nr := tread_at 0 (length (bp s)) in
      match nr with
      | Some (S n) =>
          let! r := one_response fuel garbage (S n) jobid in
          match r with
          | None => status_loop fuel' garbage jobid
          | Some b => ret b
          end
      | _ => ret false
      end
  end.

(** [garbage] is what [malloc] and [realloc] put in [IOBUFSZ] new bytes. *)
Definition printer_status (fuel : nat) (garbage : list Z) (sfd : io) (jobid : Z) : outcome pfault bool :=
  (status_loop fuel garbage jobid (PState sfd garbage)).2.
