(* ===== verification/Printd.v ===== *)
(** The print daemon, apue.3e/printer/printd.c: the queue of jobs, the numbers of jobs, the
    spool directory, the worker threads and the printer thread.

    Structures that the code allocates live in heaps from addresses to records; an access
    to an address without a record is the fault [BadPointer].  The spool directory maps
    names to contents.  What the file calls do is a schedule of events as in Rio.v: one
    event per call, success if there is none left.  [strerror], the resolver, and the
    contents of uninitialised memory are arguments. *)
From stdpp Require Import base tactics numbers list strings gmap fin_sets.
From Stdlib Require Import ZArith Lia.
From S2P Require Import Rio.
From S2P Require Import Prelude.
From S2P Require Import ByteOrder.
From S2P Require Import Cio.
From S2P Require Import Print.
From S2P Require Import Ipp.
Local Open Scope Z_scope.

Definition NULL : Z := 0.

Record job := Job { next : Z; prev : Z; jobid : Z; req : printreq }.
Record worker_thread := Worker { w_next : Z; w_prev : Z; w_tid : Z; w_sockfd : Z }.

(** File names in the directories [DATADIR] and [REQDIR] of the spool directory. *)
Abbreviation filename := (list Z) (only parsing).
Inductive dir := DATADIR | REQDIR.

Record queue := Queue { heap : gmap Z job; jobhead : Z; jobtail : Z }.
Record pool := Pool { wheap : gmap Z worker_thread; workers : Z }.
Record spool := Spool { data : gmap filename (list Z); reqs : gmap filename (list Z); jobno : file }.
Record server := Server {
  jobs : queue;
  threads : pool;
  disk : spool;
  nextjob : Z;
  socks : gmap Z io       (** the open client sockets *);
  reread : bool;
  printer_name : list Z;
  sys : list event        (** what the next file calls do *) }.

Inductive fault := Exit (code : Z) | BadPointer | Overrun | Response (f : pfault) | Exhausted.
Abbreviation SM := (M server fault).

Definition set_jobs q s := Server q (threads s) (disk s) (nextjob s) (socks s) (reread s) (printer_name s) (sys s).
Definition set_threads p s := Server (jobs s) p (disk s) (nextjob s) (socks s) (reread s) (printer_name s) (sys s).
Definition set_disk d s := Server (jobs s) (threads s) d (nextjob s) (socks s) (reread s) (printer_name s) (sys s).
Definition set_nextjob n s := Server (jobs s) (threads s) (disk s) n (socks s) (reread s) (printer_name s) (sys s).
Definition set_socks k s := Server (jobs s) (threads s) (disk s) (nextjob s) k (reread s) (printer_name s) (sys s).
Definition set_config r n s := Server (jobs s) (threads s) (disk s) (nextjob s) (socks s) r n (sys s).
Definition set_sys e s := Server (jobs s) (threads s) (disk s) (nextjob s) (socks s) (reread s) (printer_name s) e.

(** ** Files *)

Definition files (d : dir) (p : spool) : gmap filename (list Z) := match d with DATADIR => data p | REQDIR => reqs p end.
Definition set_files (d : dir) (m : gmap filename (list Z)) (p : spool) : spool :=
  match d with DATADIR => Spool m (reqs p) (jobno p) | REQDIR => Spool (data p) m (jobno p) end.
Definition on_files (d : dir) (f : gmap filename (list Z) → gmap filename (list Z)) (s : server) : server :=
  set_disk (set_files d (f (files d (disk s))) (disk s)) s.

Definition event_of (l : list event) : option event * list event :=
  match l with [] => (None, []) | e :: l => (Some e, l) end.
Definition draw : SM (option event) := λ s, let '(e, l) := event_of (sys s) in (set_sys l s, Done e).

(** Whether a call succeeds, or its [errno]. *)
Definition call : SM (option Z) :=
  let! e := draw in
  ret (match e with Some Intr => Some EINTR | Some (Err e) => Some e | _ => None end).

Definition creat (d : dir) (n : filename) : SM (option Z) :=
  let! e := call in
  match e with None => modify (on_files d (λ m, <[n := []]> m));;; ret None | Some e => ret (Some e) end.
Definition unlink (d : dir) (n : filename) : SM unit := modify (on_files d (delete n)).

(** [write]: the number of bytes, or [errno]. *)
Definition write_file (d : dir) (n : filename) (b : list Z) : SM (nat + Z) :=
  let! e := draw in
  match e with
  | Some Intr => ret (inr EINTR)
  | Some (Err e) => ret (inr e)
  | None => modify (on_files d (λ m, <[n := default [] (m !! n) ++ b]> m));;; ret (inl (length b))
  | Some (Part k) =>
      modify (on_files d (λ m, <[n := default [] (m !! n) ++ take k b]> m));;; ret (inl (Nat.min k (length b)))
  end.

(** A call on a socket; [None] if it is not open. *)
Definition on_sock {A} (fd : Z) (f : io → io * A) : SM (option A) := λ s,
  match socks s !! fd with
  | Some k => let '(k, a) := f k in (set_socks (<[fd := k]> (socks s)) s, Done (Some a))
  | None => (s, Done None)
  end.
Definition EBADF : Z := 9.

(** ** Job numbers *)

(** [garbage] is the array [name] behind the bytes read: the path it held before. *)
Definition init_request (already_running : bool) : SM unit :=
  if already_running then fail (Exit 1)
  else
    let path := bytes "/var/spool/printer/jobno" ++ [0] in
    let! s := get in
    let '(f, b) := fread (jobno (disk s)) (Z.of_nat FILENMSZ) in
    let! e := call in
    match e with
    | Some _ => fail (Exit 1)
    | None =>
        modify (λ s, set_disk (Spool (data (disk s)) (reqs (disk s)) f) s);;;
        modify (set_nextjob (if zlen b =? 0 then 1 else i32 (atol (cstr (overlay path b)))))
    end.

Definition update_jobno : SM unit :=
  let! s := get in
  let b := dec (nextjob s) in
  let f := (lseek (jobno (disk s)) 0 SEEK_SET).1 in
  let! e := draw in
  let store b := modify (λ s, set_disk (Spool (data (disk s)) (reqs (disk s)) (fwrite f b)) s) in
  match e with
  | Some Intr | Some (Err _) => fail (Exit 1)
  | Some (Part k) => store (take k b)
  | None => store b
  end.

Definition get_newjobno : SM Z :=
  let! jobid := gets nextjob in
  let n := i32 (jobid + 1) in
  modify (set_nextjob (if n <=? 0 then 1 else n));;;
  ret jobid.

(** ** The list of jobs *)

Definition malloc {A} (h : gmap Z A) : Z := fresh ({[NULL]} ∪ dom h : gset Z).

Definition load (p : Z) : SM job := λ s,
  match heap (jobs s) !! p with Some j => (s, Done j) | None => (s, Fail BadPointer) end.
Definition set_heap h q := Queue h (jobhead q) (jobtail q).
Definition store (p : Z) (j : job) : SM unit := modify (λ s, set_jobs (set_heap (<[p := j]> (heap (jobs s))) (jobs s)) s).
Definition set_next (p v : Z) : SM unit := let! j := load p in store p (Job v (prev j) (jobid j) (req j)).
Definition set_prev (p v : Z) : SM unit := let! j := load p in store p (Job (next j) v (jobid j) (req j)).
Definition set_head (p : Z) : SM unit := modify (λ s, set_jobs (Queue (heap (jobs s)) p (jobtail (jobs s))) s).
Definition set_tail (p : Z) : SM unit := modify (λ s, set_jobs (Queue (heap (jobs s)) (jobhead (jobs s)) p) s).
Definition free_job (p : Z) : SM unit :=
  let! _ := load p in modify (λ s, set_jobs (set_heap (delete p (heap (jobs s))) (jobs s)) s).

Definition add_job (reqp : printreq) (id : Z) : SM unit :=
  let! s := get in
  let jp := malloc (heap (jobs s)) in
  store jp (Job NULL (jobtail (jobs s)) id reqp);;;
  (if jobtail (jobs s) =? NULL then set_head jp else set_next (jobtail (jobs s)) jp);;;
  set_tail jp.

Definition replace_job (jp : Z) : SM unit :=
  let! s := get in
  let h := jobhead (jobs s) in
  set_prev jp NULL;;;
  set_next jp h;;;
  (if h =? NULL then set_tail jp else set_prev h jp);;;
  set_head jp.

Definition remove_job (target : Z) : SM unit :=
  let! t := load target in
  (if next t =? NULL then set_tail (prev t) else set_prev (next t) (prev t));;;
  let! t := load target in
  (if prev t =? NULL then set_head (next t) else set_next (prev t) (next t)).

(** ** Start *)

(** ["%s/%s/%s"] of the spool directory, a directory in it, and a name, in [FILENMSZ] bytes. *)
Definition path_fits (n : filename) : bool := (24 + length n + 1 <=? FILENMSZ)%nat.

(** The entries of [REQDIR] other than . and .., in the order of the directory. *)
Fixpoint build_qonstart (entries : list filename) : SM unit :=
  match entries with
  | [] => ret tt
  | n :: entries =>
      if path_fits n then
        let! o := call in
        match o with
        | Some _ => build_qonstart entries
        | None =>
            let! s := get in
            let! e := draw in
            let b := take sizeof_printreq (default [] (reqs (disk s) !! n)) in
            let b := match e with None => Some b | Some (Part k) => Some (take k b) | _ => None end in
            match b with
            | Some b =>
                if (length b =? sizeof_printreq)%nat then
                  add_job (req_of_bytes b) (i32 (atol n));;; build_qonstart entries
                else unlink REQDIR n;;; unlink DATADIR n;;; build_qonstart entries
            | None => unlink REQDIR n;;; unlink DATADIR n;;; build_qonstart entries
            end
        end
      else fail Overrun
  end.

(** ** Worker threads *)

Definition wload (p : Z) : SM worker_thread := λ s,
  match wheap (threads s) !! p with Some w => (s, Done w) | None => (s, Fail BadPointer) end.
Definition wstore (p : Z) (w : worker_thread) : SM unit :=
  modify (λ s, set_threads (Pool (<[p := w]> (wheap (threads s))) (workers (threads s))) s).
Definition set_workers (p : Z) : SM unit := modify (λ s, set_threads (Pool (wheap (threads s)) p) s).

Definition add_worker (tid sockfd : Z) : SM unit :=
  let! s := get in
  let wtp := malloc (wheap (threads s)) in
  let w := workers (threads s) in
  wstore wtp (Worker w NULL tid sockfd);;;
  if w =? NULL then set_workers wtp
  else let! f := wload w in wstore w (Worker (w_next f) wtp (w_tid f) (w_sockfd f)).

(** The threads that are cancelled. *)
Fixpoint kill_loop (fuel : nat) (wtp : Z) : SM (list Z) :=
  match fuel with
  | O => fail Exhausted
  | S fuel =>
      if wtp =? NULL then ret []
      else let! w := wload wtp in let! l := kill_loop fuel (w_next w) in ret (w_tid w :: l)
  end.
Definition kill_workers (fuel : nat) : SM (list Z) := let! s := get in kill_loop fuel (workers (threads s)).

Fixpoint find_worker (fuel : nat) (tid wtp : Z) : SM Z :=
  match fuel with
  | O => fail Exhausted
  | S fuel =>
      if wtp =? NULL then ret NULL
      else let! w := wload wtp in if w_tid w =? tid then ret wtp else find_worker fuel tid (w_next w)
  end.

Definition client_cleanup (fuel : nat) (tid : Z) : SM unit :=
  let! s := get in
  let! wtp := find_worker fuel tid (workers (threads s)) in
  if wtp =? NULL then ret tt
  else
    let! w := wload wtp in
    (if w_next w =? NULL then ret tt
     else let! n := wload (w_next w) in wstore (w_next w) (Worker (w_next n) (w_prev w) (w_tid n) (w_sockfd n)));;;
    (if w_prev w =? NULL then set_workers (w_next w)
     else let! p := wload (w_prev w) in wstore (w_prev w) (Worker (w_next w) (w_prev p) (w_tid p) (w_sockfd p)));;;
    modify (λ s, set_socks (delete (w_sockfd w) (socks s)) s);;;
    modify (λ s, set_threads (Pool (delete wtp (wheap (threads s))) (workers (threads s))) s).

(** ** A client *)

Section client.
Variable strerror : Z → list Z.
(** The contents of the arrays [res.msg] and [buf] of [client_thread] at its start. *)
Variables msg_garbage buf_garbage : list Z.

Definition send (sockfd : Z) (res : printresp) : SM unit :=
  let! r := on_sock sockfd (λ k, match Apue.writen k (bytes_of_resp res) with
                                 | Some (k, n) => (k, Some n)
                                 | None => (k, None)
                                 end) in
  match r with Some None => fail Exhausted | _ => ret tt end.

(** The answers that report an error: [strerror] is applied to the converted number. *)
Definition reject (sockfd e : Z) : SM unit :=
  send sockfd (Resp (htonl e) 0 (strncpy (strerror (htonl e)) MSGLEN_MAX)).

(** The request header, and the number of the job.  [None]: the thread has answered and exits. *)
Definition client_number (sockfd : Z) : SM (option (Z * printreq)) :=
  let! r := on_sock sockfd (λ k, match treadn k sizeof_printreq with
                                 | Some (k, b, n) => (k, Some (b, n, errno k))
                                 | None => (k, None)
                                 end) in
  match r with
  | Some None => fail Exhausted
  | None => reject sockfd EBADF;;; ret None
  | Some (Some (b, n, e)) =>
      if n =? Z.of_nat sizeof_printreq then
        let r := req_of_bytes b in
        let! id := get_newjobno in
        ret (Some (id, Req (htonl (size r)) (htonl (flags r)) (usernm r) (jobnm r)))
      else reject sockfd (if n <? 0 then e else EIO);;; ret None
  end.

Definition is_postscript (buf : list Z) : bool := bool_decide (take 4 buf = bytes "%!PS").

(** The loop that spools the data: the flags, or the error of a write. *)
Fixpoint spool_loop (fuel : nat) (sockfd : Z) (name : filename) (first : bool) (flags : Z) : SM (Z + Z) :=
  match fuel with
  | O => fail Exhausted
  | S fuel =>
      let! r := on_sock sockfd (λ k, tread k IOBUFSZ) in
      match r with
      | Some (Some (c :: b)) =>
          let flags := if first && negb (is_postscript (overlay buf_garbage (c :: b)))
                       then Z.lor flags PR_TEXT else flags in
          let! w := write_file DATADIR name (c :: b) in
          match w with
          | inl n => if (n =? length (c :: b))%nat then spool_loop fuel sockfd name false flags else ret (inr EIO)
          | inr e => ret (inr e)
          end
      | _ => ret (inl flags)
      end
  end.

(** From the creation of the data file to the answer: the request as stored. *)
Definition client_spool (sockfd id : Z) (r : printreq) : SM (option printreq) :=
  let name := dec id in
  let! e := creat DATADIR name in
  match e with
  | Some e => reject sockfd e;;; ret None
  | None =>
      let! s := get in
      let fuel := match socks s !! sockfd with Some k => (length (sched k) + length (rest k) + 2)%nat | None => 1%nat end in
      let! f := spool_loop fuel sockfd name true (flags r) in
      match f with
      | inr e => reject sockfd e;;; unlink DATADIR name;;; ret None
      | inl fl =>
          let r := Req (size r) fl (usernm r) (jobnm r) in
          let! e := creat REQDIR name in
          match e with
          | Some e => reject sockfd e;;; unlink DATADIR name;;; ret None
          | None =>
              let! w := write_file REQDIR name (bytes_of_req r) in
              let err e := reject sockfd e;;; unlink REQDIR name;;; unlink DATADIR name;;; ret None in
              match w with
              | inr e => err e
              | inl n =>
                  if (n =? sizeof_printreq)%nat then
                    send sockfd (Resp 0 (htonl (u32 id)) (overlay msg_garbage (bytes "request ID " ++ dec id ++ [0])));;;
                    ret (Some r)
                  else err EIO
              end
          end
      end
  end.

(** The work of the thread: its value is 0, or 1 after an error. *)
Definition client_body (sockfd : Z) : SM Z :=
  let! n := client_number sockfd in
  match n with
  | None => ret 1
  | Some (id, r) =>
      let! r := client_spool sockfd id r in
      match r with None => ret 1 | Some r => add_job r id;;; ret 0 end
  end.

(** The cleanup handler runs in both cases. *)
Definition client_thread (fuel : nat) (tid sockfd : Z) : SM Z :=
  add_worker tid sockfd;;;
  let! rc := client_body sockfd in
  client_cleanup fuel tid;;; ret rc.

End client.

(** ** The signal thread *)

Definition SIGHUP : Z := 1.
Definition SIGTERM : Z := 15.

Definition signal_thread (fuel : nat) (signo : Z) : SM unit :=
  if signo =? SIGHUP then modify (λ s, set_config true (printer_name s) s)
  else if signo =? SIGTERM then kill_workers fuel;;; fail (Exit 0)
  else kill_workers fuel;;; fail (Exit 1).

(** ** The printer thread *)

(** [addr] is the canonical name in the result of [get_printaddr]. *)
Definition init_printer (addr : option (option (list Z))) : SM unit :=
  match addr with
  | None => fail (Exit 1)
  | Some n => modify (λ s, set_config (reread s) (default (bytes "printer") n) s)
  end.

(** The first part of a round: the job that is picked, or [NULL] while the list is empty. *)
Definition pick_job : SM Z :=
  let! s := get in
  let jp := jobhead (jobs s) in
  if jp =? NULL then ret NULL
  else remove_job jp;;; update_jobno;;; ret jp.

(** What the printer does in a round: the result of the resolver, if it is asked, the
    attempts to connect, and the connection, with separate schedules for the two
    directions. *)
Record printer := Printer { resolved : option (option (list Z)); attempts : list (attempt unit); to_printer : io; from_printer : io }.

(** [writev]: the number of bytes written. *)
Definition writev (k : io) (b : list Z) : io * Z :=
  match write k b with (k, Some n) => (k, Z.of_nat n) | (k, None) => (k, -1) end.

(** [while ((nr = read(fd, buf, IOBUFSZ)) > 0)] and the test of [nr] after it: whether the
    whole file was sent. *)
Fixpoint send_data (fuel : nat) (fd k : io) : option (io * bool) :=
  match fuel with
  | O => None
  | S fuel =>
      match read fd IOBUFSZ with
      | (_, None) => Some (k, false)
      | (_, Some []) => Some (k, true)
      | (fd, Some b) =>
          match Apue.writen k b with
          | None => None
          | Some (k, nw) => if nw =? zlen b then send_data fuel fd k else Some (k, false)
          end
      end
  end.

(** The bytes sent for a job, and whether all of them were; [None] is a buffer overrun. *)
Definition send_job (j : job) (name : list Z) (file : list Z) (fd k : io) : option (option (io * bool)) :=
  ibuf ← ipp_header (jobid j) (req j) name;
  let text := negb (Z.land (flags (req j)) PR_TEXT =? 0) in
  hbuf ← http_header (zlen file) (zlen ibuf) (if text then 1 else 0) name;
  let '(k, n) := writev k (hbuf ++ ibuf) in
  if n =? zlen (hbuf ++ ibuf) then
    if text then
      match write k [8] with
      | (k, Some 1%nat) => Some (send_data (length (sched fd) + length (rest fd) + 2) fd k)
      | (k, _) => Some (Some (k, false))
      end
    else Some (send_data (length (sched fd) + length (rest fd) + 2) fd k)
  else Some (Some (k, false)).

Inductive verdict := Printed | Cancelled | Deferred.

(** The rest of the round; the buffer [garbage] is that of [printer_status]. *)
Definition print_job (fuel : nat) (garbage : list Z) (p : printer) (fd_sched : list event) (jp : Z) : SM verdict :=
  let! s := get in
  (if reread s then
     modify (set_config false []);;; init_printer (resolved p)
   else ret tt);;;
  let! j := load jp in
  let name := dec (jobid j) in
  let! s := get in
  let! o := call in
  match o, data (disk s) !! name with
  | None, Some file =>
      let! st := call in
      match st with
      | Some _ => free_job jp;;; ret Cancelled
      | None =>
          let defer := replace_job jp;;; ret Deferred in
          match connect_retry (attempts p) with
          | None => fail Exhausted
          | Some (None, _) => defer
          | Some (Some _, _) =>
              match send_job j (printer_name s) file (Io file [] fd_sched 0) (to_printer p) with
              | None => fail Overrun
              | Some None => fail Exhausted
              | Some (Some (_, false)) => defer
              | Some (Some (_, true)) =>
                  match printer_status fuel garbage (from_printer p) (jobid j) with
                  | Fail e => fail (Response e)
                  | Done true => unlink DATADIR name;;; unlink REQDIR name;;; free_job jp;;; ret Printed
                  | Done false => defer
                  end
              end
          end
      end
  | _, _ => free_job jp;;; ret Cancelled
  end.

(** The rounds of the printer thread, until the list is empty: the jobs and their fates. *)
Fixpoint printer_thread (fuel : nat) (garbage : list Z) (ps : list (printer * list event)) : SM (list (Z * verdict)) :=
  match ps with
  | [] => ret []
  | (p, fs) :: ps =>
      let! jp := pick_job in
      if jp =? NULL then ret []
      else
        let! j := load jp in
        let! v := print_job fuel garbage p fs jp in
        let! l := printer_thread fuel garbage ps in
        ret ((jobid j, v) :: l)
  end.

(** [main], up to the start of the threads: the state of a new process, the number, the
    printer, and the jobs left in the spool directory. *)
Definition new_process (d : spool) (ev : list event) : server :=
  Server (Queue ∅ NULL NULL) (Pool ∅ NULL) (Spool (data d) (reqs d) (File (fdata (jobno d)) 0)) 0 ∅ false [] ev.

Definition start (already_running : bool) (addr : option (option (list Z))) (entries : list filename) : SM unit :=
  init_request already_running;;;
  init_printer addr;;;
  build_qonstart entries.
