(* ===== verification/PrintdThms.v ===== *)
(** The queue, the spool directory and the clients of the print daemon: the representation
    of the list of jobs, and what each function does to it and to the files, whatever the
    system calls do. *)
From stdpp Require Import base tactics numbers list strings gmap fin_sets.
From Stdlib Require Import ZArith Lia.
From S2P Require Import Rio.
From S2P Require Import Prelude.
From S2P Require Import ByteOrder.
From S2P Require Import Cio.
From S2P Require Import Print.
From S2P Require Import Ipp.
From S2P Require Import Printd.
From S2P Require Import RioProps.
Local Open Scope Z_scope.

(** ** The list of jobs *)

(** A list element: its address, the number and the request. *)
Definition entry : Type := Z * (Z * printreq).

(** The nodes from [p] to the pointer [e], the node before the first being [prv] and the last
    [tl]. *)
Fixpoint seg (h : gmap Z job) (prv p : Z) (l : list entry) (tl e : Z) : Prop :=
  match l with
  | [] => p = e ∧ tl = prv
  | (a, (id, r)) :: l => p = a ∧ a ≠ NULL ∧ ∃ n, h !! a = Some (Job n prv id r) ∧ seg h a n l tl e
  end.

Record queue_ok (q : queue) (l : list entry) : Prop := QueueOk {
  qo_seg : seg (heap q) NULL (jobhead q) l (jobtail q) NULL;
  qo_nodup : NoDup l.*1 }.

Lemma seg_app h prv p l1 l2 tl e :
  seg h prv p (l1 ++ l2) tl e ↔ ∃ t m, seg h prv p l1 t m ∧ seg h t m l2 tl e.
Proof.
  revert prv p. induction l1 as [|[a [id r]] l1 IH]; intros prv p; cbn.
  - naive_solver.
  - split.
    + intros (-> & Ha & n & Hn & (t & m & H1 & H2)%IH). eauto 10.
    + intros (t & m & (-> & Ha & n & Hn & H1) & H2). split_and!; [done..|]. exists n. split; [done|]. apply IH. eauto.
Qed.

Lemma seg_frame h prv p l tl e a j : a ∉ l.*1 → seg h prv p l tl e → seg (<[a := j]> h) prv p l tl e.
Proof.
  revert prv p. induction l as [|[b [id r]] l IH]; intros prv p Ha; cbn; [done|].
  rewrite fmap_cons, not_elem_of_cons in Ha. destruct Ha as [Hab Ha]. intros (-> & Hb & n & Hn & H).
  split_and!; [done..|]. exists n. rewrite lookup_insert_ne by done. auto.
Qed.

Lemma seg_frame_delete h prv p l tl e a : a ∉ l.*1 → seg h prv p l tl e → seg (delete a h) prv p l tl e.
Proof.
  revert prv p. induction l as [|[b [id r]] l IH]; intros prv p Ha; cbn; [done|].
  rewrite fmap_cons, not_elem_of_cons in Ha. destruct Ha as [Hab Ha]. intros (-> & Hb & n & Hn & H).
  split_and!; [done..|]. exists n. rewrite lookup_delete_ne by done. auto.
Qed.

Lemma seg_mem h prv p l tl e a : seg h prv p l tl e → a ∈ l.*1 → a ≠ NULL ∧ is_Some (h !! a).
Proof.
  revert prv p. induction l as [|[b [id r]] l IH]; intros prv p; cbn; [by intros _ ?%elem_of_nil|].
  intros (-> & Hb & n & Hn & H) [->|?]%elem_of_cons; eauto.
Qed.

(** The pointer behind the last node is the first one's predecessor, or that of a node. *)
Lemma seg_last h prv p l tl e : seg h prv p l tl e → l = [] ∧ p = e ∧ tl = prv ∨
  ∃ l' x, l = l' ++ [(tl, x)] ∧ tl ≠ NULL.
Proof.
  destruct l as [|[a [id r]] l] using rev_ind; cbn; [naive_solver|].
  intros (t & m & _ & -> & Ha & n & _ & -> & ->)%seg_app. right. eauto.
Qed.

Lemma seg_set_next h prv p l tl id r e e' :
  NoDup (l ++ [(tl, (id, r))]).*1 → seg h prv p (l ++ [(tl, (id, r))]) tl e →
  ∃ pv, h !! tl = Some (Job e pv id r) ∧ seg (<[tl := Job e' pv id r]> h) prv p (l ++ [(tl, (id, r))]) tl e'.
Proof.
  rewrite fmap_app, NoDup_app. intros (_ & Hn & _) (t & m & H1 & -> & Htl & n & Hh & -> & _)%seg_app.
  exists t. split; [done|]. apply seg_app. exists t, tl. split.
  - apply seg_frame; [|done]. intros H. apply (Hn _ H). cbn. set_solver.
  - cbn. split_and!; [done..|]. exists e'. by rewrite lookup_insert_eq.
Qed.

Lemma seg_set_prev h prv p a id r l tl e prv' :
  NoDup ((a, (id, r)) :: l).*1 → seg h prv p ((a, (id, r)) :: l) tl e →
  ∃ n, h !! a = Some (Job n prv id r) ∧
    seg (<[a := Job n prv' id r]> h) prv' p ((a, (id, r)) :: l) tl e.
Proof.
  rewrite fmap_cons, NoDup_cons. intros [Ha _] (-> & Hz & n & Hn & H). exists n. split; [done|].
  cbn. split_and!; [done..|]. exists n. rewrite lookup_insert_eq. split; [done|]. by apply seg_frame.
Qed.

Lemma malloc_fresh {A} (h : gmap Z A) : malloc h ≠ NULL ∧ h !! malloc h = None.
Proof.
  pose proof (is_fresh ({[NULL]} ∪ dom h : gset Z)) as H. fold (malloc h) in H.
  apply not_elem_of_union in H as [H1 H2]. split; [set_solver|]. by apply not_elem_of_dom.
Qed.

(** What a change of the queue leaves alone. *)
Definition same_but_jobs (s s' : server) : Prop := s' = set_jobs (jobs s') s.

Lemma load_run p s j : heap (jobs s) !! p = Some j → load p s = (s, Done j).
Proof. unfold load. by intros ->. Qed.
Lemma job_next_run p v s j : heap (jobs s) !! p = Some j →
  set_next p v s = (set_jobs (set_heap (<[p := Job v (prev j) (jobid j) (req j)]> (heap (jobs s))) (jobs s)) s, Done tt).
Proof. intros H. unfold set_next. by rewrite (bind_done _ _ _ _ _ (load_run _ _ _ H)). Qed.
Lemma set_prev_run p v s j : heap (jobs s) !! p = Some j →
  set_prev p v s = (set_jobs (set_heap (<[p := Job (next j) v (jobid j) (req j)]> (heap (jobs s))) (jobs s)) s, Done tt).
Proof. intros H. unfold set_prev. by rewrite (bind_done _ _ _ _ _ (load_run _ _ _ H)). Qed.

(** Nodes outside the list are kept. *)
Definition kept (l : list entry) (h h' : gmap Z job) : Prop := ∀ p j, p ∉ l.*1 → h !! p = Some j → h' !! p = Some j.

Lemma add_job_ok r id s l : queue_ok (jobs s) l →
  ∃ a s', add_job r id s = (s', Done tt) ∧ queue_ok (jobs s') (l ++ [(a, (id, r))]) ∧ same_but_jobs s s' ∧
    heap (jobs s) !! a = None ∧ kept l (heap (jobs s)) (heap (jobs s')).
Proof.
  intros [Hq Hd]. unfold add_job. rewrite bind_get. set (a := malloc _). destruct (malloc_fresh (heap (jobs s))) as [Ha0 Ha].
  fold a in Ha0, Ha. assert (a ∉ l.*1) as Hal.
  { intros H. destruct (seg_mem _ _ _ _ _ _ _ Hq H) as [_ [? ?]]. congruence. }
  assert (NoDup (l ++ [(a, (id, r))]).*1) as Hd'.
  { rewrite fmap_app, NoDup_app. split_and!; [done| |apply NoDup_singleton]. intros x Hx. cbn. set_solver. }
  unfold store at 1. rewrite bind_modify.
  destruct (seg_last _ _ _ _ _ _ Hq) as [(-> & Hp & Ht)|(l' & [i q] & -> & Ht)].
  - rewrite Ht. cbn [Z.eqb NULL]. unfold set_head. rewrite bind_modify. eexists a, _. split; [reflexivity|].
    split_and!; [|done|done|].
    + split; [|done]. cbn. split_and!; [done..|]. exists NULL. by rewrite lookup_insert_eq.
    + intros p j _ Hj. cbn. rewrite lookup_insert_ne; [done|congruence].
  - rewrite (proj2 (Z.eqb_neq _ _) Ht).
    pose proof (seg_frame _ _ _ _ _ _ a (Job NULL (jobtail (jobs s)) id r) Hal Hq) as Hq'.
    destruct (seg_set_next _ _ _ _ _ _ _ _ a Hd Hq') as (pv & Hj & Hs).
    match goal with |- context [bind (set_next _ _) _ ?s1] => rewrite (bind_done _ _ _ _ _ (job_next_run (jobtail (jobs s)) a s1 _ Hj)) end.
    eexists a, _. split; [reflexivity|].
    split_and!; [|done|done|].
    + split; [|done]. cbn. apply seg_app. eexists _, a. split; [exact Hs|]. cbn. split_and!; [done..|].
      exists NULL. rewrite lookup_insert_ne by (intros E; apply Hal; rewrite fmap_app; cbn; set_solver). by rewrite lookup_insert_eq.
    + intros p j Hp Hj'. cbn. rewrite lookup_insert_ne by (intros <-; apply Hp; rewrite fmap_app; set_solver).
      rewrite lookup_insert_ne; [done|congruence].
Qed.

(** [jp] is a node that is not in the list. *)
Lemma replace_job_ok jp j s l : queue_ok (jobs s) l → jp ≠ NULL → jp ∉ l.*1 → heap (jobs s) !! jp = Some j →
  ∃ s', replace_job jp s = (s', Done tt) ∧ queue_ok (jobs s') ((jp, (jobid j, req j)) :: l) ∧ same_but_jobs s s'.
Proof.
  intros [Hq Hd] H0 Hl Hj. unfold replace_job. rewrite bind_get. set (h := jobhead (jobs s)) in *.
  rewrite (bind_done _ _ _ _ _ (set_prev_run jp NULL s j Hj)).
  match goal with |- context [bind _ _ ?x] => set (s1 := x) end.
  assert (heap (jobs s1) !! jp = Some (Job (next j) NULL (jobid j) (req j))) as Hj1 by (cbn; by rewrite lookup_insert_eq).
  rewrite (bind_done _ _ _ _ _ (job_next_run jp h s1 _ Hj1)). cbn. rewrite insert_insert_eq.
  set (h2 := <[jp := _]> (heap (jobs s))). pose proof (seg_frame _ _ _ _ _ _ jp (Job h NULL (jobid j) (req j)) Hl Hq : seg h2 _ _ _ _ _) as Hq2.
  assert (NoDup ((jp, (jobid j, req j)) :: l).*1) as Hd' by (cbn; by constructor).
  destruct l as [|[b [i q]] l].
  - destruct Hq as [Hp Ht]. fold h in Hp. rewrite Hp. cbn [Z.eqb NULL]. eexists. split; [reflexivity|]. split; [|done].
    split; [|done]. cbn. split_and!; [done..|]. exists NULL. unfold h2. rewrite lookup_insert_eq, Hp. done.
  - destruct (seg_set_prev _ _ _ _ _ _ _ _ _ jp Hd Hq2) as (n & Hb & Hs).
    pose proof Hq as (Hh & Hb0 & _). fold h in Hh. rewrite Hh in *. rewrite (proj2 (Z.eqb_neq _ _) Hb0).
    rewrite (bind_done _ _ _ _ _ (set_prev_run b jp (set_jobs (set_heap h2 (jobs s1)) s1) _ Hb)).
    eexists. split; [reflexivity|]. split; [|done]. split; [|done]. cbn. split_and!; [done..|]. exists b. split.
    + rewrite lookup_insert_ne by (intros ->; apply Hl; cbn; set_solver). unfold h2. by rewrite lookup_insert_eq, Hh.
    + exact Hs.
Qed.

(** A job anywhere in the list is taken out; its node stays allocated. *)
Lemma remove_job_ok l1 a id r l2 s : queue_ok (jobs s) (l1 ++ (a, (id, r)) :: l2) →
  ∃ s', remove_job a s = (s', Done tt) ∧ queue_ok (jobs s') (l1 ++ l2) ∧ same_but_jobs s s' ∧
    (∃ n p, heap (jobs s') !! a = Some (Job n p id r)).
Proof.
  intros [Hq Hd]. apply seg_app in Hq as (t & m & H1 & -> & Ha & n & Hn & H2).
  rewrite fmap_app in Hd. apply NoDup_app in Hd as (Hd1 & Hd12 & Hd2). cbn in Hd2. apply NoDup_cons in Hd2 as [Ha2 Hd2].
  assert (a ∉ l1.*1) as Ha1 by (intros H; apply (Hd12 _ H); cbn; set_solver).
  assert (NoDup (l1 ++ l2).*1) as Hd'.
  { rewrite fmap_app, NoDup_app. split_and!; [done| |done]. intros x Hx. specialize (Hd12 x Hx). cbn in Hd12. set_solver. }
  unfold remove_job. rewrite (bind_done _ _ _ _ _ (load_run _ _ _ Hn)). cbn [next prev].
  assert (∃ s1, (if n =? NULL then set_tail t else set_prev n t) s = (s1, Done tt) ∧ same_but_jobs s s1 ∧
    heap (jobs s1) !! a = Some (Job n t id r) ∧ jobhead (jobs s1) = jobhead (jobs s) ∧
    seg (heap (jobs s1)) NULL (jobhead (jobs s)) l1 t a ∧ seg (heap (jobs s1)) t n l2 (jobtail (jobs s1)) NULL)
    as (s1 & E1 & Hs1 & Ha' & Hh & H1' & H2').
  { destruct l2 as [|[b [i q]] l2].
    - destruct H2 as [-> Ht]. cbn [Z.eqb NULL]. eexists. split; [reflexivity|]. cbn. split_and!; done.
    - pose proof H2 as (-> & Hb & k & Hk & _). rewrite (proj2 (Z.eqb_neq _ _) Hb).
      destruct (seg_set_prev _ _ _ _ _ _ _ _ _ t Hd2 H2) as (n' & Hb' & Hs).
      rewrite (set_prev_run b t s _ Hb'). eexists. split; [reflexivity|]. split; [done|]. split; [|split; [done|split; [|exact Hs]]]; cbn.
      + rewrite lookup_insert_ne; [done|]. intros ->. apply Ha2. cbn. set_solver.
      + apply seg_frame; [|done]. intros H. apply (Hd12 _ H). cbn. set_solver. }
  rewrite (bind_done _ _ _ _ _ E1), (bind_done _ _ _ _ _ (load_run _ _ _ Ha')). cbn [next prev].
  destruct (seg_last _ _ _ _ _ _ H1') as [(-> & Hp & Ht)|(l' & [i q] & -> & Ht)].
  - rewrite Ht in *. cbn [Z.eqb NULL]. eexists. split; [reflexivity|]. cbn. split_and!; [|by rewrite Hs1|eauto].
    by split.
  - rewrite (proj2 (Z.eqb_neq _ _) Ht). destruct (seg_set_next _ _ _ _ _ _ _ _ n Hd1 H1') as (pv & Hj & Hs).
    rewrite (job_next_run t n s1 _ Hj). eexists. split; [reflexivity|]. cbn. split_and!; [|by rewrite Hs1|].
    + split; [|done]. cbn. rewrite Hh. apply seg_app. exists t, n. split; [done|]. apply seg_frame; [|done].
      intros H. apply (Hd12 t); [rewrite fmap_app; set_solver|cbn; set_solver].
    + exists n, t. rewrite lookup_insert_ne; [done|]. intros ->. apply Ha1. rewrite fmap_app. set_solver.
Qed.

(** ** Input and output *)

Lemma treadn_apue s n : treadn s n = Apue.readn s n.
Proof.
  unfold treadn, Apue.readn. generalize (length (sched s) + 2)%nat as fuel, n at 2 4 as m, (@nil Z) as acc. intros fuel. revert s.
  induction fuel as [|fuel IH]; intros s m acc; [done|]. cbn [treadn_loop Apue.readn_loop]. unfold tread.
  destruct (0 <? m)%nat; [|done]. destruct (read s m) as [s' [[|c b]|]]; [done|apply IH|done].
Qed.

(** Reads and writes that may be short, and do not fail. *)
Definition parts (s : io) : Prop := Forall (λ e, match e with Part (S _) => True | _ => False end) (sched s).

Lemma parts_read s n : parts s → parts (read s n).1.
Proof. unfold parts, read. destruct (sched s) as [|[k| |e] q]; cbn; [done|by intros [_ ?]%Forall_cons..]. Qed.

(** [treadn] returns, having taken what it stores. *)
Lemma treadn_ok s n : ∃ s' b rc, treadn s n = Some (s', b, rc) ∧ rest s = b ++ rest s' ∧ (length b <= n)%nat ∧
  (rc = Z.of_nat (length b) ∨ rc = -1 ∧ b = []) ∧ out s' = out s ∧ (parts s → parts s').
Proof.
  assert (∀ fuel s m acc s' b rc, treadn_loop fuel s n m acc = Some (s', b, rc) → out s' = out s ∧ (parts s → parts s')) as Hp.
  { clear s. intros fuel. induction fuel as [|fuel IH]; intros s m acc s' b rc; [done|]. cbn [treadn_loop]. unfold tread.
    destruct (0 <? m)%nat; [|by intros [= <- <- <-]]. pose proof (parts_read s m) as Hr.
    assert (out (read s m).1 = out s) as Ho by (unfold read; by destruct (sched s) as [|[]]).
    destruct (read s m) as [s1 [[|c d]|]]; cbn in Hr, Ho.
    - by intros [= <- <- <-].
    - intros E. destruct (IH _ _ _ _ _ _ E) as [-> H]. auto.
    - destruct (_ =? _)%nat; by intros [= <- <- <-]. }
  destruct (apue_readn_ok s n) as (s' & b & rc & H & H1 & H2 & H3). rewrite <- treadn_apue in H.
  destruct (Hp _ _ _ _ _ _ _ H). exists s', b, rc. by split_and!.
Qed.

Lemma writen_loop_total fuel s n ptr : (length (sched s) + (if decide (ptr = []) then 1 else 2) <= fuel)%nat →
  ∃ s' rc k, Apue.writen_loop fuel s n ptr = Some (s', rc) ∧ rest s' = rest s ∧ out s' = out s ++ take k ptr ∧ (length (sched s') <= length (sched s))%nat ∧
    (parts s → (length ptr <= n)%nat → rc = Z.of_nat n ∧ take k ptr = ptr).
Proof.
  revert s ptr. induction fuel as [|fuel IH]; intros s ptr Hf; [case_decide; lia|]. cbn [Apue.writen_loop].
  destruct ptr as [|c ptr].
  { exists s, (Z.of_nat (n - 0)), 0%nat. rewrite app_nil_r. split_and!; try done. intros _ _. split; [lia|done]. }
  rewrite decide_False in Hf by done. remember (c :: ptr) as b eqn:Eb. assert (0 < length b)%nat as Hb by (subst; cbn; lia).
  rewrite (proj2 (Nat.ltb_lt _ _) Hb).
  assert (∀ k q, k ≠ 0%nat → (k <= length b)%nat → length q = (length (sched s) - 1)%nat → (sched s = [] → k = length b) →
    (parts s → parts (Io (rest s) (out s ++ take k b) q (errno s))) →
    ∃ s' rc k', Apue.writen_loop fuel (Io (rest s) (out s ++ take k b) q (errno s)) n (drop k b) = Some (s', rc) ∧
      rest s' = rest s ∧ out s' = out s ++ take k' b ∧ (length (sched s') <= length (sched s))%nat ∧
      (parts s → (length b <= n)%nat → rc = Z.of_nat n ∧ take k' b = b)) as Hgo.
  { intros k q Hk0 Hk Hq Hs Hp.
    destruct (IH (Io (rest s) (out s ++ take k b) q (errno s)) (drop k b)) as (s' & rc & k' & E & Hr & Ho & Hle & Hz).
    { cbn [sched]. destruct (sched s); cbn in *; [|case_decide; lia]. rewrite Hs, drop_all by done.
      rewrite decide_True by done. lia. }
    exists s', rc, (k + k')%nat. cbn in Hle. split_and!; [done|done| |lia|].
    - rewrite Ho. cbn. by rewrite <- app_assoc, take_take_drop.
    - intros Hps Hn. destruct (Hz (Hp Hps)) as [-> Ht]; [rewrite length_drop; lia|]. split; [done|].
      rewrite <- take_take_drop, Ht. apply take_drop. }
  unfold write. destruct (sched s) as [|[k| |e] q] eqn:Es.
  - rewrite Nat.min_id. destruct (length b) eqn:El; [lia|]. rewrite <- El in *. apply Hgo; cbn; try (lia || done). intros _; by constructor.
  - destruct k as [|k].
    { exists (Io (rest s) (out s ++ take 0 b) q (errno s)), (Z.of_nat (n - length b)), 0%nat.
      split_and!; [by destruct b|done|done|cbn; lia|]. unfold parts. rewrite Es. by intros [? _]%Forall_cons. }
    destruct (Nat.min (S k) (length b)) as [|k'] eqn:Em; [lia|]. cbn [Nat.min].
    replace (take (S k) b) with (take (S k') b).
    + apply Hgo; cbn; try (lia || done). unfold parts. rewrite Es. by intros [_ ?]%Forall_cons.
    + destruct (decide (S k <= length b)%nat); [f_equal; lia|]. rewrite !take_ge by lia. done.
  - exists (Io (rest s) (out s) q EINTR), (if (length b =? n)%nat then -1 else Z.of_nat (n - length b)), 0%nat.
    rewrite app_nil_r. split_and!; [by destruct (_ =? _)%nat|done|done|cbn; lia|]. unfold parts. rewrite Es. by intros [? _]%Forall_cons.
  - exists (Io (rest s) (out s) q e), (if (length b =? n)%nat then -1 else Z.of_nat (n - length b)), 0%nat.
    rewrite app_nil_r. split_and!; [by destruct (_ =? _)%nat|done|done|cbn; lia|]. unfold parts. rewrite Es. by intros [? _]%Forall_cons.
Qed.

Lemma writen_total s b : ∃ s' rc k, Apue.writen s b = Some (s', rc) ∧ rest s' = rest s ∧ out s' = out s ++ take k b ∧ (length (sched s') <= length (sched s))%nat ∧
  (parts s → rc = Z.of_nat (length b) ∧ take k b = b).
Proof.
  destruct (writen_loop_total (length (sched s) + 2) s (length b) b) as (s' & rc & k & E & H1 & H2 & H4 & H3); [case_decide; lia|].
  exists s', rc, k. split_and!; [done..|]. intros Hs. by apply H3.
Qed.

(** ** Clients *)

Definition wf_req (r : printreq) : Prop := length (usernm r) = USERNM_MAX ∧ length (jobnm r) = JOBNM_MAX.

Lemma length_bytes_of_req r : wf_req r → length (bytes_of_req r) = sizeof_printreq.
Proof. intros [H1 H2]. unfold bytes_of_req. rewrite !length_app, H1, H2. done. Qed.

(** The request as the daemon keeps it, from the bytes that the client sent. *)
Definition received_req (b : list Z) : printreq :=
  let r := req_of_bytes b in Req (htonl (size r)) (htonl (flags r)) (usernm r) (jobnm r).

Lemma received_req_wf b : length b = sizeof_printreq → wf_req (received_req b).
Proof.
  intros H. split; cbn [received_req req_of_bytes usernm jobnm]; rewrite length_take, length_drop, H; done.
Qed.

(** A state that differs in the files, the sockets and the schedule. *)
Definition after (s : server) (m r : gmap filename (list Z)) (ks : gmap Z io) (ev : list event) : server :=
  set_sys ev (set_socks ks (set_disk (Spool m r (jobno (disk s))) s)).

Lemma after_self s : s = after s (data (disk s)) (reqs (disk s)) (socks s) (sys s).
Proof. by destruct s as [? ? [] ? ? ? ? ?]. Qed.

Section clients.
Variable strerror : Z → list Z.
Variables msg_garbage buf_garbage : list Z.

Lemma send_ok fd res s m r ks ev : ∃ ks', send fd res (after s m r ks ev) = (after s m r ks' ev, Done tt) ∧
  match ks !! fd with
  | Some k => ∃ k', ks' = <[fd := k']> ks ∧ rest k' = rest k ∧ (parts k → out k' = out k ++ bytes_of_resp res)
  | None => ks' = ks
  end.
Proof.
  unfold send, on_sock, bind. cbn [after socks set_sys set_socks set_disk]. destruct (ks !! fd) as [k|] eqn:E.
  - destruct (writen_total k (bytes_of_resp res)) as (k' & rc & n & Ew & Hr & Ho & _ & Hs). rewrite Ew.
    eexists. split; [reflexivity|]. exists k'. split_and!; [done..|]. intros H. rewrite Ho. by rewrite (proj2 (Hs H)).
  - eexists. by split.
Qed.

Lemma reject_ok fd e s m r ks ev : ∃ ks', reject strerror fd e (after s m r ks ev) = (after s m r ks' ev, Done tt).
Proof. unfold reject. destruct (send_ok fd (Resp (htonl e) 0 (strncpy (strerror (htonl e)) MSGLEN_MAX)) s m r ks ev) as (ks' & E & _). eauto. Qed.

(** The header is read and a number taken, or the client is sent an error. *)
Lemma client_number_ok fd s : ∃ s' res, client_number strerror fd s = (s', Done res) ∧
  match res with
  | None => ∃ ks, s' = set_socks ks s
  | Some (id, r) => id = nextjob s ∧
      ∃ k k' b, socks s !! fd = Some k ∧ rest k = b ++ rest k' ∧ length b = sizeof_printreq ∧ r = received_req b ∧ out k' = out k ∧ (parts k → parts k') ∧
        s' = set_nextjob (if i32 (id + 1) <=? 0 then 1 else i32 (id + 1)) (set_socks (<[fd := k']> (socks s)) s)
  end.
Proof.
  assert (∀ ks, set_socks ks s = after s (data (disk s)) (reqs (disk s)) ks (sys s)) as Ea by (by destruct s as [? ? [] ? ? ? ? ?]).
  unfold client_number, on_sock. destruct (socks s !! fd) as [k|] eqn:E.
  - destruct (treadn_ok k sizeof_printreq) as (k' & b & rc & Et & Hr & Hl & Hrc & Hout & Hparts). unfold bind at 1. rewrite E, Et.
    destruct (Z.eqb_spec rc (Z.of_nat sizeof_printreq)) as [Erc|Erc].
    + eexists _, (Some (_, _)). split; [reflexivity|]. split; [done|]. exists k, k', b. split_and!; try done.
      destruct Hrc as [->|[-> _]]; [lia|discriminate].
    + rewrite Ea. unfold bind. match goal with |- context [reject strerror fd ?e] => destruct (reject_ok fd e s (data (disk s)) (reqs (disk s)) (<[fd:=k']> (socks s)) (sys s)) as (ks & ->) end.
      eexists _, None. split; [reflexivity|]. exists ks. by rewrite Ea.
  - unfold bind at 1. rewrite E. destruct (reject_ok fd EBADF s (data (disk s)) (reqs (disk s)) (socks s) (sys s)) as (ks & Er).
    rewrite <- Ea in Er. replace (set_socks (socks s) s) with s in Er by (by destruct s). unfold bind. rewrite Er.
    eexists _, None. split; [reflexivity|]. exists ks. by rewrite Ea.
Qed.

(** A write to an open file: what the file holds then, all of the bytes if it returns their number. *)
Lemma write_file_ok d n b s m r ks ev d0 : files d (Spool m r (jobno (disk s))) !! n = Some d0 → ∃ ev' res c,
  write_file d n b (after s m r ks ev) =
    (after s (match d with DATADIR => <[n := c]> m | REQDIR => m end)
             (match d with REQDIR => <[n := c]> r | DATADIR => r end) ks ev', Done res) ∧
    (res = inl (length b) → c = d0 ++ b).
Proof.
  intros H. unfold write_file, draw, event_of, bind. cbn [after sys set_sys].
  destruct ev as [|[k| |e] ev]; eexists _, _; [eexists (d0 ++ b)|eexists (d0 ++ take k b)|eexists d0|eexists d0];
    destruct d; cbn in H; cbv [modify ret on_files after set_sys set_socks set_disk set_files files disk data reqs jobno];
    rewrite ?H, ?(insert_id _ n d0) by done; (split; [reflexivity|]); try done;
    intros [= E]; rewrite take_ge by lia; done.
Qed.

Lemma creat_ok d n s m r ks ev : ∃ ev' res, creat d n (after s m r ks ev) =
  (match res : option Z with
   | None => after s (match d with DATADIR => <[n := []]> m | REQDIR => m end)
                     (match d with REQDIR => <[n := []]> r | DATADIR => r end) ks ev'
   | Some _ => after s m r ks ev'
   end, Done res).
Proof.
  unfold creat, call, draw, event_of, bind. cbn [after sys set_sys]. destruct ev as [|[k| |e] ev].
  - exists [], None. by destruct d.
  - exists ev, None. by destruct d.
  - by exists ev, (Some EINTR).
  - by exists ev, (Some e).
Qed.

Lemma job_unlink_ok d n s m r ks ev : unlink d n (after s m r ks ev) =
  (after s (match d with DATADIR => delete n m | REQDIR => m end) (match d with REQDIR => delete n r | DATADIR => r end) ks ev, Done tt).
Proof. by destruct d. Qed.

(** What the flags of a job become: the first piece of the data decides. *)
Definition job_flags (first : bool) (fl : Z) (b : list Z) (fl' : Z) : Prop :=
  if first then b = [] ∧ fl' = fl ∨ ∃ c, c ≠ [] ∧ c `prefix_of` b ∧
    fl' = if is_postscript (overlay buf_garbage c) then fl else Z.lor fl PR_TEXT
  else fl' = fl.

Lemma iobufsz_pos : (0 < IOBUFSZ)%nat.
Proof. unfold IOBUFSZ. lia. Qed.

Lemma spool_loop_ok fuel fd n first fl s m r ks ev d0 k :
  ks !! fd = Some k → (length (sched k) + length (rest k) + 2 <= fuel)%nat → m !! n = Some d0 →
  ∃ k' b res ev' d, spool_loop buf_garbage fuel fd n first fl (after s m r ks ev) =
      (after s (<[n := d]> m) r (<[fd := k']> ks) ev', Done res) ∧ rest k = b ++ rest k' ∧ out k' = out k ∧ (parts k → parts k') ∧
    (∀ fl', res = inl fl' → d = d0 ++ b ∧ job_flags first fl b fl').
Proof.
  revert first fl m ks ev d0 k. induction fuel as [|fuel IH]; intros first fl m ks ev d0 k Hk Hf Hm; [lia|].
  cbn [spool_loop]. unfold on_sock. unfold bind at 1. cbn [after socks set_sys set_socks set_disk]. rewrite Hk. unfold tread.
  pose proof (read_any k IOBUFSZ iobufsz_pos) as Hr. pose proof (parts_read k IOBUFSZ) as Hp. destruct (read k IOBUFSZ) as [k1 [[|c b]|]].
  - destruct Hr as (Ho & _ & Hr & _). exists k1, [], (inl fl), ev, d0. split.
    { rewrite (insert_id m) by done. reflexivity. }
    split_and!; [done|done|done|]. intros fl' [= <-]. rewrite app_nil_r. split; [done|]. destruct first; [by left|done].
  - destruct Hr as (Ho & Hl & Hr & _). set (fl1 := if first && _ then _ else _).
    change (set_socks (<[fd:=k1]> ks) _) with (after s m r (<[fd:=k1]> ks) ev).
    unfold bind. destruct (write_file_ok DATADIR n (c :: b) s m r (<[fd:=k1]> ks) ev d0 Hm) as (ev1 & res1 & c1 & E & Hc). rewrite E.
    destruct res1 as [w|e]; [destruct (Nat.eqb_spec w (length (c :: b))) as [->|Hw]|].
    + rewrite (Hc eq_refl).
        destruct (IH false fl1 (<[n:=d0 ++ c :: b]> m) (<[fd:=k1]> ks) ev1 (d0 ++ c :: b) k1) as (k' & b' & res & ev' & d & E' & Hr' & Ho' & Hp' & Hd).
        { by rewrite lookup_insert_eq. }
        { rewrite Hr in Hf. cbn in Hf. rewrite length_app in Hf. lia. }
        { by rewrite lookup_insert_eq. }
        exists k', ((c :: b) ++ b'), res, ev', d. rewrite !insert_insert_eq in E'. rewrite E'. split_and!; [done| |congruence|auto|].
        { by rewrite Hr, Hr', app_assoc. }
        intros fl' Hfl. destruct (Hd fl' Hfl) as [-> Hj]. split; [by rewrite <- app_assoc|]. cbn in Hj. subst fl' fl1.
        destruct first; cbn [andb]; [|done]. right. exists (c :: b). split_and!; [done|by exists b'|].
        by destruct (is_postscript _).
    + exists k1, (c :: b), (inr EIO), ev1, c1. split_and!; done.
    + exists k1, (c :: b), (inr e), ev1, c1. split_and!; done.
  - destruct Hr as (Ho & _ & Hr & _). exists k1, [], (inl fl), ev, d0. split.
    { rewrite (insert_id m) by done. reflexivity. }
    split_and!; [done|done|done|]. intros fl' [= <-]. rewrite app_nil_r. split; [done|]. destruct first; [by left|done].
Qed.

(** The result of [client_spool]: the files hold the request and the data that arrived, and
    the client has the answer; or the files that were created are gone. *)
Definition answer (id : Z) : printresp :=
  Resp 0 (htonl (u32 id)) (overlay msg_garbage (bytes "request ID " ++ dec id ++ [0])).

Definition spooled (s : server) (fd id : Z) (r : printreq) (res : option printreq) (m q : gmap filename (list Z)) (ks : gmap Z io) : Prop :=
  match res with
  | Some r' => ∃ d fl, m = <[dec id := d]> (data (disk s)) ∧ q = <[dec id := bytes_of_req r']> (reqs (disk s)) ∧
      r' = Req (size r) fl (usernm r) (jobnm r) ∧ job_flags true (flags r) d fl ∧
      ∀ k, socks s !! fd = Some k → ∃ k', ks = <[fd := k']> (socks s) ∧ rest k = d ++ rest k' ∧
        (parts k → out k' = out k ++ bytes_of_resp (answer id))
  | None => (m = data (disk s) ∨ m = delete (dec id) (data (disk s))) ∧
            (q = reqs (disk s) ∨ q = delete (dec id) (reqs (disk s)))
  end.

(** The control file, once the data are spooled. *)
Lemma client_control fd id r s d ks ev :
  wf_req r → let m := <[dec id := d]> (data (disk s)) in
  ∃ m' q' ks' ev' res,
    (let! e := creat REQDIR (dec id) in
     match e with
     | Some e => reject strerror fd e;;; unlink DATADIR (dec id);;; ret None
     | None =>
         let! w := write_file REQDIR (dec id) (bytes_of_req r) in
         let err e := reject strerror fd e;;; unlink REQDIR (dec id);;; unlink DATADIR (dec id);;; ret None in
         match w with
         | inr e => err e
         | inl n => if (n =? sizeof_printreq)%nat then send fd (answer id);;; ret (Some r) else err EIO
         end
     end) (after s m (reqs (disk s)) ks ev) = (after s m' q' ks' ev', Done res) ∧
    match res with
    | Some r' => r' = r ∧ m' = m ∧ q' = <[dec id := bytes_of_req r]> (reqs (disk s)) ∧
        ∀ k, ks !! fd = Some k → ∃ k', ks' = <[fd := k']> ks ∧ rest k' = rest k ∧ (parts k → out k' = out k ++ bytes_of_resp (answer id))
    | None => m' = delete (dec id) (data (disk s)) ∧
        (q' = reqs (disk s) ∨ q' = delete (dec id) (reqs (disk s)))
    end.
Proof.
  intros Hr m. unfold bind at 1. destruct (creat_ok REQDIR (dec id) s m (reqs (disk s)) ks ev) as (ev1 & [e|] & E); rewrite E; cbv iota beta.
  - unfold bind at 1. destruct (reject_ok fd e s m (reqs (disk s)) ks ev1) as (ks1 & ->). unfold bind. rewrite job_unlink_ok.
    eexists _, _, _, _, None. split; [reflexivity|]. unfold m. rewrite delete_insert_eq. auto.
  - unfold bind at 1. destruct (write_file_ok REQDIR (dec id) (bytes_of_req r) s m (<[dec id:=[]]> (reqs (disk s))) ks ev1 [])
      as (ev2 & w & c & Ew & Hc); [cbn; by rewrite lookup_insert_eq|]. rewrite Ew. cbv iota beta zeta.
    assert (∀ e, ∃ ks', (reject strerror fd e;;; unlink REQDIR (dec id);;; unlink DATADIR (dec id);;; ret (None : option printreq))
      (after s m (<[dec id:=c]> (<[dec id:=[]]> (reqs (disk s)))) ks ev2) =
      (after s (delete (dec id) (data (disk s))) (delete (dec id) (reqs (disk s))) ks' ev2, Done None)) as Herr.
    { intros e. unfold bind at 1. destruct (reject_ok fd e s m (<[dec id:=c]> (<[dec id:=[]]> (reqs (disk s)))) ks ev2) as (ks1 & ->).
      exists ks1. unfold bind. rewrite !job_unlink_ok. unfold m. by rewrite !delete_insert_eq. }
    destruct w as [n|e]; [destruct (Nat.eqb_spec n sizeof_printreq) as [->|Hn]|].
    + rewrite Hc by (by rewrite length_bytes_of_req). cbn [app]. rewrite insert_insert_eq. unfold bind.
      destruct (send_ok fd (answer id) s m (<[dec id:=bytes_of_req r]> (reqs (disk s))) ks ev2) as (ks1 & -> & Hks).
      eexists _, _, _, _, (Some r). split; [reflexivity|]. split_and!; [done..|]. intros k Hk. rewrite Hk in Hks. exact Hks.
    + destruct (Herr EIO) as (ks1 & ->). eexists _, _, _, _, None. split; [reflexivity|]. auto.
    + destruct (Herr e) as (ks1 & ->). eexists _, _, _, _, None. split; [reflexivity|]. auto.
Qed.

Lemma client_spool_ok fd id r s : wf_req r →
  ∃ m q ks ev res, client_spool strerror msg_garbage buf_garbage fd id r s = (after s m q ks ev, Done res) ∧ spooled s fd id r res m q ks.
Proof.
  intros Hr. unfold client_spool. unfold bind at 1.
  destruct (creat_ok DATADIR (dec id) s (data (disk s)) (reqs (disk s)) (socks s) (sys s)) as (ev1 & res0 & E0).
  rewrite <- (after_self s) in E0. rewrite E0. clear E0. destruct res0 as [e|]; cbv iota beta.
  { unfold bind. destruct (reject_ok fd e s (data (disk s)) (reqs (disk s)) (socks s) ev1) as (ks1 & ->).
    eexists _, _, _, _, None. split; [reflexivity|]. cbn. auto. }
  rewrite bind_get. set (s1 := after s _ _ _ _). change (socks s1) with (socks s). unfold bind at 1.
  assert (∃ ks res ev d b, spool_loop buf_garbage match socks s !! fd with Some k => (length (sched k) + length (rest k) + 2)%nat | None => 1%nat end
    fd (dec id) true (flags r) s1 = (after s (<[dec id := d]> (data (disk s))) (reqs (disk s)) ks ev, Done res) ∧
    (∀ fl, res = inl fl → d = b ∧ job_flags true (flags r) b fl ∧ ∀ k, socks s !! fd = Some k → ∃ k', ks = <[fd := k']> (socks s) ∧ rest k = b ++ rest k' ∧
      out k' = out k ∧ (parts k → parts k'))) as (ks & res & ev2 & d & b & -> & Hres).
  { destruct (socks s !! fd) as [k|] eqn:Ek.
    - destruct (spool_loop_ok (length (sched k) + length (rest k) + 2) fd (dec id) true (flags r) s (<[dec id:=[]]> (data (disk s))) (reqs (disk s)) (socks s) ev1 [] k)
        as (k' & b & res & ev' & d & E & H1 & H2 & H3 & H4); [done|lia|by rewrite lookup_insert_eq|].
      rewrite insert_insert_eq in E. exists (<[fd:=k']> (socks s)), res, ev', d, b. split; [exact E|]. intros fl Hfl.
      destruct (H4 fl Hfl) as [-> Hj]. split_and!; [done..|]. intros k0 [= <-]. eauto 6.
    - exists (socks s), (inl (flags r)), ev1, [], []. split; [cbn [spool_loop]; unfold bind, on_sock; cbn; by rewrite Ek|].
      intros fl [= <-]. split_and!; [done|by left|done]. }
  cbv iota beta. destruct res as [fl|e].
  - destruct (Hres fl eq_refl) as (-> & Hj & Hk).
    edestruct (client_control fd id (Req (size r) fl (usernm r) (jobnm r)) s b ks ev2 Hr) as (m' & q' & ks' & ev' & res & E & H).
    eexists _, _, _, _, res. split; [exact E|]. destruct res as [r'|]; cbn.
    + destruct H as (-> & -> & -> & Hs). exists b, fl. split_and!; [done..|]. intros k Hk0. destruct (Hk k Hk0) as (k' & -> & Hr' & Ho & Hp).
      destruct (Hs k') as (k2 & -> & Hr2 & Ho2); [by rewrite lookup_insert_eq|]. exists k2. rewrite insert_insert_eq.
      split_and!; [done|congruence|]. intros Hpk. rewrite Ho2 by auto. by rewrite Ho.
    + destruct H as [-> [-> | ->]]; auto.
  - unfold bind at 1. destruct (reject_ok fd e s (<[dec id := d]> (data (disk s))) (reqs (disk s)) ks ev2) as (ks1 & ->).
    unfold bind. rewrite job_unlink_ok, delete_insert_eq. eexists _, _, _, _, None. split; [reflexivity|]. cbn. auto.
Qed.
End clients.

(** ** Start *)

(** The jobs that the request files [m] describe, in the order of the directory. *)
Definition complete (m : gmap filename (list Z)) (n : filename) : Prop := (sizeof_printreq <= length (default [] (m !! n)))%nat.
#[export] Instance complete_dec m n : Decision (complete m n).
Proof. unfold complete. apply _. Defined.
Definition job_of (m : gmap filename (list Z)) (n : filename) : Z * printreq :=
  (i32 (atol n), req_of_bytes (take sizeof_printreq (default [] (m !! n)))).
Definition recovered (m : gmap filename (list Z)) (entries : list filename) : list (Z * printreq) :=
  map (job_of m) (filter (complete m) entries).
Definition discarded (m : gmap filename (list Z)) (entries : list filename) : list filename :=
  filter (λ n, ¬ complete m n) entries.
Definition deletes (ns : list filename) (m : gmap filename (list Z)) : gmap filename (list Z) := foldr delete m ns.

Lemma recovered_delete m n entries : n ∉ entries → recovered (delete n m) entries = recovered m entries ∧ discarded (delete n m) entries = discarded m entries.
Proof.
  induction entries as [|x entries IH]; [done|]. rewrite not_elem_of_cons. intros [Hx Hn]. destruct (IH Hn) as [H1 H2].
  unfold recovered, discarded in *. rewrite !filter_cons.
  assert (delete n m !! x = m !! x) as Hd by (by apply lookup_delete_ne).
  assert (complete (delete n m) x ↔ complete m x) as Hc by (unfold complete; by rewrite Hd).
  destruct (decide (complete m x)) as [H|H].
  - rewrite decide_True by (by apply Hc). rewrite (decide_False (P := ¬ _)), (decide_False (P := ¬ _)) by (rewrite ?Hc; tauto).
    cbn [map]. rewrite H1, H2. split; [|done]. f_equal. unfold job_of. by rewrite Hd.
  - rewrite (decide_False (P := complete (delete n m) x)) by (by rewrite Hc).
    rewrite (decide_True (P := ¬ _)), (decide_True (P := ¬ _)) by (rewrite ?Hc; tauto). by rewrite H1, H2.
Qed.

Lemma deletes_delete ns n m : deletes ns (delete n m) = delete n (deletes ns m).
Proof. unfold deletes. induction ns as [|x ns IH]; [done|]. cbn. rewrite IH. apply delete_delete. Qed.

(** Every complete request is queued, in the order of the directory; the files of the others are removed. *)
Lemma build_qonstart_ok entries s l :
  queue_ok (jobs s) l → sys s = [] → NoDup entries → Forall (λ n, path_fits n = true) entries →
  ∃ s' l', build_qonstart entries s = (s', Done tt) ∧ queue_ok (jobs s') (l ++ l') ∧ l'.*2 = recovered (reqs (disk s)) entries ∧
    s' = set_jobs (jobs s') (set_disk (Spool (deletes (discarded (reqs (disk s)) entries) (data (disk s)))
                                             (deletes (discarded (reqs (disk s)) entries) (reqs (disk s))) (jobno (disk s))) s).
Proof.
  revert s l. induction entries as [|n entries IH]; intros s l Hq Hs Hd Hf.
  { exists s, []. cbn. rewrite app_nil_r. split_and!; [done..|]. by destruct s as [? ? [] ? ? ? ? ?]. }
  apply NoDup_cons in Hd as [Hn Hd]. apply Forall_cons in Hf as [Hnf Hf]. cbn [build_qonstart]. rewrite Hnf.
  assert (set_sys [] s = s) as Es by (destruct s; cbn in Hs; by rewrite Hs).
  unfold bind at 1, call, draw. unfold bind at 1. rewrite Hs. cbn [event_of]. rewrite Es. cbv iota beta. cbn [ret].
  rewrite bind_get. unfold bind at 1, draw. rewrite Hs. cbn [event_of]. rewrite Es. cbv iota beta.
  unfold recovered, discarded. rewrite !filter_cons. rewrite length_take.
  destruct (decide (complete (reqs (disk s)) n)) as [Hc|Hc].
  - rewrite (decide_False (P := ¬ _)) by tauto. unfold complete in Hc. rewrite Nat.min_l by done. rewrite Nat.eqb_refl.
    destruct (add_job_ok (req_of_bytes (take sizeof_printreq (default [] (reqs (disk s) !! n)))) (i32 (atol n)) s l Hq) as (a & s1 & E & Hq1 & Hs1 & _).
    rewrite (bind_done _ _ _ _ _ E). destruct (IH s1 _ Hq1) as (s' & l' & E' & Hq' & Hl' & Hs'); [by rewrite Hs1|done..|].
    rewrite Hs1 in Hl', Hs'. exists s', ((a, job_of (reqs (disk s)) n) :: l'). rewrite E'. split_and!; [done| | |exact Hs'].
    + by rewrite <- app_assoc in Hq'.
    + cbn. f_equal. exact Hl'.
  - rewrite (decide_True (P := ¬ _)) by tauto. unfold complete in Hc.
    rewrite (proj2 (Nat.eqb_neq _ _)) by lia. unfold unlink at 1 2. rewrite !bind_modify.
    set (s1 := on_files DATADIR _ _).
    destruct (IH s1 l) as (s' & l' & E' & Hq' & Hl' & Hs'); [done..|].
    destruct (recovered_delete (reqs (disk s)) n entries Hn) as [H1 H2].
    exists s', l'. rewrite E'. split_and!; [done|done| |].
    + rewrite Hl'. cbn. exact H1.
    + rewrite Hs'. cbn. rewrite H2, !deletes_delete. done.
Qed.

(** ** The number in the file *)

Lemma atol_jobno n : 1 <= n < 2 ^ 31 → i32 (atol (cstr (overlay (bytes "/var/spool/printer/jobno" ++ [0]) (dec n)))) = n.
Proof.
  intros Hn. assert (n < dec_max) by (unfold dec_max; lia). destruct (dec_spec n ltac:(lia)) as [Hall Hv].
  pose proof (dec_length 10 n ltac:(lia) ltac:(lia)) as Hl. unfold overlay.
  assert (∃ c k, drop (length (dec n)) (bytes "/var/spool/printer/jobno" ++ [0]) = c :: k ++ [0] ∧ c ≠ 0 ∧ no_nul k ∧ is_digit c = false) as (c & k & -> & H0 & Hk & Hc).
  { set (path := bytes "/var/spool/printer/jobno"). assert (length path = 24%nat) as Hp by reflexivity.
    assert (Forall (λ c, c ≠ 0 ∧ is_digit c = false) path) as Hc by (repeat constructor; done).
    rewrite drop_app_le by lia. destruct (drop (length (dec n)) path) as [|c k] eqn:E.
    { apply (f_equal length) in E. rewrite length_drop in E. cbn in E. lia. }
    apply (Forall_drop _ (length (dec n))) in Hc. rewrite E in Hc. apply Forall_cons in Hc as [[H0 H1] Hk].
    exists c, k. split_and!; [done..| |done]. eapply Forall_impl; [exact Hk|]. by intros ? [? _]. }
  pose proof (dec_no_nul n ltac:(lia)). change (dec n ++ c :: k ++ [0]) with (dec n ++ (c :: k) ++ [0]). rewrite app_assoc.
  rewrite cstr_app by (apply Forall_app; split; [done|]; by constructor).
  rewrite atol_digits, Hv; [apply i32_id; lia|done| |done]. intros E. rewrite E in Hl. cbn in Hl. lia.
Qed.

(** ** The printer thread *)

(** What a round of the printer leaves alone. *)
Definition same_but_disk (s s' : server) : Prop :=
  nextjob s' = nextjob s ∧ socks s' = socks s ∧ threads s' = threads s.

Lemma draw_run s : ∃ e l, draw s = (set_sys l s, Done e).
Proof. unfold draw. destruct (event_of (sys s)) as [e l]. eauto. Qed.
Lemma sys_call_run s : ∃ e l, call s = (set_sys l s, Done e).
Proof. unfold call, bind. destruct (draw_run s) as (e & l & ->). eexists _, l. reflexivity. Qed.

(** The job file is rewritten, or the process ends. *)
Lemma update_jobno_ok s : ∃ s' r, update_jobno s = (s', r) ∧ jobs s' = jobs s ∧ same_but_disk s s' ∧
  data (disk s') = data (disk s) ∧ reqs (disk s') = reqs (disk s) ∧ (∀ e, r = Fail e → e = Exit 1).
Proof.
  unfold update_jobno. rewrite bind_get. unfold bind. destruct (draw_run s) as (e & l & ->). cbv iota beta.
  destruct e as [[k| |e]|]; eexists _, _; (split; [reflexivity|]); cbn; split_and!; try done; by intros ? [= <-].
Qed.

Lemma pick_job_ok s l : queue_ok (jobs s) l →
  match l with
  | [] => pick_job s = (s, Done NULL)
  | (a, (id, r)) :: l => ∃ s' res, pick_job s = (s', res) ∧ queue_ok (jobs s') l ∧ same_but_disk s s' ∧
      data (disk s') = data (disk s) ∧ reqs (disk s') = reqs (disk s) ∧
      (∃ n p, heap (jobs s') !! a = Some (Job n p id r)) ∧ (∀ x, res = Done x → x = a ∧ a ≠ NULL ∧ a ∉ l.*1)
  end.
Proof.
  intros Hq. unfold pick_job. rewrite bind_get. destruct l as [|[a [id r]] l].
  - destruct Hq as [[-> _] _]. done.
  - pose proof (qo_seg _ _ Hq) as (-> & Ha & _). rewrite (proj2 (Z.eqb_neq _ _) Ha).
    pose proof (qo_nodup _ _ Hq) as Hd. cbn in Hd. apply NoDup_cons in Hd as [Hal _].
    destruct (remove_job_ok [] a id r l s Hq) as (s1 & E1 & Hq1 & Hs1 & Hh). rewrite (bind_done _ _ _ _ _ E1).
    destruct (update_jobno_ok s1) as (s2 & res & E2 & Hj & (H1 & H2 & H3) & H4 & H5 & _).
    unfold bind. rewrite E2. destruct res as [[]|e]; eexists _, _; (split; [reflexivity|]); rewrite Hj, H4, H5; unfold same_but_disk; rewrite H1, H2, H3, Hs1;
      (split_and!; [done..|]); [by intros x [= <-]|done].
Qed.

Lemma free_job_ok p j s l : queue_ok (jobs s) l → p ∉ l.*1 → heap (jobs s) !! p = Some j →
  ∃ s', free_job p s = (s', Done tt) ∧ queue_ok (jobs s') l ∧ same_but_jobs s s'.
Proof.
  intros [Hq Hd] Hp Hj. unfold free_job. rewrite (bind_done _ _ _ _ _ (load_run _ _ _ Hj)). eexists. split; [reflexivity|]. split; [|done].
  split; [|done]. cbn. by apply seg_frame_delete.
Qed.

(** What happens to the job in a round: it stays in front of the queue, or is gone, and its
    files with it exactly if the printer has printed it. *)
Definition round_result (s s' : server) (l : list entry) (jp : Z) (j : job) (v : verdict) : Prop :=
  same_but_disk s s' ∧ match v with
  | Printed => queue_ok (jobs s') l ∧ data (disk s') = delete (dec (jobid j)) (data (disk s)) ∧ reqs (disk s') = delete (dec (jobid j)) (reqs (disk s))
  | Cancelled => queue_ok (jobs s') l ∧ data (disk s') = data (disk s) ∧ reqs (disk s') = reqs (disk s)
  | Deferred => queue_ok (jobs s') ((jp, (jobid j, req j)) :: l) ∧ data (disk s') = data (disk s) ∧ reqs (disk s') = reqs (disk s)
  end.

Lemma reread_ok p s : ∃ s1 res, (if reread s then modify (set_config false []);;; init_printer (resolved p) else ret tt) s = (s1, res) ∧
  (res = Done tt → s1 = set_config (reread s1) (printer_name s1) s ∧ (reread s = false → s1 = s)).
Proof.
  destruct (reread s) eqn:Er; [|exists s, (Done tt); split; [done|]; intros _; split; [by destruct s|done]].
  unfold init_printer. destruct (resolved p) as [n|].
  - eexists _, (Done tt). split; [reflexivity|]. intros _. split; [done|discriminate].
  - eexists _, (Fail _). split; [reflexivity|]. done.
Qed.

Lemma print_job_ok fuel gb p fs jp j s l :
  queue_ok (jobs s) l → jp ≠ NULL → jp ∉ l.*1 → heap (jobs s) !! jp = Some j →
  ∃ s' res, print_job fuel gb p fs jp s = (s', res) ∧ ∀ v, res = Done v → round_result s s' l jp j v.
Proof.
  intros Hq H0 Hl Hj. unfold print_job. rewrite bind_get. unfold bind at 1. destruct (reread_ok p s) as (s1 & [[]|e] & -> & Hs1); [|by eexists _, _; split].
  destruct (Hs1 eq_refl) as [Es1 _]. clear Hs1.
  assert (heap (jobs s1) !! jp = Some j ∧ queue_ok (jobs s1) l) as [Hj1 Hq1] by (rewrite Es1; done).
  rewrite (bind_done _ _ _ _ _ (load_run _ _ _ Hj1)), bind_get. unfold bind at 1. destruct (sys_call_run s1) as (o & ev & ->).
  set (s2 := set_sys ev s1). assert (∀ s', same_but_jobs s2 s' → queue_ok (jobs s') l → round_result s s' l jp j Cancelled) as Hcan.
  { intros s' Hs' ?. unfold round_result, same_but_disk. rewrite Hs'. cbn. rewrite Es1. by destruct s'. }
  destruct (free_job_ok jp j s2 l Hq1 Hl Hj1) as (s3 & E3 & Hq3 & Hs3).
  assert (∃ s' res, (free_job jp;;; ret Cancelled) s2 = (s', res) ∧ ∀ v, res = Done v → round_result s s' l jp j v) as Hcancel.
  { rewrite (bind_done _ _ _ _ _ E3). eexists _, _. split; [reflexivity|]. intros v [= <-]. by apply Hcan. }
  destruct o as [e|]; [done|]. destruct (data (disk s1) !! dec (jobid j)) as [file|]; [|done]. clear Hcancel.
  unfold bind at 1. destruct (sys_call_run s2) as (o & ev' & ->). set (s4 := set_sys ev' s2).
  assert (heap (jobs s4) !! jp = Some j ∧ queue_ok (jobs s4) l) as [Hj4 Hq4] by done.
  assert (same_but_disk s s4 ∧ disk s4 = disk s) as [Hb4 Hd4] by (unfold same_but_disk, s4, s2; cbn; by rewrite Es1).
  clearbody s4. clear - Hj4 Hq4 Hb4 Hd4 H0 Hl.
  destruct (free_job_ok jp j s4 l Hq4 Hl Hj4) as (s5 & E5 & Hq5 & Hs5).
  destruct (replace_job_ok jp j s4 l Hq4 H0 Hl Hj4) as (s6 & E6 & Hq6 & Hs6).
  destruct o as [e|]; cbv zeta.
  { rewrite (bind_done _ _ _ _ _ E5). eexists _, _. split; [reflexivity|]. intros v [= <-]. rewrite Hs5.
    split; [done|]. cbn. by rewrite Hd4. }
  assert (∃ s' res, (replace_job jp;;; ret Deferred) s4 = (s', res) ∧ ∀ v, res = Done v → round_result s s' l jp j v) as Hdefer.
  { rewrite (bind_done _ _ _ _ _ E6). eexists _, _. split; [reflexivity|]. intros v [= <-]. rewrite Hs6. split; [done|]. cbn. by rewrite Hd4. }
  assert (∀ e : fault, ∃ s' res, fail (A := verdict) e s4 = (s', res) ∧ ∀ v, res = Done v → round_result s s' l jp j v) as Hfail by (intros e; eexists _, _; by split).
  destruct (connect_retry _) as [[[?|] ?]|]; [|exact Hdefer|apply Hfail].
  destruct (send_job _ _ _ _ _) as [[[k [|]]|]|]; [|exact Hdefer|apply Hfail|apply Hfail].
  destruct (printer_status _ _ _ _) as [[|]|e]; [|exact Hdefer|apply Hfail].
  unfold unlink. rewrite !bind_modify. set (s7 := on_files REQDIR _ _).
  destruct (free_job_ok jp j s7 l Hq4 Hl Hj4) as (s8 & E8 & Hq8 & Hs8). rewrite (bind_done _ _ _ _ _ E8).
  eexists _, _. split; [reflexivity|]. intros v [= <-]. rewrite Hs8. split; [done|]. cbn. by rewrite Hd4.
Qed.
