(* ===== verification/IppThms.v ===== *)
(** The headers that the print daemon sends are well formed, and the response of the
    printer is understood when it arrives in one piece. *)
From stdpp Require Import base tactics numbers list strings.
From Stdlib Require Import ZArith Lia.
From S2P Require Import Rio.
From S2P Require Import Prelude.
From S2P Require Import ByteOrder.
From S2P Require Import Cio.
From S2P Require Import Print.
From S2P Require Import Ipp.
Local Open Scope Z_scope.

(** ** The IPP header *)

Definition attr : Type := Z * list Z * list Z.
Definition enc (a : attr) : list Z :=
  let '(t, n, v) := a in t :: le16 (htons (zlen n)) ++ n ++ le16 (htons (zlen v)) ++ v.

Lemma length_enc t n v : length (enc (t, n, v)) = (5 + length n + length v)%nat.
Proof. unfold enc. rewrite !le16_htons. cbn. rewrite !length_app. cbn. lia. Qed.

(** An option fits if it leaves room for one more byte. *)
Lemma add_option_eq acc t n v : add_option acc t n v =
  if decide (length acc + length (enc (t, n, v)) < IBUFSZ)%nat then Some (acc ++ enc (t, n, v)) else None.
Proof.
  unfold add_option, put_str, put. rewrite length_enc. unfold enc. rewrite !le16_htons.
  repeat (cbn [length app mbind option_bind]; rewrite ?length_app; cbn [length];
    match goal with |- context [(?a <=? IBUFSZ)%nat] => destruct (Nat.leb_spec a IBUFSZ) end;
    cbn [mbind option_bind]; [|by rewrite decide_False by lia]).
  rewrite decide_True by lia. f_equal. rewrite <- !app_assoc. done.
Qed.

(** A decoder for the encoding of RFC 2910: the groups of one operation, and what follows. *)
Fixpoint decode_attrs (fuel : nat) (l : list Z) : option (list attr * list Z) :=
  match fuel, l with
  | S fuel, t :: l =>
      if t =? TAG_END_OF_ATTR then Some ([], l)
      else match l with
           | a :: b :: l =>
               let n := Z.to_nat (256 * a + b) in
               match drop n l with
               | c :: d :: l' =>
                   let m := Z.to_nat (256 * c + d) in
                   '(attrs, r) ← decode_attrs fuel (drop m l');
                   Some ((t, take n l, take m l') :: attrs, r)
               | _ => None
               end
           | _ => None
           end
  | _, _ => None
  end.

Lemma decode_enc fuel t n v l : t ≠ TAG_END_OF_ATTR → zlen n < 65536 → zlen v < 65536 →
  decode_attrs (S fuel) (enc (t, n, v) ++ l) = '(attrs, r) ← decode_attrs fuel l; Some ((t, n, v) :: attrs, r).
Proof.
  intros Ht Hn Hv. unfold enc. rewrite !le16_htons. cbn [app decode_attrs]. rewrite (proj2 (Z.eqb_neq _ _) Ht).
  pose proof (zlen_nonneg n). pose proof (zlen_nonneg v). rewrite (of_be16 (zlen n)) by lia.
  replace (Z.to_nat (zlen n)) with (length n) by (unfold zlen; lia). rewrite <- !app_assoc.
  rewrite drop_app_length, take_app_length. cbn [app]. rewrite (of_be16 (zlen v)) by lia.
  replace (Z.to_nat (zlen v)) with (length v) by (unfold zlen; lia). rewrite drop_app_length, take_app_length. done.
Qed.

(** The attributes of a job, and the header they make. *)
Definition uri (pn : list Z) : list Z := bytes "http://" ++ pn ++ bytes "/ipp".
Definition job_attrs (pn user name fmt : list Z) : list attr :=
  [(TAG_CHARSET, bytes "attributes-charset", bytes "utf-8");
   (TAG_NATULANG, bytes "attributes-natural-language", bytes "en-us");
   (TAG_URI, bytes "printer-uri", uri pn);
   (TAG_NAMEWOLANG, bytes "requesting-user-name", user);
   (TAG_NAMEWOLANG, bytes "job-name", name);
   (TAG_MIMETYPE, bytes "document-format", fmt)].
Definition ipp_bytes (id : Z) (attrs : list attr) : list Z :=
  [1; 1; 0; OP_PRINT_JOB] ++ rev (le32 (u32 id)) ++ [TAG_OPERATION_ATTR] ++ concat (map enc attrs) ++ [TAG_END_OF_ATTR].

Lemma printer_uri_eq pn : printer_uri pn = if decide (length pn <= 52)%nat then Some (uri pn) else None.
Proof.
  unfold printer_uri, put_str, put. cbn [app length Nat.add]. rewrite !length_app. cbn [length bytes map String.list_ascii_of_string].
  destruct (Nat.leb_spec (7 + (length pn + 4) + 1) 64) as [H|H]; cbn in *.
  - rewrite decide_True by lia. done.
  - rewrite decide_False by lia. done.
Qed.

(** The header is built exactly if the address and the header fit their buffers. *)
Lemma ipp_header_eq id r pn user name :
  string_at (usernm r ++ jobnm r) = Some user → string_at (jobnm r) = Some name →
  let h := ipp_bytes id (job_attrs pn user name (document_format r)) in
  ipp_header id r pn = if decide (length pn <= 52 ∧ length h <= IBUFSZ)%nat then Some h else None.
Proof.
  intros Hu Hn h. unfold ipp_header. rewrite Hu, Hn, printer_uri_eq.
  assert (le16 (htons OP_PRINT_JOB) = [0; OP_PRINT_JOB]) as -> by reflexivity. rewrite le32_htonl.
  assert (h = ([1; 1; 0; OP_PRINT_JOB] ++ rev (le32 (u32 id)) ++ [TAG_OPERATION_ATTR]) ++
    concat (map enc (job_attrs pn user name (document_format r))) ++ [TAG_END_OF_ATTR]) as Hh by (unfold h, ipp_bytes; by rewrite <- !app_assoc).
  clearbody h. set (a0 := [1; 1; 0; OP_PRINT_JOB] ++ rev (le32 (u32 id)) ++ [TAG_OPERATION_ATTR]) in *.
  assert (put IBUFSZ ([1; 1] ++ [0; OP_PRINT_JOB] ++ rev (le32 (u32 id))) [TAG_OPERATION_ATTR] = Some a0) as -> by reflexivity.
  cbn [mbind option_bind].
  unfold job_attrs in Hh. cbn [map concat] in Hh.
  assert (length a0 = 9%nat) as L0 by reflexivity. clearbody a0.
  assert (∀ (acc : list Z) t n v (k : list Z → option (list Z)), (add_option acc t n v ≫= k) =
    if decide (length acc + length (enc (t, n, v)) < IBUFSZ)%nat then k (acc ++ enc (t, n, v)) else None) as Hstep.
  { intros acc t n v k. rewrite add_option_eq. by case_decide. }
  pose proof (f_equal length Hh) as Hl. rewrite !length_app in Hl. cbn [length] in Hl.
  rewrite (Hstep _ TAG_CHARSET). case_decide; [|rewrite decide_False by lia; done].
  rewrite (Hstep _ TAG_NATULANG). rewrite length_app. case_decide; [|rewrite decide_False by lia; done].
  destruct (decide (length pn <= 52)%nat) as [Hp|Hp]; [|by rewrite decide_False by tauto]. cbn [mbind option_bind].
  rewrite (Hstep _ TAG_URI). rewrite !length_app. case_decide; [|rewrite decide_False by lia; done].
  rewrite (Hstep _ TAG_NAMEWOLANG). rewrite !length_app. case_decide; [|rewrite decide_False by lia; done].
  rewrite (Hstep _ TAG_NAMEWOLANG). rewrite !length_app. case_decide; [|rewrite decide_False by lia; done].
  rewrite (Hstep _ TAG_MIMETYPE). rewrite !length_app. case_decide; [|rewrite decide_False by lia; done].
  unfold put. rewrite !length_app. cbn [length].
  match goal with |- context [(?a <=? IBUFSZ)%nat] => destruct (Nat.leb_spec a IBUFSZ) end.
  - rewrite decide_True by lia. f_equal. rewrite Hh. rewrite <- !app_assoc. done.
  - rewrite decide_False by lia. done.
Qed.

Lemma decode_job_attrs pn user name fmt l : zlen (uri pn) < 65536 → zlen user < 65536 → zlen name < 65536 → zlen fmt < 65536 →
  decode_attrs 7 (concat (map enc (job_attrs pn user name fmt)) ++ TAG_END_OF_ATTR :: l) = Some (job_attrs pn user name fmt, l).
Proof.
  intros H1 H2 H3 H4. unfold job_attrs. cbn [map concat]. rewrite app_nil_r, <- !app_assoc.
  rewrite !decode_enc by done. cbn [decode_attrs]. reflexivity.
Qed.

(** The HTTP header, when it fits. *)
Definition http_bytes (len : Z) (pn : list Z) : list Z :=
  bytes "POST /ipp HTTP/1.1" ++ CRLF ++ bytes "Content-Length: " ++ dec len ++ CRLF ++
  bytes "Content-Type: application/ipp" ++ CRLF ++ bytes "Host: " ++ pn ++ bytes ":" ++ dec IPP_PORT ++ CRLF ++ CRLF.

Lemma http_header_ok st il ex pn : (length pn <= 52)%nat → 0 <= st + il + ex < 2 ^ 63 →
  http_header st il ex pn = Some (http_bytes (st + il + ex) pn).
Proof.
  intros Hp Hn. pose proof (dec_length 19 (st + il + ex) ltac:(lia) ltac:(lia)) as Hd. unfold http_header, http_bytes.
  set (d := dec (st + il + ex)) in *. clearbody d. assert (length (dec IPP_PORT) = 3%nat) as Hport by reflexivity.
  assert (∀ acc b, (length acc + length b < HBUFSZ)%nat → put_str HBUFSZ acc b = Some (acc ++ b)) as Hs.
  { intros acc b H. unfold put_str, put. rewrite length_app. cbn [length]. by rewrite (proj2 (Nat.leb_le _ _)) by lia. }
  repeat (rewrite Hs by (unfold HBUFSZ; rewrite ?length_app, ?Hport; cbn; lia); cbn [mbind option_bind]).
  unfold put. rewrite (proj2 (Nat.leb_le _ _)) by (unfold HBUFSZ; rewrite ?length_app, ?Hport; cbn; lia).
  f_equal. rewrite <- !app_assoc. reflexivity.
Qed.

(** ** The response *)

(** A successful HTTP response: the status line with its code, fields before and after the
    length of the contents, and the contents.  The first field of the name
    [Content-Length:] and the first empty line count. *)
Definition starts_ci (t l : list Z) : Prop := map lower (take (length t) l) = map lower t.
#[export] Instance starts_ci_dec t l : Decision (starts_ci t l).
Proof. unfold starts_ci. apply _. Defined.
Definition no_match (P : list Z → Prop) (w rest : list Z) : Prop := ∀ a b, w = a ++ b → b ≠ [] → ¬ P (b ++ rest).
Definition empty_line (l : list Z) : Prop := take 3 l = [10; 13; 10].
Definition digits (l : list Z) : Prop := l ≠ [] ∧ Forall (λ c, is_digit c = true) l.
Definition spaces (l : list Z) : Prop := Forall (λ c, is_space c = true) l.
Definition not_eol (c : Z) : bool := negb ((c =? 13) || (c =? 10)).

(** The status line of [l]: its code, and what follows the line. *)
Definition status_line (l : list Z) (code : Z) (rest : list Z) : Prop :=
  ∃ h sp ds c0 reason e0, l = h ++ sp ++ ds ++ c0 :: reason ++ e0 :: rest ∧ length h = 8%nat ∧ spaces sp ∧ digits ds ∧
    code = atol ds ∧ is_digit c0 = false ∧ Forall (λ c, not_eol c = true) reason ∧ not_eol e0 = false.

Definition fields (l : list Z) (len : Z) (body : list Z) : Prop :=
  ∃ mid cl sp ds c1 mid2, l = mid ++ cl ++ sp ++ ds ++ c1 :: mid2 ++ [10; 13; 10] ++ body ∧
    no_match (starts_ci (bytes "Content-Length:")) mid cl ∧
    map lower cl = map lower (bytes "Content-Length:") ∧ spaces sp ∧ digits ds ∧ len = atol ds ∧ is_digit c1 = false ∧
    no_match empty_line mid2 [10; 13; 10].

Section parse.
Implicit Types s : pstate.

(** The buffer from [i] on. *)
Definition at_ s (i : nat) (l : list Z) : Prop := ∃ pre, bp s = pre ++ l ∧ length pre = i.

Lemma at_rd s i c l : at_ s i (c :: l) → rd i s = (s, Done c).
Proof. intros (pre & E & <-). unfold rd. rewrite E, lookup_app_r, Nat.sub_diag by lia. done. Qed.

Lemma at_step s i c l : at_ s i (c :: l) → at_ s (S i) l.
Proof. intros (pre & E & <-). exists (pre ++ [c]). split; [by rewrite <- app_assoc|rewrite length_app; cbn; lia]. Qed.

Lemma at_app s i w l : at_ s i (w ++ l) → at_ s (i + length w) l.
Proof. intros (pre & E & <-). exists (pre ++ w). split; [by rewrite <- app_assoc|by rewrite length_app]. Qed.

(** A write into the buffer. *)
Definition wrote s (i : nat) (x : Z) : pstate := PState (conn s) (<[i := x]> (bp s)).
Lemma at_wr s i x w c l : at_ s i (w ++ c :: l) →
  wr (i + length w) x s = (wrote s (i + length w) x, Done tt) ∧ at_ (wrote s (i + length w) x) i (w ++ x :: l).
Proof.
  intros (pre & E & <-). rewrite app_assoc in E. rewrite <- length_app. unfold wr, wrote. split.
  - rewrite (proj2 (Nat.ltb_lt _ _)); [done|]. rewrite E, !length_app. cbn. lia.
  - exists pre. split; [|done]. cbn [bp]. rewrite E. rewrite insert_app_r_alt, Nat.sub_diag by lia. by rewrite <- app_assoc.
Qed.

Lemma digits_at_ok s i ds l : at_ s i (ds ++ l) → digits_at i (i + length ds) s = (s, Done (atol ds)).
Proof.
  intros (pre & E & <-). unfold digits_at, gets. rewrite E, drop_app_length.
  replace (length pre + length ds - length pre)%nat with (length ds) by lia. by rewrite take_app_length.
Qed.

(** Skipping stays in front of a character that does not satisfy the test. *)
Lemma skip_while_ok fuel p i s w c l :
  at_ s i (w ++ c :: l) → Forall (λ x, p x = true) w → p c = false → (length w < fuel)%nat →
  skip_while fuel p i s = (s, Done (i + length w)%nat) ∧ at_ s (i + length w) (c :: l).
Proof.
  revert i w. induction fuel as [|fuel IH]; intros i w Ha Hw Hc Hf; [lia|]. cbn [skip_while]. destruct w as [|x w].
  - rewrite (bind_done _ _ _ _ _ (at_rd _ _ _ _ Ha)), Hc. cbn. rewrite Nat.add_0_r. done.
  - apply Forall_cons in Hw as [Hx Hw]. cbn [app] in Ha. rewrite (bind_done _ _ _ _ _ (at_rd _ _ _ _ Ha)), Hx.
    apply at_step in Ha. destruct (IH (S i) w Ha Hw Hc) as [-> Hat]; [cbn in Hf; lia|]. cbn [length].
    replace (i + S (length w))%nat with (S i + length w)%nat by lia. done.
Qed.

Lemma casecmp_ok t i s l : (length t <= length l)%nat → at_ s i l →
  casecmp t i s = (s, Done (bool_decide (starts_ci t l))).
Proof.
  revert i l. induction t as [|c t IH]; intros i l Hl Ha.
  - cbn. rewrite bool_decide_true; [done|]. unfold starts_ci. by destruct l.
  - destruct l as [|x l]; [cbn in Hl; lia|]. cbn [casecmp]. rewrite (bind_done _ _ _ _ _ (at_rd _ _ _ _ Ha)).
    destruct (Z.eqb_spec (lower x) (lower c)) as [E|E].
    + rewrite (IH (S i) l) by (cbn in Hl; eauto using at_step with lia). do 2 f_equal. apply bool_decide_ext.
      unfold starts_ci. cbn. rewrite E. split; congruence.
    + rewrite bool_decide_false; [done|]. unfold starts_ci. cbn. congruence.
Qed.

Definition is_c (c : Z) : bool := (c =? 67) || (c =? 99).

Lemma find_c_ok fuel i datsz s w c l :
  at_ s i (w ++ c :: l) → Forall (λ x, is_c x = false) w → is_c c = true → (i + length w < datsz)%nat → (length w < fuel)%nat →
  find_c fuel i datsz s = (s, Done (i + length w)%nat).
Proof.
  revert i w. induction fuel as [|fuel IH]; intros i w Ha Hw Hc Hd Hf; [lia|]. cbn [find_c]. destruct w as [|x w].
  - rewrite (bind_done _ _ _ _ _ (at_rd _ _ _ _ Ha)). unfold is_c in Hc. rewrite Hc. cbn. by rewrite Nat.add_0_r.
  - apply Forall_cons in Hw as [Hx Hw]. cbn [app] in Ha. rewrite (bind_done _ _ _ _ _ (at_rd _ _ _ _ Ha)). unfold is_c in Hx. rewrite Hx.
    cbn [length] in *. rewrite (proj2 (Nat.leb_gt _ _)) by lia. cbn [orb].
    rewrite (IH (S i) w (at_step _ _ _ _ Ha) Hw Hc) by lia. do 2 f_equal. lia.
Qed.

Lemma more_have gb i datsz s : (i < datsz)%nat → more gb i datsz s = (s, Done (Some datsz)).
Proof. intros H. unfold more. by rewrite (proj2 (Nat.leb_gt _ _)) by lia. Qed.

(** Either a C occurs, or none does. *)
Lemma split_c l : (Forall (λ x, is_c x = false) l) ∨ ∃ w c l', l = w ++ c :: l' ∧ Forall (λ x, is_c x = false) w ∧ is_c c = true.
Proof.
  induction l as [|x l [H|(w & c & l' & -> & Hw & Hc)]]; [by left| |].
  - destruct (is_c x) eqn:E; [right; by exists [], x, l|left; by constructor].
  - destruct (is_c x) eqn:E; [right; by exists [], x, (w ++ c :: l')|right; exists (x :: w), c, l'; by split_and!; [|constructor|]].
Qed.

Lemma starts_ci_app t a r r' : (length t <= length a)%nat → starts_ci t (a ++ r) ↔ starts_ci t (a ++ r').
Proof. intros H. unfold starts_ci. by rewrite !take_app_le by done. Qed.

(** What the search for the length of the contents finds. *)
Lemma find_length_ok gb fuel i s mid cl sp ds c1 r :
  at_ s i (mid ++ cl ++ sp ++ ds ++ c1 :: r) → ∀ datsz, (i + length (mid ++ cl) <= datsz)%nat →
  no_match (starts_ci (bytes "Content-Length:")) mid cl → map lower cl = map lower (bytes "Content-Length:") →
  spaces sp → digits ds → is_digit c1 = false → (length mid + length sp + length ds < fuel)%nat →
  ∃ s', let j := (i + length mid + 15 + length sp + length ds + 1)%nat in
    find_length fuel gb i datsz s = (s', Done (Some (j, datsz, atol ds))) ∧ at_ s' j r ∧ conn s' = conn s ∧ length (bp s') = length (bp s).
Proof.
  revert i mid. induction fuel as [|fuel IH]; intros i mid Ha datsz Hd Hno Hcl Hsp Hds Hc1 Hf; [lia|]. cbn [find_length].
  assert (length cl = 15%nat) as Lcl by (apply (f_equal length) in Hcl; by rewrite !length_map in Hcl).
  rewrite length_app, Lcl in Hd.
  destruct (split_c mid) as [Hm|(w & c & mid' & -> & Hw & Hc)].
  - destruct cl as [|c cl]; [done|]. assert (is_c c = true) as Hc.
    { cbn in Hcl. injection Hcl as E _. assert (lower c = 99) as E' by (rewrite E; reflexivity).
      unfold is_c. revert E'. clear. unfold lower. destruct ((65 <=? c) && (c <=? 90)) eqn:?; lia. }
    cbn [app] in Ha. rewrite (bind_done _ _ _ _ _ (find_c_ok (S fuel) i datsz s mid c _ Ha Hm Hc ltac:(lia) ltac:(lia))).
    rewrite (bind_done _ _ _ _ _ (more_have gb (i + length mid) datsz s ltac:(lia))). cbv iota beta.
    apply at_app in Ha. rewrite app_comm_cons in Ha.
    assert (length (bytes "Content-Length:") = 15%nat) as Lt by reflexivity.
    erewrite bind_done by (apply casecmp_ok; [|exact Ha]; rewrite length_app; lia).
    rewrite bool_decide_true by (unfold starts_ci; rewrite Lt, <- Lcl, take_app_length; exact Hcl).
    apply at_app in Ha. rewrite Lcl in Ha. destruct Hds as [Hd0 Hds]. destruct ds as [|x ds]; [done|].
    pose proof (proj1 (proj1 (Forall_cons _ _ _) Hds)) as Hx. destruct (digit_not _ Hx) as (_ & _ & _ & Hxs & _).
    destruct (skip_while_ok (S fuel) is_space _ s sp x _ Ha Hsp Hxs ltac:(lia)) as [E1 Ha1]. rewrite (bind_done _ _ _ _ _ E1). clear E1.
    rewrite app_comm_cons in Ha1. destruct (skip_while_ok (S fuel) is_digit _ s (x :: ds) c1 r Ha1 Hds Hc1 ltac:(cbn in *; lia)) as [E2 _].
    rewrite (bind_done _ _ _ _ _ E2). destruct (at_wr s _ 0 (x :: ds) c1 r Ha1) as [E3 Ha3]. rewrite (bind_done _ _ _ _ _ E3).
    rewrite (bind_done _ _ _ _ _ (digits_at_ok _ _ _ _ Ha3)). match type of Ha3 with at_ ?x _ _ => exists x end. split; [|split; [|split; [done|unfold wrote; cbn [bp]; by rewrite length_insert]]].
    + unfold ret. do 5 f_equal. cbn [length]. lia.
    + apply at_app, at_step in Ha3. replace (i + _ + _ + _ + _ + 1)%nat with (S (i + length mid + 15 + length sp + length (x :: ds))) by lia. exact Ha3.
  - rewrite <- app_assoc in Ha. cbn [app] in Ha. rewrite length_app in Hd, Hf. cbn [length] in Hd, Hf.
    rewrite (bind_done _ _ _ _ _ (find_c_ok (S fuel) i datsz s w c _ Ha Hw Hc ltac:(lia) ltac:(lia))).
    rewrite (bind_done _ _ _ _ _ (more_have gb (i + length w) datsz s ltac:(lia))). cbv iota beta. apply at_app in Ha.
    assert (length (bytes "Content-Length:") = 15%nat) as Lt by reflexivity.
    erewrite bind_done by (apply casecmp_ok; [|exact Ha]; cbn [length]; rewrite !length_app; lia).
    rewrite bool_decide_false; last first.
    { intros Hs. apply (Hno w (c :: mid')); [done|done|]. rewrite !app_comm_cons, (app_assoc _ cl) in Hs.
      rewrite <- (app_nil_r ((c :: mid') ++ cl)). eapply starts_ci_app; [|exact Hs]. rewrite length_app. lia. }
    apply at_step in Ha. destruct (IH _ mid' Ha datsz) as (s' & E & Ha' & Hcn & Hl); try done; [rewrite length_app; lia| |lia|].
    { intros a b -> Hb. apply (Hno (w ++ c :: a) b); [by rewrite <- app_assoc|done]. }
    exists s'. rewrite E. rewrite length_app. cbn [length].
    replace (i + (length w + S (length mid')) + 15 + length sp + length ds + 1)%nat
      with (S (i + length w) + length mid' + 15 + length sp + length ds + 1)%nat by lia. done.
Qed.

Lemma scan_end_ok fuel i datsz s mid r :
  at_ s i (mid ++ [10; 13; 10] ++ r) → (i + length mid + 3 <= datsz)%nat → no_match empty_line mid [10; 13; 10] →
  (length mid < fuel)%nat → scan_end fuel i datsz s = (s, Done (true, (i + length mid + 3)%nat)) ∧ at_ s (i + length mid + 3) r.
Proof.
  revert i mid. induction fuel as [|fuel IH]; intros i mid Ha Hd Hno Hf; [lia|]. cbn [scan_end].
  rewrite (proj2 (Z.ltb_lt _ _)) by lia. destruct mid as [|x mid].
  - cbn [app length] in *. rewrite (bind_done _ _ _ _ _ (at_rd _ _ _ _ Ha)). cbn [Z.eqb Pos.eqb andb].
    pose proof (at_step _ _ _ _ Ha) as Ha1. replace (i + 1)%nat with (S i) by lia.
    rewrite (bind_done _ _ _ _ _ (at_rd _ _ _ _ Ha1)). cbn [Z.eqb Pos.eqb andb].
    pose proof (at_step _ _ _ _ Ha1) as Ha2. replace (i + 2)%nat with (S (S i)) by lia.
    rewrite (bind_done _ _ _ _ _ (at_rd _ _ _ _ Ha2)). cbn [Z.eqb Pos.eqb andb]. apply at_step in Ha2. unfold ret.
    replace (i + 0 + 3)%nat with (i + 3)%nat by lia. split; [done|]. by replace (i + 3)%nat with (S (S (S i))) by lia.
  - assert (∃ y z t, mid ++ [10; 13; 10] = y :: z :: t) as (y & z & t & Et).
    { destruct mid as [|y [|z mid]]; cbn; eauto. }
    assert (¬ (x = 10 ∧ y = 13 ∧ z = 10)) as Hn.
    { intros (-> & -> & ->). apply (Hno [] (10 :: mid)); [done|done|]. unfold empty_line. cbn [app]. by rewrite Et. }
    cbn [app length] in *. pose proof (at_step _ _ _ _ Ha) as Ha'. rewrite (bind_done _ _ _ _ _ (at_rd _ _ _ _ Ha)).
    assert (mid ++ 10 :: 13 :: 10 :: r = y :: z :: t ++ r) as Er.
    { change (mid ++ [10; 13; 10] ++ r = (y :: z :: t) ++ r). by rewrite app_assoc, Et. }
    pose proof Ha' as Ha1. rewrite Er in Ha1. pose proof (at_step _ _ _ _ Ha1) as Ha2.
    replace (i + 1)%nat with (S i) by lia. replace (i + 2)%nat with (S (S i)) by lia.
    destruct (IH (S i) mid Ha') as [E Hat]; [lia| |lia|].
    { intros a b -> Hb. apply (Hno (x :: a) b); done. }
    replace (i + S (length mid) + 3)%nat with (S i + length mid + 3)%nat by lia. split; [|done].
    destruct (Z.eqb_spec x 10) as [->|Hx].
    + rewrite (bind_done _ _ _ _ _ (at_rd _ _ _ _ Ha1)). destruct (Z.eqb_spec y 13) as [->|Hy]; cbn [andb].
      * rewrite (bind_done _ _ _ _ _ (at_rd _ _ _ _ Ha2)). destruct (Z.eqb_spec z 10) as [->|Hz]; [tauto|]. exact E.
      * rewrite bind_ret. exact E.
    + rewrite bind_ret. cbn [andb]. rewrite bind_ret. exact E.
Qed.

Ltac list_eq := do 4 (cbn [app]; rewrite <- ?app_assoc); reflexivity.

(** What the contents of the response say about a job. *)
Definition ipp_result (body : list Z) (id : Z) : bool :=
  bool_decide (i32 (htonl (of_le (take 4 (drop 4 body)))) = id) && (htons (of_le (take 2 (drop 2 body))) <=? 0xff).

Lemma ipp_status_ok i id s body g : at_ s i (body ++ g) → (8 <= length body)%nat → ipp_status i id s = (s, Done (ipp_result body id)).
Proof.
  intros Ha Hb. unfold ipp_status. rewrite bind_get. pose proof Ha as (pre & E & Hi).
  assert (∀ k n, (k + n <= length body)%nat → take n (drop (i + k) (bp s)) = take n (drop k body)) as Ht.
  { intros k n Hk. rewrite E, <- Hi, <- drop_drop, drop_app_length, drop_app_le by lia. rewrite take_app_le; [done|]. rewrite length_drop. lia. }
  assert (∃ c, rd (i + 7) s = (s, Done c)) as (c & Hc).
  { destruct (lookup_lt_is_Some_2 body 7) as (c & Hc); [lia|]. exists c. unfold rd. rewrite E, <- Hi.
    rewrite lookup_app_r by lia. replace (length pre + 7 - length pre)%nat with 7%nat by lia. by rewrite lookup_app_l, Hc by lia. }
  rewrite (bind_done _ _ _ _ _ Hc). unfold ret, ipp_result. by rewrite !Ht by lia.
Qed.

Lemma no_match_nul l cl : no_match (starts_ci (bytes "Content-Length:")) l cl → no_match (starts_ci (bytes "Content-Length:")) (0 :: l) cl.
Proof.
  intros H a b E Hb. destruct a as [|x a]; cbn in E; [|injection E as _ ->; by apply (H a b)].
  subst b. unfold starts_ci. cbn. discriminate.
Qed.

(** The position of the contents of a response, from the end of the status line. *)
Lemma find_length_fields gb fuel i s l len body g :
  at_ s i (0 :: l ++ g) → fields l len body → (S (length l) < fuel)%nat →
  ∃ s' mid2, find_length fuel gb i (i + S (length l)) s = (s', Done (Some (i + S (length l) - (length mid2 + 3 + length body), (i + S (length l)), len)%nat)) ∧
    at_ s' (i + S (length l) - (length mid2 + 3 + length body)) (mid2 ++ [10; 13; 10] ++ body ++ g) ∧ no_match empty_line mid2 [10; 13; 10] ∧
    conn s' = conn s ∧ length (bp s') = length (bp s) ∧ (length mid2 + 3 + length body <= length l)%nat.
Proof.
  intros Ha (mid & cl & sp & ds & c1 & mid2 & -> & Hno & Hcl & Hsp & Hds & -> & Hc1 & Hno2) Hf.
  assert (length cl = 15%nat) as Lcl by (apply (f_equal length) in Hcl; by rewrite !length_map in Hcl).
  rewrite !length_app in *. cbn [length] in *. rewrite !length_app in *. cbn [length] in *.
  replace (0 :: _ ++ g) with ((0 :: mid) ++ cl ++ sp ++ ds ++ c1 :: mid2 ++ [10; 13; 10] ++ body ++ g) in Ha by list_eq.
  destruct (find_length_ok gb fuel i s (0 :: mid) cl sp ds c1 _ Ha
    (i + S (length mid + (length cl + (length sp + (length ds + S (length mid2 + S (S (S (length body))))))))))
    as (s' & E & Ha' & Hcn & Hl); try done; [rewrite length_app; cbn; lia|by apply no_match_nul|cbn; lia|].
  exists s', mid2. cbn [length] in *.
  replace (i + _ - _)%nat with (i + S (length mid) + 15 + length sp + length ds + 1)%nat by lia.
  split_and!; [done..|lia].
Qed.

Lemma find_end_ok fuel gb j datsz s mid2 r :
  at_ s j (mid2 ++ [10; 13; 10] ++ r) → (j + length mid2 + 3 < datsz)%nat → no_match empty_line mid2 [10; 13; 10] → (length mid2 < fuel)%nat →
  find_end fuel gb j datsz s = (s, Done (Some ((j + length mid2 + 3)%nat, datsz))) ∧ at_ s (j + length mid2 + 3) r.
Proof.
  intros Ha Hd Hno Hf. destruct fuel as [|fuel]; [lia|]. cbn [find_end].
  destruct (scan_end_ok (S fuel) j datsz s mid2 r Ha ltac:(lia) Hno Hf) as [E Ha2].
  rewrite (bind_done _ _ _ _ _ E). cbn [fst snd]. by rewrite (bind_done _ _ _ _ _ (more_have gb (j + length mid2 + 3) datsz s Hd)).
Qed.

Lemma http_success_ok fuel gb i id s l len body g :
  at_ s i (0 :: l ++ g) → fields l len body → len <= zlen body → (8 <= length body)%nat → (S (length l) < fuel)%nat →
  ∃ s', http_success fuel gb i (i + S (length l)) id s = (s', Done (ipp_result body id)).
Proof.
  intros Ha Hfl Hlen Hb Hf. unfold http_success.
  destruct (find_length_fields gb fuel i s l len body g Ha Hfl Hf) as (s' & mid2 & E & Ha' & Hno & _ & _ & Hl).
  rewrite (bind_done _ _ _ _ _ E). cbv iota beta. clear E. set (j := (i + S (length l) - _)%nat) in *.
  rewrite (bind_done _ _ _ _ _ (more_have gb j (i + S (length l)) s' ltac:(lia))). cbv iota beta.
  destruct (find_end_ok fuel gb j (i + S (length l)) s' mid2 (body ++ g) Ha' ltac:(lia) Hno ltac:(lia)) as [E Ha2].
  rewrite (bind_done _ _ _ _ _ E). cbv iota beta.
  rewrite (proj2 (Z.ltb_ge _ _)) by (unfold zlen in Hlen; lia). exists s'. by rewrite (ipp_status_ok _ _ _ _ _ Ha2 Hb).
Qed.

(** The status line: its code is read, and a 0 written at its end. *)
Lemma status_line_ok fuel s l code r g :
  at_ s 0 (l ++ g) → status_line l code r → (length l < fuel)%nat →
  ∃ i j k s', skip_while fuel is_space 8 s = (s, Done i) ∧ skip_while fuel is_digit i s = (s, Done j) ∧ i ≠ j ∧
    (wr j 0;;; let! k := skip_while fuel (λ c, negb ((c =? 13) || (c =? 10))) (S j) in wr k 0;;; let! c := digits_at i j in ret (k, c)) s = (s', Done (k, code)) ∧
    at_ s' k (0 :: r ++ g) ∧ (k + S (length r) = length l)%nat ∧ conn s' = conn s ∧ length (bp s') = length (bp s).
Proof.
  intros Ha (h & sp & ds & c0 & reason & e0 & -> & Hh & Hsp & [Hd0 Hds] & -> & Hc0 & Hre & He) Hf.
  rewrite !length_app in *. cbn [length] in *. rewrite !length_app in *. cbn [length] in *.
  destruct ds as [|x ds]; [done|]. pose proof (proj1 (proj1 (Forall_cons _ _ _) Hds)) as Hx.
  destruct (digit_not _ Hx) as (_ & _ & _ & Hxs & _).
  replace (_ ++ g) with (h ++ sp ++ x :: ds ++ c0 :: reason ++ e0 :: r ++ g) in Ha by list_eq.
  apply at_app in Ha. rewrite Hh in Ha. cbn [Nat.add] in Ha.
  destruct (skip_while_ok fuel is_space 8 s sp x _ Ha Hsp Hxs ltac:(lia)) as [E1 Ha1].
  set (i := (8 + length sp)%nat) in *. rewrite app_comm_cons in Ha1.
  destruct (skip_while_ok fuel is_digit i s (x :: ds) c0 _ Ha1 Hds Hc0 ltac:(lia)) as [E2 _].
  set (j := (i + length (x :: ds))%nat) in *. exists i, j.
  destruct (at_wr s i 0 (x :: ds) c0 _ Ha1) as [E3 Ha3]. fold j in E3, Ha3. set (s1 := wrote s j 0) in *.
  pose proof (at_step _ _ _ _ (at_app _ _ _ _ Ha3)) as Ha4. fold j in Ha4.
  destruct (skip_while_ok fuel (λ c, negb ((c =? 13) || (c =? 10))) (S j) _ reason e0 (r ++ g) Ha4 Hre He ltac:(lia)) as [E4 _].
  replace ((x :: ds) ++ _) with ((x :: ds ++ 0 :: reason) ++ e0 :: r ++ g) in Ha3 by list_eq.
  destruct (at_wr s1 i 0 _ e0 _ Ha3) as [E5 Ha6].
  assert (i + length (x :: ds ++ 0%Z :: reason) = S j + length reason)%nat as Ej by (unfold j; cbn [length]; rewrite length_app; cbn [length]; lia).
  rewrite Ej in E5, Ha6.
  exists (S j + length reason)%nat, (wrote s1 (S j + length reason) 0). split_and!; [done|done|unfold j; cbn; lia| | | |done|].
  - rewrite (bind_done _ _ _ _ _ E3), (bind_done _ _ _ _ _ E4), (bind_done _ _ _ _ _ E5).
    replace (_ ++ 0 :: r ++ g) with ((x :: ds) ++ 0 :: reason ++ 0 :: r ++ g) in Ha6 by list_eq.
    rewrite (bind_done _ _ _ _ _ (digits_at_ok _ i (x :: ds) _ Ha6)). done.
  - apply at_app in Ha6. by rewrite Ej in Ha6.
  - unfold j, i. cbn [length]. lia.
  - unfold s1, wrote. cbn [bp]. by rewrite !length_insert.
Qed.

(** The part of [one_response] up to the code. *)
Lemma one_response_eq fuel gb datsz id s l code r g :
  at_ s 0 (l ++ g) → status_line l code r → (length l < fuel)%nat →
  ∃ k s', at_ s' k (0 :: r ++ g) ∧ (k + S (length r) = length l)%nat ∧ conn s' = conn s ∧ length (bp s') = length (bp s) ∧
    one_response fuel gb datsz id s =
      (if HTTP_INFO code then ret None
       else if negb (HTTP_SUCCESS code) then wr datsz 0;;; ret (Some false)
       else let! b := http_success fuel gb k datsz id in ret (Some b)) s'.
Proof.
  intros Ha Hl Hf. destruct (status_line_ok fuel s l code r g Ha Hl Hf) as (i & j & k & s' & E1 & E2 & Hij & E3 & Ha' & Hk & Hc & Hb).
  exists k, s'. split_and!; [done..|]. unfold one_response. rewrite (bind_done _ _ _ _ _ E1), (bind_done _ _ _ _ _ E2).
  rewrite (proj2 (Nat.eqb_neq _ _)) by lia.
  set (K := λ c k, if HTTP_INFO c then ret None else if negb (HTTP_SUCCESS c) then wr datsz 0;;; ret (Some false)
                   else let! b := http_success fuel gb k datsz id in ret (Some b)).
  change (?lhs s = _) with (lhs s = K code k s').
  transitivity (bind (wr j 0;;; let! k := skip_while fuel (λ c, negb ((c =? 13) || (c =? 10))) (S j) in wr k 0;;; let! c := digits_at i j in ret (k, c))
    (λ kc, K kc.2 kc.1) s); [|by rewrite (bind_done _ _ _ _ _ E3)].
  unfold bind. destruct (wr j 0 s) as [s1 [[]|e]]; [|done].
  destruct (skip_while fuel _ (S j) s1) as [s2 [k2|e]]; [|done]. destruct (wr k2 0 s2) as [s3 [[]|e]]; [|done].
  by destruct (digits_at i j s3) as [s4 [c|e]].
Qed.

Lemma tread_chunk s l r o q e : conn s = Io (l ++ r) o (Part (length l) :: q) e → l ≠ [] → (length l <= length (bp s))%nat →
  tread_at 0 (length (bp s)) s = (PState (Io r o q e) (l ++ drop (length l) (bp s)), Done (Some (length l))).
Proof.
  intros E Hl Hb. assert (0 < length l)%nat by (destruct l; [done|cbn; lia]). unfold tread_at, tread, read. rewrite E. cbn [sched rest out errno].
  rewrite Nat.min_r, Nat.max_r by lia. rewrite take_app_length, drop_app_length. done.
Qed.

End parse.

(** A response that is delivered by one read, and fits the buffer. *)
Definition piece (l : list Z) : Prop := l ≠ [] ∧ (length l <= IOBUFSZ)%nat.
Definition info (l : list Z) : Prop := piece l ∧ ∃ code r, status_line l code r ∧ HTTP_INFO code = true.

(** A connection on which the pieces [ls] arrive one after the other. *)
Definition pieces (ls : list (list Z)) (tail : list Z) (q : list event) (e : Z) : io :=
  Io (concat ls ++ tail) [] (map (λ l, Part (length l)) ls ++ q) e.

Lemma pieces_read ls l tail q e b : piece l → length b = IOBUFSZ →
  tread_at 0 (length b) (PState (pieces (l :: ls) tail q e) b) =
    (PState (pieces ls tail q e) (l ++ drop (length l) b), Done (Some (length l))) ∧
  at_ (PState (pieces ls tail q e) (l ++ drop (length l) b)) 0 (l ++ drop (length l) b) ∧ length (l ++ drop (length l) b) = IOBUFSZ.
Proof.
  intros [Hl Hn] Hb. split_and!.
  - apply tread_chunk; [|done|cbn; lia]. unfold pieces. cbn [concat map app]. by rewrite <- app_assoc.
  - by exists [].
  - rewrite length_app, length_drop. lia.
Qed.

(** Reading the informational responses before one. *)
Lemma status_loop_infos n infos l tail q e gb b id : Forall info infos → length b = IOBUFSZ → (IOBUFSZ < n)%nat →
  ∃ b', length b' = IOBUFSZ ∧ status_loop (length infos + n) gb id (PState (pieces (infos ++ [l]) tail q e) b) =
    status_loop n gb id (PState (pieces [l] tail q e) b').
Proof.
  intros Hi Hb Hn. revert b Hb. induction Hi as [|x infos [Hx (code & r & Hs & Hc)] _ IH]; intros b Hb; [by exists b|].
  cbn [app length Nat.add status_loop]. rewrite bind_get. cbn [bp].
  destruct (pieces_read (infos ++ [l]) x tail q e b Hx Hb) as (E & Ha & Hlen). rewrite (bind_done _ _ _ _ _ E).
  destruct Hx as [Hx Hxl]. destruct (length x) as [|m] eqn:El; [by destruct x|]. rewrite <- El in *.
  destruct (one_response_eq (S (length infos + n)) gb (length x) id _ x code r _ Ha Hs ltac:(lia)) as (k & s' & _ & _ & Hcn & Hbl & E1).
  unfold bind. rewrite E1, Hc. cbn [ret]. destruct s' as [c b']. cbn in Hcn, Hbl. subst c. apply IH. by rewrite Hbl.
Qed.

(** The result of the job is read from a response that arrives in one piece, after any
    number of informational responses; other responses are failures. *)
Lemma printer_status_ok n infos l tail q e gb id code r :
  Forall info infos → piece l → length gb = IOBUFSZ → (IOBUFSZ < n)%nat → status_line l code r → HTTP_INFO code = false →
  (HTTP_SUCCESS code = true → ∀ len body, fields r len body → len <= zlen body → (8 <= length body)%nat →
     printer_status (length infos + n) gb (pieces (infos ++ [l]) tail q e) id = Done (ipp_result body id)) ∧
  (HTTP_SUCCESS code = false → (length l < IOBUFSZ)%nat →
     printer_status (length infos + n) gb (pieces (infos ++ [l]) tail q e) id = Done false).
Proof.
  intros Hi Hl Hgb Hn Hs Hinf. unfold printer_status.
  destruct (status_loop_infos n infos l tail q e gb gb id Hi Hgb Hn) as (b & Hb & ->). clear Hi infos.
  destruct n as [|n]; [lia|]. cbn [status_loop]. rewrite bind_get. cbn [bp].
  destruct (pieces_read [] l tail q e b Hl Hb) as (E & Ha & Hlen). rewrite (bind_done _ _ _ _ _ E).
  destruct Hl as [Hl0 Hl]. destruct (length l) as [|m] eqn:El; [by destruct l|]. rewrite <- El in *.
  destruct (one_response_eq (S n) gb (length l) id _ l code r _ Ha Hs ltac:(lia)) as (k & s' & Ha' & Hk & _ & Hbl & E1).
  rewrite Hinf in E1. split; intros Hc.
  - intros len body Hf Hlb H8. rewrite Hc in E1. cbn [negb] in E1.
    destruct (http_success_ok (S n) gb k id s' r len body _ Ha' Hf Hlb H8) as (s2 & E2); [lia|].
    rewrite Hk in E2. rewrite (bind_done _ _ _ _ _ E2) in E1. by rewrite (bind_done _ _ _ _ _ E1).
  - intros Hlt. rewrite Hc in E1. cbn [negb] in E1. unfold bind. rewrite E1. unfold wr, bind. rewrite Hbl. cbn [bp]. rewrite Hlen. by rewrite (proj2 (Nat.ltb_lt _ _)) by lia.
Qed.

(** ** A header in two pieces *)

Lemma find_end_stuck fuel gb i datsz s : (datsz <= i + 2)%nat → (i < datsz)%nat → find_end fuel gb i datsz s = (s, Fail NoFuel).
Proof.
  intros H1 H2. induction fuel as [|fuel IH]; [done|]. cbn [find_end].
  assert (scan_end (S fuel) i datsz s = (s, Done (false, i))) as E.
  { cbn [scan_end]. by rewrite (proj2 (Z.ltb_ge _ _)) by lia. }
  rewrite (bind_done _ _ _ _ _ E). cbn [fst snd]. by rewrite (bind_done _ _ _ _ _ (more_have gb i datsz s H2)).
Qed.

(** A header whose first piece ends behind the line with the length of the contents: the
    search for the empty line never gets the second piece. *)
Definition first_lines : list Z := bytes "HTTP/1.1 200 OK" ++ CRLF ++ bytes "Content-Length: 8" ++ CRLF.

Lemma first_lines_status : status_line first_lines 200 (10 :: bytes "Content-Length: 8" ++ CRLF).
Proof.
  exists (bytes "HTTP/1.1"), [32], (bytes "200"), 32, (bytes "OK"), 13. split_and!; try done; [by repeat constructor| |by repeat constructor].
  split; [done|by repeat constructor].
Qed.

Lemma http_success_hangs fuel gb id s g : at_ s 15 (0 :: (10 :: bytes "Content-Length: 8" ++ CRLF) ++ g) → (10 < fuel)%nat →
  ∃ s', http_success fuel gb 15 36 id s = (s', Fail NoFuel).
Proof.
  intros Ha Hf. unfold http_success.
  destruct (find_length_ok gb fuel 15 s [0; 10] (bytes "Content-Length:") [32] [56] 13 (10 :: g) Ha 36)
    as (s2 & E2 & _); try done; [cbn; lia| |by repeat constructor|split; [done|by repeat constructor]|cbn; lia|].
  { intros a b Eab Hb. destruct a as [|? [|? [|]]]; cbn in Eab; simplify_eq; unfold starts_ci; cbn; discriminate. }
  rewrite (bind_done _ _ _ _ _ E2). cbn [length Nat.add]. cbv iota beta. rewrite (bind_done _ _ _ _ _ (more_have gb 35 36 s2 ltac:(lia))).
  cbv iota beta. exists s2. unfold bind. by rewrite find_end_stuck by lia.
Qed.

Lemma printer_status_hangs n gb id tail q e :
  length gb = IOBUFSZ → (IOBUFSZ < n)%nat → printer_status n gb (pieces [first_lines] tail q e) id = Fail NoFuel.
Proof.
  intros Hgb Hn. unfold printer_status. destruct n as [|n]; [lia|]. cbn [status_loop]. rewrite bind_get. cbn [bp].
  assert (length first_lines = 36%nat) as Ll by done.
  assert (piece first_lines) as Hp by (split; [done|rewrite Ll; unfold IOBUFSZ; lia]).
  destruct (pieces_read [] first_lines tail q e gb Hp Hgb) as (E & Ha & Hlen). rewrite (bind_done _ _ _ _ _ E). rewrite Ll.
  destruct (one_response_eq (S n) gb 36 id _ first_lines 200 _ _ Ha first_lines_status) as (k & s' & Ha' & Hk & _ & _ & E1); [unfold IOBUFSZ in *; rewrite Ll; lia|].
  change (length first_lines) with 36%nat in Hk. cbn in Hk. assert (k = 15%nat) as -> by lia.
  destruct (http_success_hangs (S n) gb id s' _ Ha' ltac:(unfold IOBUFSZ in *; lia)) as (s2 & E2).
  rewrite Ll in E1. unfold bind. rewrite E1. change (HTTP_INFO 200) with false. change (HTTP_SUCCESS 200) with true. cbn [negb]. unfold bind. by rewrite E2.
Qed.
