(* ===== verification/PrintdProps.v ===== *)
(** Properties of the print daemon: accepted jobs are kept until they are printed, in their
    order, through crashes of the daemon; what a client is told; the messages to the
    printer; and what goes wrong. *)
From stdpp Require Import base tactics numbers list strings gmap fin_sets relations.
From Stdlib Require Import ZArith Lia.
From S2P Require Import Rio.
From S2P Require Import Prelude.
From S2P Require Import ByteOrder.
From S2P Require Import Cio.
From S2P Require Import Print.
From S2P Require Import Ipp.
From S2P Require Import Printd.
From S2P Require Import RioProps.
From S2P Require Import PrintdThms.
From S2P Require Import IppThms.
Local Open Scope Z_scope.

(** ** Requests in files *)

Record good_req (r : printreq) : Prop := GoodReq {
  gr_wf : wf_req r;
  gr_size : 0 <= size r < 2 ^ 32;
  gr_flags : 0 <= flags r < 2 ^ 32 }.

Lemma req_roundtrip r : good_req r → req_of_bytes (bytes_of_req r) = r.
Proof.
  intros [[Hu Hj] Hs Hf]. unfold req_of_bytes, bytes_of_req.
  change (take 4 _) with (le32 (size r)) at 1. change (take 4 (drop 4 _)) with (le32 (flags r)).
  change (drop 8 _) with (usernm r ++ jobnm r). change (drop (8 + USERNM_MAX) ?l) with (drop USERNM_MAX (drop 8 l)).
  change (drop 8 _) with (usernm r ++ jobnm r). rewrite !of_le32, !u32_id by done.
  rewrite <- Hu, take_app_length, drop_app_length, <- Hj, take_ge by done. by destruct r.
Qed.

Lemma lor_text_range f : 0 <= f < 2 ^ 32 → 0 <= Z.lor f PR_TEXT < 2 ^ 32.
Proof.
  intros [H1 H2]. split; [apply Z.lor_nonneg; unfold PR_TEXT; lia|]. destruct (decide (Z.lor f PR_TEXT = 0)) as [->|Hn]; [lia|].
  apply Z.log2_lt_pow2; [assert (0 <= Z.lor f PR_TEXT) by (apply Z.lor_nonneg; unfold PR_TEXT; lia); lia|].
  rewrite Z.log2_lor by (unfold PR_TEXT; lia). apply Z.max_lub_lt; [|unfold PR_TEXT; cbn; lia].
  destruct (decide (f = 0)) as [->|]; [cbn; lia|]. apply Z.log2_lt_pow2; lia.
Qed.

Lemma job_flags_range g b fl fl' d : 0 <= fl < 2 ^ 32 → job_flags g b fl d fl' → 0 <= fl' < 2 ^ 32.
Proof.
  intros Hf. unfold job_flags. destruct b; [|by intros ->]. intros [[_ ->]|(c & _ & _ & ->)]; [done|].
  destruct (is_postscript _); [done|by apply lor_text_range].
Qed.

Lemma received_good b : length b = sizeof_printreq → good_req (received_req b).
Proof. intros H. split; [by apply received_req_wf|apply htonl_range..]. Qed.

Lemma dec_inj a b : 0 <= a < dec_max → 0 <= b < dec_max → dec a = dec b → a = b.
Proof. intros Ha Hb E. rewrite <- (proj2 (dec_spec a Ha)), <- (proj2 (dec_spec b Hb)). by rewrite E. Qed.

(** ** The daemon as threads that take steps

    A client takes a number, spools its files and queues its job; the printer thread picks
    a job and then does the rest of its round.  Between these steps other threads run. *)

(** A job with its data. *)
Record accepted_job := Accepted { acc_id : Z; acc_req : printreq; acc_data : list Z }.

Inductive phase := Numbered (fd id : Z) (r : printreq) | Spooled (id : Z) (r : printreq).
Definition phase_id (p : phase) : Z := match p with Numbered _ id _ | Spooled id _ => id end.

(** The jobs that were accepted, those queued in their order, those that left the queue for
    good and those of them that were printed. *)
Record world := World {
  srv : server;
  clients : gmap Z phase;
  held : option (Z * Z)   (** the node and the number of the job in the printer thread *);
  accepted : list accepted_job;
  order : list Z;
  gone : list Z;
  printed : list Z }.

Section daemon.
Variable strerror : Z → list Z.
Variables msg_garbage buf_garbage : list Z.

Definition with_srv (s : server) (w : world) : world := World s (clients w) (held w) (accepted w) (order w) (gone w) (printed w).

Inductive step : world → world → Prop :=
  | Step_env w ev : step w (with_srv (set_sys ev (srv w)) w)
  | Step_connect w fd k : socks (srv w) !! fd = None → step w (with_srv (set_socks (<[fd := k]> (socks (srv w))) (srv w)) w)
  | Step_signal w fuel sig s' : signal_thread fuel sig (srv w) = (s', Done tt) → step w (with_srv s' w)
  | Step_worker w tid fd s' : add_worker tid fd (srv w) = (s', Done tt) → step w (with_srv s' w)
  | Step_cleanup w fuel tid s' : client_cleanup fuel tid (srv w) = (s', Done tt) → step w (with_srv s' w)
  | Step_number w tid fd s' id r :
      clients w !! tid = None → client_number strerror fd (srv w) = (s', Done (Some (id, r))) →
      step w (World s' (<[tid := Numbered fd id r]> (clients w)) (held w) (accepted w) (order w) (gone w) (printed w))
  | Step_reject w fd s' : client_number strerror fd (srv w) = (s', Done None) → step w (with_srv s' w)
  | Step_spool w tid fd id r s' r' d :
      clients w !! tid = Some (Numbered fd id r) →
      client_spool strerror msg_garbage buf_garbage fd id r (srv w) = (s', Done (Some r')) → data (disk s') !! dec id = Some d →
      step w (World s' (<[tid := Spooled id r']> (clients w)) (held w) (accepted w ++ [Accepted id r' d]) (order w) (gone w) (printed w))
  | Step_fail w tid fd id r s' :
      clients w !! tid = Some (Numbered fd id r) →
      client_spool strerror msg_garbage buf_garbage fd id r (srv w) = (s', Done None) →
      step w (World s' (delete tid (clients w)) (held w) (accepted w) (order w) (gone w) (printed w))
  | Step_queue w tid id r s' :
      clients w !! tid = Some (Spooled id r) → add_job r id (srv w) = (s', Done tt) →
      step w (World s' (delete tid (clients w)) (held w) (accepted w) (order w ++ [id]) (gone w) (printed w))
  | Step_pick w s' jp j :
      held w = None → pick_job (srv w) = (s', Done jp) → jp ≠ NULL → heap (jobs s') !! jp = Some j →
      step w (World s' (clients w) (Some (jp, jobid j)) (accepted w) (order w) (gone w) (printed w))
  | Step_print w fuel gb p fs jp id s' v :
      held w = Some (jp, id) → print_job fuel gb p fs jp (srv w) = (s', Done v) →
      step w (World s' (clients w) None (accepted w) (order w)
                (match v with Deferred => gone w | _ => gone w ++ [id] end)
                (match v with Printed => printed w ++ [id] | _ => printed w end)).

(** ** The invariant *)

Definition held_ids (w : world) : list Z := match held w with Some (_, id) => [id] | None => [] end.
Definition ids (l : list entry) : list Z := map (λ e, e.2.1) l.

Definition queue_inv (w : world) (l : list entry) : Prop :=
  queue_ok (jobs (srv w)) l ∧ order w = gone w ++ held_ids w ++ ids l ∧
  (∀ a id r, (a, (id, r)) ∈ l → ∃ d, (Accepted id r d) ∈ accepted w) ∧
  match held w with
  | Some (jp, id) => jp ≠ NULL ∧ (jp ∉ l.*1) ∧ ∃ j d, heap (jobs (srv w)) !! jp = Some j ∧ jobid j = id ∧ Accepted id (req j) d ∈ accepted w
  | None => True
  end.

Record Inv (w : world) : Prop := MkInv {
  i_queue : ∃ l, queue_inv w l;
  i_order : NoDup (order w);
  i_order_acc : ∀ id, id ∈ order w → id ∈ (acc_id <$> accepted w);
  i_printed : ∀ id, id ∈ printed w → id ∈ gone w;
  i_acc : NoDup (acc_id <$> accepted w);
  i_range : ∀ a, a ∈ accepted w → 1 <= acc_id a < nextjob (srv w) ∧ good_req (acc_req a);
  i_next : 1 <= nextjob (srv w) <= INT_MAX;
  i_files : ∀ a, a ∈ accepted w → acc_id a ∉ printed w →
    data (disk (srv w)) !! dec (acc_id a) = Some (acc_data a) ∧ reqs (disk (srv w)) !! dec (acc_id a) = Some (bytes_of_req (acc_req a));
  i_reqs : ∀ n b, reqs (disk (srv w)) !! n = Some b → ∃ a, a ∈ accepted w ∧ (acc_id a ∉ printed w) ∧ n = dec (acc_id a);
  i_clients : ∀ t1 t2 p1 p2, clients w !! t1 = Some p1 → clients w !! t2 = Some p2 → phase_id p1 = phase_id p2 → t1 = t2;
  i_numbered : ∀ t fd id r, clients w !! t = Some (Numbered fd id r) → 1 <= id < nextjob (srv w) ∧ (id ∉ (acc_id <$> accepted w)) ∧ good_req r;
  i_spooled : ∀ t id r, clients w !! t = Some (Spooled id r) → (id ∉ order w) ∧ ∃ d, (Accepted id r d) ∈ accepted w }.

(** A change that touches neither the queue, nor the files, nor the numbers. *)
Definition same_core (s s' : server) : Prop :=
  jobs s' = jobs s ∧ data (disk s') = data (disk s) ∧ reqs (disk s') = reqs (disk s) ∧ nextjob s' = nextjob s.

Lemma inv_same_core w s' : Inv w → same_core (srv w) s' → Inv (with_srv s' w).
Proof.
  intros H (Hj & Hd & Hr & Hn). destruct H as [H1 H2 H3 H4 H5 H6 H7 H8 H9 H10 H11 H12].
  split; cbn; rewrite ?Hd, ?Hr, ?Hn; try done. destruct H1 as (l & Hq). exists l. unfold queue_inv in *. cbn. by rewrite Hj.
Qed.

Lemma find_worker_state fuel tid p s : (find_worker fuel tid p s).1 = s.
Proof.
  revert p. induction fuel as [|fuel IH]; intros p; [done|]. cbn [find_worker]. destruct (p =? NULL); [done|].
  unfold bind, wload. destruct (wheap _ !! p); [|done]. destruct (_ =? _); [done|apply IH].
Qed.

Lemma add_worker_core tid fd s s' : add_worker tid fd s = (s', Done tt) → same_core s s'.
Proof.
  unfold add_worker. rewrite bind_get. unfold wstore, set_workers. rewrite bind_modify.
  destruct (_ =? NULL); [by intros [= <-]|]. unfold bind, wload. cbn. destruct (_ !! _); [by intros [= <-]|done].
Qed.

Lemma client_cleanup_core fuel tid s s' : client_cleanup fuel tid s = (s', Done tt) → same_core s s'.
Proof.
  unfold client_cleanup. rewrite bind_get. unfold bind at 1. pose proof (find_worker_state fuel tid (workers (threads s)) s) as Hs.
  destruct (find_worker _ _ _ s) as [s0 [p|e]]; cbn in Hs; subst s0; [|done]. destruct (p =? NULL); [by intros [= <-]|].
  unfold wload, wstore, set_workers. unfold bind at 1. destruct (wheap (threads s) !! p) as [w|]; [|done].
  unfold bind, modify, ret. destruct (w_next w =? NULL).
  - destruct (w_prev w =? NULL); [by intros [= <-]|]. cbn. destruct (_ !! w_prev w); [by intros [= <-]|done].
  - cbn. destruct (_ !! w_next w); [|done]. destruct (w_prev w =? NULL); [by intros [= <-]|]. cbn. destruct (_ !! w_prev w); [by intros [= <-]|done].
Qed.

Lemma signal_core fuel sig s s' : signal_thread fuel sig s = (s', Done tt) → same_core s s'.
Proof.
  unfold signal_thread. destruct (sig =? SIGHUP); [by intros [= <-]|].
  destruct (sig =? SIGTERM); unfold bind; destruct (kill_workers fuel s) as [? [?|?]]; done.
Qed.

Definition small (id : Z) : Prop := 1 <= id <= INT_MAX.
Lemma dec_ne a b : small a → small b → a ≠ b → dec a ≠ dec b.
Proof. intros Ha Hb Hn E. apply Hn. unfold small, INT_MAX in *. apply dec_inj in E; [done|unfold dec_max; lia..]. Qed.
Lemma inv_small w a : Inv w → a ∈ accepted w → small (acc_id a).
Proof. intros H Ha. destruct (i_range w H a Ha). pose proof (i_next w H). unfold small. lia. Qed.

Lemma accepted_in w a : a ∈ accepted w → acc_id a ∈ (acc_id <$> accepted w).
Proof. intros H. apply list_elem_of_fmap. eauto. Qed.

(** A client takes a number. *)
Lemma step_number_inv w tid fd s' id r : Inv w → nextjob (srv w) < INT_MAX → clients w !! tid = None →
  client_number strerror fd (srv w) = (s', Done (Some (id, r))) →
  Inv (World s' (<[tid := Numbered fd id r]> (clients w)) (held w) (accepted w) (order w) (gone w) (printed w)) ∧ nextjob s' = nextjob (srv w) + 1.
Proof.
  intros HI Hlt Ht E. destruct (client_number_ok strerror fd (srv w)) as (s1 & res & E1 & H). rewrite E in E1. injection E1 as <- <-.
  destruct H as (-> & k & k' & b & _ & _ & Hb & -> & _ & _ & Hs). pose proof (i_next w HI) as Hn.
  assert (i32 (nextjob (srv w) + 1) = nextjob (srv w) + 1) as Hi by (apply i32_id; unfold INT_MAX in *; lia).
  rewrite Hi, (proj2 (Z.leb_gt _ _)) in Hs by lia. split; [|by rewrite Hs].
  destruct HI as [H1 H2 H3 H4 H5 H6 H7 H8 H9 H10 H11 H12]. split; cbn; rewrite ?Hs; cbn; try done.
  - intros a Ha. destruct (H6 a Ha). split; [lia|done].
  - unfold INT_MAX in *. lia.
  - assert (∀ t p, clients w !! t = Some p → phase_id p < nextjob (srv w)) as Hlt'.
    { intros t [fd' id' r'|id' r'] Hp; [by destruct (H11 _ _ _ _ Hp); cbn; lia|].
      destruct (H12 _ _ _ Hp) as (_ & d & Hd). destruct (H6 _ Hd). cbn in *. lia. }
    intros t1 t2 p1 p2. rewrite !lookup_insert_Some.
    intros [[<- <-]|[N1 L1]] [[<- <-]|[N2 L2]] Hp; cbn in Hp; [done| | |eauto].
    + specialize (Hlt' _ _ L2). lia.
    + specialize (Hlt' _ _ L1). lia.
  - intros t fd' id' r'. rewrite lookup_insert_Some. intros [[<- [= <- <- <-]]|[_ L]].
    + split_and!; [lia..| |by apply received_good]. rewrite list_elem_of_fmap. intros (a & Ea & Ha). destruct (H6 a Ha). lia.
    + destruct (H11 _ _ _ _ L) as (? & ? & ?). split_and!; [lia..|done|done].
  - intros t id' r'. rewrite lookup_insert_Some. intros [[_ ?]|[_ L]]; [done|eauto].
Qed.

(** A client has spooled its job, or given up. *)
Lemma step_spool_inv w tid fd id r s' res : Inv w → clients w !! tid = Some (Numbered fd id r) →
  client_spool strerror msg_garbage buf_garbage fd id r (srv w) = (s', Done res) →
  nextjob s' = nextjob (srv w) ∧ jobs s' = jobs (srv w) ∧
  match res with
  | Some r' => ∃ d, good_req r' ∧ data (disk s') = <[dec id := d]> (data (disk (srv w))) ∧ reqs (disk s') = <[dec id := bytes_of_req r']> (reqs (disk (srv w)))
  | None => (∀ n, n ≠ dec id → data (disk s') !! n = data (disk (srv w)) !! n) ∧ reqs (disk s') = reqs (disk (srv w))
  end.
Proof.
  intros HI Hc E. destruct (i_numbered w HI _ _ _ _ Hc) as (Hid & Hn & Hg).
  destruct (client_spool_ok strerror msg_garbage buf_garbage fd id r (srv w) (gr_wf _ Hg)) as (m & q & ks & ev & res' & E' & H).
  rewrite E in E'. injection E' as -> <-. cbn. split_and!; [done..|]. destruct res as [r'|].
  - destruct H as (d & fl & -> & -> & -> & Hj & _). exists d. split_and!; [|done..]. destruct Hg as [? ? ?]. split; [done|done|].
    by eapply job_flags_range.
  - destruct H as [Hm Hq]. split.
    + intros n Hne. destruct Hm as [->| ->]; [done|by rewrite lookup_delete_ne by done].
    + destruct Hq as [->| ->]; [done|]. apply delete_id. destruct (reqs (disk (srv w)) !! dec id) as [b|] eqn:Eb; [|done].
      exfalso. destruct (i_reqs w HI _ _ Eb) as (a & Ha & _ & Ed). pose proof (i_next w HI). pose proof (inv_small w a HI Ha).
      apply Hn. apply dec_inj in Ed; [|unfold small, INT_MAX, dec_max in *; lia..]. rewrite Ed. by apply accepted_in.
Qed.

Lemma spool_ok_inv w tid fd id r s' r' d : Inv w → clients w !! tid = Some (Numbered fd id r) →
  client_spool strerror msg_garbage buf_garbage fd id r (srv w) = (s', Done (Some r')) → data (disk s') !! dec id = Some d →
  Inv (World s' (<[tid := Spooled id r']> (clients w)) (held w) (accepted w ++ [Accepted id r' d]) (order w) (gone w) (printed w)).
Proof.
  intros HI Hc E Hd. destruct (step_spool_inv w tid fd id r s' _ HI Hc E) as (Hnx & Hj & d' & Hg & Ed & Er).
  rewrite Ed, lookup_insert_eq in Hd. injection Hd as ->. destruct (i_numbered w HI _ _ _ _ Hc) as (Hid & Hn & _).
  assert (∀ a, a ∈ accepted w → dec (acc_id a) ≠ dec id) as Hne.
  { intros a Ha. apply dec_ne; [by apply (inv_small w)| |]. { pose proof (i_next w HI). unfold small. lia. }
    intros Ea. apply Hn. rewrite <- Ea. by apply accepted_in. }
  assert (id ∉ order w) as Hno by (intros Ho; apply Hn; by apply (i_order_acc w HI)).
  pose proof (i_clients w HI) as Hcl. destruct HI as [H1 H2 H3 H4 H5 H6 H7 H8 H9 H10 H11 H12].
  split; cbn; rewrite ?Hnx, ?Ed, ?Er; try done.
  - destruct H1 as (l & Hq & Ho & Ha & Hh). exists l. unfold queue_inv. cbn. rewrite Hj. split_and!; [done|done| |].
    + intros a i q Hin. destruct (Ha a i q Hin) as [d0 ?]. exists d0. apply elem_of_app. by left.
    + destruct (held w) as [[jp i]|]; [|done]. destruct Hh as (? & ? & j & d0 & ? & ? & ?). split_and!; [done..|].
      exists j, d0. split_and!; [done..|]. apply elem_of_app. by left.
  - intros i Hi. rewrite fmap_app. apply elem_of_app. left. auto.
  - rewrite fmap_app. apply NoDup_app. split_and!; [done| |apply NoDup_singleton]. intros i Hi. cbn. set_solver.
  - intros a [Ha|Ha]%elem_of_app; [auto|]. apply list_elem_of_singleton in Ha as ->. cbn. split; [lia|done].
  - intros a [Ha|Ha]%elem_of_app Hp.
    + rewrite !lookup_insert_ne by (apply not_eq_sym; auto). auto.
    + apply list_elem_of_singleton in Ha as ->. cbn. by rewrite !lookup_insert_eq.
  - intros n b. rewrite lookup_insert_Some. intros [[<- <-]|[_ Hb]].
    + exists (Accepted id r' d). split_and!; [set_solver| |done]. cbn. intros Hp. apply Hno. destruct H1 as (l & _ & Ho & _). rewrite Ho. apply elem_of_app. auto.
    + destruct (H9 _ _ Hb) as (a & ? & ? & ?). exists a. split_and!; [set_solver|done..].
  - intros t1 t2 p1 p2. rewrite !lookup_insert_Some. intros [[<- <-]|[N1 L1]] [[<- <-]|[N2 L2]] Hp; [done| | |eauto].
    + by eapply (Hcl tid t2 (Numbered fd id r)).
    + by eapply (Hcl t1 tid _ (Numbered fd id r)).
  - intros t fd' id' r0. rewrite lookup_insert_Some. intros [[_ ?]|[N L]]; [done|]. destruct (H11 _ _ _ _ L) as (? & Hn' & ?).
    split_and!; [lia..| |done]. rewrite fmap_app. intros [?|Hi]%elem_of_app; [done|]. apply list_elem_of_singleton in Hi. cbn in Hi. subst id'.
    apply N. by eapply (Hcl tid t (Numbered fd id r)).
  - intros t id' r0. rewrite lookup_insert_Some. intros [[<- [= <- <-]]|[N L]].
    + split; [done|]. exists d. set_solver.
    + destruct (H12 _ _ _ L) as (? & d0 & ?). split; [done|]. exists d0. set_solver.
Qed.

Lemma spool_fail_inv w tid fd id r s' : Inv w → clients w !! tid = Some (Numbered fd id r) →
  client_spool strerror msg_garbage buf_garbage fd id r (srv w) = (s', Done None) →
  Inv (World s' (delete tid (clients w)) (held w) (accepted w) (order w) (gone w) (printed w)).
Proof.
  intros HI Hc E. destruct (step_spool_inv w tid fd id r s' _ HI Hc E) as (Hnx & Hj & Hd & Er).
  destruct (i_numbered w HI _ _ _ _ Hc) as (Hid & Hn & _).
  assert (∀ a, a ∈ accepted w → dec (acc_id a) ≠ dec id) as Hne.
  { intros a Ha. apply dec_ne; [by apply (inv_small w)| |]. { pose proof (i_next w HI). unfold small. lia. }
    intros Ea. apply Hn. rewrite <- Ea. by apply accepted_in. }
  destruct HI as [H1 H2 H3 H4 H5 H6 H7 H8 H9 H10 H11 H12]. split; cbn; rewrite ?Hnx, ?Er; try done.
  - destruct H1 as (l & Hq). exists l. unfold queue_inv in *. cbn. by rewrite Hj.
  - intros a Ha Hp. rewrite Hd by auto. auto.
  - intros t1 t2 p1 p2 [_ L1]%lookup_delete_Some [_ L2]%lookup_delete_Some. eauto.
  - intros t fd' id' r0 [_ L]%lookup_delete_Some. eauto.
  - intros t id' r0 [_ L]%lookup_delete_Some. eauto.
Qed.

(** A job enters the queue. *)
Lemma step_queue_inv w tid id r s' : Inv w → clients w !! tid = Some (Spooled id r) → add_job r id (srv w) = (s', Done tt) →
  Inv (World s' (delete tid (clients w)) (held w) (accepted w) (order w ++ [id]) (gone w) (printed w)) ∧ nextjob s' = nextjob (srv w).
Proof.
  intros HI Hc E. destruct (i_spooled w HI _ _ _ Hc) as (Hno & d & Hd). pose proof (i_clients w HI) as Hcl.
  destruct HI as [(l & Hq & Ho & Ha & Hh) H2 H3 H4 H5 H6 H7 H8 H9 H10 H11 H12].
  destruct (add_job_ok r id (srv w) l Hq) as (a & s1 & E1 & Hq1 & Hs & Hfr & Hk). rewrite E in E1. injection E1 as <-.
  split; [|by rewrite Hs]. split; cbn; try done; try (rewrite Hs; done).
  - exists (l ++ [(a, (id, r))]). unfold queue_inv. cbn. split_and!; [done| | |].
    + unfold held_ids, ids in *. cbn. by rewrite Ho, map_app, <- !app_assoc.
    + intros a' i q [Hin|Hin]%elem_of_app; [eauto|]. apply list_elem_of_singleton in Hin as [= -> -> ->]. eauto.
    + destruct (held w) as [[jp i]|]; [|done]. destruct Hh as (H0 & Hjp & j & d0 & Hj & ? & ?). split_and!; [done| |eauto 8].
      rewrite fmap_app. intros [?|Hi]%elem_of_app; [done|]. apply list_elem_of_singleton in Hi. cbn in Hi. congruence.
  - apply NoDup_app. split_and!; [done| |apply NoDup_singleton]. set_solver.
  - intros i [Hi|Hi]%elem_of_app; [auto|]. apply list_elem_of_singleton in Hi as ->. apply list_elem_of_fmap. by exists (Accepted id r d).
  - intros t1 t2 p1 p2 [_ L1]%lookup_delete_Some [_ L2]%lookup_delete_Some. eauto.
  - rewrite Hs. cbn. intros t fd' id' r0 [_ L]%lookup_delete_Some. eauto.
  - intros t id' r0 [N L]%lookup_delete_Some. destruct (H12 _ _ _ L) as (? & ?). split; [|done]. intros [?|Hi]%elem_of_app; [done|].
    apply list_elem_of_singleton in Hi as ->. apply N. by eapply (Hcl tid t (Spooled id r)).
Qed.

(** The printer thread picks a job. *)
Lemma step_pick_inv w s' jp j : Inv w → held w = None → pick_job (srv w) = (s', Done jp) → jp ≠ NULL → heap (jobs s') !! jp = Some j →
  Inv (World s' (clients w) (Some (jp, jobid j)) (accepted w) (order w) (gone w) (printed w)) ∧ nextjob s' = nextjob (srv w).
Proof.
  intros HI Hh E Hjp Hj. destruct HI as [(l & Hq & Ho & Ha & _) H2 H3 H4 H5 H6 H7 H8 H9 H10 H11 H12].
  pose proof (pick_job_ok (srv w) l Hq) as Hp. destruct l as [|[a [id r]] l]; [rewrite E in Hp; by injection Hp|].
  destruct Hp as (s1 & res & E1 & Hq1 & (Hn & _ & _) & Hd & Hr & (n & p & Hn0) & Hx). rewrite E in E1. injection E1 as <- <-.
  destruct (Hx jp eq_refl) as (-> & _ & Hal). rewrite Hn0 in Hj. injection Hj as <-. split; [|done].
  split; cbn; rewrite ?Hn, ?Hd, ?Hr; try done. exists l. unfold queue_inv. cbn. split_and!; [done| | |done|done|].
  - unfold held_ids in *. cbn. rewrite Hh in Ho. exact Ho.
  - intros a' i q Hin. apply (Ha a'). by right.
  - destruct (Ha a id r) as [d Hin]; [by left|]. eauto 8.
Qed.

(** The end of a round. *)
Lemma step_print_inv w fuel gb p fs jp id s' v : Inv w → held w = Some (jp, id) → print_job fuel gb p fs jp (srv w) = (s', Done v) →
  Inv (World s' (clients w) None (accepted w) (order w) (match v with Deferred => gone w | _ => gone w ++ [id] end)
        (match v with Printed => printed w ++ [id] | _ => printed w end)) ∧ nextjob s' = nextjob (srv w).
Proof.
  intros HI Hh E. pose proof (inv_small w) as Hsm. pose proof HI as [(l & Hq & Ho & Ha & Hhd) H2 H3 H4 H5 H6 H7 H8 H9 H10 H11 H12].
  rewrite Hh in Hhd. destruct Hhd as (H0 & Hjp & j & d & Hj & <- & Hacc). unfold held_ids in Ho. rewrite Hh in Ho.
  destruct (print_job_ok fuel gb p fs jp j (srv w) l Hq H0 Hjp Hj) as (s1 & res & E1 & Hres). rewrite E in E1. injection E1 as <- <-.
  destruct (Hres v eq_refl) as [(Hn & _ & _) Hv]. split; [|done].
  assert (∀ a, a ∈ accepted w → acc_id a ≠ jobid j → dec (acc_id a) ≠ dec (jobid j)) as Hne.
  { intros a Hin. apply dec_ne; [by apply Hsm|by apply (Hsm (Accepted (jobid j) (req j) d))]. }
  assert (∀ (g : list Z) q, order w = g ++ ids q → queue_ok (jobs s') q →
    (∀ a i r, (a, (i, r)) ∈ q → ∃ d, (Accepted i r d) ∈ accepted w) →
    (∃ l, queue_inv (World s' (clients w) None (accepted w) (order w) g (printed w)) l)) as Hquz.
  { intros g q Hg Hqq Hin. exists q. by split_and!. }
  destruct v; cbn in Hv; destruct Hv as (Hq' & Hd & Hr); (split; cbn; rewrite ?Hn, ?Hd, ?Hr; try done).
  all: try (destruct (Hquz (gone w ++ [jobid j]) l) as (q & Hqq); [by rewrite <- app_assoc|done|done|by exists q]).
  - intros i. rewrite !elem_of_app. intros [?|?]; [left; auto|by right].
  - intros a Hin. rewrite not_elem_of_app, not_elem_of_cons. intros (Hp & Hne' & _). rewrite !lookup_delete_ne by (apply not_eq_sym; auto). auto.
  - intros n b [Hnn Hb]%lookup_delete_Some. destruct (H9 _ _ Hb) as (a & Hin & Hp & ->). exists a. split_and!; [done| |done].
    rewrite not_elem_of_app, not_elem_of_cons. split_and!; [done| |apply not_elem_of_nil]. intros Ea. apply Hnn. by rewrite Ea.
  - intros i Hi. apply elem_of_app. auto.
  - destruct (Hquz (gone w) ((jp, (jobid j, req j)) :: l)) as (q & Hqq); [exact Ho|done| |by exists q].
    intros a i r [Hin|Hin]%elem_of_cons; [simplify_eq; eauto|eauto].
Qed.

Lemma printd_step_inv w w' : Inv w → step w w' → nextjob (srv w) < INT_MAX → Inv w' ∧ nextjob (srv w') <= nextjob (srv w) + 1.
Proof.
  intros HI Hs Hlt. destruct Hs.
  - split; [by apply inv_same_core|cbn; lia].
  - split; [by apply inv_same_core|cbn; lia].
  - pose proof (signal_core _ _ _ _ H) as Hc. split; [by apply inv_same_core|]. destruct Hc as (_ & _ & _ & Hn). cbn. lia.
  - pose proof (add_worker_core _ _ _ _ H) as Hc. split; [by apply inv_same_core|]. destruct Hc as (_ & _ & _ & Hn). cbn. lia.
  - pose proof (client_cleanup_core _ _ _ _ H) as Hc. split; [by apply inv_same_core|]. destruct Hc as (_ & _ & _ & Hn). cbn. lia.
  - destruct (step_number_inv w tid fd s' id r HI Hlt H H0) as [? Hn]. split; [done|cbn; lia].
  - destruct (client_number_ok strerror fd (srv w)) as (s1 & res & E1 & Hr). rewrite H in E1. injection E1 as <- <-. destruct Hr as (ks & ->).
    split; [by apply inv_same_core|cbn; lia].
  - destruct (step_spool_inv w tid fd id r s' _ HI H H0) as (Hn & _). split; [by eapply spool_ok_inv|cbn; lia].
  - destruct (step_spool_inv w tid fd id r s' _ HI H H0) as (Hn & _). split; [by eapply spool_fail_inv|cbn; lia].
  - destruct (step_queue_inv w tid id r s' HI H H0) as [? Hn]. split; [done|cbn; lia].
  - destruct (step_pick_inv w s' jp j HI H H0 H1 H2) as [? Hn]. split; [done|cbn; lia].
  - destruct (step_print_inv w fuel gb p fs jp id s' v HI H H0) as [? Hn]. split; [done|cbn; lia].
Qed.

Lemma steps_inv n w w' : Inv w → nsteps step n w w' → nextjob (srv w) + Z.of_nat n <= INT_MAX → Inv w'.
Proof.
  intros HI Hn. revert HI. induction Hn as [w|n w w1 w2 Hs _ IH]; intros HI Hle; [done|].
  destruct (printd_step_inv w w1 HI Hs) as [H1 H2]; [lia|]. apply IH; [done|lia].
Qed.
End daemon.

(** ** A spool directory and the start *)

(** The directory holds the files of the jobs [acc], and no other request. *)
Record spool_ok (d : spool) (acc : list accepted_job) : Prop := SpoolOk {
  so_nodup : NoDup (acc_id <$> acc);
  so_good : ∀ a, a ∈ acc → small (acc_id a) ∧ good_req (acc_req a);
  so_files : ∀ a, a ∈ acc → data d !! dec (acc_id a) = Some (acc_data a) ∧ reqs d !! dec (acc_id a) = Some (bytes_of_req (acc_req a));
  so_reqs : ∀ n b, reqs d !! n = Some b → ∃ a, a ∈ acc ∧ n = dec (acc_id a) }.

Definition file_names (acc : list accepted_job) : list filename := map (λ a, dec (acc_id a)) acc.
Definition requests (acc : list accepted_job) : list (Z * printreq) := map (λ a, (acc_id a, acc_req a)) acc.

Lemma atol_dec_end n : 0 <= n < dec_max → atol (dec n) = n.
Proof.
  intros Hn. destruct (dec_spec n Hn) as [Hall Hv]. pose proof (dec_length_pos n ltac:(lia)).
  destruct (dec n) as [|c l]; [cbn in *; lia|]. apply Forall_cons in Hall as [Hc _]. destruct (digit_not _ Hc) as (_ & _ & _ & Hs & H1 & H2).
  unfold atol. cbn [skip_space]. rewrite Hs. by rewrite (proj2 (Z.eqb_neq _ _) H1), (proj2 (Z.eqb_neq _ _) H2).
Qed.

Lemma recovered_ok d acc : spool_ok d acc →
  recovered (reqs d) (file_names acc) = requests acc ∧ discarded (reqs d) (file_names acc) = [] ∧
  NoDup (file_names acc) ∧ Forall (λ n, path_fits n = true) (file_names acc).
Proof.
  intros [Hn Hg Hf _]. assert (∀ a, a ∈ acc → complete (reqs d) (dec (acc_id a)) ∧ job_of (reqs d) (dec (acc_id a)) = (acc_id a, acc_req a)
    ∧ path_fits (dec (acc_id a)) = true) as Ha.
  { intros a Ha. destruct (Hg a Ha) as [Hs Hr]. destruct (Hf a Ha) as [_ Hb]. pose proof (length_bytes_of_req _ (gr_wf _ Hr)) as Hl.
    unfold small, INT_MAX in Hs. unfold complete, job_of. rewrite Hb. cbn [default from_option id]. split_and!; [lia| |].
    - rewrite take_ge by lia. rewrite req_roundtrip by done. f_equal. rewrite atol_dec_end by (unfold dec_max; lia). apply i32_id. lia.
    - unfold path_fits. pose proof (dec_length 10 (acc_id a) ltac:(lia) ltac:(lia)). apply Nat.leb_le. unfold FILENMSZ. lia. }
  clear Hf. unfold recovered, discarded, file_names, requests. induction acc as [|a acc IH]; [by split_and!; constructor|].
  rewrite fmap_cons in Hn. apply NoDup_cons in Hn as [Hna Hn]. cbn [map].
  destruct (Ha a) as (H1 & H2 & H3); [by left|]. destruct IH as (I1 & I2 & I3 & I4); [done|intros; apply Hg; by right|intros; apply Ha; by right|].
  rewrite !filter_cons, decide_True, decide_False by tauto. cbn [map]. rewrite I1, I2, H2. split_and!; [done|done| |by constructor].
  constructor; [|done]. intros Hin. apply list_elem_of_In, in_map_iff in Hin as (b & E & Hb). apply list_elem_of_In in Hb. apply Hna.
  apply list_elem_of_fmap. exists b. split; [|done]. destruct (Hg a) as [Hs1 _]; [by left|]. destruct (Hg b) as [Hs2 _]; [by right|].
  symmetry. apply dec_inj in E; [done|unfold small, INT_MAX, dec_max in *; lia..].
Qed.

(** The number that [init_request] finds. *)
Definition first_number (d : spool) : Z :=
  let b := ztake (Z.of_nat FILENMSZ) (fdata (jobno d)) in
  if zlen b =? 0 then 1 else i32 (atol (cstr (overlay (bytes "/var/spool/printer/jobno" ++ [0]) b))).

(** The daemon starts with the jobs of the directory in its queue. *)
Lemma printd_start_ok d acc name : spool_ok d acc →
  ∃ s l, start false (Some name) (file_names acc) (new_process d []) = (s, Done tt) ∧ queue_ok (jobs s) l ∧ l.*2 = requests acc ∧
    data (disk s) = data d ∧ reqs (disk s) = reqs d ∧ nextjob s = first_number d ∧ socks s = ∅ ∧ sys s = [].
Proof.
  intros Hd. destruct (recovered_ok d acc Hd) as (H1 & H2 & H3 & H4). unfold start.
  set (s1 := set_config false (default (bytes "printer") name) (set_nextjob (first_number d)
    (set_disk (Spool (data d) (reqs d) (fread (File (fdata (jobno d)) 0) (Z.of_nat FILENMSZ)).1) (new_process d [])))).
  assert (bind (init_request false) (λ _, bind (init_printer (Some name)) (λ _, build_qonstart (file_names acc))) (new_process d [])
    = build_qonstart (file_names acc) s1) as -> by reflexivity.
  destruct (build_qonstart_ok (file_names acc) s1 []) as (s & l & E & Hq & Hl & Hs); [by split; [|constructor]|done|done|done|].
  exists s, l. rewrite E. cbn in Hl, Hs, Hq. rewrite H2 in Hs. rewrite Hl, H1. rewrite Hs. by split_and!.
Qed.

(** The state of the daemon after the start. *)
Definition started (s : server) (acc : list accepted_job) : world := World s ∅ None acc (acc_id <$> acc) [] [].

Lemma started_inv d acc name s : spool_ok d acc → start false (Some name) (file_names acc) (new_process d []) = (s, Done tt) →
  (∀ a, a ∈ acc → acc_id a < first_number d) → 1 <= first_number d <= INT_MAX → Inv (started s acc) ∧ nextjob s = first_number d.
Proof.
  intros Hd E Hlt Hf. destruct (printd_start_ok d acc name Hd) as (s' & l & E' & Hq & Hl & Hda & Hre & Hn & _). rewrite E in E'. injection E' as <-.
  split; [|done]. destruct Hd as [S1 S2 S3 S4]. split; cbn; rewrite ?Hn, ?Hda, ?Hre; try done.
  - exists l. split_and!; [done| | |done].
    + cbn. transitivity (l.*2.*1); [rewrite Hl; clear; induction acc as [|? ? IH]; cbn in *; [done|by rewrite IH]|].
      clear. induction l as [|? ? IH]; cbn in *; [done|by rewrite IH].
    + intros a id r Hin. assert ((id, r) ∈ l.*2) as Hr by (apply list_elem_of_fmap; by exists (a, (id, r))). rewrite Hl in Hr.
      unfold requests in Hr. apply list_elem_of_In, in_map_iff in Hr as ([i q dd] & [= <- <-] & Hb). apply list_elem_of_In in Hb. by exists dd.
  - intros a Ha. destruct (S2 a Ha) as [Hs Hg]. split; [|done]. unfold small in Hs. specialize (Hlt a Ha). lia.
  - intros a Ha _. auto.
  - intros n b Hb. destruct (S4 n b Hb) as (a & Ha & ->). exists a. split_and!; [done|apply not_elem_of_nil|done].
Qed.

(** What is on the disk is a spool directory with the jobs that are accepted and not printed. *)
Definition unprinted (w : world) : list accepted_job := filter (λ a, acc_id a ∉ printed w) (accepted w).

Lemma inv_spool w acc : Inv w → acc ≡ₚ unprinted w → spool_ok (disk (srv w)) acc.
Proof.
  intros HI Hp. assert (∀ a, a ∈ acc ↔ a ∈ accepted w ∧ acc_id a ∉ printed w) as Hin.
  { intros a. rewrite Hp. unfold unprinted. rewrite list_elem_of_filter. tauto. }
  split.
  - rewrite Hp. unfold unprinted. eapply sublist_NoDup; [apply (i_acc w HI)|]. apply fmap_sublist, sublist_filter.
  - intros a [Ha _]%Hin. split; [by apply (inv_small w)|]. by destruct (i_range w HI a Ha).
  - intros a [Ha Hn]%Hin. by apply (i_files w HI).
  - intros n b Hb. destruct (i_reqs w HI n b Hb) as (a & H1 & H2 & H3). exists a. split; [by apply Hin|done].
Qed.

(** ** The properties *)




(** ** What is sent to the printer *)

(** The whole file is sent on a connection that takes everything. *)
Lemma send_data_ok fuel fd k : parts fd → sched k = [] → (length (sched fd) + length (rest fd) + 2 <= fuel)%nat →
  ∃ k', send_data fuel fd k = Some (k', true) ∧ out k' = out k ++ rest fd ∧ sched k' = [].
Proof.
  revert fd k. induction fuel as [|fuel IH]; intros fd k Hp Hk Hf; [lia|]. cbn [send_data].
  pose proof (read_any fd IOBUFSZ iobufsz_pos) as Hr. pose proof (parts_read fd IOBUFSZ Hp) as Hp1.
  assert ((read fd IOBUFSZ).2 ≠ None) as Hn.
  { unfold read. unfold parts in Hp. destruct (sched fd) as [|[m| |e] q]; [done|done|by apply Forall_cons in Hp as [? _]..]. }
  destruct (read fd IOBUFSZ) as [fd1 [[|c b]|]]; cbn in Hp1; [| |done].
  - destruct Hr as (_ & _ & Hr & _ & He & _). exists k. split_and!; [done| |done]. rewrite Hr, (He eq_refl), !app_nil_r. done.
  - destruct Hr as (_ & Hl & Hr & _). destruct (writen_total k (c :: b)) as (k1 & rc & m & E & Hr1 & Ho1 & Hle & Hrc).
    destruct Hrc as [Hrc Hm]; [unfold parts; rewrite Hk; constructor|]. rewrite E. unfold zlen. rewrite Hrc, Z.eqb_refl.
    assert (sched k1 = []) as Hk1 by (apply nil_length_inv; rewrite Hk in Hle; cbn in Hle; lia).
    destruct (IH fd1 k1 Hp1 Hk1) as (k' & E' & Ho' & Hk'); [rewrite Hr in Hf; cbn in Hf; rewrite length_app in Hf; lia|].
    exists k'. split_and!; [done| |done]. rewrite Ho', Ho1, Hm, Hr. by rewrite <- !app_assoc.
Qed.

(** The part of the message behind the HTTP header. *)
Definition message_body (ipp : list Z) (r : printreq) (file : list Z) : list Z :=
  ipp ++ (if Z.land (flags r) PR_TEXT =? 0 then [] else [8]) ++ file.

Lemma length_ipp_bytes id pn user name fmt :
  length (ipp_bytes id (job_attrs pn user name fmt)) = (160 + length pn + length user + length name + length fmt)%nat.
Proof.
  unfold ipp_bytes, job_attrs. cbn [map concat]. rewrite !length_app, !length_enc, length_rev. unfold uri. rewrite !length_app. cbn. lia.
Qed.

Lemma send_job_eq j pn file fs k user name :
  string_at (usernm (req j) ++ jobnm (req j)) = Some user → string_at (jobnm (req j)) = Some name →
  let ipp := ipp_bytes (jobid j) (job_attrs pn user name (document_format (req j))) in
  if decide (length pn <= 52 ∧ length ipp <= IBUFSZ)%nat then
    zlen file < 2 ^ 62 → parts (Io file [] fs 0) → sched k = [] →
    ∃ k', send_job j pn file (Io file [] fs 0) k = Some (Some (k', true)) ∧ sched k' = [] ∧
      out k' = out k ++ http_bytes (zlen (message_body ipp (req j) file)) pn ++ message_body ipp (req j) file
  else send_job j pn file (Io file [] fs 0) k = None.
Proof.
  intros Hu Hn ipp. unfold send_job. rewrite (ipp_header_eq _ _ _ _ _ Hu Hn). fold ipp. case_decide as Hd; [|done].
  intros Hf Hp Hk. cbn [mbind option_bind]. destruct Hd as [Hpn Hil].
  set (x := if negb _ then 1 else 0). assert (0 <= x <= 1) as Hx by (unfold x; destruct (negb _); lia).
  rewrite (http_header_ok (zlen file) (zlen ipp) x pn Hpn) by (pose proof (zlen_nonneg file); pose proof (zlen_nonneg ipp); unfold zlen, IBUFSZ in *; lia).
  cbn [mbind option_bind]. unfold writev, write. rewrite Hk. rewrite Nat.min_id. unfold zlen at 1 2. rewrite Z.eqb_refl.
  assert (zlen (message_body ipp (req j) file) = zlen file + zlen ipp + x) as Hlen.
  { unfold message_body, x. rewrite !zlen_app. destruct (Z.land _ _ =? 0); cbn; unfold zlen; cbn; lia. }
  rewrite Hlen. set (hb := http_bytes _ pn). rewrite firstn_all. unfold message_body.
  destruct (send_data_ok (length fs + length file + 2) (Io file [] fs 0) (Io (rest k) (out k ++ hb ++ ipp) [] (errno k)) Hp eq_refl) as (k' & E & Ho & Hk'); [cbn; lia|].
  destruct (send_data_ok (length fs + length file + 2) (Io file [] fs 0) (Io (rest k) ((out k ++ hb ++ ipp) ++ [8]) [] (errno k)) Hp eq_refl) as (k2 & E2 & Ho2 & Hk2); [cbn; lia|].
  destruct (Z.land (flags (req j)) PR_TEXT =? 0) eqn:Ef; cbn [negb sched rest].
  - exists k'. split; [by rewrite <- E|]. split; [done|]. rewrite Ho. cbn [rest out app]. by rewrite <- !app_assoc.
  - exists k2. split; [by rewrite <- E2|]. split; [done|]. rewrite Ho2. cbn [rest out app]. by rewrite <- !app_assoc.
Qed.


(** The printer's answer is understood when it arrives in one piece, after any number of
    informational responses: the job counts as printed exactly if the response is a
    success of HTTP, carries the number of the job, and has an IPP status of the class
    "successful"; any other response makes the daemon keep the job.  The loops end. *)
Theorem printer_status_correct n infos l tail q e gb id code r :
  Forall info infos → piece l → length gb = IOBUFSZ → (IOBUFSZ < n)%nat → status_line l code r → HTTP_INFO code = false →
  (HTTP_SUCCESS code = true → ∀ len body, fields r len body → len <= zlen body → (8 <= length body)%nat →
     printer_status (length infos + n) gb (pieces (infos ++ [l]) tail q e) id = Done (ipp_result body id)) ∧
  (HTTP_SUCCESS code = false → (length l < IOBUFSZ)%nat →
     printer_status (length infos + n) gb (pieces (infos ++ [l]) tail q e) id = Done false).
Proof. apply printer_status_ok. Qed.

(** ** Progress *)

(** A printer that accepts the job [id]. *)
Definition cooperative (fuel : nat) (p : printer) (fs : list event) (id : Z) : Prop :=
  (∃ u t, connect_retry (attempts p) = Some (Some u, t)) ∧ sched (to_printer p) = [] ∧ (∀ file, parts (Io file [] fs 0)) ∧
  ∃ infos l tail q e code r len body, from_printer p = pieces (infos ++ [l]) tail q e ∧ Forall info infos ∧ piece l ∧
    (length infos + IOBUFSZ < fuel)%nat ∧ status_line l code r ∧ HTTP_SUCCESS code = true ∧ fields r len body ∧ len <= zlen body ∧
    (8 <= length body)%nat ∧ ipp_result body id = true.

(** A job that can be printed: its file is there, and its headers fit. *)
Definition printable (s : server) (id : Z) (r : printreq) : Prop :=
  ∃ file user name, data (disk s) !! dec id = Some file ∧ zlen file < 2 ^ 62 ∧ string_at (usernm r ++ jobnm r) = Some user ∧
    string_at (jobnm r) = Some name ∧
    (length (printer_name s) <= 52 ∧ 160 + length (printer_name s) + length user + length name + length (document_format r) <= IBUFSZ)%nat.

(** No file call fails from here on, and the configuration stays. *)
Definition calm (s : server) : Prop := sys s = [] ∧ reread s = false.

Lemma pick_job_run s a id r l : queue_ok (jobs s) ((a, (id, r)) :: l) → calm s →
  ∃ s', pick_job s = (s', Done a) ∧ queue_ok (jobs s') l ∧ calm s' ∧ data (disk s') = data (disk s) ∧ reqs (disk s') = reqs (disk s) ∧
    printer_name s' = printer_name s ∧ a ≠ NULL ∧ (a ∉ l.*1) ∧ ∃ n p, heap (jobs s') !! a = Some (Job n p id r).
Proof.
  intros Hq [Hs Hr]. pose proof (qo_seg _ _ Hq) as (Hh & Ha & _). pose proof (qo_nodup _ _ Hq) as Hd. cbn in Hd. apply NoDup_cons in Hd as [Hal _].
  destruct (remove_job_ok [] a id r l s Hq) as (s1 & E1 & Hq1 & Hs1 & Hp).
  unfold pick_job. rewrite bind_get, Hh, (proj2 (Z.eqb_neq _ _) Ha), (bind_done _ _ _ _ _ E1).
  assert (sys s1 = []) as Hy by (by rewrite Hs1). assert (set_sys [] s1 = s1) as Ey by (destruct s1; cbn in Hy; by rewrite Hy).
  assert (∃ s2, update_jobno s1 = (s2, Done tt) ∧ s2 = set_disk (Spool (data (disk s1)) (reqs (disk s1)) (jobno (disk s2))) s1) as (s2 & E2 & Hs2).
  { unfold update_jobno. rewrite bind_get. unfold bind, draw. rewrite Hy. cbn [event_of]. rewrite Ey. eexists. split; [reflexivity|done]. }
  rewrite (bind_done _ _ _ _ _ E2). exists s2. split; [done|]. unfold calm. rewrite Hs2. cbn. rewrite Hs1. cbn. by split_and!.
Qed.

Lemma print_job_run fuel gb p fs jp j s l : queue_ok (jobs s) l → calm s → (jp ∉ l.*1) → heap (jobs s) !! jp = Some j → length gb = IOBUFSZ →
  printable s (jobid j) (req j) → cooperative fuel p fs (jobid j) →
  ∃ s', print_job fuel gb p fs jp s = (s', Done Printed) ∧ queue_ok (jobs s') l ∧ calm s' ∧ printer_name s' = printer_name s ∧
    data (disk s') = delete (dec (jobid j)) (data (disk s)) ∧ reqs (disk s') = delete (dec (jobid j)) (reqs (disk s)).
Proof.
  intros Hq [Hs Hr] Hl Hj Hg (file & user & name & Hf & Hz & Hu & Hn & Hfit) (Hc & Hk & Hp & infos & l0 & tail & q & e & code & r & len & body & Hfr & Hinf & Hpc & Hfu & Hst & Hsu & Hfl & Hlen & H8 & Hres).
  assert (set_sys [] s = s) as Ey by (destruct s; cbn in Hs; by rewrite Hs).
  unfold print_job. rewrite bind_get, Hr, bind_ret, (bind_done _ _ _ _ _ (load_run _ _ _ Hj)), bind_get.
  assert (call s = (s, Done None)) as Ecall by (unfold call, bind, draw; rewrite Hs; cbn [event_of]; by rewrite Ey).
  rewrite (bind_done _ _ _ _ _ Ecall), Hf, (bind_done _ _ _ _ _ Ecall). destruct Hc as (u & t & ->). cbv zeta iota beta.
  pose proof (send_job_eq j (printer_name s) file fs (to_printer p) user name Hu Hn) as Hsend. cbv zeta in Hsend.
  rewrite length_ipp_bytes, decide_True in Hsend by done. destruct (Hsend Hz (Hp file) Hk) as (k' & -> & _).
  assert (HTTP_INFO code = false) as Hni by (unfold HTTP_SUCCESS, HTTP_INFO in *; lia).
  destruct (printer_status_ok (fuel - length infos) infos l0 tail q e gb (jobid j) code r Hinf Hpc Hg ltac:(lia) Hst Hni) as [Hps _].
  rewrite Hfr. replace (length infos + (fuel - length infos))%nat with fuel in Hps by lia. rewrite (Hps Hsu len body Hfl Hlen H8), Hres.
  unfold unlink. rewrite !bind_modify. set (s7 := on_files REQDIR _ _).
  destruct (free_job_ok jp j s7 l Hq Hl Hj) as (s8 & E8 & Hq8 & Hs8). rewrite (bind_done _ _ _ _ _ E8).
  exists s8. split; [done|]. unfold calm. rewrite Hs8. cbn. by split_and!.
Qed.

Lemma lookup_deleted (m : gmap filename (list Z)) x ns n :
  (if decide (n ∈ ns) then None else delete x m !! n) = if decide (n ∈ x :: ns) then None else m !! n.
Proof.
  destruct (decide (n ∈ ns)) as [H|H]; [by rewrite decide_True by (by right)|]. destruct (decide (n = x)) as [->|Hn].
  - rewrite decide_True by left. by rewrite lookup_delete_eq.
  - rewrite decide_False by (by rewrite not_elem_of_cons). by rewrite lookup_delete_ne by done.
Qed.

(** C15: the printer thread makes progress.  If the printer accepts each job, and the jobs are
    printable, the thread prints every job of the list, each once and in order, and ends
    with an empty list and without the files of the jobs. *)
Theorem printd_prints_all fuel gb ps s l :
  queue_ok (jobs s) l → calm s → length gb = IOBUFSZ → NoDup (map dec (ids l)) →
  Forall2 (λ e p, printable s e.2.1 e.2.2 ∧ cooperative fuel p.1 p.2 e.2.1) l ps →
  ∃ s', printer_thread fuel gb ps s = (s', Done (map (λ e, (e.2.1, Printed)) l)) ∧ queue_ok (jobs s') [] ∧
    ∀ id, id ∈ ids l → data (disk s') !! dec id = None ∧ reqs (disk s') !! dec id = None.
Proof.
  intros Hq Hc Hg Hd Hall.
  assert (∃ s', printer_thread fuel gb ps s = (s', Done (map (λ e, (e.2.1, Printed)) l)) ∧ queue_ok (jobs s') [] ∧
    (∀ n, data (disk s') !! n = if decide (n ∈ map dec (ids l)) then None else data (disk s) !! n) ∧
    (∀ n, reqs (disk s') !! n = if decide (n ∈ map dec (ids l)) then None else reqs (disk s) !! n)) as (s' & E & Hq' & H1 & H2).
  { revert s Hq Hc Hall. revert ps. induction l as [|[a [id r]] l IH]; intros ps s Hq Hc Hall.
    - apply Forall2_nil_inv_l in Hall as ->. exists s. by split_and!.
    - apply Forall2_cons_inv_l in Hall as ([p fs] & ps' & [Hp Hco] & Hall & ->). cbn [printer_thread]. cbn in Hd. apply NoDup_cons in Hd as [Hni Hd].
      destruct (pick_job_run s a id r l Hq Hc) as (s1 & E1 & Hq1 & Hc1 & Hd1 & Hr1 & Hn1 & Ha & Hal & n & pv & Hh).
      rewrite (bind_done _ _ _ _ _ E1), (proj2 (Z.eqb_neq _ _) Ha), (bind_done _ _ _ _ _ (load_run _ _ _ Hh)).
      destruct (print_job_run fuel gb p fs a (Job n pv id r) s1 l Hq1 Hc1 Hal Hh Hg) as (s2 & E2 & Hq2 & Hc2 & Hn2 & Hd2 & Hr2); [|done|].
      { unfold printable in *. by rewrite Hd1, Hn1. }
      rewrite (bind_done _ _ _ _ _ E2). cbn in Hd2, Hr2. destruct (IH Hd ps' s2 Hq2 Hc2) as (s' & E & Hq' & H1 & H2).
      { apply Forall2_same_length_lookup. split; [by eapply Forall2_length|]. intros i e pp He Hpp.
        destruct (Forall2_lookup_lr _ _ _ _ _ _ Hall He Hpp) as [(file & u & nm & Hf & Hrest) ?]. split; [|done].
        exists file, u, nm. rewrite Hn2, Hn1, Hd2, Hd1. split; [|done]. rewrite lookup_delete_ne; [done|]. intros Ed. apply Hni.
        rewrite Ed. apply list_elem_of_In, in_map, in_map_iff. exists e. split; [done|]. apply list_elem_of_In. by eapply list_elem_of_lookup_2. }
      rewrite (bind_done _ _ _ _ _ E). exists s'. split; [done|]. split; [done|]. cbn [ids map]. split; intros m.
      + rewrite H1, Hd2, Hd1. apply lookup_deleted.
      + rewrite H2, Hr2, Hr1. apply lookup_deleted. }
  exists s'. split_and!; [done..|]. intros id Hid. rewrite H1, H2, !decide_True; [done|..]; apply list_elem_of_In, in_map; by apply list_elem_of_In.
Qed.

(** ** An example run *)

Definition ex_data : list Z := bytes "%!PS x".
Definition ex_header : list Z := le32 (htonl 6) ++ le32 0 ++ strncpy (bytes "me") USERNM_MAX ++ strncpy (bytes "f") JOBNM_MAX.
Definition ex_req : printreq := received_req ex_header.
Definition ex_sock : io := Io (ex_header ++ ex_data) [] [Part sizeof_printreq] 0.
Definition ex_strerror (e : Z) : list Z := bytes "error".
Definition ex_disk : spool := Spool ∅ ∅ (File [] 0).
Definition ex_s0 : server := (start false (Some None) [] (new_process ex_disk [])).1.
Definition ex_s1 : server := set_socks (<[5 := ex_sock]> (socks ex_s0)) ex_s0.
Definition ex_s2 : server := (client_number ex_strerror 5 ex_s1).1.
Definition ex_s3 : server := (client_spool ex_strerror [] [] 5 1 ex_req ex_s2).1.
Definition ex_s4 : server := (add_job ex_req 1 ex_s3).1.
Definition ex_job : accepted_job := Accepted 1 ex_req ex_data.

(** A client connects, and its job is numbered, spooled and queued. *)
Definition ex_w : world :=
  World ex_s4 (delete 1 (<[1 := Spooled 1 ex_req]> (<[1 := Numbered 5 1 ex_req]> ∅))) None [ex_job] [1] [] [].

Lemma ex_run : nsteps (step ex_strerror [] []) 4 (started ex_s0 []) ex_w.
Proof.
  apply (nsteps_l _ _ _ (with_srv ex_s1 (started ex_s0 []))); [apply (Step_connect ex_strerror [] [] (started ex_s0 []) 5 ex_sock); vm_compute; reflexivity|].
  eapply (nsteps_l _ _ _ (World ex_s2 (<[1 := Numbered 5 1 ex_req]> ∅) None [] [] [] []));
    [apply (Step_number ex_strerror [] [] (with_srv ex_s1 (started ex_s0 [])) 1 5 ex_s2 1 ex_req); vm_compute; reflexivity|].
  set (w2 := World ex_s2 _ _ _ _ _ _). set (w3 := World ex_s3 (<[1 := Spooled 1 ex_req]> (<[1 := Numbered 5 1 ex_req]> ∅)) None [ex_job] [] [] []).
  assert (client_spool ex_strerror [] [] 5 1 ex_req ex_s2 = (ex_s3, Done (Some ex_req))) as E3 by (vm_compute; reflexivity).
  assert (data (disk ex_s3) !! dec 1 = Some ex_data) as D3 by (vm_compute; reflexivity).
  apply (nsteps_l _ _ _ w3); [exact (Step_spool ex_strerror [] [] w2 1 5 1 ex_req ex_s3 ex_req ex_data eq_refl E3 D3)|].
  assert (add_job ex_req 1 ex_s3 = (ex_s4, Done tt)) as E4 by (vm_compute; reflexivity).
  eapply nsteps_l; [|constructor]. exact (Step_queue ex_strerror [] [] w3 1 1 ex_req ex_s4 eq_refl E4).
Qed.

Lemma ex_spool_ok : spool_ok ex_disk [].
Proof. split; [constructor|by intros a ?%elem_of_nil..|done]. Qed.




(** The answers of a printer: an informational response, and a success for the job 1. *)
Definition ex_continue : list Z := bytes "HTTP/1.1 100 Continue" ++ CRLF ++ CRLF.
Definition ex_body : list Z := [1; 1; 0; 0; 0; 0; 0; 1].
Definition ex_fields : list Z := 10 :: bytes "Content-Length: 8" ++ CRLF ++ CRLF ++ ex_body.
Definition ex_response : list Z := bytes "HTTP/1.1 200 OK" ++ 13 :: ex_fields.
Definition ex_garbage : list Z := replicate IOBUFSZ 0.

Lemma ex_continue_info : info ex_continue.
Proof.
  split; [split; [done|apply Nat.leb_le; vm_compute; reflexivity]|]. exists 100, (10 :: CRLF). split; [|done].
  exists (bytes "HTTP/1.1"), [32], (bytes "100"), 32, (bytes "Continue"), 13. split_and!; try done; [by repeat constructor| |by repeat constructor].
  split; [done|by repeat constructor].
Qed.

Lemma ex_response_status : status_line ex_response 200 ex_fields.
Proof.
  exists (bytes "HTTP/1.1"), [32], (bytes "200"), 32, (bytes "OK"), 13. split_and!; try done; [by repeat constructor| |by repeat constructor].
  split; [done|by repeat constructor].
Qed.

Lemma ex_response_fields : fields ex_fields 8 ex_body.
Proof.
  exists [10], (bytes "Content-Length:"), [32], [56], 13, []. split_and!; try done; [|by repeat constructor|split; [done|by repeat constructor]|].
  - intros a b E Hb. destruct a as [|? [|]]; cbn in E; simplify_eq. unfold starts_ci. cbn. discriminate.
  - intros a b E Hb. destruct a; cbn in E; by simplify_eq.
Qed.

Lemma ex_response_piece : piece ex_response.
Proof. split; [done|apply Nat.leb_le; vm_compute; reflexivity]. Qed.

Lemma printer_status_correct_witness :
  printer_status (2 + IOBUFSZ) ex_garbage (pieces [ex_continue; ex_response] [] [] 0) 1 = Done true.
Proof.
  destruct (printer_status_correct (S IOBUFSZ) [ex_continue] ex_response [] [] 0 ex_garbage 1 200 ex_fields) as [H _].
  - constructor; [exact ex_continue_info|constructor].
  - exact ex_response_piece.
  - apply length_replicate.
  - lia.
  - exact ex_response_status.
  - reflexivity.
  - exact (H eq_refl 8 ex_body ex_response_fields ltac:(vm_compute; discriminate) ltac:(cbn; lia)).
Defined.

Definition ex_entry : job := Job NULL NULL 1 ex_req.


Lemma printd_prints_all_witness :
  ∃ s', printer_thread (2 + IOBUFSZ) ex_garbage
      [(Printer None [Refused; Connected tt] (Io [] [] [] 0) (pieces [ex_continue; ex_response] [] [] 0), [])] ex_s4 = (s', Done [(1, Printed)]) ∧
    data (disk s') !! dec 1 = None ∧ reqs (disk s') !! dec 1 = None.
Proof.
  assert (∃ a, queue_ok (jobs ex_s4) [(a, (1, ex_req))]) as (a & Hq).
  { exists (jobhead (jobs ex_s4)). split; [|apply NoDup_singleton]. vm_compute. split; [reflexivity|]. split; [discriminate|]. eexists. split; [reflexivity|split; reflexivity]. }
  destruct (printd_prints_all (2 + IOBUFSZ) ex_garbage
    [(Printer None [Refused; Connected tt] (Io [] [] [] 0) (pieces [ex_continue; ex_response] [] [] 0), [])] ex_s4 [(a, (1, ex_req))]) as (s' & E & _ & H).
  - exact Hq.
  - split; vm_compute; reflexivity.
  - apply length_replicate.
  - apply NoDup_singleton.
  - constructor; [|constructor]. split.
    + exists ex_data, (bytes "me"), (bytes "f"). split; [vm_compute; reflexivity|]. split; [vm_compute; reflexivity|].
      split; [vm_compute; reflexivity|]. split; [vm_compute; reflexivity|]. split; apply Nat.leb_le; vm_compute; reflexivity.
    + split; [exists tt, 1; reflexivity|]. split; [reflexivity|]. split; [constructor|].
      exists [ex_continue], ex_response, [], [], 0, 200, ex_fields, 8, ex_body. split; [reflexivity|].
      split; [constructor; [exact ex_continue_info|constructor]|]. split; [exact ex_response_piece|]. split; [cbn; lia|].
      split; [exact ex_response_status|]. split; [reflexivity|]. split; [exact ex_response_fields|].
      split; [vm_compute; discriminate|]. split; [cbn; lia|vm_compute; reflexivity].
  - exists s'. split; [exact E|]. apply H. left.
Defined.

(** ** What goes wrong *)

(** The list of workers keeps only the first: the second client that connects is not cancelled
    on termination, and when the first one ends, the head of the list is left pointing to
    its freed record, which the next one uses. *)
Lemma workers_dangling :
  (kill_workers 9 ((add_worker 1 5;;; add_worker 2 6) ex_s0).1).2 = Done [1] ∧
  ((add_worker 1 5;;; add_worker 2 6;;; client_cleanup 9 1) ex_s0).2 = Done tt ∧
  ((add_worker 1 5;;; add_worker 2 6;;; client_cleanup 9 1;;; client_cleanup 9 2) ex_s0).2 = Fail BadPointer.
Proof. split_and!; vm_compute; reflexivity. Qed.

(** The file of the job number is written when a job is picked up, not when it is accepted: after
    a crash the daemon gives the number of an accepted job to a new one, whose data
    replace those of the first. *)
Definition ex_restarted : server := (start false (Some None) [dec 1] (new_process (disk ex_s4) [])).1.
Definition ex_second : io := Io (ex_header ++ bytes "other") [] [Part sizeof_printreq] 0.
Lemma number_reused :
  let s := (client_body ex_strerror [] [] 6 (set_socks {[6 := ex_second]} ex_restarted)).1 in
  data (disk ex_restarted) !! dec 1 = Some ex_data ∧ data (disk s) !! dec 1 = Some (bytes "other").
Proof. split; vm_compute; reflexivity. Qed.

(** A user name of 63 characters and a file name of 255, which [print] sends, and a printer
    name of 52: the IPP header does not fit its buffer. *)
Lemma header_overrun :
  let r := request (Req 0 0 [] (replicate JOBNM_MAX 0)) (Some (replicate 63 120)) 6 false (replicate 255 120) in
  ipp_header 1 r (replicate 52 120) = None.
Proof. vm_compute. reflexivity. Qed.

(** The data of a client that fails or is too slow are printed as if they were complete. *)
Definition ex_short : io := Io (ex_header ++ take 3 ex_data) [] [Part sizeof_printreq; Part 3; Err ETIME] 0.
Lemma short_job_accepted :
  let r := client_body ex_strerror [] [] 6 (set_socks {[6 := ex_short]} ex_s0) in
  r.2 = Done 0 ∧ data (disk r.1) !! dec 1 = Some (take 3 ex_data) ∧ size ex_req = 6.
Proof. split_and!; vm_compute; reflexivity. Qed.

(** A job whose data file is missing leaves the list, and its request stays for the next start. *)
Lemma cancelled_request_stays :
  let s := set_disk (Spool ∅ (reqs (disk ex_s4)) (jobno (disk ex_s4))) ex_s4 in
  let p := Printer None [] (Io [] [] [] 0) (Io [] [] [] 0) in
  (printer_thread 9 [] [(p, [])] s).2 = Done [(1, Cancelled)] ∧ is_Some (reqs (disk (printer_thread 9 [] [(p, [])] s).1) !! dec 1).
Proof. split; [vm_compute; reflexivity|]. vm_compute. eexists. reflexivity. Qed.

(** A read error in [submit_file] is passed to [writen] as a length of -1. *)
Lemma submit_read_error : ∃ k,
  submit_file (Req 0 0 (replicate USERNM_MAX 0) (replicate JOBNM_MAX 0)) None (Io [] [] [Err EIO] 0) (Io [] [] [] 0) (bytes "f") 0 false =
    Some (k, WriteMinusOne).
Proof. eexists. vm_compute. reflexivity. Qed.
