(* ===== verification/PrintProps.v ===== *)
(** The print command and the routines it shares with the daemon: the request reaches the
    daemon as it was meant, the configuration file is read to its end, and connecting
    takes a bounded time. *)
From stdpp Require Import base tactics numbers list strings gmap fin_sets.
From Stdlib Require Import ZArith Lia.
From S2P Require Import Rio.
From S2P Require Import Prelude.
From S2P Require Import ByteOrder.
From S2P Require Import Cio.
From S2P Require Import Print.
From S2P Require Import Ipp.
From S2P Require Import Printd.
From S2P Require Import PrintdThms.
From S2P Require Import IppThms.
From S2P Require Import PrintdProps.
Local Open Scope Z_scope.

(** ** The request *)

(** The name that is sent for a file: its end, if it is too long. *)
Definition shown_name (fname : list Z) : list Z :=
  if (JOBNM_MAX <=? length fname)%nat then bytes "... " ++ drop (length fname - 251) fname else fname.
Definition shown_user (pw : option (list Z)) : list Z :=
  match pw with None => bytes "unknown" | Some n => take (USERNM_MAX - 1) n end.

Lemma string_at_app s k : no_nul s → string_at (s ++ 0 :: k) = Some s.
Proof. intros H. unfold string_at. rewrite bool_decide_true by set_solver. by rewrite cstr_app. Qed.

(** A user name, terminated and padded. *)
Lemma user_field g pw nbytes text fname : length (usernm g) = USERNM_MAX → (∀ n, pw = Some n → no_nul n) →
  ∃ k, usernm (request g pw nbytes text fname) = shown_user pw ++ 0 :: k ∧ length (usernm (request g pw nbytes text fname)) = USERNM_MAX ∧
    no_nul (shown_user pw).
Proof.
  intros Hg Hn. destruct pw as [n|]; cbn [request usernm shown_user].
  - specialize (Hn n eq_refl). unfold strncpy. destruct (decide (length n < 63)%nat) as [Hl|Hl].
    + exists (replicate (63 - length n - 1) 0 ++ [0]). split_and!.
      * replace (USERNM_MAX - 1 - length n)%nat with (S (63 - length n - 1)) by (unfold USERNM_MAX; lia). by rewrite <- app_assoc.
      * rewrite !length_app, length_take, length_replicate. unfold USERNM_MAX. cbn [length]. lia.
      * by apply Forall_take.
    + exists []. replace (USERNM_MAX - 1 - length n)%nat with 0%nat by (unfold USERNM_MAX; lia). cbn [replicate]. rewrite app_nil_r.
      split_and!; [done| |by apply Forall_take]. rewrite length_app, length_take. unfold USERNM_MAX. cbn [length]. lia.
  - eexists. split_and!; [unfold overlay; rewrite <- app_assoc; reflexivity| |by repeat constructor].
    unfold overlay. rewrite length_app, length_drop, Hg. done.
Qed.

Lemma name_field g pw nbytes text fname : length (jobnm g) = JOBNM_MAX → no_nul fname →
  ∃ k, jobnm (request g pw nbytes text fname) = shown_name fname ++ 0 :: k ∧ length (jobnm (request g pw nbytes text fname)) = JOBNM_MAX ∧
    no_nul (shown_name fname).
Proof.
  intros Hg Hn. cbn [request jobnm]. unfold shown_name. destruct (Nat.leb_spec JOBNM_MAX (length fname)) as [Hl|Hl]; unfold JOBNM_MAX in *.
  - exists []. replace (length fname - 256 + 5)%nat with (length fname - 251)%nat by lia. rewrite take_ge by (rewrite length_drop; lia). split_and!.
    + by rewrite <- app_assoc.
    + rewrite !length_app, length_drop. cbn. lia.
    + apply Forall_app. split; [by repeat constructor|by apply Forall_drop].
  - eexists. split_and!; [unfold overlay; rewrite <- app_assoc; reflexivity| |done].
    unfold overlay. rewrite length_app, length_drop, length_app, Hg. cbn [length]. lia.
Qed.

(** The request that [print] sends arrives as it was meant: the daemon sees the size
    modulo 2^32, the flag for text, the user name cut to 63 characters, and the file name,
    or the last 251 characters of it behind "... "; the names are terminated. *)
Theorem print_request_received g pw nbytes text fname :
  length (usernm g) = USERNM_MAX → length (jobnm g) = JOBNM_MAX → (∀ n, pw = Some n → no_nul n) → no_nul fname →
  let r := received_req (bytes_of_req (request g pw nbytes text fname)) in
  length (bytes_of_req (request g pw nbytes text fname)) = sizeof_printreq ∧
  size r = u32 nbytes ∧ flags r = (if text then PR_TEXT else 0) ∧
  string_at (usernm r ++ jobnm r) = Some (shown_user pw) ∧ string_at (jobnm r) = Some (shown_name fname).
Proof.
  intros Hu Hj Hn Hf r. destruct (user_field g pw nbytes text fname Hu Hn) as (k1 & E1 & L1 & N1).
  destruct (name_field g pw nbytes text fname Hj Hf) as (k2 & E2 & L2 & N2).
  assert (good_req (request g pw nbytes text fname)) as Hg.
  { split; [by split|apply htonl_range|]. cbn [request flags]. destruct text; [apply htonl_range|lia]. }
  split; [by apply length_bytes_of_req|]. unfold r, received_req. rewrite req_roundtrip by done. cbn [size flags usernm jobnm].
  rewrite E1, E2. split_and!.
  - cbn [request size]. rewrite htonl_htonl. apply u32_id, u32_range.
  - cbn [request flags]. by destruct text.
  - rewrite <- app_assoc. by apply string_at_app.
  - by apply string_at_app.
Qed.

Lemma print_request_received_witness :
  let r := received_req (bytes_of_req (request (Req 0 0 (replicate USERNM_MAX 7) (replicate JOBNM_MAX 7)) None 100 true (bytes "a.ps"))) in
  size r = 100 ∧ string_at (jobnm r) = Some (bytes "a.ps").
Proof.
  destruct (print_request_received (Req 0 0 (replicate USERNM_MAX 7) (replicate JOBNM_MAX 7)) None 100 true (bytes "a.ps")) as (_ & H1 & _ & _ & H2).
  - reflexivity.
  - reflexivity.
  - discriminate.
  - repeat constructor; discriminate.
  - split; [exact H1|exact H2].
Defined.

(** ** The configuration file *)

Lemma fgets_shorter n l : let '(a, b) := fgets n l in (length a + length b = length l)%nat.
Proof.
  revert l. induction n as [|n IH]; intros l; [done|]. destruct l as [|c l]; [done|]. cbn [fgets].
  destruct (c =? NEWLINE); [done|]. specialize (IH l). destruct (fgets n l) as [a b]. cbn. lia.
Qed.

(** The scan ends: it finds the keyword or the end of the file. *)
Lemma scan_configfile_total file keyword : is_Some (scan_configfile file keyword).
Proof.
  unfold scan_configfile. assert (∀ fuel l, (length l < fuel)%nat → is_Some (config_loop fuel l keyword)) as H; [|apply H; lia].
  clear file. intros fuel. induction fuel as [|fuel IH]; intros l Hl; [lia|]. cbn [config_loop].
  pose proof (fgets_shorter (MAXCFGLINE - 1) l) as Hs. destruct (fgets (MAXCFGLINE - 1) l) as [[|c a] b]; [eauto|].
  assert (length b < fuel)%nat by (cbn in Hs; lia). destruct (scan_line (c :: a)) as [[k v]|]; [|by apply IH]. case_bool_decide; [eauto|by apply IH].
Qed.

(** A keyword of 16 characters or more is split: its end is taken for the value. *)
Lemma long_keyword_splits :
  scan_configfile (bytes "printserver-backup x" ++ [NEWLINE]) (bytes "printserver-bac") = Some (Some (bytes "kup")).
Proof. vm_compute. reflexivity. Qed.

(** ** Connecting *)

(** At most eight attempts are made, with at most 127 seconds of sleep between them. *)
Lemma connect_retry_bounds {A} (l : list (attempt A)) : ∃ r t, connect_retry l = Some (r, t) ∧ 0 <= t <= 127.
Proof.
  unfold connect_retry. do 8 (destruct l as [|[| |a] l]; [eexists _, _; split; [reflexivity|vm_compute; split; discriminate]..| |eexists _, _; split; [reflexivity|vm_compute; split; discriminate]]).
  eexists _, _. split; [reflexivity|]. vm_compute. split; discriminate.
Qed.
