(* ===== verification/Gai.v ===== *)
(** The implementation of [getaddrinfo] and [getnameinfo] in unpv13e/libgai, with IPv4, IPv6
    and Unix domain support.

    The linked list of results is a list; appending is what the pointer [aipnext] is for.
    Memory is counted: [live] is the number of allocated blocks, and an oracle says which
    allocations succeed (all, when it is used up).  The resolver is a record of functions.
    [NULL] strings are [None].  The address conversion functions are those of Inet.v. *)
From stdpp Require Import base tactics numbers list strings.
From Stdlib Require Import ZArith Lia.
From S2P Require Import Prelude ByteOrder Cio Inet.
Local Open Scope Z_scope.

Definition AI_PASSIVE : Z := 1.
Definition AI_CANONNAME : Z := 2.
Definition AI_CLONE : Z := 4.
Definition NI_NOFQDN : Z := 1.
Definition NI_NUMERICHOST : Z := 2.
Definition NI_NAMEREQD : Z := 4.
Definition NI_NUMERICSERV : Z := 8.
Definition NI_DGRAM : Z := 16.
Definition EAI_ADDRFAMILY : Z := 1.
Definition EAI_AGAIN : Z := 2.
Definition EAI_BADFLAGS : Z := 3.
Definition EAI_FAIL : Z := 4.
Definition EAI_FAMILY : Z := 5.
Definition EAI_MEMORY : Z := 6.
Definition EAI_NODATA : Z := 7.
Definition EAI_NONAME : Z := 8.
Definition EAI_SERVICE : Z := 9.
Definition EAI_SOCKTYPE : Z := 10.
Definition EAI_SYSTEM : Z := 11.
Definition AF_UNSPEC : Z := 0.
Definition AF_LOCAL : Z := 1.
Definition SOCK_STREAM : Z := 1.
Definition SOCK_DGRAM : Z := 2.
Definition SOCK_RAW : Z := 3.
Definition HOST_NOT_FOUND : Z := 1.
Definition TRY_AGAIN : Z := 2.
Definition NO_RECOVERY : Z := 3.
Definition NO_DATA : Z := 4.
(** The size of [sun_path]. *)
Definition SUN_PATH : nat := 108.

(** ** Data *)

(** Ports are in network byte order.  [Empty] is a block of no bytes, which a clone of an
    element without an address gets. *)
Inductive sockaddr := In (sin_port : Z) (sin_addr : list Z) | In6 (sin6_port : Z) (sin6_addr : list Z) | Un (sun_path : list Z) | Empty.
Record addrinfo := Ai {
  ai_flags : Z; ai_family : Z; ai_socktype : Z; ai_protocol : Z;
  ai_addr : option sockaddr; ai_canonname : option (list Z) }.
Record hostent := Hostent { h_name : list Z; h_addrtype : Z; h_addr_list : list (list Z) }.
Record search := Search { host : list Z; family : Z }.

(** The functions that look up names: an error is the value of [h_errno].  [gethostbyname]
    depends on the option [RES_USE_INET6]. *)
Record resolver := Resolver {
  gethostbyname : bool → list Z → hostent + Z;
  gethostbyname2 : list Z → Z → hostent + Z;
  gethostbyaddr : list Z → Z → option (option (list Z));
  getservbyname : list Z → list Z → option Z;
  getservbyport : Z → option (list Z) → option (option (list Z));
  uname : option (list Z) }.

Record mem := Mem { oracle : list bool; live : Z; unlinked : list (list Z) }.
Inductive fault := Quit.
Abbreviation GM := (M mem fault).

Definition alloc : GM bool := λ s,
  match oracle s with
  | [] => (Mem [] (live s + 1) (unlinked s), Done true)
  | true :: o => (Mem o (live s + 1) (unlinked s), Done true)
  | false :: o => (Mem o (live s) (unlinked s), Done false)
  end.
Definition release (n : Z) : GM unit := modify (λ s, Mem (oracle s) (live s - n) (unlinked s)).

Definition has (flags bit : Z) : bool := negb (Z.land flags bit =? 0).
Definition is_empty (s : option (list Z)) : bool := match s with None | Some [] => true | _ => false end.

(** ** [ga_aistruct] *)

(** An element is appended to the list, also when the allocation of its address fails. *)
Definition ga_aistruct (l : list addrinfo) (hints : addrinfo) (addr : list Z) (family : Z) : GM (list addrinfo * Z) :=
  let! ok := alloc in
  if negb ok then ret (l, EAI_MEMORY)
  else
    let ai a := Ai (if ai_socktype hints =? 0 then AI_CLONE else 0) family (ai_socktype hints) (ai_protocol hints) a None in
    if family =? AF_INET then
      let! ok := alloc in
      ret (if ok : bool then (l ++ [ai (Some (In 0 (take 4 addr)))], 0) else (l ++ [ai None], EAI_MEMORY))
    else if family =? AF_INET6 then
      let! ok := alloc in
      ret (if ok : bool then (l ++ [ai (Some (In6 0 (take 16 addr)))], 0) else (l ++ [ai None], EAI_MEMORY))
    else if family =? AF_LOCAL then
      if (SUN_PATH <=? length addr)%nat then ret (l ++ [ai None], EAI_SERVICE)
      else
        let! ok := alloc in
        if negb ok then ret (l ++ [ai None], EAI_MEMORY)
        else
          (if has (ai_flags hints) AI_PASSIVE
           then modify (λ s, Mem (oracle s) (live s) (unlinked s ++ [addr])) else ret tt);;;
          ret (l ++ [ai (Some (Un addr))], 0)
    else ret (l ++ [ai None], 0).

(** ** [freeaddrinfo] *)

Definition blocks (ai : addrinfo) : Z :=
  1 + (if ai_addr ai is Some _ then 1 else 0) + (if ai_canonname ai is Some _ then 1 else 0).
Fixpoint freeaddrinfo (l : list addrinfo) : GM unit :=
  match l with
  | [] => ret tt
  | ai :: l => release (blocks ai);;; freeaddrinfo l
  end.

(** ** [ga_echeck] *)

Definition known_type (socktype : Z) (raw : bool) : bool :=
  (socktype =? 0) || (socktype =? SOCK_STREAM) || (socktype =? SOCK_DGRAM) || (raw && (socktype =? SOCK_RAW)).

Definition ga_echeck (hostname servname : option (list Z)) (flags family socktype protocol : Z) : Z :=
  if negb (Z.land flags (Z.lnot (Z.lor AI_PASSIVE AI_CANONNAME)) =? 0) then EAI_BADFLAGS
  else if is_empty hostname && is_empty servname then EAI_NONAME
  else if family =? AF_UNSPEC then 0
  else if family =? AF_INET then if known_type socktype true then 0 else EAI_SOCKTYPE
  else if family =? AF_INET6 then if known_type socktype true then 0 else EAI_SOCKTYPE
  else if family =? AF_LOCAL then if known_type socktype false then 0 else EAI_SOCKTYPE
  else EAI_FAMILY.

(** ** [ga_nsearch] *)

(** The array [search]. *)
Definition searches (hostname : option (list Z)) (hints : addrinfo) : list search :=
  let pick v6 v4 :=
    if ai_family hints =? AF_INET then [Search v4 AF_INET]
    else if ai_family hints =? AF_INET6 then [Search v6 AF_INET6]
    else if ai_family hints =? AF_UNSPEC then [Search v6 AF_INET6; Search v4 AF_INET]
    else [] in
  match hostname with
  | Some (c :: h) => pick (c :: h) (c :: h)
  | _ => if has (ai_flags hints) AI_PASSIVE then pick (bytes "0::0") (bytes "0.0.0.0") else pick (bytes "0::1") (bytes "localhost")
  end.

(** The function quits if the array has no element. *)
Definition ga_nsearch (hostname : option (list Z)) (hints : addrinfo) : GM (list search) :=
  match searches hostname hints with [] => fail Quit | l => ret l end.

(** ** [ga_clone], [ga_port] *)

(** The new element, which is linked behind the old one also when the allocation of its address
    fails; [None] if there is none. *)
Definition ga_clone (ai : addrinfo) : GM (option addrinfo * bool) :=
  let new a := Ai 0 (ai_family ai) (ai_socktype ai) (ai_protocol ai) a None in
  let! ok := alloc in
  if negb ok then ret (None, false)
  else
    let! ok := alloc in
    ret (if ok : bool then (Some (new (Some (default Empty (ai_addr ai)))), true) else (Some (new None), false)).

(** The socket type and the port of an element, and how much is added to [nfound]. *)
Definition set_port (ai : addrinfo) (port socktype : Z) : addrinfo * Z :=
  let put a := Ai (ai_flags ai) (ai_family ai) socktype (ai_protocol ai) a (ai_canonname ai) in
  if ai_family ai =? AF_INET then
    (put (match ai_addr ai with Some (In _ a) => Some (In (u16 port) a) | a => a end), 1)
  else if ai_family ai =? AF_INET6 then
    (put (match ai_addr ai with Some (In6 _ a) => Some (In6 (u16 port) a) | a => a end), 1)
  else (put (ai_addr ai), 0).

(** The list and the number of elements that got the port; -1 if an allocation fails. *)
Fixpoint ga_port (l : list addrinfo) (port socktype : Z) : GM (list addrinfo * Z) :=
  match l with
  | [] => ret ([], 0)
  | ai :: l =>
      let go front ai :=
        let '(ai, n) := set_port ai port socktype in
        let! r := ga_port l port socktype in
        ret (front ++ ai :: r.1, if r.2 <? 0 then -1 else n + r.2) in
      if has (ai_flags ai) AI_CLONE then
        if ai_socktype ai =? 0 then go [] ai
        else
          let! c := ga_clone ai in
          match c with
          | (Some new, true) => go [ai] new
          | (Some new, false) => ret (ai :: new :: l, -1)
          | (None, _) => ret (ai :: l, -1)
          end
      else if ai_socktype ai =? socktype then go [] ai
      else let! r := ga_port l port socktype in ret (ai :: r.1, r.2)
  end.

Section resolver.
Variable R : resolver.

(** ** [ga_serv] *)

(** One call of [ga_port], and the sum of what was found so far. *)
Definition try_port (l : list addrinfo) (port socktype nfound : Z) : GM (list addrinfo * option Z) :=
  let! r := ga_port l port socktype in
  ret (r.1, if r.2 <? 0 then None else Some (nfound + r.2)).

Definition try_serv (l : list addrinfo) (hints : addrinfo) (serv proto : list Z) (socktype nfound : Z) : GM (list addrinfo * option Z) :=
  if (ai_socktype hints =? 0) || (ai_socktype hints =? socktype) then
    match getservbyname R serv proto with
    | Some s_port => try_port l s_port socktype nfound
    | None => ret (l, Some nfound)
    end
  else ret (l, Some nfound).

Definition ga_serv (l : list addrinfo) (hints : addrinfo) (serv : list Z) : GM (list addrinfo * Z) :=
  let finish r := match r with
    | (l, None) => (l, EAI_MEMORY)
    | (l, Some nfound) => (l, if nfound =? 0 then if ai_socktype hints =? 0 then EAI_NONAME else EAI_SERVICE else 0)
    end in
  if match serv with c :: _ => is_digit c | [] => false end then
    let port := htons (u16 (i32 (atol serv))) in
    if ai_socktype hints =? 0 then
      let! r := try_port l port SOCK_STREAM 0 in
      match r with
      | (l, None) => ret (l, EAI_MEMORY)
      | (l, Some n) => let! r := try_port l port SOCK_DGRAM n in ret (finish r)
      end
    else let! r := try_port l port (ai_socktype hints) 0 in ret (finish r)
  else
    let! r := try_serv l hints serv (bytes "tcp") SOCK_STREAM 0 in
    match r with
    | (l, None) => ret (l, EAI_MEMORY)
    | (l, Some n) => let! r := try_serv l hints serv (bytes "udp") SOCK_DGRAM n in ret (finish r)
    end.

(** ** [ga_unix] *)

Definition with_type (hints : addrinfo) (t : Z) : addrinfo :=
  Ai (ai_flags hints) (ai_family hints) t (ai_protocol hints) (ai_addr hints) (ai_canonname hints).
Definition with_canon (ai : addrinfo) (n : list Z) : addrinfo :=
  Ai (ai_flags ai) (ai_family ai) (ai_socktype ai) (ai_protocol ai) (ai_addr ai) (Some n).

(** What was allocated is not freed when an error is returned. *)
Definition ga_unix (path : list Z) (hints : addrinfo) : GM (Z * list addrinfo) :=
  if negb (ai_family hints =? AF_UNSPEC) && negb (ai_family hints =? AF_LOCAL) then ret (EAI_ADDRFAMILY, [])
  else
    let! r := if ai_socktype hints =? 0
              then let! r := ga_aistruct [] (with_type hints SOCK_STREAM) path AF_LOCAL in ret (r, with_type hints SOCK_DGRAM)
              else ret (([], 0), hints) in
    let '((l, rc), hints) := r in
    if negb (rc =? 0) then ret (rc, [])
    else
      let! r := ga_aistruct l hints path AF_LOCAL in
      if negb (r.2 =? 0) then ret (r.2, [])
      else if has (ai_flags hints) AI_CANONNAME then
        match uname R with
        | None => ret (EAI_SYSTEM, [])
        | Some nodename =>
            let! ok := alloc in
            match ok, r.1 with
            | true, ai :: l => ret (0, with_canon ai nodename :: l)
            | _, _ => ret (EAI_MEMORY, [])
            end
        end
      else ret (0, r.1).

(** ** [getaddrinfo] *)

Definition is_xdigit (c : Z) : bool := is_digit c || ((65 <=? c) && (c <=? 70)) || ((97 <=? c) && (c <=? 102)).

(** One element per address. *)
Fixpoint add_addresses (l : list addrinfo) (hints : addrinfo) (addrs : list (list Z)) (family : Z) : GM (list addrinfo * Z) :=
  match addrs with
  | [] => ret (l, 0)
  | a :: addrs =>
      let! r := ga_aistruct l hints a family in
      if r.2 =? 0 then add_addresses r.1 hints addrs family else ret r
  end.

Definition h_error (e : Z) : Z :=
  if e =? HOST_NOT_FOUND then EAI_NONAME
  else if e =? TRY_AGAIN then EAI_AGAIN
  else if e =? NO_RECOVERY then EAI_FAIL
  else if e =? NO_DATA then EAI_NODATA
  else EAI_NONAME.

(** The numeric address in the string: its family and bytes. *)
Definition numeric (h : list Z) : option (Z * list Z) :=
  let v4 := match h with
            | c :: _ => if is_digit c then match inet_pton AF_INET h [] 0 with (1, a, _) => Some (AF_INET, a) | _ => None end else None
            | [] => None
            end in
  match v4 with
  | Some r => Some r
  | None =>
      match h with
      | c :: _ =>
          if (is_xdigit c || (c =? COLON)) && bool_decide (COLON ∈ h) then
            match inet_pton AF_INET6 h [] 0 with (1, a, _) => Some (AF_INET6, a) | _ => None end
          else None
      | [] => None
      end
  end.

(** The loop over [search]: the list, the canonical name, and 0 or an error. *)
Fixpoint search_loop (nsearch : nat) (named : bool) (hints : addrinfo) (ss : list search) (l : list addrinfo)
    (canon : option (list Z)) : GM (list addrinfo * option (list Z) * Z) :=
  match ss with
  | [] => ret (l, canon, 0)
  | s :: ss =>
      match numeric (host s) with
      | Some (fam, a) =>
          if negb (ai_family hints =? AF_UNSPEC) && negb (ai_family hints =? fam) then ret (l, canon, EAI_ADDRFAMILY)
          else if negb (family s =? fam) then search_loop nsearch named hints ss l canon
          else
            let! r := ga_aistruct l hints a fam in
            if r.2 =? 0 then search_loop nsearch named hints ss r.1 canon else ret (r.1, canon, r.2)
      | None =>
          let answer := if (nsearch =? 2)%nat then gethostbyname2 R (host s) (family s)
                        else gethostbyname R (family s =? AF_INET6) (host s) in
          match answer with
          | inr e => if (nsearch =? 2)%nat then search_loop nsearch named hints ss l canon else ret (l, canon, h_error e)
          | inl h =>
              if negb (ai_family hints =? AF_UNSPEC) && negb (ai_family hints =? h_addrtype h) then ret (l, canon, EAI_ADDRFAMILY)
              else
                let! c := match canon with
                          | None => if named && has (ai_flags hints) AI_CANONNAME
                                    then let! ok := alloc in ret (if ok : bool then inl (Some (h_name h)) else inr EAI_MEMORY)
                                    else ret (inl None)
                          | Some c => ret (inl (Some c))
                          end in
                match c with
                | inr e => ret (l, canon, e)
                | inl canon =>
                    let! r := add_addresses l hints (h_addr_list h) (h_addrtype h) in
                    if r.2 =? 0 then search_loop nsearch named hints ss r.1 canon else ret (r.1, canon, r.2)
                end
          end
      end
  end.

(** [bad]: the list is freed, [canon] is not. *)
Definition bad (l : list addrinfo) (e : Z) : GM (Z * list addrinfo) := freeaddrinfo l;;; ret (e, []).

Definition is_unix (hostname servname : option (list Z)) : bool :=
  match hostname, servname with
  | Some h, Some (c :: _) => (bool_decide (h = bytes "/local") || bool_decide (h = bytes "/unix")) && (c =? 47)
  | _, _ => false
  end.

(** The canonical name of the first element. *)
Definition set_canon (named : bool) (hints : addrinfo) (ss : list search) (l : list addrinfo) (canon : option (list Z)) : GM (list addrinfo * Z) :=
  match l with
  | [] => ret ([], 0)
  | ai :: l' =>
      if named && has (ai_flags hints) AI_CANONNAME then
        match canon with
        | Some c => ret (with_canon ai c :: l', 0)
        | None =>
            let! ok := alloc in
            if ok : bool then ret (with_canon ai (match ss with s :: _ => host s | [] => [] end) :: l', 0) else ret (l, EAI_MEMORY)
        end
      else ret (l, 0)
  end.

(** The result of the function and the list that is returned through [result]. *)
Definition getaddrinfo (hostname servname : option (list Z)) (hintsp : option addrinfo) : GM (Z * list addrinfo) :=
  let hints := default (Ai 0 AF_UNSPEC 0 0 None None) hintsp in
  let rc := ga_echeck hostname servname (ai_flags hints) (ai_family hints) (ai_socktype hints) (ai_protocol hints) in
  if negb (rc =? 0) then bad [] rc
  else if is_unix hostname servname then ga_unix (default [] servname) hints
  else
    let! ss := ga_nsearch hostname hints in
    let named := negb (is_empty hostname) in
    let! r := search_loop (length ss) named hints ss [] None in
    let '(l, canon, rc) := r in
    if negb (rc =? 0) then bad l rc
    else match l with
         | [] => bad [] EAI_NONAME
         | _ =>
             let! r := set_canon named hints ss l canon in
             if negb (r.2 =? 0) then bad r.1 r.2
             else match servname with
                  | Some (c :: s) =>
                      let! r := ga_serv r.1 hints (c :: s) in
                      if r.2 =? 0 then ret (0, r.1) else bad r.1 r.2
                  | _ => ret (0, r.1)
                  end
         end.

(** ** [getnameinfo] *)

(** [snprintf(buf, n, "%s", s)]: the string in the buffer. *)
Definition snprintf (s : list Z) (n : nat) : list Z := take (n - 1) s.

(** The part of a name before the first dot. *)
Fixpoint before_dot (s : list Z) : list Z :=
  match s with
  | [] => []
  | c :: s => if c =? DOT then [] else c :: before_dot s
  end.

(** The strings stored, [None] for a buffer that is not written, and the result. *)
Definition gn_ipv46 (hostlen servlen : nat) (addr : list Z) (family port flags : Z) : option (list Z) * option (list Z) * Z :=
  let ntop := match inet_ntop family addr (Z.of_nat hostlen) 0 with (Some t, _) => Some (cstr t) | (None, _) => None end in
  let host :=
    if (hostlen =? 0)%nat then inl None
    else if has flags NI_NUMERICHOST then match ntop with Some t => inl (Some t) | None => inr 1 end
    else match gethostbyaddr R addr family with
         | Some (Some n) => inl (Some (snprintf (if has flags NI_NOFQDN then before_dot n else n) hostlen))
         | _ => if has flags NI_NAMEREQD then inr 1 else match ntop with Some t => inl (Some t) | None => inr 1 end
         end in
  match host with
  | inr e => (None, None, e)
  | inl h =>
      let number := snprintf (dec (htons port)) servlen in
      let serv :=
        if (servlen =? 0)%nat then None
        else if has flags NI_NUMERICSERV then Some number
        else match getservbyport R port (if has flags NI_DGRAM then Some (bytes "udp") else None) with
             | Some (Some n) => Some (snprintf n servlen)
             | _ => Some number
             end in
      (h, serv, 0)
  end.

Definition getnameinfo (sa : option sockaddr) (hostlen servlen : nat) (flags : Z) : option (list Z) * option (list Z) * Z :=
  match sa with
  | Some (In port a) => gn_ipv46 hostlen servlen a AF_INET port flags
  | Some (In6 port a) => gn_ipv46 hostlen servlen a AF_INET6 port flags
  | Some (Un path) =>
      ((if (hostlen =? 0)%nat then None else Some (snprintf (bytes "/local") hostlen)),
       (if (servlen =? 0)%nat then None else Some (snprintf path servlen)), 0)
  | Some Empty | None => (None, None, 1)
  end.

End resolver.

Definition gai_strerror (err : Z) : list Z :=
  if err =? EAI_ADDRFAMILY then bytes "address family for host not supported"
  else if err =? EAI_AGAIN then bytes "temporary failure in name resolution"
  else if err =? EAI_BADFLAGS then bytes "invalid flags value"
  else if err =? EAI_FAIL then bytes "non-recoverable failure in name resolution"
  else if err =? EAI_FAMILY then bytes "address family not supported"
  else if err =? EAI_MEMORY then bytes "memory allocation failure"
  else if err =? EAI_NODATA then bytes "no address associated with host"
  else if err =? EAI_NONAME then bytes "host nor service provided, or not known"
  else if err =? EAI_SERVICE then bytes "service not supported for socket type"
  else if err =? EAI_SOCKTYPE then bytes "socket type not supported"
  else if err =? EAI_SYSTEM then bytes "system error"
  else bytes "unknown getaddrinfo() error".
