(* ===== verification/GaiThms.v ===== *)
(** What [getaddrinfo] returns when memory is plentiful, and how much memory it holds in any
    case. *)
From stdpp Require Import base tactics numbers list strings.
From Stdlib Require Import ZArith Lia.
From S2P Require Import Prelude ByteOrder Cio Inet InetProps Gai.
Local Open Scope Z_scope.

(** ** The reference *)

(** An address: its family and bytes. *)
Abbreviation address := (Z * list Z)%type (only parsing).
Definition inet_family (f : Z) : Prop := f = AF_INET ∨ f = AF_INET6.

Definition sock (x : address) (port : Z) : sockaddr :=
  if x.1 =? AF_INET then In port (take 4 x.2) else In6 port (take 16 x.2).
Definition entry (fl proto : Z) (canon : option (list Z)) (x : address) (tp : Z * Z) : addrinfo :=
  Ai fl x.1 tp.1 proto (Some (sock x tp.2)) canon.
Definition clone_flag (hints : addrinfo) : Z := if ai_socktype hints =? 0 then AI_CLONE else 0.

(** The entries of one address with its socket types and ports. *)
Definition group (fl proto : Z) (cx : option (list Z) * address) (tps : list (Z * Z)) : list addrinfo :=
  match tps with
  | [] => []
  | tp :: tps => entry fl proto cx.1 cx.2 tp :: map (entry 0 proto None cx.2) tps
  end.

Definition grow (s : mem) (n : Z) : mem := Mem (oracle s) (live s + n) (unlinked s).
Lemma grow_grow s a b : grow (grow s a) b = grow s (a + b).
Proof. unfold grow. cbn. f_equal. lia. Qed.
Lemma grow_0 s : grow s 0 = s.
Proof. destruct s. unfold grow. cbn. f_equal. lia. Qed.

Definition plenty (s : mem) : Prop := oracle s = [].
Lemma plenty_grow s n : plenty s → plenty (grow s n).
Proof. done. Qed.
#[export] Hint Resolve plenty_grow : core.

Lemma alloc_ok s : plenty s → alloc s = (grow s 1, Done true).
Proof. unfold plenty, alloc, grow. by intros ->. Qed.

(** One allocation at the front of a sequence. *)
Lemma bind_alloc {A} (k : bool → GM A) s : plenty s → bind alloc k s = k true (grow s 1).
Proof. intros H. by rewrite (bind_done _ _ _ _ _ (alloc_ok _ H)). Qed.

(** ** The list of addresses *)

Definition fresh (hints : addrinfo) (x : address) : addrinfo :=
  entry (clone_flag hints) (ai_protocol hints) None x (ai_socktype hints, 0).

Lemma aistruct_ok l hints (x : address) s : plenty s → inet_family x.1 →
  ga_aistruct l hints x.2 x.1 s = (grow s 2, Done (l ++ [fresh hints x], 0)).
Proof.
  intros Hs. destruct x as [f a]. cbn. unfold ga_aistruct. rewrite bind_alloc by done.
  intros [-> | ->]; cbn [negb Z.eqb AF_INET AF_INET6 Pos.eqb]; rewrite bind_alloc by auto; by rewrite grow_grow.
Qed.

Lemma add_addresses_ok hints f addrs : inet_family f → ∀ l s, plenty s →
  add_addresses l hints addrs f s =
  (grow s (2 * zlen addrs), Done (l ++ map (fresh hints) (map (λ a, (f, a)) addrs), 0)).
Proof.
  intros Hf. induction addrs as [|a addrs IH]; intros l s Hs.
  - cbn. unfold ret. by rewrite app_nil_r, grow_0.
  - cbn [add_addresses]. rewrite (bind_done _ _ _ _ _ (aistruct_ok l hints (f, a) s Hs Hf)). cbn [snd fst Z.eqb].
    rewrite IH by auto. rewrite grow_grow. cbn [map]. rewrite <- app_assoc. do 2 f_equal.
    unfold zlen. cbn [length]. lia.
Qed.

(** ** The search *)

Section search.
Variable R : resolver.
(** The hosts found have addresses of one of the two families. *)
Definition inet_resolver : Prop :=
  (∀ v6 n h, gethostbyname R v6 n = inl h → inet_family (h_addrtype h)) ∧
  (∀ n f h, gethostbyname2 R n f = inl h → inet_family (h_addrtype h)).
Hypothesis HR : inet_resolver.

(** The answer to one search: the official name, if the resolver was asked, and the addresses;
    or an error. *)
Definition answer (nsearch : nat) (want : Z) (s : search) : (option (list Z) * list address) + Z :=
  let mismatch f := negb (want =? AF_UNSPEC) && negb (want =? f) in
  match numeric (host s) with
  | Some (f, a) =>
      if mismatch f then inr EAI_ADDRFAMILY else inl (None, if family s =? f then [(f, a)] else [])
  | None =>
      match (if (nsearch =? 2)%nat then gethostbyname2 R (host s) (family s) else gethostbyname R (family s =? AF_INET6) (host s)) with
      | inl h => if mismatch (h_addrtype h) then inr EAI_ADDRFAMILY else inl (Some (h_name h), map (λ a, (h_addrtype h, a)) (h_addr_list h))
      | inr e => if (nsearch =? 2)%nat then inl (None, []) else inr (h_error e)
      end
  end.

(** The first name and all addresses, or the first error. *)
Fixpoint resolve (nsearch : nat) (want : Z) (ss : list search) : (option (list Z) * list address) + Z :=
  match ss with
  | [] => inl (None, [])
  | s :: ss =>
      match answer nsearch want s with
      | inr e => inr e
      | inl (c, l) =>
          match resolve nsearch want ss with
          | inr e => inr e
          | inl (c', l') => inl (match c with Some _ => c | None => c' end, l ++ l')
          end
      end
  end.

Lemma h_error_nonzero e : h_error e ≠ 0.
Proof. unfold h_error. by repeat case_match. Qed.

Lemma numeric_family h f a : numeric h = Some (f, a) → inet_family f.
Proof. unfold numeric, inet_family. intros H. repeat (case_match; simplify_eq; auto). Qed.

Definition held (c : option (list Z)) : Z := if c is Some _ then 1 else 0.
Definition keep (want : bool) (c0 c : option (list Z)) : option (list Z) :=
  match c0 with Some _ => c0 | None => if want then c else None end.

(** What the loop does after the addresses of one search. *)
Definition searched n named hints ss l c0 s (r : (option (list Z) * list address) + Z) : Prop :=
  let m := search_loop R n named hints ss l c0 s in
  match r with
  | inl (c, addrs) =>
      let c' := keep (named && has (ai_flags hints) AI_CANONNAME) c0 c in
      m = (grow s (2 * zlen addrs + held c' - held c0), Done (l ++ map (fresh hints) addrs, c', 0))
  | inr e => e ≠ 0 ∧ ∃ s' l' c', m = (s', Done (l', c', e))
  end.

(** The official name is kept the first time. *)
Lemma canon_ok {A} (want : bool) c0 name (k : option (list Z) + Z → GM A) s : plenty s →
  bind (match c0 with
        | None => if want then let! ok := alloc in ret (if ok : bool then inl (Some name) else inr EAI_MEMORY) else ret (inl None)
        | Some c => ret (inl (Some c))
        end) k s =
  k (inl (keep want c0 (Some name))) (grow s (held (keep want c0 (Some name)) - held c0)).
Proof.
  intros Hs. destruct c0 as [c|]; [by rewrite bind_ret, grow_0|]. destruct want; [|by rewrite bind_ret, grow_0].
  rewrite bind_assoc, bind_alloc by done. by rewrite bind_ret.
Qed.

Lemma keep_keep want c0 c c' : keep want (keep want c0 (Some c)) c' = keep want c0 (Some c).
Proof. by destruct c0, want. Qed.

Lemma searched_numeric n named hints sp ss l c0 s f a : plenty s → numeric (host sp) = Some (f, a) →
  (∀ l c0 s, plenty s → searched n named hints ss l c0 s (resolve n (ai_family hints) ss)) →
  searched n named hints (sp :: ss) l c0 s (resolve n (ai_family hints) (sp :: ss)).
Proof using HR.
  intros Hs En IH. unfold searched. cbn [resolve search_loop]. unfold answer. rewrite En.
  destruct (negb (ai_family hints =? AF_UNSPEC) && negb (ai_family hints =? f)).
  { split; [done|]. by eexists _, _, _. }
  destruct (family sp =? f) eqn:Ef; cbn [negb].
  - rewrite (bind_done _ _ _ _ _ (aistruct_ok l hints (f, a) s Hs (numeric_family _ _ _ En))). cbn [fst snd Z.eqb].
    specialize (IH (l ++ [fresh hints (f, a)]) c0 (grow s 2) (plenty_grow _ _ Hs)). unfold searched in IH.
    destruct (resolve _ _ ss) as [[c addrs]|e]; [|done]. rewrite IH, grow_grow. cbn [map app].
    rewrite <- app_assoc. do 2 f_equal. unfold zlen. cbn [length]. lia.
  - specialize (IH l c0 s Hs). unfold searched in IH. by destruct (resolve _ _ ss) as [[c addrs]|e].
Qed.

Lemma searched_host n named hints sp ss l c0 s : plenty s → numeric (host sp) = None →
  (∀ l c0 s, plenty s → searched n named hints ss l c0 s (resolve n (ai_family hints) ss)) →
  searched n named hints (sp :: ss) l c0 s (resolve n (ai_family hints) (sp :: ss)).
Proof using HR.
  intros Hs En IH. unfold searched. cbn [resolve search_loop]. unfold answer. rewrite En.
  set (ans := if (n =? 2)%nat then _ else _). assert (Hans : ∀ h, ans = inl h → inet_family (h_addrtype h)).
  { unfold ans. destruct (n =? 2)%nat; intros h; [apply (proj2 HR)|apply (proj1 HR)]. }
  destruct ans as [h|e].
  - destruct (negb (ai_family hints =? AF_UNSPEC) && negb (ai_family hints =? h_addrtype h)).
    { split; [done|]. by eexists _, _, _. }
    rewrite canon_ok by done. set (want := named && _). set (c1 := keep want c0 (Some (h_name h))).
    rewrite (bind_done _ _ _ _ _ (add_addresses_ok hints _ _ (Hans h eq_refl) l _ (plenty_grow _ _ Hs))). cbn [fst snd Z.eqb].
    rewrite grow_grow. set (l1 := l ++ _). set (s1 := grow s _).
    specialize (IH l1 c1 s1 (plenty_grow _ _ Hs)). unfold searched in IH.
    destruct (resolve _ _ ss) as [[c addrs]|e]; [|done]. rewrite IH. fold want. unfold c1. rewrite keep_keep. fold c1.
    unfold s1, l1. rewrite grow_grow, map_app, <- app_assoc. do 2 f_equal. unfold zlen. rewrite length_app, length_map. lia.
  - destruct (n =? 2)%nat.
    + specialize (IH l c0 s Hs). unfold searched in IH. by destruct (resolve _ _ ss) as [[c addrs]|e'].
    + split; [apply h_error_nonzero|]. by eexists _, _, _.
Qed.

Lemma search_loop_ok n named hints ss : ∀ l c0 s, plenty s →
  searched n named hints ss l c0 s (resolve n (ai_family hints) ss).
Proof using HR.
  induction ss as [|sp ss IH]; intros l c0 s Hs.
  - unfold searched. cbn [resolve search_loop]. unfold ret. rewrite app_nil_r.
    replace (keep _ c0 None) with c0 by (by destruct c0, (named && _)).
    rewrite <- (grow_0 s) at 1. do 2 f_equal. unfold zlen. cbn. lia.
  - destruct (numeric (host sp)) as [[f a]|] eqn:En; [by eapply searched_numeric|by apply searched_host].
Qed.
End search.

(** ** Ports *)

(** A list of addresses, each with a canonical name or none. *)
Abbreviation named_addresses := (list (option (list Z) * address)) (only parsing).

Lemma set_port_entry fl pr c x tp port t : inet_family x.1 →
  set_port (entry fl pr c x tp) port t = (entry fl pr c x (t, u16 port), 1).
Proof. destruct x as [f a]. cbn. by intros [-> | ->]. Qed.

Lemma count_step {A} (n : list A) : (if zlen n <? 0 then -1 else 1 + zlen n) = 1 + zlen n.
Proof. unfold zlen. case_match; lia. Qed.

(** The elements that take the socket type themselves. *)
Lemma ga_port_fill fl pr t0 port t (l : named_addresses) s :
  Forall (λ cx, inet_family cx.2.1) l → (has fl AI_CLONE = true ∧ t0 = 0) ∨ (has fl AI_CLONE = false ∧ t0 = t) →
  ga_port (map (λ cx, entry fl pr cx.1 cx.2 (t0, 0)) l) port t s =
  (s, Done (map (λ cx, entry fl pr cx.1 cx.2 (t, u16 port)) l, zlen l)).
Proof.
  intros Hl Ht. induction Hl as [|cx l Hx Hl IH]; [done|]. cbn [map ga_port]. rewrite set_port_entry by done.
  change (ai_flags (entry fl pr _ _ _)) with fl. change (ai_socktype (entry fl pr _ _ (t0, 0))) with t0.
  assert (E : zlen (cx :: l) = 1 + zlen l) by (unfold zlen; cbn [length]; lia).
  destruct Ht as [[-> ->]|[-> ->]]; rewrite Z.eqb_refl;
    rewrite (bind_done _ _ _ _ _ IH); cbn [fst snd app]; by rewrite count_step, E.
Qed.

(** The elements that have a socket type and are cloned. *)
Lemma ga_port_clone fl pr t0 p0 port t (l : named_addresses) : has fl AI_CLONE = true → t0 ≠ 0 → ∀ s, plenty s →
  Forall (λ cx, inet_family cx.2.1) l →
  ga_port (map (λ cx, entry fl pr cx.1 cx.2 (t0, p0)) l) port t s =
  (grow s (2 * zlen l), Done (concat (map (λ cx, group fl pr cx [(t0, p0); (t, u16 port)]) l), zlen l)).
Proof.
  intros Hf Ht s Hs Hl. revert s Hs. induction Hl as [|cx l Hx Hl IH]; intros s Hs; [cbn; by rewrite grow_0|].
  cbn [map ga_port]. change (ai_flags (entry fl pr _ _ _)) with fl. rewrite Hf. change (ai_socktype (entry fl pr _ _ (t0, p0))) with t0.
  replace (t0 =? 0) with false by (symmetry; by apply Z.eqb_neq).
  unfold ga_clone. rewrite bind_assoc, bind_alloc by done. cbn [negb]. rewrite bind_assoc, bind_alloc by auto. rewrite bind_ret.
  change (Ai 0 _ _ _ _ None) with (entry 0 pr None cx.2 (t0, p0)). rewrite set_port_entry by done.
  rewrite grow_grow, (bind_done _ _ _ _ _ (IH _ (plenty_grow _ _ Hs))). cbn [fst snd app concat group map].
  assert (E : zlen (cx :: l) = 1 + zlen l) by (unfold zlen; cbn [length]; lia).
  rewrite count_step, grow_grow, E. by replace (2 * (1 + zlen l)) with (1 + 1 + 2 * zlen l) by lia.
Qed.

Section serv.
Variable R : resolver.

(** The socket types and ports of a service. *)
Definition find_port (hints : addrinfo) (serv proto : list Z) (t : Z) : list (Z * Z) :=
  if (ai_socktype hints =? 0) || (ai_socktype hints =? t) then
    match getservbyname R serv proto with Some p => [(t, u16 p)] | None => [] end
  else [].
Definition ports (hints : addrinfo) (serv : list Z) : list (Z * Z) :=
  if match serv with c :: _ => is_digit c | [] => false end then
    let port := htons (u16 (i32 (atol serv))) in
    if ai_socktype hints =? 0 then [(SOCK_STREAM, port); (SOCK_DGRAM, port)] else [(ai_socktype hints, port)]
  else find_port hints serv (bytes "tcp") SOCK_STREAM ++ find_port hints serv (bytes "udp") SOCK_DGRAM.

Definition no_port (hints : addrinfo) : Z := if ai_socktype hints =? 0 then EAI_NONAME else EAI_SERVICE.

Lemma clone_flag_cases hints t :
  ai_socktype hints = 0 ∨ ai_socktype hints = t →
  (has (clone_flag hints) AI_CLONE = true ∧ ai_socktype hints = 0) ∨ (has (clone_flag hints) AI_CLONE = false ∧ ai_socktype hints = t).
Proof. unfold clone_flag. intros H. destruct (Z.eqb_spec (ai_socktype hints) 0) as [E|E]; [left|right; split]; tauto || done. Qed.

Definition start_list (hints : addrinfo) (l : named_addresses) : list addrinfo :=
  map (λ cx, entry (clone_flag hints) (ai_protocol hints) cx.1 cx.2 (ai_socktype hints, 0)) l.
Definition product (hints : addrinfo) (l : named_addresses) (tps : list (Z * Z)) : list addrinfo :=
  concat (map (λ cx, group (clone_flag hints) (ai_protocol hints) cx tps) l).

Lemma product_one hints l tp : product hints l [tp] = map (λ cx, entry (clone_flag hints) (ai_protocol hints) cx.1 cx.2 tp) l.
Proof. unfold product. induction l as [|cx l IH]; [done|]. cbn [map concat group app]. f_equal. exact IH. Qed.

(** The first port. *)
Lemma try_port_first hints l port t n s : Forall (λ cx : option (list Z) * address, inet_family cx.2.1) l →
  ai_socktype hints = 0 ∨ ai_socktype hints = t →
  try_port (start_list hints l) port t n s = (s, Done (product hints l [(t, u16 port)], Some (n + zlen l))).
Proof.
  intros Hl Ht. unfold try_port, start_list.
  rewrite (bind_done _ _ _ _ _ (ga_port_fill _ (ai_protocol hints) _ port t l s Hl (clone_flag_cases hints t Ht))).
  cbn [fst snd]. rewrite product_one. unfold ret, zlen. by destruct (Z.ltb_spec (Z.of_nat (length l)) 0); [lia|].
Qed.

(** The second one. *)
Lemma try_port_second hints l p0 port t0 t n s : plenty s → Forall (λ cx : option (list Z) * address, inet_family cx.2.1) l →
  ai_socktype hints = 0 → t0 ≠ 0 →
  try_port (product hints l [(t0, p0)]) port t n s =
  (grow s (2 * zlen l), Done (product hints l [(t0, p0); (t, u16 port)], Some (n + zlen l))).
Proof.
  intros Hs Hl Ht H0. unfold try_port. rewrite product_one. assert (Hf : has (clone_flag hints) AI_CLONE = true) by (unfold clone_flag; by rewrite Ht).
  rewrite (bind_done _ _ _ _ _ (ga_port_clone _ (ai_protocol hints) t0 p0 port t l Hf H0 s Hs Hl)).
  cbn [fst snd]. unfold ret, zlen. by destruct (Z.ltb_spec (Z.of_nat (length l)) 0); [lia|].
Qed.

(** What the list is after the service was processed, and the result. *)
Definition served (hints : addrinfo) (l : named_addresses) (tps : list (Z * Z)) (s : mem) : mem * outcome fault (list addrinfo * Z) :=
  match tps with
  | [] => (s, Done (start_list hints l, no_port hints))
  | _ :: more => (grow s (2 * zlen l * zlen more), Done (product hints l tps, 0))
  end.

Lemma found_some {A} (l : list A) n : l ≠ [] → 0 <= n → (n + zlen l =? 0) = false.
Proof. intros Hl Hn. apply Z.eqb_neq. destruct l; [done|]. unfold zlen. cbn [length]. lia. Qed.

Lemma u16_htons x : u16 (htons x) = htons x.
Proof. apply u16_id, htons_range. Qed.

Lemma ga_serv_number hints l c serv s : plenty s → l ≠ [] → Forall (λ cx : option (list Z) * address, inet_family cx.2.1) l →
  is_digit c = true → ga_serv R (start_list hints l) hints (c :: serv) s = served hints l (ports hints (c :: serv)) s.
Proof.
  intros Hs Hl Hf Hc. unfold ga_serv, ports. rewrite Hc. set (port := htons _).
  assert (Hp : u16 port = port) by apply u16_htons. destruct (Z.eqb_spec (ai_socktype hints) 0) as [E|E].
  - rewrite (bind_done _ _ _ _ _ (try_port_first hints l port SOCK_STREAM 0 s Hf (or_introl E))).
    rewrite (bind_done _ _ _ _ _ (try_port_second hints l (u16 port) port SOCK_STREAM SOCK_DGRAM _ s Hs Hf E ltac:(done))).
    rewrite found_some by (done || (unfold zlen; lia)). rewrite Hp. cbn [served]. unfold ret. by replace (2 * zlen l * zlen [(SOCK_DGRAM, port)]) with (2 * zlen l) by (unfold zlen; cbn; lia).
  - rewrite (bind_done _ _ _ _ _ (try_port_first hints l port (ai_socktype hints) 0 s Hf (or_intror eq_refl))).
    rewrite found_some by done. rewrite Hp. cbn [served]. unfold ret, zlen. cbn [length]. by rewrite Z.mul_0_r, grow_0.
Qed.

Lemma try_serv_first hints l serv proto t s : Forall (λ cx : option (list Z) * address, inet_family cx.2.1) l →
  try_serv R (start_list hints l) hints serv proto t 0 s =
  (s, Done match find_port hints serv proto t with
           | [] => (start_list hints l, Some 0)
           | tps => (product hints l tps, Some (0 + zlen l))
           end).
Proof.
  intros Hf. unfold try_serv, find_port. destruct ((ai_socktype hints =? 0) || (ai_socktype hints =? t)) eqn:W; [|done].
  destruct (getservbyname R serv proto) as [p|]; [|done]. apply try_port_first; [done|lia].
Qed.

Lemma try_serv_second hints l p n serv proto s : plenty s → Forall (λ cx : option (list Z) * address, inet_family cx.2.1) l →
  ai_socktype hints = 0 ∨ ai_socktype hints = SOCK_STREAM →
  ∃ n', 0 <= n' ∧ try_serv R (product hints l [(SOCK_STREAM, p)]) hints serv proto SOCK_DGRAM n s =
  (grow s (2 * zlen l * zlen (find_port hints serv proto SOCK_DGRAM)),
   Done (product hints l ((SOCK_STREAM, p) :: find_port hints serv proto SOCK_DGRAM), Some (n + n'))).
Proof.
  intros Hs Hf Ht. unfold try_serv, find_port.
  destruct ((ai_socktype hints =? 0) || (ai_socktype hints =? SOCK_DGRAM)) eqn:W; [destruct (getservbyname R serv proto) as [q|]|].
  - exists (zlen l). split; [unfold zlen; lia|]. rewrite try_port_second; try done; [|unfold SOCK_STREAM, SOCK_DGRAM in *; lia].
    by replace (2 * zlen l * zlen [(SOCK_DGRAM, u16 q)]) with (2 * zlen l) by (unfold zlen; cbn; lia).
  - exists 0. split; [done|]. unfold ret, zlen. cbn [length]. by rewrite Z.mul_0_r, grow_0, Z.add_0_r.
  - exists 0. split; [done|]. unfold ret, zlen. cbn [length]. by rewrite Z.mul_0_r, grow_0, Z.add_0_r.
Qed.

Lemma find_port_one hints serv proto t : find_port hints serv proto t = [] ∨
  ∃ p, find_port hints serv proto t = [(t, p)] ∧ (ai_socktype hints = 0 ∨ ai_socktype hints = t).
Proof.
  unfold find_port. destruct ((ai_socktype hints =? 0) || (ai_socktype hints =? t)) eqn:W; [|by left].
  destruct (getservbyname R serv proto) as [p|]; [right|by left]. exists (u16 p). split; [done|lia].
Qed.

Lemma ga_serv_name hints l serv s : plenty s → l ≠ [] → Forall (λ cx : option (list Z) * address, inet_family cx.2.1) l →
  match serv with c :: _ => is_digit c | [] => false end = false →
  ga_serv R (start_list hints l) hints serv s = served hints l (ports hints serv) s.
Proof.
  intros Hs Hl Hf Hc. unfold ga_serv, ports. rewrite Hc, (bind_done _ _ _ _ _ (try_serv_first hints l serv _ SOCK_STREAM s Hf)).
  destruct (find_port_one hints serv (bytes "tcp") SOCK_STREAM) as [-> | (p & -> & Ht)].
  - rewrite (bind_done _ _ _ _ _ (try_serv_first hints l serv _ SOCK_DGRAM s Hf)).
    destruct (find_port_one hints serv (bytes "udp") SOCK_DGRAM) as [-> | (q & -> & Hu)]; [done|].
    rewrite found_some by done. cbn [served app]. unfold ret, zlen. cbn [length]. by rewrite Z.mul_0_r, grow_0.
  - destruct (try_serv_second hints l p (0 + zlen l) serv (bytes "udp") s Hs Hf Ht) as (n' & Hn' & E).
    rewrite (bind_done _ _ _ _ _ E). rewrite <- Z.add_assoc, (Z.add_comm (zlen l)), Z.add_assoc, found_some by (done || lia). done.
Qed.

Lemma ga_serv_ok hints l serv s : plenty s → l ≠ [] → Forall (λ cx : option (list Z) * address, inet_family cx.2.1) l →
  ga_serv R (start_list hints l) hints serv s = served hints l (ports hints serv) s.
Proof.
  intros Hs Hl Hf. destruct serv as [|c serv]; [by apply ga_serv_name|].
  destruct (is_digit c) eqn:Hc; [by apply ga_serv_number|by apply ga_serv_name].
Qed.
End serv.

(** ** The whole function *)

Lemma freeaddrinfo_ok l : ∀ s, freeaddrinfo l s = (grow s (- foldr Z.add 0 (map blocks l)), Done tt).
Proof.
  induction l as [|ai l IH]; intros s; [cbn; by rewrite grow_0|]. cbn [freeaddrinfo map foldr].
  unfold release. rewrite bind_modify, IH. unfold grow. cbn. do 2 f_equal. lia.
Qed.
Lemma bad_ok l e s : ∃ s', bad l e s = (s', Done (e, [])).
Proof. unfold bad. rewrite (bind_done _ _ _ _ _ (freeaddrinfo_ok l s)). by eexists. Qed.

Lemma resolve_families R n want ss c addrs : inet_resolver R →
  resolve R n want ss = inl (c, addrs) → Forall (λ x, inet_family x.1) addrs.
Proof.
  intros HR. revert c addrs. induction ss as [|sp ss IH]; intros c addrs; cbn [resolve]; [by intros [= <- <-]|].
  destruct (answer R n want sp) as [[c1 l1]|] eqn:Ea; [|done]. destruct (resolve R n want ss) as [[c2 l2]|]; [|done].
  intros [= _ <-]. apply Forall_app. split; [|by eapply IH]. clear IH. unfold answer in Ea.
  destruct (numeric (host sp)) as [[f a]|] eqn:En.
  - apply numeric_family in En. destruct (negb _ && negb _); simplify_eq. destruct (family sp =? f); [by apply Forall_singleton|done].
  - destruct (n =? 2)%nat.
    + destruct (gethostbyname2 _ _ _) as [h|] eqn:Eh; [|by simplify_eq]. apply (proj2 HR) in Eh.
      case_match; simplify_eq. apply Forall_map, Forall_true. done.
    + destruct (gethostbyname _ _ _) as [h|] eqn:Eh; [|done]. apply (proj1 HR) in Eh.
      case_match; simplify_eq. apply Forall_map, Forall_true. done.
Qed.

Section run.
Variable R : resolver.
Hypothesis HR : inet_resolver R.
Variables (hostname servname : option (list Z)) (hints : addrinfo).
Let ss := searches hostname hints.
Let want := negb (is_empty hostname) && has (ai_flags hints) AI_CANONNAME.

(** The canonical name: the first official name, or the string that was searched. *)
Definition canonical (c : option (list Z)) : option (list Z) :=
  if want then Some (match c with Some n => n | None => match ss with sp :: _ => host sp | [] => [] end end) else None.

Definition with_head (c : option (list Z)) (addrs : list address) : named_addresses :=
  match addrs with
  | [] => []
  | a :: addrs => (c, a) :: map (λ x, (None, x)) addrs
  end.

(** The socket types and ports that are asked for. *)
Definition asked : list (Z * Z) :=
  match servname with Some (c :: s) => ports R hints (c :: s) | _ => [(ai_socktype hints, 0)] end.

Lemma set_canon_ok c addrs s : plenty s →
  ∃ s', plenty s' ∧ set_canon (negb (is_empty hostname)) hints ss (map (fresh hints) addrs) (keep want None c) s =
        (s', Done (start_list hints (with_head (canonical c) addrs), 0)).
Proof.
  intros Hs. destruct addrs as [|a addrs]; [by exists s|]. cbn [map set_canon]. unfold start_list, with_head, canonical. cbn [map].
  rewrite map_map. fold want. unfold keep. destruct want.
  - destruct c as [n|]; [by exists s|]. exists (grow s 1). split; [done|]. by rewrite bind_alloc.
  - by exists s.
Qed.

(** The last step. *)
Lemma asked_run c addrs s : plenty s → addrs ≠ [] → Forall (λ x : address, inet_family x.1) addrs →
  ∃ s', (let l := start_list hints (with_head c addrs) in
         match servname with
         | Some (c :: sv) => let! r := ga_serv R l hints (c :: sv) in if r.2 =? 0 then ret (0, r.1) else bad r.1 r.2
         | _ => ret (0, l)
         end) s =
        (s', Done match asked with [] => (no_port hints, []) | tps => (0, product hints (with_head c addrs) tps) end).
Proof.
  intros Hs Ha Hf. cbv zeta. unfold asked.
  assert (Hw : with_head c addrs ≠ [] ∧ Forall (λ cx : option (list Z) * address, inet_family cx.2.1) (with_head c addrs)).
  { destruct Hf as [|a addrs Hx Hf]; [done|]. split; [done|]. constructor; [done|]. by apply Forall_map. }
  destruct Hw as [Hw Hwf]. destruct servname as [[|ch sv]|]; [rewrite product_one; by exists s| |rewrite product_one; by exists s].
  assert (E : ∀ {A} (k : list addrinfo * Z → GM A), bind (ga_serv R (start_list hints (with_head c addrs)) hints (ch :: sv)) k s =
    bind (λ _, served hints (with_head c addrs) (ports R hints (ch :: sv)) s) k s) by (intros A k; unfold bind; by rewrite ga_serv_ok).
  rewrite E. destruct (ports R hints (ch :: sv)) as [|tp tps]; unfold served, bind; cbn [fst snd].
  - unfold no_port. destruct (ai_socktype hints =? 0); apply bad_ok.
  - by eexists.
Qed.

Lemma getaddrinfo_run s : plenty s → is_unix hostname servname = false → ss ≠ [] →
  ga_echeck hostname servname (ai_flags hints) (ai_family hints) (ai_socktype hints) (ai_protocol hints) = 0 →
  ∃ s', getaddrinfo R hostname servname (Some hints) s = (s', Done
    match resolve R (length ss) (ai_family hints) ss with
    | inr e => (e, [])
    | inl (_, []) => (EAI_NONAME, [])
    | inl (c, addrs) =>
        match asked with
        | [] => (no_port hints, [])
        | tps => (0, product hints (with_head (canonical c) addrs) tps)
        end
    end).
Proof using HR.
  intros Hs Hu Hss Hc. unfold getaddrinfo. change (default _ (Some hints)) with hints. cbv zeta. rewrite Hc. cbn [Z.eqb negb]. rewrite Hu.
  unfold ga_nsearch. fold ss. destruct ss as [|sp ss'] eqn:Ess; [done|]. rewrite <- Ess in *. rewrite bind_ret.
  pose proof (search_loop_ok R HR (length ss) (negb (is_empty hostname)) hints ss [] None s Hs) as H. unfold searched in H.
  destruct (resolve R (length ss) (ai_family hints) ss) as [[c addrs]|e] eqn:Er.
  - rewrite (bind_done _ _ _ _ _ H). cbn [Z.eqb negb app]. fold want. destruct addrs as [|a addrs]; [apply bad_ok|].
    cbn [map]. change (fresh hints a :: map (fresh hints) addrs) with (map (fresh hints) (a :: addrs)).
    edestruct (set_canon_ok c (a :: addrs)) as (s' & Hs' & E); [|rewrite (bind_done _ _ _ _ _ E)]; [by apply plenty_grow|].
    cbn [fst snd Z.eqb negb]. apply asked_run; [done|done|by eapply resolve_families].
  - destruct H as (He & s' & l' & c' & E). rewrite (bind_done _ _ _ _ _ E). apply Z.eqb_neq in He. rewrite He. apply bad_ok.
Qed.
End run.

(** ** Memory *)

(** The blocks of a list. *)
Definition mass (l : list addrinfo) : Z := foldr Z.add 0 (map blocks l).
Lemma mass_cons ai l : mass (ai :: l) = blocks ai + mass l.
Proof. done. Qed.
Lemma mass_app l k : mass (l ++ k) = mass l + mass k.
Proof. induction l as [|ai l IH]; [done|]. cbn [app]. rewrite !mass_cons, IH. lia. Qed.

Lemma wp_alloc (Q : bool → mem → Prop) s :
  (∀ s', live s' = live s + 1 → Q true s') → (∀ s', live s' = live s → Q false s') → wp alloc Q s.
Proof. intros H1 H2. unfold wp, alloc. destruct (oracle s) as [|[] o]; auto. Qed.

(** New elements have no canonical name. *)
Definition plain_list : list addrinfo → Prop := Forall (λ ai, ai_canonname ai = None).
Definition added (l : list addrinfo) (s : mem) (l' : list addrinfo) (s' : mem) : Prop :=
  live s' - mass l' = live s - mass l ∧ (plain_list l → plain_list l').

Lemma wp_aistruct l hints a f s : wp (ga_aistruct l hints a f) (λ r s', added l s r.1 s') s.
Proof.
  unfold ga_aistruct. apply wp_bind, wp_alloc; intros s1 H1; cbn [negb]; [|apply wp_ret; split; cbn [fst]; [lia|done]].
  repeat case_match; try (apply wp_bind, wp_alloc; intros ? ?; cbn [negb]);
    repeat (apply wp_bind; apply wp_modify || apply wp_ret); apply wp_ret; (split; cbn [fst live];
    [rewrite mass_app, mass_cons; unfold blocks, mass at 2; cbn [map foldr ai_addr ai_canonname]; lia
    |intros Hl; apply Forall_app; split; [done|by apply Forall_singleton]]).
Qed.

Lemma wp_add_addresses hints f addrs : ∀ l s, wp (add_addresses l hints addrs f) (λ r s', added l s r.1 s') s.
Proof.
  induction addrs as [|a addrs IH]; intros l s; cbn [add_addresses]; [by apply wp_ret|].
  wp_call wp_aistruct. intros r s1 [H1 N1]. case_match; [|by apply wp_ret].
  eapply wp_mono; [apply IH|]. intros r2 s2 [H2 N2]. split; [lia|auto].
Qed.

Lemma wp_clone ai s :
  wp (ga_clone ai) (λ r s', match r with
    | (Some new, true) => live s' = live s + 2 ∧ ai_canonname new = None ∧ is_Some (ai_addr new)
    | (Some new, false) => live s' = live s + 1 ∧ blocks new = 1
    | (None, _) => live s' = live s
    end) s.
Proof.
  unfold ga_clone. apply wp_bind, wp_alloc; intros s1 H1; cbn [negb]; [|by apply wp_ret].
  apply wp_bind, wp_alloc; intros s2 H2; apply wp_ret; cbn; [split; [lia|by eauto]|split; [lia|done]].
Qed.

Lemma set_port_blocks ai port t : blocks (set_port ai port t).1 = blocks ai.
Proof. unfold set_port, blocks. repeat case_match; cbn; by repeat case_match. Qed.

Lemma wp_port port t l : ∀ s,
  wp (ga_port l port t) (λ r s', live s' - mass r.1 = live s - mass l ∧ (r.1 = [] → l = [])) s.
Proof.
  induction l as [|ai l IH]; intros s; cbn [ga_port]; [by apply wp_ret|].
  assert (Hgo : ∀ front a' k, mass front + blocks a' = blocks ai + k → ∀ s1, live s1 = live s + k →
    wp (let '(ai0, n) := set_port a' port t in
        let! r := ga_port l port t in ret (front ++ ai0 :: r.1, if r.2 <? 0 then -1 else n + r.2))
       (λ r s', live s' - mass r.1 = live s - mass (ai :: l) ∧ (r.1 = [] → ai :: l = [])) s1).
  { intros front a' k Hk s1 H1. pose proof (set_port_blocks a' port t) as Hb. destruct (set_port a' port t) as [ai0 n]. cbn [fst] in Hb.
    apply wp_bind. eapply wp_mono; [apply IH|]. intros r s2 [H2 _]. apply wp_ret. cbn [fst].
    rewrite mass_app, !mass_cons. split; [lia|by destruct front]. }
  case_match; [case_match|case_match].
  - apply (Hgo [] ai 0); cbn; lia.
  - apply wp_bind. eapply wp_mono; [apply wp_clone|]. intros [[new|] []] s1 H1; cbn beta iota in H1.
    + destruct H1 as (H1 & Hc & [a Ha]). apply (Hgo [ai] new 2); [|lia]. rewrite mass_cons. unfold blocks at 2. rewrite Hc, Ha. cbn. lia.
    + apply wp_ret. cbn [fst]. rewrite !mass_cons. split; [lia|done].
    + apply wp_ret. cbn [fst]. rewrite !mass_cons. split; [lia|done].
    + apply wp_ret. cbn [fst]. rewrite !mass_cons. split; [lia|done].
  - apply (Hgo [] ai 0); cbn; lia.
  - apply wp_bind. eapply wp_mono; [apply IH|]. intros r s1 [H1 _]. apply wp_ret. cbn [fst]. rewrite !mass_cons. split; [lia|done].
Qed.

Lemma wp_try_port l port t n s :
  wp (try_port l port t n) (λ r s', live s' - mass r.1 = live s - mass l ∧ (r.1 = [] → l = [])) s.
Proof. unfold try_port. wp_call wp_port. intros r s1 H1. by apply wp_ret. Qed.

Section memory.
Variable R : resolver.

Lemma wp_try_serv l hints serv proto t n s :
  wp (try_serv R l hints serv proto t n) (λ r s', live s' - mass r.1 = live s - mass l ∧ (r.1 = [] → l = [])) s.
Proof. unfold try_serv. repeat case_match; [apply wp_try_port|by apply wp_ret..]. Qed.

Lemma wp_serv l hints serv s :
  wp (ga_serv R l hints serv) (λ r s', live s' - mass r.1 = live s - mass l ∧ (r.1 = [] → l = [])) s.
Proof.
  unfold ga_serv. destruct (match serv with [] => false | _ => _ end).
  - destruct (ai_socktype hints =? 0).
    + wp_call wp_try_port. intros [l1 [n|]] s1 [H1 N1]; [|by apply wp_ret]. cbn [fst] in *.
      wp_call wp_try_port. intros [l2 [m|]] s2 [H2 N2]; apply wp_ret; cbn [fst] in *; split; auto; lia.
    + wp_call wp_try_port. intros [l1 [n|]] s1 [H1 N1]; by apply wp_ret.
  - wp_call wp_try_serv. intros [l1 [n|]] s1 [H1 N1]; [|by apply wp_ret]. cbn [fst] in *.
    wp_call wp_try_serv. intros [l2 [m|]] s2 [H2 N2]; apply wp_ret; cbn [fst] in *; split; auto; lia.
Qed.

(** The name that is kept is one more block; it is asked for by a flag. *)
Definition kept (want : bool) l c (s : mem) (r : list addrinfo * option (list Z) * Z) (s' : mem) : Prop :=
  live s' - mass r.1.1 - held r.1.2 = live s - mass l - held c ∧ (plain_list l → plain_list r.1.1) ∧
  (want = false → c = None → r.1.2 = None).

Lemma wp_search_loop n named hints ss : ∀ l c s,
  wp (search_loop R n named hints ss l c) (kept (named && has (ai_flags hints) AI_CANONNAME) l c s) s.
Proof.
  induction ss as [|sp ss IH]; intros l c s; cbn [search_loop]; [by apply wp_ret|].
  destruct (numeric (host sp)) as [[f a]|].
  - destruct (negb _ && negb _); [by apply wp_ret|]. destruct (negb _); [apply IH|].
    wp_call wp_aistruct. intros r s1 [H1 P1]. case_match; [|apply wp_ret; split_and!; [cbn [fst snd]; lia|done..]].
    eapply wp_mono; [apply IH|]. intros r2 s2 (H2 & P2 & N2). split_and!; [lia|auto|done].
  - destruct (if (n =? 2)%nat then _ else _) as [h|e]; [|destruct (n =? 2)%nat; [apply IH|by apply wp_ret]].
    destruct (negb _ && negb _); [by apply wp_ret|]. set (want := named && _) in *.
    apply wp_bind. apply wp_mono with (Q := λ r s', match r with
      | inl c' => live s' - held c' = live s - held c ∧ (want = false → c = None → c' = None)
      | inr _ => live s' = live s end).
    { destruct c as [c|]; [by apply wp_ret|]. destruct want; [|by apply wp_ret].
      apply wp_bind, wp_alloc; intros s1 H1; apply wp_ret; cbn; [split; [lia|done]|done]. }
    intros [c'|e] s1 H1; [|apply wp_ret; split_and!; [cbn [fst snd]; lia|done..]]. destruct H1 as [H1 N1].
    wp_call wp_add_addresses. intros r s2 [H2 P2]. case_match; [|apply wp_ret; split_and!; [cbn [fst snd]; lia|auto..]].
    eapply wp_mono; [apply IH|]. intros r3 s3 (H3 & P3 & N3). split_and!; [lia|auto..].
Qed.

Lemma wp_set_canon named hints ss l c s : l ≠ [] → plain_list l →
  (named && has (ai_flags hints) AI_CANONNAME = false → c = None) →
  wp (set_canon named hints ss l c) (λ r s', live s' - mass r.1 = live s - mass l - held c ∧ r.1 ≠ []) s.
Proof.
  intros Hl Hn Hw. destruct Hn as [|ai l Hn _]; [done|]. cbn [set_canon].
  assert (Hb : ∀ n, blocks (with_canon ai n) = blocks ai + 1) by (intros n; unfold blocks; rewrite Hn; cbn; lia).
  destruct (named && _).
  - destruct c as [c|].
    + apply wp_ret. cbn [fst]. rewrite !mass_cons, Hb. cbn [held]. split; [lia|done].
    + apply wp_bind, wp_alloc; intros s1 H1; apply wp_ret; cbn [fst]; rewrite !mass_cons, ?Hb; cbn [held]; (split; [lia|done]).
  - rewrite Hw by done. apply wp_ret. cbn [fst held]. split; [lia|done].
Qed.

(** What is held at the end: the list, or nothing but the name when an error was returned
    before the name was stored in the list. *)
Definition settled (want : bool) (s : mem) (r : Z * list addrinfo) (s' : mem) : Prop :=
  (r.1 = 0 ∧ r.2 ≠ [] ∧ live s' = live s + mass r.2) ∨
  (r.1 ≠ 0 ∧ r.2 = [] ∧ live s <= live s' <= live s + (if want then 1 else 0)).

Lemma wp_bad want s l e s1 : e ≠ 0 → live s <= live s1 - mass l <= live s + (if want : bool then 1 else 0) → wp (bad l e) (settled want s) s1.
Proof.
  intros He H. unfold bad. apply wp_bind. eapply wp_run; [apply freeaddrinfo_ok|]. apply wp_ret. right.
  split_and!; [done|done| |]; cbn [live grow]; fold (mass l); lia.
Qed.

Lemma wp_getaddrinfo hostname servname hints s :
  is_unix hostname servname = false →
  (ga_echeck hostname servname (ai_flags hints) (ai_family hints) (ai_socktype hints) (ai_protocol hints) = 0 → searches hostname hints ≠ []) →
  wp (getaddrinfo R hostname servname (Some hints)) (settled (negb (is_empty hostname) && has (ai_flags hints) AI_CANONNAME) s) s.
Proof.
  intros Hu Hss. unfold getaddrinfo. change (default _ (Some hints)) with hints. cbv zeta. rewrite Hu.
  destruct (Z.eqb_spec (ga_echeck hostname servname (ai_flags hints) (ai_family hints) (ai_socktype hints) (ai_protocol hints)) 0) as [Ec|Ec]; cbn [negb].
  2:{ apply wp_bad; [done|]. unfold mass. cbn. case_match; lia. }
  specialize (Hss Ec). unfold ga_nsearch. destruct (searches hostname hints) as [|sp ss]; [done|]. apply wp_bind, wp_ret.
  wp_call wp_search_loop. intros [[l c] rc] s1 (H1 & P1 & N1). cbn [fst snd] in *. set (want := negb _ && _) in *.
  change (mass []) with 0 in H1. cbn [held] in H1.
  assert (Hc : 0 <= held c <= (if want then 1 else 0)).
  { destruct want; [destruct c; cbn; lia|]. rewrite N1 by done. cbn. lia. }
  destruct (Z.eqb_spec rc 0) as [->|Hrc]; cbn [negb]; [|apply wp_bad; [done|lia]].
  destruct l as [|ai l]; [apply wp_bad; [done|change (mass []) with 0 in *; lia]|].
  apply wp_bind. eapply wp_mono; [apply wp_set_canon; [done|apply P1; constructor|fold want; auto]|]. intros r2 s2 [H2 N2]. cbn beta.
  assert (H2' : live s2 - mass r2.1 = live s) by lia. clear H2.
  destruct (Z.eqb_spec r2.2 0) as [E2|E2]; cbn [negb]; [|apply wp_bad; [done|case_match; lia]].
  destruct servname as [[|ch sv]|]; [apply wp_ret; left; cbn [fst snd]; split_and!; [done..|lia]| |apply wp_ret; left; cbn [fst snd]; split_and!; [done..|lia]].
  wp_call wp_serv. intros r3 s3 [H3 N3]. destruct (Z.eqb_spec r3.2 0) as [E3|E3]; [|apply wp_bad; [done|case_match; lia]].
  apply wp_ret. left. cbn [fst snd]. split_and!; [done|auto|lia].
Qed.
End memory.

(** ** Numeric strings *)

Lemma atol_number n : 0 <= n < dec_max → atol (dec n) = n.
Proof.
  intros Hn. destruct (dec_spec n Hn) as [Hall Hval]. pose proof (dec_length_pos n ltac:(lia)) as Hp.
  destruct (dec n) as [|x l]; [simpl in Hp; lia|]. apply Forall_cons in Hall as [Hx _].
  destruct (digit_not _ Hx) as (_ & _ & _ & Hs & H1 & H2). unfold atol. cbn [skip_space]. rewrite Hs.
  by replace (x =? 45) with false by lia; replace (x =? 43) with false by lia.
Qed.

Lemma dec_head n : 0 <= n < dec_max → ∃ c l, dec n = c :: l ∧ is_digit c = true.
Proof.
  intros Hn. destruct (dec_spec n Hn) as [Hall _]. pose proof (dec_length_pos n ltac:(lia)) as Hp.
  destruct (dec n) as [|x l]; [simpl in Hp; lia|]. apply Forall_cons in Hall as [Hx _]. by exists x, l.
Qed.

(** A string with a colon is not an IPv4 address. *)
Lemma pton4_colon src : COLON ∈ src → ∀ tmp cur saw oct, pton4_loop src tmp cur saw oct = None.
Proof.
  induction src as [|c src IH]; intros H tmp cur saw oct; [by apply elem_of_nil in H|]. cbn [pton4_loop].
  apply elem_of_cons in H as [<-|H]; [done|]. destruct (digit c); repeat case_match; auto.
Qed.

Lemma inet_pton4_colon src : COLON ∈ src → inet_pton4 src = None.
Proof. intros H. by apply pton4_colon. Qed.

Lemma hex_head w : 0 <= w → ∃ c l, hex w = c :: l ∧ is_xdigit c = true.
Proof.
  unfold hex. assert (0 < 8)%nat as Hf by lia. revert Hf. generalize 8%nat. intros fuel. revert w. induction fuel as [|fuel IH]; intros w Hf Hw; [lia|].
  assert (∀ d, 0 <= d < 16 → is_xdigit (xchar d) = true) as Hx
    by (intros d ?; unfold xchar, is_xdigit, is_digit; destruct (Z.ltb_spec d 10); lia).
  cbn [hex_digits]. destruct (Z.ltb_spec w 16); [exists (xchar w), []; split; [done|by apply Hx]|].
  destruct fuel as [|fuel]; [exists (xchar (w mod 16)), []; split; [done|apply Hx, Z.mod_pos_bound; lia]|].
  destruct (IH (w / 16)) as (c & l & E & Hc); [lia|apply Z.div_pos; lia|]. rewrite E. by eexists _, _.
Qed.

Lemma numeric_ntop4 a : length a = 4%nat → Forall is_byte a → numeric (ntop4_text a) = Some (AF_INET, a).
Proof.
  intros Hl Hb. do 4 (destruct a as [|? a]; [done|]). destruct a; [|done]. repeat (apply Forall_cons in Hb as [? Hb]).
  unfold numeric. change (inet_pton AF_INET ?h [] 0) with (match inet_pton4 h with Some a => (1, a, 0) | None => (0, [], 0) end).
  rewrite inet_pton4_ntop4 by done. unfold ntop4_text. cbn [lookup list_lookup from_option id].
  destruct (dec_head z) as (c & l & E & Hc); [unfold is_byte, dec_max in *; lia|]. unfold id. rewrite E. cbn [app]. by rewrite Hc.
Qed.

(** The text of an IPv6 address has a colon, and its first character is one or a digit. *)
Lemma ntop6_shape a : length a = 16%nat → Forall is_byte a →
  COLON ∈ ntop6_text a ∧ ∃ c l, ntop6_text a = c :: l ∧ (is_xdigit c || (c =? COLON)) = true.
Proof.
  intros Hl Hb. destruct (words_bytes_words a Hl Hb) as [_ Hw].
  assert (Hhex : ∀ w rest, is_word w → ∃ c l, hex w ++ rest = c :: l ∧ (is_xdigit c || (c =? COLON)) = true).
  { intros w rest Hw'. destruct (hex_head w) as (c & l & E & Hc); [unfold is_word in Hw'; lia|]. rewrite E. exists c, (l ++ rest). by rewrite Hc. }
  destruct (ntop6_forms a) as [E|[(pre & post & k & Hws & E)|(k & w6 & w7 & Hk & E)]]; rewrite E.
  - assert (length (words a) = 8%nat) as H8 by done. destruct (words a) as [|w [|w' ws]]; [done..|].
    apply Forall_cons in Hw as [Hw1 _]. cbn [join]. split; [apply elem_of_app; right; by left|by apply Hhex].
  - rewrite Hws in Hw. apply Forall_app in Hw as [Hp _]. unfold colons. split; [apply elem_of_app; right; by left|].
    destruct pre as [|w pre]; [by eexists _, _|]. apply Forall_cons in Hp as [Hp _]. cbn [map concat].
    rewrite <- !app_assoc. by apply Hhex.
  - unfold colons. split; [apply elem_of_app; right; by left|]. by eexists _, _.
Qed.

Lemma numeric_ntop6 a : length a = 16%nat → Forall is_byte a → numeric (ntop6_text a) = Some (AF_INET6, a).
Proof.
  intros Hl Hb. destruct (ntop6_shape a Hl Hb) as (Hc & c & l & E & Hx).
  pose proof (inet_pton6_ntop6 a Hl Hb) as H6. pose proof (inet_pton4_colon _ Hc) as H4. rewrite E in *.
  unfold numeric, inet_pton. cbn [AF_INET AF_INET6 Z.eqb Pos.eqb]. rewrite H4, H6, Hx, bool_decide_true by done. by destruct (is_digit c).
Qed.

(** The texts have no zero byte. *)
Lemma hex_no_nul w : 0 <= w → no_nul (hex w).
Proof.
  unfold hex. generalize 8%nat. intros fuel. revert w. induction fuel as [|fuel IH]; intros w Hw; [constructor|].
  assert (∀ d, 0 <= d → xchar d ≠ 0) as Hx by (intros d ?; unfold xchar; case_match; lia).
  cbn [hex_digits]. pose proof (Z.mod_pos_bound w 16). case_match; [apply Forall_singleton; auto|].
  apply Forall_app. split; [apply IH, Z.div_pos; lia|apply Forall_singleton, Hx; lia].
Qed.

Lemma ntop4_no_nul a : Forall is_byte a → no_nul (ntop4_text a).
Proof.
  intros Hb. assert (Hd : ∀ i : nat, no_nul (dec (default 0 (a !! i)))).
  { intros i. apply dec_no_nul. destruct (a !! i) as [b|] eqn:E; cbn; [|unfold dec_max; lia].
    eapply Forall_lookup_1 in E; [|done]. unfold is_byte, dec_max in *. cbn in E. lia. }
  unfold ntop4_text, no_nul. rewrite !Forall_app. split_and!; try apply Hd; by apply Forall_singleton.
Qed.

Lemma join_no_nul ws : Forall is_word ws → no_nul (join ws).
Proof.
  induction 1 as [|w ws Hw Hws IH]; [constructor|]. cbn [join]. apply Forall_app. split; [apply hex_no_nul; unfold is_word in Hw; lia|].
  destruct ws; [constructor|]. by constructor.
Qed.

Lemma colons_no_nul pre tail : Forall is_word pre → no_nul tail → no_nul (colons pre tail).
Proof.
  intros Hp Ht. unfold colons. apply Forall_app. split; [|by constructor].
  destruct pre as [|w pre]; [by apply Forall_singleton|]. rewrite <- join_colon by done. apply Forall_app. split; [by apply join_no_nul|by apply Forall_singleton].
Qed.

Lemma ntop6_no_nul a : length a = 16%nat → Forall is_byte a → no_nul (ntop6_text a).
Proof.
  intros Hl Hb. destruct (words_bytes_words a Hl Hb) as [_ Hw].
  destruct (ntop6_forms a) as [E|[(pre & post & k & Hws & E)|(k & w6 & w7 & Hk & E)]]; rewrite E.
  - by apply join_no_nul.
  - rewrite Hws in Hw. apply Forall_app in Hw as [Hp Hw]. apply Forall_app in Hw as [_ Hq]. apply colons_no_nul; [done|by apply join_no_nul].
  - apply colons_no_nul; [constructor|]. apply Forall_app. split; [|by apply ntop4_no_nul, Forall_drop].
    destruct Hk as [[_ ->]|[_ ->]]; [constructor|]. by repeat constructor.
Qed.
