(* ===== verification/GaiProps.v ===== *)
(** [getaddrinfo]: the list it returns, the memory it holds, and its agreement with
    [getnameinfo]. *)
From stdpp Require Import base tactics numbers list strings.
From Stdlib Require Import ZArith Lia.
From S2P Require Import Prelude ByteOrder Cio Inet InetProps Gai GaiThms.
Local Open Scope Z_scope.

(** ** What a caller sees of an element *)

Definition view (ai : addrinfo) : Z * Z * Z * option sockaddr :=
  (ai_family ai, ai_socktype ai, ai_protocol ai, ai_addr ai).

Definition all_views (proto : Z) (addrs : list address) (tps : list (Z * Z)) : list (Z * Z * Z * option sockaddr) :=
  x ← addrs; tp ← tps; [(x.1, tp.1, proto, Some (sock x tp.2))].

Lemma group_view fl proto cx tps : view <$> group fl proto cx tps = (tp ← tps; [(cx.2.1, tp.1, proto, Some (sock cx.2 tp.2))]).
Proof.
  destruct tps as [|tp tps]; [done|]. cbn. f_equal. rewrite <- list_fmap_compose.
  induction tps as [|tp' tps IH]; [done|]. cbn. by f_equal.
Qed.

Lemma product_view hints l tps : view <$> product hints l tps = all_views (ai_protocol hints) l.*2 tps.
Proof.
  unfold product, all_views. induction l as [|cx l IH]; [done|]. cbn [map concat]. rewrite fmap_app, group_view, IH. done.
Qed.

Lemma with_head_snd c addrs : (with_head c addrs).*2 = addrs.
Proof.
  destruct addrs as [|a addrs]; [done|]. cbn. f_equal. rewrite <- list_fmap_compose. apply list_fmap_id.
Qed.

Lemma group_canon fl proto c x tp tps :
  ai_canonname <$> group fl proto (c, x) (tp :: tps) = c :: replicate (length tps) None.
Proof. cbn. f_equal. induction tps as [|tp' tps IH]; [done|]. cbn. by f_equal. Qed.

Lemma plain_canon hints addrs tps :
  ai_canonname <$> product hints (map (λ x, (None, x)) addrs) tps = replicate (length addrs * length tps) None.
Proof.
  unfold product. induction addrs as [|x addrs IH]; [done|]. cbn [map concat]. rewrite fmap_app, IH.
  cbn [length]. rewrite Nat.mul_succ_l, Nat.add_comm, replicate_add. f_equal. destruct tps as [|tp tps]; [done|]. by rewrite group_canon.
Qed.

Lemma product_canon hints c addrs tps : addrs ≠ [] → tps ≠ [] →
  ai_canonname <$> product hints (with_head c addrs) tps = c :: replicate (length addrs * length tps - 1) None.
Proof.
  intros Ha Ht. destruct addrs as [|a addrs]; [done|]. destruct tps as [|tp tps]; [done|]. unfold product, with_head. cbn [map concat].
  fold (product hints (map (λ x, (None, x)) addrs) (tp :: tps)). rewrite fmap_app, group_canon, plain_canon. cbn [app]. f_equal.
  rewrite <- replicate_add. f_equal. cbn [length]. lia.
Qed.

(** A family that is accepted is searched for, unless it is that of the Unix domain. *)
Lemma searches_some hostname servname hints : ai_family hints ≠ AF_LOCAL →
  ga_echeck hostname servname (ai_flags hints) (ai_family hints) (ai_socktype hints) (ai_protocol hints) = 0 →
  searches hostname hints ≠ [].
Proof.
  unfold ga_echeck, searches. intros Hl H. destruct (negb _); [done|]. destruct (is_empty _ && is_empty _); [done|].
  rewrite (proj2 (Z.eqb_neq _ _) Hl) in H.
  destruct (ai_family hints =? AF_UNSPEC), (ai_family hints =? AF_INET), (ai_family hints =? AF_INET6);
    try done; by repeat case_match.
Qed.

(** ** Properties *)

(** C18: The list that [getaddrinfo] returns, when memory is not exhausted.  The searches for the
    host give the addresses, or the first error; the service gives the socket types and ports.
    The result is one element per address and socket type, grouped by address in the order of
    the search, with the port of its socket type in its address; only the first one has a
    canonical name.  Without an address, or without a port, the documented error is returned. *)
Theorem getaddrinfo_correct R hostname servname hints s :
  inet_resolver R → plenty s → is_unix hostname servname = false → ai_family hints ≠ AF_LOCAL →
  ga_echeck hostname servname (ai_flags hints) (ai_family hints) (ai_socktype hints) (ai_protocol hints) = 0 →
  ∃ s' rc l, getaddrinfo R hostname servname (Some hints) s = (s', Done (rc, l)) ∧
    match resolve R (length (searches hostname hints)) (ai_family hints) (searches hostname hints), asked R servname hints with
    | inr e, _ => rc = e ∧ l = []
    | inl (_, []), _ => rc = EAI_NONAME ∧ l = []
    | inl _, [] => rc = no_port hints ∧ l = []
    | inl (c, addrs), tps =>
        rc = 0 ∧ view <$> l = all_views (ai_protocol hints) addrs tps ∧
        ai_canonname <$> l = canonical hostname hints c :: replicate (length addrs * length tps - 1) None
    end.
Proof.
  intros HR Hs Hu Hf Hc. destruct (getaddrinfo_run R HR hostname servname hints s Hs Hu (searches_some _ _ _ Hf Hc) Hc) as [s' E].
  exists s'. destruct (resolve _ _ _ _) as [[c [|a addrs]]|e]; [by eexists _, _| |by eexists _, _].
  destruct (asked R servname hints) as [|tp tps]; [by eexists _, _|]. eexists _, _. split; [exact E|]. split; [done|].
  rewrite product_view, with_head_snd. split; [done|]. by apply product_canon.
Qed.


(** ** Names and addresses *)

Definition inet_address (x : address) : Prop :=
  Forall is_byte x.2 ∧ (x.1 = AF_INET ∧ length x.2 = 4%nat ∨ x.1 = AF_INET6 ∧ length x.2 = 16%nat).
Definition ntop (x : address) : list Z := if x.1 =? AF_INET then ntop4_text x.2 else ntop6_text x.2.

Lemma numeric_ntop x : inet_address x → numeric (ntop x) = Some x.
Proof.
  destruct x as [f a]. unfold inet_address. cbn [fst snd]. intros [Hb [[-> Hl]|[-> Hl]]]; [by apply numeric_ntop4|by apply numeric_ntop6].
Qed.

Lemma inet_ntop_ok x n : inet_address x → 46 <= n →
  ∃ e, inet_ntop x.1 x.2 n 0 = (Some (ntop x ++ [0]), e) ∧ no_nul (ntop x).
Proof.
  destruct x as [f a]. unfold inet_address. cbn [fst snd]. intros [Hb [[-> Hl]|[-> Hl]]] Hn; unfold inet_ntop, ntop; cbn [fst snd AF_INET AF_INET6 Z.eqb Pos.eqb].
  - unfold inet_ntop4. exists 0. split; [|by apply ntop4_no_nul]. do 4 (destruct a as [|? a]; [done|]). destruct a; [|done].
    repeat (apply Forall_cons in Hb as [? Hb]). pose proof (ntop4_length z z0 z1 z2 ltac:(done) ltac:(done) ltac:(done) ltac:(done)).
    by destruct (Z.ltb_spec n (zlen (ntop4_text [z; z0; z1; z2]))); [lia|].
  - unfold inet_ntop6. exists 0. split; [|by apply ntop6_no_nul]. pose proof (ntop6_length a Hl Hb).
    by destruct (Z.ltb_spec n (zlen (ntop6_text a) + 1)); [lia|].
Qed.

Lemma getnameinfo_numeric R x p hostlen servlen : inet_address x → 0 <= p < 2 ^ 16 → (46 <= hostlen)%nat → (6 <= servlen)%nat →
  getnameinfo R (Some (sock x p)) hostlen servlen (Z.lor NI_NUMERICHOST NI_NUMERICSERV) =
  (Some (ntop x), Some (dec (htons p)), 0).
Proof.
  intros Hx Hp Hh Hv. destruct (inet_ntop_ok x (Z.of_nat hostlen) Hx ltac:(lia)) as (e & E & Hn).
  assert (Hg : gn_ipv46 R hostlen servlen x.2 x.1 p (Z.lor NI_NUMERICHOST NI_NUMERICSERV) = (Some (ntop x), Some (dec (htons p)), 0)).
  { unfold gn_ipv46. rewrite E, cstr_app by done. destruct hostlen as [|hostlen]; [lia|]. destruct servlen as [|servlen]; [lia|].
    cbn [Nat.eqb]. change (has _ NI_NUMERICHOST) with true. change (has _ NI_NUMERICSERV) with true. cbn [fst snd].
    unfold snprintf. rewrite take_ge; [done|]. pose proof (htons_range p). pose proof (dec_length 5 (htons p)). lia. }
  destruct x as [f a]. unfold inet_address in Hx. cbn [fst snd] in *. destruct Hx as [_ [[-> Hl]|[-> Hl]]]; unfold sock; cbn [fst snd AF_INET AF_INET6 Z.eqb Pos.eqb getnameinfo];
    by rewrite take_ge by lia.
Qed.

(** The search for a numeric name of the family that is wanted. *)
Lemma resolve_numeric R h x hints : numeric h = Some x → inet_family x.1 → h ≠ [] →
  ai_family hints = AF_UNSPEC ∨ ai_family hints = x.1 →
  resolve R (length (searches (Some h) hints)) (ai_family hints) (searches (Some h) hints) = inl (None, [x]).
Proof.
  intros Hn Hf Hh Hw. destruct h as [|c h]; [done|]. destruct x as [f a]. cbn [fst] in *. unfold searches.
  destruct Hw as [-> | ->]; destruct Hf as [-> | ->]; cbn [AF_UNSPEC AF_INET AF_INET6 Z.eqb Pos.eqb];
    cbn [length resolve]; unfold answer; cbn [host family]; rewrite Hn; reflexivity.
Qed.

Lemma ntop_head x : inet_address x → ntop x ≠ [].
Proof. intros Hx E. pose proof (numeric_ntop x Hx) as H. by rewrite E in H. Qed.

(** C20: [getnameinfo] and [getaddrinfo] agree.  For an IPv4 or IPv6 socket address, the numeric
    names that [getnameinfo] stores fit in buffers of 46 and 6 bytes.  Given to [getaddrinfo], they
    give back this address and port and no other, once for each socket type. *)
Theorem nameinfo_roundtrip R x p hostlen servlen hints s :
  inet_resolver R → plenty s → inet_address x → 0 <= p < 2 ^ 16 → (46 <= hostlen)%nat → (6 <= servlen)%nat →
  ai_flags hints = 0 → known_type (ai_socktype hints) true = true → ai_family hints = AF_UNSPEC ∨ ai_family hints = x.1 →
  ∃ h sv s' l,
    getnameinfo R (Some (sock x p)) hostlen servlen (Z.lor NI_NUMERICHOST NI_NUMERICSERV) = (Some h, Some sv, 0) ∧
    getaddrinfo R (Some h) (Some sv) (Some hints) s = (s', Done (0, l)) ∧
    view <$> l = map (λ t, (x.1, t, ai_protocol hints, Some (sock x p)))
                     (if ai_socktype hints =? 0 then [SOCK_STREAM; SOCK_DGRAM] else [ai_socktype hints]).
Proof.
  intros HR Hs Hx Hp Hh Hv Hfl Ht Hw. exists (ntop x), (dec (htons p)).
  pose proof (htons_range p) as Hr. destruct (dec_head (htons p)) as (c & l & Ed & Hc); [unfold dec_max; lia|].
  assert (Hf : inet_family x.1) by (destruct Hx as [_ [[-> _]|[-> _]]]; [by left|by right]).
  assert (Hu : is_unix (Some (ntop x)) (Some (dec (htons p))) = false).
  { rewrite Ed. cbn [is_unix]. unfold is_digit in Hc. replace (c =? 47) with false by lia. by rewrite andb_false_r. }
  assert (Hk : ga_echeck (Some (ntop x)) (Some (dec (htons p))) (ai_flags hints) (ai_family hints) (ai_socktype hints) (ai_protocol hints) = 0).
  { unfold ga_echeck. rewrite Hfl, Ed. cbn [is_empty]. rewrite andb_false_r, Ht. cbn [Z.land Z.eqb negb].
    destruct Hw as [-> | ->]; [done|]. by destruct Hf as [-> | ->]. }
  assert (Hl : ai_family hints ≠ AF_LOCAL) by (destruct Hw as [-> | ->]; [done|by destruct Hf as [-> | ->]]).
  destruct (getaddrinfo_run R HR _ _ hints s Hs Hu (searches_some _ _ _ Hl Hk) Hk) as [s' E]. exists s'.
  rewrite (resolve_numeric R (ntop x) x hints) in E; [|by apply numeric_ntop|done|by apply ntop_head|done].
  assert (Ea : asked R (Some (dec (htons p))) hints = map (λ t, (t, p)) (if ai_socktype hints =? 0 then [SOCK_STREAM; SOCK_DGRAM] else [ai_socktype hints])).
  { unfold asked. rewrite Ed, <- Ed. unfold ports. rewrite Ed, Hc, <- Ed, atol_number by (unfold dec_max; lia).
    rewrite i32_id, u16_id, htons_htons, u16_id by lia. by destruct (ai_socktype hints =? 0). }
  rewrite Ea in E. pose proof (getnameinfo_numeric R x p hostlen servlen Hx Hp Hh Hv).
  destruct (ai_socktype hints =? 0); eexists; (split; [done|]); (split; [exact E|]); rewrite product_view, with_head_snd; reflexivity.
Qed.

(** ** Examples *)

(** A host with two IPv4 addresses and one IPv6 address, and a service of both protocols. *)
Definition toy_resolver : resolver :=
  let named n := bool_decide (n = bytes "sun") in
  let v4 := Hostent (bytes "sun.org") AF_INET [[10; 0; 0; 1]; [10; 0; 0; 2]] in
  let v6 := Hostent (bytes "sun.org") AF_INET6 [[32; 1; 0; 0; 0; 0; 0; 0; 0; 0; 0; 0; 0; 0; 0; 7]] in
  let ask n (is6 : bool) := if named n then inl (if is6 then v6 else v4)
             else if bool_decide (n = bytes "moon") then inl (Hostent (bytes "moon.org") AF_INET []) else inr HOST_NOT_FOUND in
  Resolver (λ v6 n, ask n v6) (λ n f, ask n (f =? AF_INET6)) (λ _ _, None)
    (λ n proto, if bool_decide (n = bytes "daytime") then Some (if bool_decide (proto = bytes "tcp") then htons 13 else htons 14) else None)
    (λ _ _, None) (Some (bytes "node")).

Lemma toy_inet : inet_resolver toy_resolver.
Proof.
  assert (A : ∀ n b h, gethostbyname toy_resolver b n = inl h → inet_family (h_addrtype h)).
  { intros n b h. cbn. repeat case_match; intros [= <-]; cbn; unfold inet_family; auto. }
  split; [intros b n h; apply A|]. intros n f h H. exact (A n (f =? AF_INET6) h H).
Qed.

Definition no_hints : addrinfo := Ai 0 AF_UNSPEC 0 0 None None.

Lemma getaddrinfo_correct_witness :
  ∃ s' l, getaddrinfo toy_resolver (Some (bytes "sun")) (Some (bytes "daytime")) (Some no_hints) (Mem [] 0 []) = (s', Done (0, l)) ∧
    view <$> l = all_views 0
      [(AF_INET6, [32; 1; 0; 0; 0; 0; 0; 0; 0; 0; 0; 0; 0; 0; 0; 7]); (AF_INET, [10; 0; 0; 1]); (AF_INET, [10; 0; 0; 2])]
      [(SOCK_STREAM, htons 13); (SOCK_DGRAM, htons 14)].
Proof.
  destruct (getaddrinfo_correct toy_resolver (Some (bytes "sun")) (Some (bytes "daytime")) no_hints (Mem [] 0 [])
    toy_inet eq_refl eq_refl ltac:(done) eq_refl) as (s' & rc & l & E & H).
  destruct H as (-> & H & _). exists s', l. split; [exact E|exact H].
Defined.


Lemma nameinfo_roundtrip_witness :
  ∃ h sv s' l,
    getnameinfo toy_resolver (Some (In (htons 8080) [127; 0; 0; 1])) 46 6 10 = (Some h, Some sv, 0) ∧
    getaddrinfo toy_resolver (Some h) (Some sv) (Some no_hints) (Mem [] 0 []) = (s', Done (0, l)) ∧
    view <$> l = [(AF_INET, SOCK_STREAM, 0, Some (In (htons 8080) [127; 0; 0; 1])); (AF_INET, SOCK_DGRAM, 0, Some (In (htons 8080) [127; 0; 0; 1]))].
Proof.
  refine (nameinfo_roundtrip toy_resolver (AF_INET, [127; 0; 0; 1]) (htons 8080) 46 6 no_hints (Mem [] 0 [])
    toy_inet eq_refl _ _ _ _ eq_refl eq_refl (or_introl eq_refl)).
  - split; [repeat (constructor; [unfold is_byte; lia|]); constructor|by left].
  - apply htons_range.
  - lia.
  - lia.
Defined.

(** ** Limits *)

(** A host name with the family of the Unix domain ends the process. *)
Lemma local_quits R h sv s : h = bytes "sun" → sv = bytes "daytime" →
  getaddrinfo R (Some h) (Some sv) (Some (Ai 0 AF_LOCAL 0 0 None None)) s = (s, Fail Quit).
Proof. by intros -> ->. Qed.

(** A host without addresses: the canonical name is not freed. *)
Lemma canon_leaked : ∃ s',
  getaddrinfo toy_resolver (Some (bytes "moon")) None (Some (Ai AI_CANONNAME AF_INET 0 0 None None)) (Mem [] 0 []) =
  (s', Done (EAI_NONAME, [])) ∧ live s' = 1.
Proof. eexists. split; vm_compute; reflexivity. Qed.

(** A path that is too long: the element is not freed. *)
Lemma unix_leaked R : ∃ s',
  getaddrinfo R (Some (bytes "/local")) (Some (replicate 200 47)) (Some no_hints) (Mem [] 0 []) = (s', Done (EAI_SERVICE, [])) ∧ live s' = 1.
Proof. eexists. split; vm_compute; reflexivity. Qed.

(** The internal flag is set in the elements that are returned. *)
Lemma clone_flag_returned : ∃ s' l,
  getaddrinfo toy_resolver (Some (bytes "10.0.0.1")) (Some (bytes "80")) (Some no_hints) (Mem [] 0 []) = (s', Done (0, l)) ∧
  ai_flags <$> l = [AI_CLONE; 0].
Proof. eexists _, _. split; vm_compute; reflexivity. Qed.

(** A port number that is too large is reduced to 16 bits, and what follows the digits is ignored. *)
Lemma port_reduced : ∃ s' l,
  getaddrinfo toy_resolver (Some (bytes "10.0.0.1")) (Some (bytes "65616x")) (Some (Ai 0 AF_INET SOCK_STREAM 0 None None)) (Mem [] 0 []) = (s', Done (0, l)) ∧
  ai_addr <$> l = [Some (In (htons 80) [10; 0; 0; 1])].
Proof. eexists _, _. split; vm_compute; reflexivity. Qed.
