(* ===== verification/Sockets.v ===== *)
(** The functions of unpv13e/lib that use [getaddrinfo] to open a socket, and those that work on
    socket addresses of any family.

    The kernel is a record of answers, which do not change while a function runs; a descriptor
    is the lowest number that is not open.  [err_quit] and [err_sys] end the process. *)
From stdpp Require Import base tactics numbers list strings gmap.
From Stdlib Require Import ZArith Lia.
From S2P Require Import Prelude ByteOrder Cio Inet Gai.
Local Open Scope Z_scope.

(** ** The kernel *)

Record kernel := Kernel {
  k_socket : Z → Z → Z → bool;
  k_connect : option sockaddr → bool;
  k_bind : option sockaddr → bool;
  k_setsockopt : bool;
  k_listen : Z → bool;
  k_close : bool;
  env_LISTENQ : option (list Z) }.

Inductive sockstate := Fresh (reuse : bool) | Connected (a : option sockaddr)
  | Bound (reuse : bool) (a : option sockaddr) | Listening (reuse : bool) (a : option sockaddr) (backlog : Z).
Record net := Net { heap : mem; fds : gmap Z sockstate }.
Inductive exit := Err_quit (n : Z) | Err_sys.
Abbreviation NM := (M net exit).

Definition LISTENQ : Z := 1024.

(** The lowest number that is not open. *)
Fixpoint lowest_from (fuel : nat) (i : Z) (m : gmap Z sockstate) : Z :=
  match fuel with
  | O => i
  | S fuel => if m !! i is Some _ then lowest_from fuel (i + 1) m else i
  end.
Definition lowest (m : gmap Z sockstate) : Z := lowest_from (size m) 0 m.

(** The functions of libgai run on the heap. *)
Definition lift {A} (m : GM A) : NM A := λ n,
  match m (heap n) with
  | (h, Done a) => (Net h (fds n), Done a)
  | (h, Fail Quit) => (Net h (fds n), Fail (Err_quit 0))
  end.

Section kernel.
Variable K : kernel.

Definition set_fd (fd : Z) (st : sockstate) : NM unit := modify (λ n, Net (heap n) (<[fd := st]> (fds n))).

Definition socket (ai : addrinfo) : NM (option Z) := λ n,
  if k_socket K (ai_family ai) (ai_socktype ai) (ai_protocol ai)
  then (Net (heap n) (<[lowest (fds n) := Fresh false]> (fds n)), Done (Some (lowest (fds n))))
  else (n, Done None).

Definition connect (fd : Z) (a : option sockaddr) : NM bool :=
  if k_connect K a then set_fd fd (Connected a);;; ret true else ret false.

Definition is_reuse (st : option sockstate) : bool := match st with Some (Fresh b) => b | _ => false end.
Definition bind_fd (fd : Z) (a : option sockaddr) : NM bool :=
  let! m := gets fds in
  if k_bind K a then set_fd fd (Bound (is_reuse (m !! fd)) a);;; ret true else ret false.

Definition Setsockopt (fd : Z) : NM unit :=
  if k_setsockopt K then set_fd fd (Fresh true) else fail Err_sys.

Definition Listen (fd : Z) (backlog : Z) : NM unit :=
  let backlog := match env_LISTENQ K with Some s => i32 (atol s) | None => backlog end in
  if k_listen K backlog then
    let! m := gets fds in
    match m !! fd with
    | Some (Bound r a) => set_fd fd (Listening r a backlog)
    | _ => ret tt
    end
  else fail Err_sys.

Definition Close (fd : Z) : NM unit :=
  if k_close K then modify (λ n, Net (heap n) (delete fd (fds n))) else fail Err_sys.

(** ** The loop over the addresses *)

(** The descriptor and the element it was opened for. *)
Fixpoint open_loop (setup : Z → addrinfo → NM bool) (l : list addrinfo) : NM (option (Z * addrinfo)) :=
  match l with
  | [] => ret None
  | ai :: l =>
      let! o := socket ai in
      match o with
      | None => open_loop setup l
      | Some fd =>
          let! ok := setup fd ai in
          if ok : bool then ret (Some (fd, ai)) else Close fd;;; open_loop setup l
      end
  end.

Variable R : resolver.

Definition hints_of (fl socktype : Z) : addrinfo := Ai fl AF_UNSPEC socktype 0 None None.

(** [getaddrinfo], and the end of the process if it fails. *)
Definition lookup_or_quit (host serv : option (list Z)) (hints : addrinfo) : NM (list addrinfo) :=
  let! r := lift (getaddrinfo R host serv (Some hints)) in
  if negb (r.1 =? 0) then fail (Err_quit r.1) else ret r.2.

Definition tcp_connect (host serv : option (list Z)) : NM Z :=
  let! res := lookup_or_quit host serv (hints_of 0 SOCK_STREAM) in
  let! o := open_loop (λ fd ai, connect fd (ai_addr ai)) res in
  match o with
  | None => fail Err_sys
  | Some (sockfd, _) => lift (freeaddrinfo res);;; ret sockfd
  end.

(** The element whose [ai_addrlen] is stored is returned with the descriptor. *)
Definition tcp_listen (host serv : option (list Z)) : NM (Z * option sockaddr) :=
  let! res := lookup_or_quit host serv (hints_of AI_PASSIVE SOCK_STREAM) in
  let! o := open_loop (λ fd ai, Setsockopt fd;;; bind_fd fd (ai_addr ai)) res in
  match o with
  | None => fail Err_sys
  | Some (listenfd, ai) =>
      Listen listenfd LISTENQ;;; lift (freeaddrinfo res);;; ret (listenfd, ai_addr ai)
  end.

(** The copy of the address is one block more. *)
Definition udp_client (host serv : option (list Z)) : NM (Z * option sockaddr) :=
  let! res := lookup_or_quit host serv (hints_of 0 SOCK_DGRAM) in
  let! o := open_loop (λ _ _, ret true) res in
  match o with
  | None => fail Err_sys
  | Some (sockfd, ai) =>
      let! ok := lift alloc in
      if negb ok then fail Err_sys else lift (freeaddrinfo res);;; ret (sockfd, ai_addr ai)
  end.

Definition udp_connect (host serv : option (list Z)) : NM Z :=
  let! res := lookup_or_quit host serv (hints_of 0 SOCK_DGRAM) in
  let! o := open_loop (λ fd ai, connect fd (ai_addr ai)) res in
  match o with
  | None => fail Err_sys
  | Some (sockfd, _) => lift (freeaddrinfo res);;; ret sockfd
  end.

Definition udp_server (host serv : option (list Z)) : NM (Z * option sockaddr) :=
  let! res := lookup_or_quit host serv (hints_of AI_PASSIVE SOCK_DGRAM) in
  let! o := open_loop (λ fd ai, bind_fd fd (ai_addr ai)) res in
  match o with
  | None => fail Err_sys
  | Some (sockfd, ai) => lift (freeaddrinfo res);;; ret (sockfd, ai_addr ai)
  end.

(** The empty list is a null pointer. *)
Definition host_serv (host serv : option (list Z)) (family socktype : Z) : NM (list addrinfo) :=
  let! r := lift (getaddrinfo R host serv (Some (Ai AI_CANONNAME family socktype 0 None None))) in
  ret (if negb (r.1 =? 0) then [] else r.2).
Definition Host_serv (host serv : option (list Z)) (family socktype : Z) : NM (list addrinfo) :=
  lookup_or_quit host serv (Ai AI_CANONNAME family socktype 0 None None).
End kernel.

(** ** Socket addresses *)

Definition NTOP_SIZE : Z := 128.

(** The characters that [inet_ntop] stores; [size] is the room it is told of. *)
Definition ntop_text (family : Z) (addr : list Z) (size : Z) : option (list Z) :=
  match inet_ntop family addr size 0 with (Some t, _) => Some (cstr t) | (None, _) => None end.

(** The families that the functions above open; the port is left out if it is 0. *)
Definition sock_ntop (sa : sockaddr) : option (list Z) :=
  match sa with
  | In port a =>
      match ntop_text AF_INET a NTOP_SIZE with
      | None => None
      | Some t => Some (if negb (htons port =? 0) then t ++ snprintf (COLON :: dec (htons port)) 8 else t)
      end
  | In6 port a =>
      match ntop_text AF_INET6 a (NTOP_SIZE - 1) with
      | None => None
      | Some t => Some (if negb (htons port =? 0) then 91 :: t ++ snprintf (93 :: COLON :: dec (htons port)) 8 else t)
      end
  | Un path => Some (match path with [] => bytes "(no pathname bound)" | _ => snprintf path 128 end)
  | Empty => None
  end.

Definition sock_ntop_host (sa : sockaddr) : option (list Z) :=
  match sa with
  | In _ a => ntop_text AF_INET a NTOP_SIZE
  | In6 _ a => ntop_text AF_INET6 a NTOP_SIZE
  | Un path => Some (match path with [] => bytes "(no pathname bound)" | _ => snprintf path 128 end)
  | Empty => None
  end.

(** [memcmp] and [strcmp]: the sign of the difference at the first place that differs. *)
Fixpoint compare_bytes (a b : list Z) : Z :=
  match a, b with
  | [], [] => 0
  | [], _ :: _ => -1
  | _ :: _, [] => 1
  | x :: a, y :: b => if x =? y then compare_bytes a b else Z.sgn (x - y)
  end.

Definition sock_cmp_addr (sa1 sa2 : sockaddr) : Z :=
  match sa1, sa2 with
  | In _ a, In _ b => compare_bytes a b
  | In6 _ a, In6 _ b => compare_bytes a b
  | Un a, Un b => compare_bytes a b
  | _, _ => -1
  end.

Definition sock_cmp_port (sa1 sa2 : sockaddr) : Z :=
  match sa1, sa2 with
  | In p _, In q _ => if p =? q then 1 else 0
  | In6 p _, In6 q _ => if p =? q then 1 else 0
  | _, _ => -1
  end.

Definition sock_get_port (sa : sockaddr) : Z :=
  match sa with
  | In p _ => p
  | In6 p _ => p
  | _ => -1
  end.

Definition sock_set_addr (sa : sockaddr) (addr : list Z) : sockaddr :=
  match sa with
  | In p _ => In p (take 4 addr)
  | In6 p _ => In6 p (take 16 addr)
  | _ => sa
  end.

Definition sock_set_port (sa : sockaddr) (port : Z) : sockaddr :=
  match sa with
  | In _ a => In (u16 port) a
  | In6 _ a => In6 (u16 port) a
  | _ => sa
  end.

Definition sock_set_wild (sa : sockaddr) : sockaddr :=
  match sa with
  | In _ _ => sock_set_addr sa [0; 0; 0; 0]
  | In6 _ _ => sock_set_addr sa (replicate 16 0)
  | _ => sa
  end.

Definition IPPROTO_IP : Z := 0.
Definition IPPROTO_IPV6 : Z := 41.
Definition family_to_level (family : Z) : Z :=
  if family =? AF_INET then IPPROTO_IP else if family =? AF_INET6 then IPPROTO_IPV6 else -1.
