(* ===== verification/SocketsProps.v ===== *)
(** Clients and servers get a socket for the first address that can be used, and nothing else
    stays open or allocated. *)
From stdpp Require Import base tactics numbers list strings gmap fin_map_dom.
From Stdlib Require Import ZArith Lia.
From S2P Require Import Prelude ByteOrder Cio Inet InetProps Gai GaiThms GaiProps Sockets.
Local Open Scope Z_scope.

(** ** Descriptors *)

Lemma lowest_from_ok fuel : ∀ i m, m !! lowest_from fuel i m = None ∨
  lowest_from fuel i m = i + Z.of_nat fuel ∧ ∀ j, i <= j < i + Z.of_nat fuel → is_Some (m !! j).
Proof.
  induction fuel as [|fuel IH]; intros i m; cbn [lowest_from]; [right; split; [lia|intros; lia]|].
  destruct (m !! i) as [st|] eqn:E; [|by left]. destruct (IH (i + 1) m) as [H|[H1 H2]]; [by left|right]. split; [lia|].
  intros j Hj. destruct (decide (j = i)) as [->|Hne]; [by eexists|]. apply H2. lia.
Qed.

Lemma lowest_free m : m !! lowest m = None.
Proof.
  destruct (lowest_from_ok (size m) 0 m) as [H|[H1 H2]]; [done|]. unfold lowest. rewrite H1.
  destruct (m !! (0 + Z.of_nat (size m))) as [st|] eqn:E; [|done]. exfalso.
  assert (Hsub : list_to_set (seqZ 0 (Z.of_nat (size m) + 1)) ⊆@{gset Z} dom m).
  { intros j Hj. apply elem_of_list_to_set, elem_of_seqZ in Hj. apply elem_of_dom.
    destruct (decide (j = 0 + Z.of_nat (size m))) as [->|Hne]; [by eexists|apply H2; lia]. }
  apply subseteq_size in Hsub. rewrite size_list_to_set, length_seqZ, size_dom in Hsub by apply NoDup_seqZ. lia.
Qed.

Section loop.
Variables (K : kernel) (setup : Z → addrinfo → NM bool) (works : addrinfo → bool) (st : addrinfo → sockstate).
Hypothesis Hclose : k_close K = true.
(** What the preparation of a new socket does. *)
Hypothesis Hsetup : ∀ fd ai h m, m !! fd = None →
  if works ai then setup fd ai (Net h (<[fd := Fresh false]> m)) = (Net h (<[fd := st ai]> m), Done true)
  else ∃ st', setup fd ai (Net h (<[fd := Fresh false]> m)) = (Net h (<[fd := st']> m), Done false).

Definition usable (ai : addrinfo) : bool := k_socket K (ai_family ai) (ai_socktype ai) (ai_protocol ai) && works ai.

Lemma open_loop_ok l n :
  open_loop K setup l n =
  match List.find usable l with
  | Some ai => (Net (heap n) (<[lowest (fds n) := st ai]> (fds n)), Done (Some (lowest (fds n), ai)))
  | None => (n, Done None)
  end.
Proof using Hclose Hsetup.
  induction l as [|ai l IH]; [done|]. cbn [open_loop List.find]. unfold socket, usable at 1.
  destruct (k_socket K (ai_family ai) (ai_socktype ai) (ai_protocol ai)) eqn:Es; unfold bind at 1; cbn [andb].
  - pose proof (Hsetup (lowest (fds n)) ai (heap n) (fds n) (lowest_free _)) as H. destruct (works ai).
    + by rewrite (bind_done _ _ _ _ _ H).
    + destruct H as [st' H]. rewrite (bind_done _ _ _ _ _ H). unfold Close. rewrite Hclose, bind_modify. cbn [heap fds].
      rewrite delete_insert_id by apply lowest_free. destruct n as [h m]. exact IH.
  - exact IH.
Qed.
End loop.

(** ** The addresses of a name *)

Section names.
Variable R : resolver.
Hypothesis HR : inet_resolver R.
Variables (hostname serv : option (list Z)) (fl t p : Z) (c : option (list Z)) (addrs : list address) (n : net).
Let hints := hints_of fl t.
Let ss := searches hostname hints.
(** The host has addresses, and the service has a port for the socket type. *)
Hypothesis Hflags : fl = 0 ∨ fl = AI_PASSIVE.
Hypothesis Hheap : plenty (heap n).
Hypothesis Hnames : is_empty hostname && is_empty serv = false.
Hypothesis Hunix : is_unix hostname serv = false.
Hypothesis Hhost : resolve R (length ss) AF_UNSPEC ss = inl (c, addrs).
Hypothesis Hsome : addrs ≠ [].
Hypothesis Hserv : asked R serv hints = [(t, p)].
Hypothesis Ht : t = SOCK_STREAM ∨ t = SOCK_DGRAM.

Definition elements : list addrinfo := map (λ x, entry 0 0 None x (t, p)) addrs.

Lemma elements_product : product hints (with_head (canonical hostname hints c) addrs) [(t, p)] = elements.
Proof using Hflags Ht.
  clear Hhost Hsome Hserv. rewrite product_one. unfold elements, with_head, canonical. replace (negb (is_empty hostname) && _) with false
    by (symmetry; apply andb_false_iff; right; by destruct Hflags as [-> | ->]).
  assert (E : clone_flag hints = 0) by (unfold clone_flag, hints; cbn; by destruct Ht as [-> | ->]). rewrite E.
  destruct addrs as [|a l]; [done|]. cbn [map]. f_equal. by rewrite map_map.
Qed.

Lemma lookup_or_quit_ok : ∃ h, lookup_or_quit R hostname serv hints n = (Net h (fds n), Done elements) ∧
  live h = live (heap n) + mass elements.
Proof using All.
  assert (Hk : ga_echeck hostname serv (ai_flags hints) (ai_family hints) (ai_socktype hints) (ai_protocol hints) = 0).
  { unfold ga_echeck. rewrite Hnames. by destruct Hflags as [E|E]; unfold hints; cbn; rewrite E. }
  assert (Hl : ai_family hints ≠ AF_LOCAL) by done. pose proof (searches_some hostname serv hints Hl Hk) as Hss.
  destruct (getaddrinfo_run R HR hostname serv hints (heap n) Hheap Hunix Hss Hk) as [h E].
  change (ai_family hints) with AF_UNSPEC in E. fold ss in E. rewrite Hhost, Hserv, elements_product in E.
  destruct addrs as [|a l] eqn:Ea; [done|]. rewrite <- Ea in *.
  assert (E' : getaddrinfo R hostname serv (Some hints) (heap n) = (h, Done (0, elements))) by exact E. clear E.
  exists h. pose proof (wp_getaddrinfo R hostname serv hints (heap n) Hunix (λ _, Hss)) as H.
  unfold wp in H. rewrite E' in H. destruct H as [(_ & _ & H)|(H & _)]; [|done]. cbn [snd] in H. split; [|done].
  unfold lookup_or_quit, lift, bind at 1. rewrite E'. done.
Qed.

End names.

(** The first address that can be used; its socket. *)
Definition first_usable (K : kernel) (t p : Z) (addrs : list address) (works : addrinfo → bool) : option address :=
  List.find (λ x, k_socket K x.1 t 0 && works (entry 0 0 None x (t, p))) addrs.

Lemma find_elements K t p addrs works :
  List.find (usable K works) (elements t p addrs) = (λ x, entry 0 0 None x (t, p)) <$> first_usable K t p addrs works.
Proof.
  unfold elements, first_usable. induction addrs as [|x l IH]; [done|]. cbn [map List.find]. unfold usable at 1.
  change (ai_family (entry 0 0 None x (t, p))) with x.1. change (ai_socktype (entry 0 0 None x (t, p))) with t.
  change (ai_protocol (entry 0 0 None x (t, p))) with 0. by destruct (k_socket K x.1 t 0 && works (entry 0 0 None x (t, p))).
Qed.

Lemma lift_free l n : lift (freeaddrinfo l) n = (Net (grow (heap n) (- mass l)) (fds n), Done tt).
Proof. unfold lift. by rewrite freeaddrinfo_ok. Qed.

Lemma connect_setup K fd ai h (m : gmap Z sockstate) : m !! fd = None →
  if k_connect K (ai_addr ai) then connect K fd (ai_addr ai) (Net h (<[fd := Fresh false]> m)) = (Net h (<[fd := Connected (ai_addr ai)]> m), Done true)
  else ∃ st', connect K fd (ai_addr ai) (Net h (<[fd := Fresh false]> m)) = (Net h (<[fd := st']> m), Done false).
Proof.
  intros _. unfold connect. destruct (k_connect K (ai_addr ai)); [|by eexists].
  unfold set_fd. rewrite bind_modify. cbn [heap fds]. by rewrite insert_insert_eq.
Qed.

Lemma listen_setup K fd ai h (m : gmap Z sockstate) : k_setsockopt K = true → m !! fd = None →
  if k_bind K (ai_addr ai)
  then (Setsockopt K fd;;; bind_fd K fd (ai_addr ai)) (Net h (<[fd := Fresh false]> m)) = (Net h (<[fd := Bound true (ai_addr ai)]> m), Done true)
  else ∃ st', (Setsockopt K fd;;; bind_fd K fd (ai_addr ai)) (Net h (<[fd := Fresh false]> m)) = (Net h (<[fd := st']> m), Done false).
Proof.
  intros Hs _. unfold Setsockopt, bind_fd, set_fd. rewrite Hs, bind_modify. cbn [heap fds]. rewrite insert_insert_eq, bind_gets. cbn [fds].
  rewrite lookup_insert_eq. destruct (k_bind K (ai_addr ai)); [|by eexists]. rewrite bind_modify. cbn [heap fds]. by rewrite insert_insert_eq.
Qed.

(** A lookup followed by the loop. *)
Lemma names_opened K R hostname serv fl t p c addrs n (setup : Z → addrinfo → NM bool) (works : addrinfo → bool) st :
  let hints := hints_of fl t in let ss := searches hostname hints in
  inet_resolver R → k_close K = true → fl = 0 ∨ fl = AI_PASSIVE → plenty (heap n) →
  is_empty hostname && is_empty serv = false → is_unix hostname serv = false →
  resolve R (length ss) AF_UNSPEC ss = inl (c, addrs) → addrs ≠ [] → asked R serv hints = [(t, p)] → t = SOCK_STREAM ∨ t = SOCK_DGRAM →
  (∀ fd ai h m, m !! fd = None →
    if works ai then setup fd ai (Net h (<[fd := Fresh false]> m)) = (Net h (<[fd := st ai]> m), Done true)
    else ∃ st', setup fd ai (Net h (<[fd := Fresh false]> m)) = (Net h (<[fd := st']> m), Done false)) →
  ∃ h, live h = live (heap n) + mass (elements t p addrs) ∧
    ∀ A (k : list addrinfo → option (Z * addrinfo) → NM A),
      (let! res := lookup_or_quit R hostname serv hints in let! o := open_loop K setup res in k res o) n =
      match first_usable K t p addrs works with
      | Some x => k (elements t p addrs) (Some (lowest (fds n), entry 0 0 None x (t, p)))
                    (Net h (<[lowest (fds n) := st (entry 0 0 None x (t, p))]> (fds n)))
      | None => k (elements t p addrs) None (Net h (fds n))
      end.
Proof.
  intros hints ss HR Hc Hfl Hp Hn Hu Hh Ha Hs Ht Hset.
  destruct (lookup_or_quit_ok R HR hostname serv fl t p c addrs n Hfl Hp Hn Hu Hh Ha Hs Ht) as (h & E & Hl).
  exists h. split; [done|]. intros A k. rewrite (bind_done _ _ _ _ _ E).
  pose proof (open_loop_ok K setup works st Hc Hset (elements t p addrs) (Net h (fds n))) as E2. rewrite find_elements in E2.
  destruct (first_usable K t p addrs works) as [x|]; by rewrite (bind_done _ _ _ _ _ E2).
Qed.

(** ** Properties *)

(** C21: [tcp_connect].  If the host has addresses and the service a TCP port, the result is the
    lowest free descriptor, connected to the first address, in the order of [getaddrinfo], for
    which a socket can be created and connected.  All sockets of the failed attempts are closed
    and all memory is freed.  If no address works, the process ends with an error. *)
Theorem tcp_connect_correct K R hostname serv p c addrs n :
  let hints := hints_of 0 SOCK_STREAM in let ss := searches hostname hints in
  inet_resolver R → k_close K = true → plenty (heap n) →
  is_empty hostname && is_empty serv = false → is_unix hostname serv = false →
  resolve R (length ss) AF_UNSPEC ss = inl (c, addrs) → addrs ≠ [] → asked R serv hints = [(SOCK_STREAM, p)] →
  ∃ h, match List.find (λ x, k_socket K x.1 SOCK_STREAM 0 && k_connect K (Some (sock x p))) addrs with
       | Some x => tcp_connect K R hostname serv n =
           (Net h (<[lowest (fds n) := Connected (Some (sock x p))]> (fds n)), Done (lowest (fds n))) ∧ live h = live (heap n)
       | None => tcp_connect K R hostname serv n = (Net h (fds n), Fail Err_sys)
       end.
Proof.
  intros hints ss HR Hc Hp Hn Hu Hh Ha Hs.
  destruct (names_opened K R hostname serv 0 SOCK_STREAM p c addrs n (λ fd ai, connect K fd (ai_addr ai)) (λ ai, k_connect K (ai_addr ai)) (λ ai, Connected (ai_addr ai))
    HR Hc (or_introl eq_refl) Hp Hn Hu Hh Ha Hs (or_introl eq_refl)
    (connect_setup K)) as (h & Hl & E). unfold tcp_connect.
  rewrite (E _ (λ res o, match o with None => fail Err_sys | Some (fd, _) => lift (freeaddrinfo res);;; ret fd end)). unfold first_usable. cbn [ai_addr entry snd].
  destruct (List.find _ addrs) as [x|]; [|by exists h]. exists (grow h (- mass (elements SOCK_STREAM p addrs))).
  rewrite (bind_done _ _ _ _ _ (lift_free _ _)). cbn [heap fds grow live]. split; [done|lia].
Qed.

(** [tcp_listen].  If the host has addresses and the service a TCP port, the result is the
    lowest free descriptor, which listens, with the option to reuse the address and the length of
    the queue that the environment gives or 1024, at the first address for which a socket can be
    created and bound.  All other sockets are closed and all memory is freed. *)
Theorem tcp_listen_correct K R hostname serv p c addrs n :
  let hints := hints_of AI_PASSIVE SOCK_STREAM in let ss := searches hostname hints in
  let backlog := match env_LISTENQ K with Some s => i32 (atol s) | None => LISTENQ end in
  inet_resolver R → k_close K = true → k_setsockopt K = true → k_listen K backlog = true → plenty (heap n) →
  is_empty hostname && is_empty serv = false → is_unix hostname serv = false →
  resolve R (length ss) AF_UNSPEC ss = inl (c, addrs) → addrs ≠ [] → asked R serv hints = [(SOCK_STREAM, p)] →
  ∃ h, match List.find (λ x, k_socket K x.1 SOCK_STREAM 0 && k_bind K (Some (sock x p))) addrs with
       | Some x => tcp_listen K R hostname serv n =
           (Net h (<[lowest (fds n) := Listening true (Some (sock x p)) backlog]> (fds n)), Done (lowest (fds n), Some (sock x p))) ∧
           live h = live (heap n)
       | None => tcp_listen K R hostname serv n = (Net h (fds n), Fail Err_sys)
       end.
Proof.
  intros hints ss backlog HR Hc Hso Hli Hp Hn Hu Hh Ha Hs.
  destruct (names_opened K R hostname serv AI_PASSIVE SOCK_STREAM p c addrs n (λ fd ai, Setsockopt K fd;;; bind_fd K fd (ai_addr ai))
    (λ ai, k_bind K (ai_addr ai)) (λ ai, Bound true (ai_addr ai)) HR Hc (or_intror eq_refl) Hp Hn Hu Hh Ha Hs (or_introl eq_refl)
    (λ fd ai h m, listen_setup K fd ai h m Hso)) as (h & Hl & E). unfold tcp_listen.
  rewrite (E _ (λ res o, match o with None => fail Err_sys | Some (fd, ai) => Listen K fd LISTENQ;;; lift (freeaddrinfo res);;; ret (fd, ai_addr ai) end)).
  unfold first_usable. cbn [ai_addr entry snd].
  destruct (List.find _ addrs) as [x|]; [|by exists h]. exists (grow h (- mass (elements SOCK_STREAM p addrs))).
  unfold Listen. fold backlog. rewrite Hli, bind_assoc, bind_gets. cbn [fds]. rewrite lookup_insert_eq. unfold set_fd. rewrite bind_modify.
  rewrite (bind_done _ _ _ _ _ (lift_free _ _)). cbn [heap fds grow live]. rewrite insert_insert_eq. split; [done|lia].
Qed.

(** The same for a datagram server, which is bound without the option to reuse the address. *)
Lemma udp_server_ok K R hostname serv p c addrs n :
  let hints := hints_of AI_PASSIVE SOCK_DGRAM in let ss := searches hostname hints in
  inet_resolver R → k_close K = true → plenty (heap n) →
  is_empty hostname && is_empty serv = false → is_unix hostname serv = false →
  resolve R (length ss) AF_UNSPEC ss = inl (c, addrs) → addrs ≠ [] → asked R serv hints = [(SOCK_DGRAM, p)] →
  ∃ h, match List.find (λ x, k_socket K x.1 SOCK_DGRAM 0 && k_bind K (Some (sock x p))) addrs with
       | Some x => udp_server K R hostname serv n =
           (Net h (<[lowest (fds n) := Bound false (Some (sock x p))]> (fds n)), Done (lowest (fds n), Some (sock x p))) ∧
           live h = live (heap n)
       | None => udp_server K R hostname serv n = (Net h (fds n), Fail Err_sys)
       end.
Proof.
  intros hints ss HR Hc Hp Hn Hu Hh Ha Hs.
  destruct (names_opened K R hostname serv AI_PASSIVE SOCK_DGRAM p c addrs n (λ fd ai, bind_fd K fd (ai_addr ai))
    (λ ai, k_bind K (ai_addr ai)) (λ ai, Bound false (ai_addr ai)) HR Hc (or_intror eq_refl) Hp Hn Hu Hh Ha Hs (or_intror eq_refl)) as (h & Hl & E).
  { intros fd ai h m _. unfold bind_fd. rewrite bind_gets. cbn [fds]. rewrite lookup_insert_eq. destruct (k_bind K (ai_addr ai)); [|by eexists].
    unfold set_fd. rewrite bind_modify. cbn [heap fds]. by rewrite insert_insert_eq. }
  unfold udp_server. rewrite (E _ (λ res o, match o with None => fail Err_sys | Some (fd, ai) => lift (freeaddrinfo res);;; ret (fd, ai_addr ai) end)).
  unfold first_usable. cbn [ai_addr entry snd].
  destruct (List.find _ addrs) as [x|]; [|by exists h]. exists (grow h (- mass (elements SOCK_DGRAM p addrs))).
  rewrite (bind_done _ _ _ _ _ (lift_free _ _)). cbn [heap fds grow live]. split; [done|lia].
Qed.

(** ** Socket addresses *)

Lemma ntop_text_ok x size : inet_address x → 46 <= size → ntop_text x.1 x.2 size = Some (ntop x).
Proof.
  intros Hx Hs. destruct (inet_ntop_ok x size Hx Hs) as (e & E & Hn). unfold ntop_text. by rewrite E, cstr_app.
Qed.

Lemma ntop_v4 a : ntop (AF_INET, a) = ntop4_text a.
Proof. unfold ntop. cbn [fst]. rewrite Z.eqb_refl. reflexivity. Qed.
Lemma ntop_v6 a : ntop (AF_INET6, a) = ntop6_text a.
Proof. unfold ntop. cbn [fst]. rewrite (proj2 (Z.eqb_neq AF_INET6 AF_INET)) by done. reflexivity. Qed.

Lemma short_text (t : list Z) k : zlen t <= Z.of_nat k → (length t <= k)%nat.
Proof. unfold zlen. lia. Qed.

Lemma ntop_length x : inet_address x → (length (ntop x) <= 45)%nat.
Proof.
  destruct x as [f a]. unfold inet_address. cbn [fst snd]. intros [Hb [[-> Hl]|[-> Hl]]].
  - rewrite ntop_v4. do 4 (destruct a as [|? a]; [done|]). destruct a; [|done]. repeat (apply Forall_cons in Hb as [? Hb]).
    pose proof (ntop4_length z z0 z1 z2 ltac:(done) ltac:(done) ltac:(done) ltac:(done)). apply short_text. lia.
  - rewrite ntop_v6. apply short_text. exact (ntop6_length a Hl Hb).
Qed.

Lemma port_text pre p : (length pre <= 2)%nat → 0 <= p < 2 ^ 16 → snprintf (pre ++ dec (htons p)) 8 = pre ++ dec (htons p).
Proof.
  intros Hp Hr. pose proof (htons_range p). pose proof (dec_length 5 (htons p)). unfold snprintf. rewrite take_ge; [done|].
  rewrite length_app. lia.
Qed.

Lemma sock_v4 a p : length a = 4%nat → sock (AF_INET, a) p = In p a.
Proof. intros Ha. unfold sock. cbn [fst snd]. rewrite Z.eqb_refl, take_ge by lia. reflexivity. Qed.
Lemma sock_v6 a p : length a = 16%nat → sock (AF_INET6, a) p = In6 p a.
Proof. intros Ha. unfold sock. cbn [fst snd]. rewrite (proj2 (Z.eqb_neq AF_INET6 AF_INET)), take_ge by (done || lia). reflexivity. Qed.

(** The text of an address with a port: nothing is cut off, and it fits in the buffer of 128
    bytes together with its end. *)
Definition port_form (x : address) (p : Z) : list Z :=
  if x.1 =? AF_INET then ntop x ++ COLON :: dec (htons p) else 91 :: ntop x ++ 93 :: COLON :: dec (htons p).

Lemma port_form_length x p : inet_address x → (length (port_form x p) < 128)%nat.
Proof.
  intros Hx. pose proof (ntop_length x Hx) as Hl. pose proof (htons_range p). pose proof (dec_length 5 (htons p)) as Hd.
  unfold port_form. generalize dependent (ntop x). intros t Hl. destruct (x.1 =? AF_INET); cbn [length]; rewrite length_app; cbn [length]; lia.
Qed.

Lemma sock_ntop_ok x p : inet_address x → 0 <= p < 2 ^ 16 → htons p ≠ 0 → sock_ntop (sock x p) = Some (port_form x p).
Proof.
  intros Hx Hp Hz. apply Z.eqb_neq in Hz. pose proof (ntop_text_ok x NTOP_SIZE Hx ltac:(done)) as E4.
  pose proof (ntop_text_ok x (NTOP_SIZE - 1) Hx ltac:(done)) as E6. unfold port_form. generalize dependent (ntop x). intros t E4 E6.
  pose proof (port_text [COLON] p ltac:(cbn; lia) Hp) as P4. pose proof (port_text [93; COLON] p ltac:(cbn; lia) Hp) as P6. cbn [app] in P4, P6.
  destruct x as [f a]. pose proof Hx as [_ [[Hf Ha]|[Hf Ha]]]; cbn [fst snd] in *; subst f.
  - rewrite sock_v4, Z.eqb_refl by done. cbn [sock_ntop]. rewrite E4, Hz. cbn [negb]. by rewrite P4.
  - rewrite sock_v6, (proj2 (Z.eqb_neq AF_INET6 AF_INET)) by done. cbn [sock_ntop]. rewrite E6, Hz. cbn [negb]. by rewrite P6.
Qed.

Lemma compare_bytes_eq a : ∀ b, compare_bytes a b = 0 ↔ a = b.
Proof.
  induction a as [|x a IH]; intros [|y b]; cbn [compare_bytes]; [done..|]. destruct (Z.eqb_spec x y) as [->|Hne].
  - rewrite IH. naive_solver.
  - split; [|naive_solver]. intros H. destruct (Z.sgn_spec (x - y)); lia.
Qed.

(** [sock_cmp_addr] is 0 for equal addresses; [sock_cmp_port] is 1 for equal ports. *)
Lemma sock_cmp_addr_inet x y p q : x.1 = y.1 → inet_address x → inet_address y →
  sock_cmp_addr (sock x p) (sock y q) = 0 ↔ x = y.
Proof.
  destruct x as [f a], y as [g b]. cbn [fst]. intros <- [_ Hx] [_ Hy]. unfold sock. cbn [fst snd] in *.
  destruct (f =? AF_INET) eqn:Ef; cbn [sock_cmp_addr]; rewrite compare_bytes_eq, !take_ge by (unfold AF_INET, AF_INET6 in *; lia); naive_solver.
Qed.
Lemma sock_cmp_port_inverted x p q : sock_cmp_port (sock x p) (sock x q) = (if p =? q then 1 else 0).
Proof. unfold sock. by destruct (x.1 =? AF_INET). Qed.

Lemma set_get_port x p q : 0 <= q < 2 ^ 16 → sock_get_port (sock_set_port (sock x p) q) = q.
Proof. intros Hq. unfold sock. destruct (x.1 =? AF_INET); cbn; by rewrite u16_id. Qed.

(** ** Examples *)

(** The IPv6 address cannot be reached, the first IPv4 address refuses. *)
Definition toy_kernel : kernel :=
  Kernel (λ _ _ _, true) (λ a, match a with Some (In _ [10; 0; 0; 2]) => true | _ => false end)
    (λ a, match a with Some (In6 _ _) => false | _ => true end) true (λ _, true) true (Some (bytes "5")).
Definition toy_net : net := Net (Mem [] 3 []) (<[0 := Fresh false]> (<[1 := Fresh false]> ∅)).

Lemma tcp_connect_correct_witness : ∃ h,
  tcp_connect toy_kernel toy_resolver (Some (bytes "sun")) (Some (bytes "daytime")) toy_net =
  (Net h (<[2 := Connected (Some (In (htons 13) [10; 0; 0; 2]))]> (fds toy_net)), Done 2) ∧ live h = 3.
Proof.
  exact (tcp_connect_correct toy_kernel toy_resolver (Some (bytes "sun")) (Some (bytes "daytime")) (htons 13) (Some (bytes "sun.org"))
    [(AF_INET6, [32; 1; 0; 0; 0; 0; 0; 0; 0; 0; 0; 0; 0; 0; 0; 7]); (AF_INET, [10; 0; 0; 1]); (AF_INET, [10; 0; 0; 2])] toy_net
    toy_inet eq_refl eq_refl eq_refl eq_refl eq_refl ltac:(done) eq_refl).
Defined.

Lemma tcp_listen_correct_witness : ∃ h,
  tcp_listen toy_kernel toy_resolver None (Some (bytes "daytime")) toy_net =
  (Net h (<[2 := Listening true (Some (In (htons 13) [0; 0; 0; 0])) 5]> (fds toy_net)), Done (2, Some (In (htons 13) [0; 0; 0; 0]))) ∧ live h = 3.
Proof.
  exact (tcp_listen_correct toy_kernel toy_resolver None (Some (bytes "daytime")) (htons 13) None
    [(AF_INET6, replicate 16 0); (AF_INET, [0; 0; 0; 0])] toy_net
    toy_inet eq_refl eq_refl eq_refl eq_refl eq_refl eq_refl eq_refl ltac:(done) eq_refl).
Defined.
