(* ===== verification/Foo.v ===== *)
(** A hash table of reference-counted objects that threads share: apue.3e/threads/mutex2.c, with
    one lock for the table and one per object, and mutex3.c, where the lock of the table also
    protects the counts.

    A function is cut before each lock that another thread may hold: a critical section with the
    releases at its end is a piece, and so is what a thread does with an object that no other
    thread can reach.  The pieces are functions on the shared state.  Taking a lock that is held
    is the outcome [Blocked]; a use of memory that is not allocated, or the destruction of a
    locked mutex, is a fault. *)
From stdpp Require Import base tactics functions numbers list gmap.
From Stdlib Require Import ZArith Lia.
From S2P Require Import Prelude.
Local Open Scope Z_scope.

Definition NHASH : nat := 29.
Definition HASH (id : Z) : nat := Z.to_nat (u64 id mod 29).

(** The holder of [f_lock] is the number of a thread.  The null pointer is 0. *)
Record foo := Object { f_count : Z; f_lock : option nat; f_id : Z; f_next : Z }.
Record table := Table { fh : list Z; heap : gmap Z foo; hashlock : option nat }.

Inductive fault := Blocked | BadPointer | NoFuel | DestroyLocked.
Abbreviation TM := (M table fault).

Definition load (p : Z) : TM foo := λ s,
  match heap s !! p with Some f => (s, Done f) | None => (s, Fail BadPointer) end.
Definition store (p : Z) (f : foo) : TM unit :=
  modify (λ s, Table (fh s) (<[p := f]> (heap s)) (hashlock s)).
Definition bucket (i : nat) : TM Z := gets (λ s, default 0 (fh s !! i)).
Definition set_bucket (i : nat) (p : Z) : TM unit :=
  modify (λ s, Table (<[i := p]> (fh s)) (heap s) (hashlock s)).

Definition set_hashlock (o : option nat) : TM unit := modify (λ s, Table (fh s) (heap s) o).
Definition lock_hash (t : nat) : TM unit :=
  let! o := gets hashlock in
  match o with None => set_hashlock (Some t) | Some _ => fail Blocked end.
Definition unlock_hash : TM unit := set_hashlock None.

Definition lock (p : Z) (t : nat) : TM unit :=
  let! f := load p in
  match f_lock f with
  | None => store p (Object (f_count f) (Some t) (f_id f) (f_next f))
  | Some _ => fail Blocked
  end.
Definition unlock (p : Z) : TM unit :=
  let! f := load p in store p (Object (f_count f) None (f_id f) (f_next f)).

(** [f_count] changes by [d]. *)
Definition count (p d : Z) : TM unit :=
  let! f := load p in store p (Object (i32 (f_count f + d)) (f_lock f) (f_id f) (f_next f)).
Definition set_next (p q : Z) : TM unit :=
  let! f := load p in store p (Object (f_count f) (f_lock f) (f_id f) q).

(** ** What both versions share *)

(** [malloc] has returned [fp], and the mutex is initialised. *)
Definition foo_alloc_insert (t : nat) (fp id : Z) : TM unit :=
  store fp (Object 1 None id 0);;;
  lock_hash t;;;
  let! head := bucket (HASH id) in
  set_next fp head;;;
  set_bucket (HASH id) fp;;;
  lock fp t;;;
  unlock_hash.
Definition foo_alloc_finish (fp : Z) : TM unit := unlock fp.

(** [malloc] returns a null pointer, or [init] says whether the mutex could be initialised. *)
Definition foo_alloc (t : nat) (fp id : Z) (init : bool) : TM Z :=
  if (fp =? 0) || negb init then ret 0 else foo_alloc_insert t fp id;;; foo_alloc_finish fp;;; ret fp.

(** The loop of [foo_find]. *)
Fixpoint find_loop (fuel : nat) (fp id : Z) (found : Z → TM unit) : TM Z :=
  match fuel with
  | O => fail NoFuel
  | S fuel =>
      if fp =? 0 then ret 0
      else
        let! f := load fp in
        if f_id f =? id then found fp;;; ret fp else find_loop fuel (f_next f) id found
  end.
Definition find (id : Z) (found : Z → TM unit) : TM Z :=
  let! s := get in
  let! fp := bucket (HASH id) in
  find_loop (S (size (heap s))) fp id found.

(** The removal from the list. *)
Fixpoint unlink_loop (fuel : nat) (tfp fp next : Z) : TM unit :=
  match fuel with
  | O => fail NoFuel
  | S fuel =>
      let! g := load tfp in
      if f_next g =? fp then set_next tfp next else unlink_loop fuel (f_next g) fp next
  end.
Definition unlink (fp : Z) : TM unit :=
  let! s := get in
  let! f := load fp in
  let! tfp := bucket (HASH (f_id f)) in
  if tfp =? fp then set_bucket (HASH (f_id f)) (f_next f)
  else unlink_loop (size (heap s)) tfp fp (f_next f).

(** [pthread_mutex_destroy] and [free]. *)
Definition free_foo (fp : Z) : TM unit :=
  let! f := load fp in
  match f_lock f with
  | Some _ => fail DestroyLocked
  | None => modify (λ s, Table (fh s) (delete fp (heap s)) (hashlock s))
  end.

(** ** mutex3.c *)

Module Three.
Definition foo_hold (t : nat) (fp : Z) : TM unit := lock_hash t;;; count fp 1;;; unlock_hash.

Definition foo_find (t : nat) (id : Z) : TM Z :=
  lock_hash t;;;
  let! fp := find id (λ fp, count fp 1) in
  unlock_hash;;;
  ret fp.

(** Whether the object was taken from the table. *)
Definition foo_rele_drop (t : nat) (fp : Z) : TM bool :=
  lock_hash t;;;
  count fp (-1);;;
  let! f := load fp in
  if f_count f =? 0 then unlink fp;;; unlock_hash;;; ret true else unlock_hash;;; ret false.
Definition foo_rele (t : nat) (fp : Z) : TM unit :=
  let! last := foo_rele_drop t fp in
  if last : bool then free_foo fp else ret tt.
End Three.

(** ** mutex2.c *)

Module Two.
Definition foo_hold (t : nat) (fp : Z) : TM unit := lock fp t;;; count fp 1;;; unlock fp.

(** The object found, while the table stays locked; [foo_hold] may have to wait. *)
Definition foo_find_lookup (t : nat) (id : Z) : TM Z :=
  lock_hash t;;;
  let! fp := find id (λ _, ret tt) in
  (if fp =? 0 then unlock_hash else ret tt);;;
  ret fp.
Definition foo_find_hold (t : nat) (fp : Z) : TM unit := foo_hold t fp;;; unlock_hash.
Definition foo_find (t : nat) (id : Z) : TM Z :=
  let! fp := foo_find_lookup t id in
  (if fp =? 0 then ret tt else foo_find_hold t fp);;;
  ret fp.

(** The first section of [foo_rele]: whether this looks like the last reference. *)
Definition foo_rele_try (t : nat) (fp : Z) : TM bool :=
  lock fp t;;;
  let! f := load fp in
  if f_count f =? 1 then unlock fp;;; ret true else count fp (-1);;; unlock fp;;; ret false.
(** The section with both locks, once the table is locked: whether the object was removed. *)
Definition foo_rele_last (t : nat) (fp : Z) : TM bool :=
  lock fp t;;;
  let! f := load fp in
  if negb (f_count f =? 1) then count fp (-1);;; unlock fp;;; unlock_hash;;; ret false
  else unlink fp;;; unlock_hash;;; unlock fp;;; ret true.
Definition foo_rele (t : nat) (fp : Z) : TM unit :=
  let! last := foo_rele_try t fp in
  if last : bool then
    lock_hash t;;;
    let! removed := foo_rele_last t fp in
    if removed : bool then free_foo fp else ret tt
  else ret tt.
End Two.

(** ** Threads *)

(** Between two pieces of a function, a thread has inserted an object and initialises it, has
    found one and waits for its lock with the table locked, is about to lock the table to
    release what looks like the last reference, has locked it, or is about to free an object. *)
Inductive pcs := Idle | Init (p : Z) | Found (p : Z) | Last (p : Z) | LastLocked (p : Z) | Freeing (p : Z).

(** [refs] has one entry for each reference that a thread holds. *)
Record world := World { sh : table; pc : nat → pcs; refs : list (nat * Z) }.

Fixpoint drop_ref (r : nat * Z) (l : list (nat * Z)) : list (nat * Z) :=
  match l with
  | [] => []
  | x :: l => if bool_decide (x = r) then l else x :: drop_ref r l
  end.

(** One step of a thread that calls the functions of mutex3.c only for objects it holds a
    reference to.  [malloc] returns memory that is not allocated.  An idle thread can hand a
    reference to another thread. *)
Inductive step3 : world → world → Prop :=
| Alloc3 w t fp id s : pc w t = Idle → fp ≠ 0 → heap (sh w) !! fp = None →
    foo_alloc_insert t fp id (sh w) = (s, Done tt) → step3 w (World s (<[t := Init fp]> (pc w)) ((t, fp) :: refs w))
| Finish3 w t fp s : pc w t = Init fp → foo_alloc_finish fp (sh w) = (s, Done tt) → step3 w (World s (<[t := Idle]> (pc w)) (refs w))
| Hold3 w t fp s : pc w t = Idle → (t, fp) ∈ refs w → Three.foo_hold t fp (sh w) = (s, Done tt) →
    step3 w (World s (<[t := Idle]> (pc w)) ((t, fp) :: refs w))
| Find3 w t id fp s : pc w t = Idle → Three.foo_find t id (sh w) = (s, Done fp) →
    step3 w (World s (<[t := Idle]> (pc w)) (if fp =? 0 then refs w else (t, fp) :: refs w))
| Rele3 w t fp b s : pc w t = Idle → (t, fp) ∈ refs w → Three.foo_rele_drop t fp (sh w) = (s, Done b) →
    step3 w (World s (<[t := if b : bool then Freeing fp else Idle]> (pc w)) (drop_ref (t, fp) (refs w)))
| Free3 w t fp s : pc w t = Freeing fp → free_foo fp (sh w) = (s, Done tt) → step3 w (World s (<[t := Idle]> (pc w)) (refs w))
| Give3 w t t' fp : pc w t = Idle → (t, fp) ∈ refs w → step3 w (World (sh w) (<[t := Idle]> (pc w)) ((t', fp) :: drop_ref (t, fp) (refs w))).

(** The same for mutex2.c. *)
Inductive step2 : world → world → Prop :=
| Alloc2 w t fp id s : pc w t = Idle → fp ≠ 0 → heap (sh w) !! fp = None →
    foo_alloc_insert t fp id (sh w) = (s, Done tt) → step2 w (World s (<[t := Init fp]> (pc w)) ((t, fp) :: refs w))
| Finish2 w t fp s : pc w t = Init fp → foo_alloc_finish fp (sh w) = (s, Done tt) → step2 w (World s (<[t := Idle]> (pc w)) (refs w))
| Hold2 w t fp s : pc w t = Idle → (t, fp) ∈ refs w → Two.foo_hold t fp (sh w) = (s, Done tt) →
    step2 w (World s (<[t := Idle]> (pc w)) ((t, fp) :: refs w))
| Lookup2 w t id fp s : pc w t = Idle → Two.foo_find_lookup t id (sh w) = (s, Done fp) →
    step2 w (World s (<[t := if fp =? 0 then Idle else Found fp]> (pc w)) (refs w))
| Found2 w t fp s : pc w t = Found fp → Two.foo_find_hold t fp (sh w) = (s, Done tt) →
    step2 w (World s (<[t := Idle]> (pc w)) ((t, fp) :: refs w))
| Try2 w t fp b s : pc w t = Idle → (t, fp) ∈ refs w → Two.foo_rele_try t fp (sh w) = (s, Done b) →
    step2 w (World s (<[t := if b : bool then Last fp else Idle]> (pc w)) (if b then refs w else drop_ref (t, fp) (refs w)))
| Lock2 w t fp s : pc w t = Last fp → lock_hash t (sh w) = (s, Done tt) → step2 w (World s (<[t := LastLocked fp]> (pc w)) (refs w))
| Last2 w t fp b s : pc w t = LastLocked fp → Two.foo_rele_last t fp (sh w) = (s, Done b) →
    step2 w (World s (<[t := if b : bool then Freeing fp else Idle]> (pc w)) (drop_ref (t, fp) (refs w)))
| Free2 w t fp s : pc w t = Freeing fp → free_foo fp (sh w) = (s, Done tt) → step2 w (World s (<[t := Idle]> (pc w)) (refs w))
| Give2 w t t' fp : pc w t = Idle → (t, fp) ∈ refs w → step2 w (World (sh w) (<[t := Idle]> (pc w)) ((t', fp) :: drop_ref (t, fp) (refs w))).

Definition initial : world := World (Table (replicate NHASH 0) ∅ None) (λ _, Idle) [].
