(* ===== verification/FooThms.v ===== *)
(** The invariant of the table of reference-counted objects, and what each function does to a
    table that satisfies it. *)
From stdpp Require Import base tactics functions numbers list gmap.
From Stdlib Require Import ZArith Lia.
From S2P Require Import Prelude Foo.
Local Open Scope Z_scope.

(** ** Lists in the heap *)

Fixpoint chain (h : gmap Z foo) (p : Z) (l : list Z) : Prop :=
  match l with
  | [] => p = 0
  | q :: l => p = q ∧ q ≠ 0 ∧ ∃ f, h !! q = Some f ∧ chain h (f_next f) l
  end.

Lemma chain_mono h h' l : ∀ p, (∀ q f, q ∈ l → h !! q = Some f → ∃ f', h' !! q = Some f' ∧ f_next f' = f_next f) →
  chain h p l → chain h' p l.
Proof.
  induction l as [|q l IH]; intros p Hh; [done|]. cbn. intros (-> & Hq & f & Hf & Hc). split; [done|]. split; [done|].
  destruct (Hh q f) as (f' & Hf' & E); [by left|done|]. exists f'. split; [done|]. rewrite E. apply IH; [|done].
  intros q' g Hin. apply Hh. by right.
Qed.

Lemma chain_lookup h l : ∀ p q, chain h p l → q ∈ l → q ≠ 0 ∧ is_Some (h !! q).
Proof.
  induction l as [|x l IH]; intros p q; [by intros _ ?%elem_of_nil|]. cbn. intros (-> & Hx & f & Hf & Hc) [->|Hq]%elem_of_cons; [by eauto|].
  by eapply IH.
Qed.

Lemma foo_chain_app h l1 p l2 : ∀ q, chain h q (l1 ++ p :: l2) → chain h p (p :: l2).
Proof.
  induction l1 as [|x l1 IH]; intros q; cbn [app]; [intros H; by destruct H as [-> ?]|]. intros (-> & _ & f & _ & Hc). by eapply IH.
Qed.

Lemma HASH_lt id : (HASH id < NHASH)%nat.
Proof. unfold HASH, NHASH. pose proof (Z.mod_pos_bound (u64 id) 29). lia. Qed.
#[export] Hint Resolve HASH_lt : core.

(** ** References *)

Fixpoint nrefs (p : Z) (l : list (nat * Z)) : Z :=
  match l with
  | [] => 0
  | r :: l => (if r.2 =? p then 1 else 0) + nrefs p l
  end.

Lemma nrefs_nonneg p l : 0 <= nrefs p l.
Proof. induction l as [|r l IH]; cbn; [lia|case_match; lia]. Qed.
Lemma nrefs_length p l : nrefs p l <= Z.of_nat (length l).
Proof. induction l as [|r l IH]; cbn [nrefs length]; [lia|case_match; lia]. Qed.
Lemma nrefs_pos p l : 1 <= nrefs p l ↔ ∃ t, (t, p) ∈ l.
Proof.
  induction l as [|[t q] l IH]; cbn [nrefs snd].
  - split; [lia|]. by intros [t ?%elem_of_nil].
  - destruct (Z.eqb_spec q p) as [->|Hq].
    + pose proof (nrefs_nonneg p l). split; [intros _; exists t; by left|lia].
    + replace (0 + nrefs p l) with (nrefs p l) by lia. rewrite IH. split; intros [t' Ht]; exists t'; [by right|].
      apply elem_of_cons in Ht as [[= -> ->]|]; done.
Qed.

Lemma nrefs_drop p r l : r ∈ l → nrefs p (drop_ref r l) = nrefs p l - (if r.2 =? p then 1 else 0).
Proof.
  induction l as [|x l IH]; intros Hr; [by apply elem_of_nil in Hr|]. cbn [drop_ref]. case_bool_decide as E; [subst x; cbn [nrefs]; lia|].
  apply elem_of_cons in Hr as [?|Hr]; [congruence|]. cbn [nrefs]. rewrite IH by done. lia.
Qed.
Lemma drop_ref_in x r l : x ∈ drop_ref r l → x ∈ l.
Proof.
  induction l as [|y l IH]; [done|]. cbn [drop_ref]. case_bool_decide; [by right|]. intros [->|H']%elem_of_cons; [by left|right; auto].
Qed.
Lemma drop_ref_other x r l : x ≠ r → x ∈ l → x ∈ drop_ref r l.
Proof.
  intros Hx. induction l as [|y l IH]; [done|]. cbn [drop_ref]. case_bool_decide as E; intros [->|H]%elem_of_cons; try done; [by left|right; auto].
Qed.
Lemma length_drop_ref r l : r ∈ l → S (length (drop_ref r l)) = length l.
Proof.
  induction l as [|y l IH]; [by intros ?%elem_of_nil|]. cbn [drop_ref]. case_bool_decide as E; [done|].
  intros [->|H]%elem_of_cons; [done|]. cbn [length]. f_equal. auto.
Qed.

(** ** The invariant *)

Definition holds (x : pcs) : bool := match x with Found _ | LastLocked _ => true | _ => false end.

Section inv.
Variable C : nat → list Z.
Definition listed (p : Z) : Prop := ∃ i, (i < NHASH)%nat ∧ p ∈ C i.

(** [C i] is list number [i] of the table.  A listed object counts its references; an object that
    is not listed is about to be freed by one thread, and nothing refers to it. *)
Record inv (w : world) : Prop := {
  v_len : length (fh (sh w)) = NHASH;
  v_chain : ∀ i, (i < NHASH)%nat → chain (heap (sh w)) (default 0 (fh (sh w) !! i)) (C i) ∧ NoDup (C i);
  v_obj : ∀ i p, (i < NHASH)%nat → p ∈ C i → ∃ f, heap (sh w) !! p = Some f ∧ HASH (f_id f) = i ∧
            f_count f = nrefs p (refs w) ∧ 1 <= nrefs p (refs w);
  v_heap : ∀ p, is_Some (heap (sh w) !! p) → p ≠ 0 ∧ (listed p ∨ ∃ t, pc w t = Freeing p);
  v_refs : ∀ t p, (t, p) ∈ refs w → listed p;
  v_lock : ∀ p f t, heap (sh w) !! p = Some f → f_lock f = Some t → pc w t = Init p;
  v_hash : ∀ t, hashlock (sh w) = Some t ↔ holds (pc w t) = true;
  v_pc : ∀ t, match pc w t with
              | Idle => True
              | Init p => (t, p) ∈ refs w ∧ ∃ f, heap (sh w) !! p = Some f ∧ f_lock f = Some t
              | Found p => listed p
              | Last p | LastLocked p => (t, p) ∈ refs w
              | Freeing p => (∃ f, heap (sh w) !! p = Some f ∧ f_lock f = None) ∧ ¬ listed p
              end;
  v_free : ∀ t t' p, pc w t = Freeing p → pc w t' = Freeing p → t = t' }.
End inv.

(** ** Preservation *)

(** The lock of the table after thread [t] has gone to [x]. *)
Definition hash_after (w : world) (t : nat) (x : pcs) : option nat :=
  if holds x then Some t else if holds (pc w t) then None else hashlock (sh w).

Lemma hash_after_ok C w t x : inv C w → (holds x = true → hashlock (sh w) = None ∨ holds (pc w t) = true) →
  ∀ t', hash_after w t x = Some t' ↔ holds (<[t := x]> (pc w) t') = true.
Proof.
  intros Hi Hx t'. pose proof (v_hash C w Hi) as Hh. pose proof (proj2 (Hh t)) as Ht. unfold hash_after.
  destruct (decide (t' = t)) as [->|Hne]; [rewrite fn_lookup_insert|rewrite fn_lookup_insert_ne by done].
  - destruct (holds x) eqn:Ex; [done|]. destruct (holds (pc w t)) eqn:Ep; [done|]. rewrite Hh, Ep. done.
  - assert (Hsome : hashlock (sh w) = Some t → holds (pc w t') = true → False) by (intros E ?%Hh; congruence).
    destruct (holds x) eqn:Ex.
    + split; [congruence|]. intros Hp. destruct (Hx eq_refl) as [E|E]; [apply Hh in Hp; congruence|]. exfalso. by apply Hsome; [apply Ht|].
    + destruct (holds (pc w t)) eqn:Ep; [|apply Hh]. split; [done|]. intros Hp. exfalso. by apply Hsome; [apply Ht|].
Qed.

(** Counts, locks and references change; the lists stay. *)
Lemma inv_update C w t x h' refs' : inv C w →
  (∀ q f', h' !! q = Some f' → ∃ f, heap (sh w) !! q = Some f ∧ f_next f' = f_next f ∧ f_id f' = f_id f ∧
     (f_lock f' = f_lock f ∧ pc w t ≠ Init q ∨ f_lock f' = None)) →
  (∀ q, is_Some (heap (sh w) !! q) → is_Some (h' !! q)) →
  (∀ q f f', heap (sh w) !! q = Some f → h' !! q = Some f' → f_lock f' = None → f_lock f = None ∨ f_lock f = Some t) →
  (∀ q f', h' !! q = Some f' → listed C q → f_count f' = nrefs q refs' ∧ 1 <= nrefs q refs') →
  (∀ t' q, (t', q) ∈ refs' → listed C q) →
  (∀ t' q, t' ≠ t → (t', q) ∈ refs w → (t', q) ∈ refs') →
  (∀ q, pc w t ≠ Freeing q) →
  (holds x = true → hashlock (sh w) = None ∨ holds (pc w t) = true) →
  match x with Idle => True | Found q => listed C q | Last q | LastLocked q => (t, q) ∈ refs' | _ => False end →
  inv C (World (Table (fh (sh w)) h' (hash_after w t x)) (<[t := x]> (pc w)) refs').
Proof.
  intros Hi Hh' Hdom Hun Hcnt Hlist Hkeep Hnf Hhold Hx.
  assert (Hfree : ∀ t' q, <[t := x]> (pc w) t' = Freeing q → t' ≠ t ∧ pc w t' = Freeing q).
  { intros t' q. destruct (decide (t' = t)) as [->|Hne]; [rewrite fn_lookup_insert|rewrite fn_lookup_insert_ne by done]; [by intros ->|done]. }
  split; cbn [sh pc refs fh heap hashlock].
  - apply (v_len C w Hi).
  - intros i Hlt. destruct (v_chain C w Hi i Hlt) as [Hc Hd]. split; [|done]. eapply chain_mono; [|exact Hc].
    intros q f _ Hf. destruct (Hdom q) as [f' Hf']; [by eauto|]. exists f'. split; [done|]. destruct (Hh' q f' Hf') as (f0 & ? & ? & _). congruence.
  - intros i q Hlt Hq. destruct (v_obj C w Hi i q Hlt Hq) as (f & Hf & Hid & _). destruct (Hdom q) as [f' Hf']; [by eauto|].
    exists f'. split; [done|]. destruct (Hh' q f' Hf') as (f0 & Hf0 & _ & Ei & _). split; [congruence|]. apply (Hcnt q f' Hf'). by exists i.
  - intros q [f' Hf']. destruct (Hh' q f' Hf') as (f & Hf & _). destruct (v_heap C w Hi q) as [Hn Hor]; [by eauto|]. split; [done|].
    destruct Hor as [?|[t' Ht']]; [by left|right]. exists t'. rewrite fn_lookup_insert_ne; [done|]. intros ->. by destruct (Hnf q).
  - done.
  - intros q f' t' Hf' Hl. destruct (Hh' q f' Hf') as (f & Hf & _ & _ & [[El Hne]|El]); [|congruence]. rewrite El in Hl.
    pose proof (v_lock C w Hi q f t' Hf Hl) as Hp. rewrite fn_lookup_insert_ne; [done|]. by intros ->.
  - apply (hash_after_ok C w t x Hi Hhold).
  - intros t'. destruct (decide (t' = t)) as [->|Hne]; [rewrite fn_lookup_insert|rewrite fn_lookup_insert_ne by done]; [by destruct x|].
    pose proof (v_pc C w Hi t') as Hp. destruct (pc w t') as [|q|q|q|q|q] eqn:Ep; [done| |done|by apply Hkeep..|].
    + destruct Hp as [Hr (f & Hf & Hl)]. split; [by apply Hkeep|]. destruct (Hdom q) as [f' Hf']; [by eauto|]. exists f'. split; [done|].
      destruct (Hh' q f' Hf') as (f0 & Hf0 & _ & _ & [[El _]|El]); [congruence|]. destruct (Hun q f f' Hf Hf' El) as [E|E]; congruence.
    + destruct Hp as [(f & Hf & Hl) Hn]. split; [|done]. destruct (Hdom q) as [f' Hf']; [by eauto|]. exists f'. split; [done|].
      destruct (Hh' q f' Hf') as (f0 & Hf0 & _ & _ & [[El _]|El]); congruence.
  - intros t1 t2 q [_ H1]%Hfree [_ H2]%Hfree. by eapply (v_free C w Hi).
Qed.

(** ** The functions *)

Definition put (s : table) (p : Z) (f : foo) : table := Table (fh s) (<[p := f]> (heap s)) (hashlock s).
Definition with_count (c : Z) (f : foo) : foo := Object c (f_lock f) (f_id f) (f_next f).
Definition with_lock (o : option nat) (f : foo) : foo := Object (f_count f) o (f_id f) (f_next f).
Definition with_hash (s : table) (o : option nat) : table := Table (fh s) (heap s) o.

Lemma foo_load_run p f s : heap s !! p = Some f → load p s = (s, Done f).
Proof. unfold load. by intros ->. Qed.
Lemma put_lookup s p f : heap (put s p f) !! p = Some f.
Proof. apply lookup_insert_eq. Qed.
Lemma put_put s p f g : put (put s p f) p g = put s p g.
Proof. unfold put. cbn. by rewrite insert_insert_eq. Qed.
Lemma put_id s p f : heap s !! p = Some f → put s p f = s.
Proof. intros H. unfold put. rewrite insert_id by done. by destruct s. Qed.

Lemma lock_hash_run t s : lock_hash t s = match hashlock s with None => (with_hash s (Some t), Done tt) | Some _ => (s, Fail Blocked) end.
Proof. unfold lock_hash. rewrite bind_gets. by destruct (hashlock s). Qed.
Lemma lock_run p t f s : heap s !! p = Some f →
  lock p t s = match f_lock f with None => (put s p (with_lock (Some t) f), Done tt) | Some _ => (s, Fail Blocked) end.
Proof. intros H. unfold lock. rewrite (bind_done _ _ _ _ _ (foo_load_run _ _ _ H)). by destruct (f_lock f). Qed.
Lemma unlock_run p f s : heap s !! p = Some f → unlock p s = (put s p (with_lock None f), Done tt).
Proof. intros H. unfold unlock. by rewrite (bind_done _ _ _ _ _ (foo_load_run _ _ _ H)). Qed.
Lemma count_run p d f s : heap s !! p = Some f → count p d s = (put s p (with_count (i32 (f_count f + d)) f), Done tt).
Proof. intros H. unfold count. by rewrite (bind_done _ _ _ _ _ (foo_load_run _ _ _ H)). Qed.

(** The section of a function that runs with the lock of an object: it waits, or changes the
    count and leaves the lock free. *)
Lemma hold2_run t p f s : heap s !! p = Some f →
  Two.foo_hold t p s = match f_lock f with None => (put s p (with_count (i32 (f_count f + 1)) f), Done tt) | Some _ => (s, Fail Blocked) end.
Proof.
  intros H. unfold Two.foo_hold, bind at 1. rewrite (lock_run _ _ _ _ H). destruct (f_lock f) eqn:El; [done|].
  rewrite (bind_done _ _ _ _ _ (count_run _ _ _ _ (put_lookup _ _ _))), put_put, (unlock_run _ _ _ (put_lookup _ _ _)), put_put.
  unfold with_count, with_lock. cbn. by rewrite El.
Qed.

Lemma hold3_run t p f s : heap s !! p = Some f →
  Three.foo_hold t p s = match hashlock s with
    | None => (with_hash (put s p (with_count (i32 (f_count f + 1)) f)) None, Done tt) | Some _ => (s, Fail Blocked) end.
Proof.
  intros H. unfold Three.foo_hold, bind at 1. rewrite lock_hash_run. destruct (hashlock s); [done|]. by rewrite (bind_done _ _ _ _ _ (count_run _ _ _ (with_hash s (Some t)) H)).
Qed.

Lemma try2_run t p f s : heap s !! p = Some f →
  Two.foo_rele_try t p s = match f_lock f with
    | Some _ => (s, Fail Blocked)
    | None => if f_count f =? 1 then (s, Done true) else (put s p (with_count (i32 (f_count f - 1)) f), Done false) end.
Proof.
  intros H. unfold Two.foo_rele_try, bind at 1. rewrite (lock_run _ _ _ _ H). destruct (f_lock f) eqn:El; [done|].
  rewrite (bind_done _ _ _ _ _ (foo_load_run _ _ _ (put_lookup _ _ _))). cbn [f_count with_lock]. destruct (f_count f =? 1).
  - rewrite (bind_done _ _ _ _ _ (unlock_run _ _ _ (put_lookup _ _ _))), put_put. unfold ret. rewrite put_id; [done|].
    rewrite H. f_equal. unfold with_lock. cbn. destruct f. cbn in *. by subst.
  - rewrite (bind_done _ _ _ _ _ (count_run _ _ _ _ (put_lookup _ _ _))), put_put, (bind_done _ _ _ _ _ (unlock_run _ _ _ (put_lookup _ _ _))), put_put.
    unfold ret, with_count, with_lock. cbn. by rewrite El.
Qed.

(** The search: the first object of the list with the number, or none. *)
Lemma foo_find_loop_run id found l : ∀ fuel p s, chain (heap s) p l → (length l < fuel)%nat →
  (∃ q f, q ∈ l ∧ heap s !! q = Some f ∧ f_id f = id ∧ find_loop fuel p id found s = (found q;;; ret q) s) ∨
  find_loop fuel p id found s = (s, Done 0) ∧ ∀ q f, q ∈ l → heap s !! q = Some f → f_id f ≠ id.
Proof.
  induction l as [|q l IH]; intros fuel p s Hc Hf; (destruct fuel as [|fuel]; [cbn in Hf; lia|]); cbn [find_loop].
  - cbn in Hc. subst p. right. split; [done|]. by intros q f ?%elem_of_nil.
  - destruct Hc as (-> & Hq & f & Hlk & Hc). rewrite (proj2 (Z.eqb_neq _ _) Hq), (bind_done _ _ _ _ _ (foo_load_run _ _ _ Hlk)).
    destruct (Z.eqb_spec (f_id f) id) as [E|E]; [left; exists q, f; split_and!; [by left|done..]|].
    cbn in Hf. destruct (IH fuel (f_next f) s Hc ltac:(lia)) as [(q' & f' & Hin & H1 & H2 & H3)|[H1 H2]].
    + left. exists q', f'. split_and!; [by right|done..].
    + right. split; [done|]. intros q' f' [->|Hin]%elem_of_cons Hl; [congruence|by eapply H2].
Qed.

Lemma chain_length h p l : chain h p l → NoDup l → (length l <= size h)%nat.
Proof.
  intros Hc Hd. rewrite <- (size_list_to_set (C := gset Z)) by done. rewrite <- (size_dom (D := gset Z) h). apply subseteq_size.
  intros q Hq. apply elem_of_list_to_set in Hq. apply elem_of_dom. by eapply chain_lookup in Hc as [_ ?].
Qed.

(** The removal of [p] from the list [l1 ++ p :: l2]. *)
Lemma unlink_loop_run p f l2 l1 : ∀ fuel x s, chain (heap s) x (l1 ++ p :: l2) → NoDup (l1 ++ p :: l2) → l1 ≠ [] → heap s !! p = Some f →
  (length l1 <= fuel)%nat →
  ∃ y g, y ∈ l1 ∧ heap s !! y = Some g ∧
    unlink_loop fuel x p (f_next f) s = (put s y (Object (f_count g) (f_lock g) (f_id g) (f_next f)), Done tt) ∧
    chain (<[y := Object (f_count g) (f_lock g) (f_id g) (f_next f)]> (heap s)) x (l1 ++ l2).
Proof.
  induction l1 as [|y l1 IH]; [done|]. intros fuel x s Hc Hd _ Hp Hf. destruct fuel as [|fuel]; [cbn in Hf; lia|].
  cbn [app] in Hc. destruct Hc as (-> & Hy & g & Hg & Hc). cbn [unlink_loop]. rewrite (bind_done _ _ _ _ _ (foo_load_run _ _ _ Hg)).
  cbn [app] in Hd. apply NoDup_cons in Hd as [Hyl Hd]. destruct l1 as [|z l1].
  - destruct Hc as (E & Hp0 & f0 & Hf0 & Hc). assert (f0 = f) as -> by congruence. rewrite E, Z.eqb_refl. exists y, g. split; [by left|]. split; [done|].
    split; [unfold set_next; by rewrite (bind_done _ _ _ _ _ (foo_load_run _ _ _ Hg))|]. cbn [app chain]. split; [done|]. split; [done|].
    eexists. split; [apply lookup_insert_eq|]. cbn [f_next]. eapply chain_mono; [|exact Hc]. intros q h Hq Hlk. exists h. split; [|done].
    rewrite lookup_insert_ne; [done|]. intros ->. apply Hyl. cbn. by right.
  - destruct (Z.eqb_spec (f_next g) p) as [E|E].
    { exfalso. destruct Hc as (E' & _). cbn [app] in Hd. apply NoDup_cons in Hd as [Hz _]. apply Hz. rewrite <- E', E. apply elem_of_app. right. by left. }
    destruct (IH fuel (f_next g) s Hc Hd) as (y' & g' & Hy' & Hg' & Er & Hc'); [done|done|cbn in Hf |- *; lia|].
    exists y', g'. split; [by right|]. split; [done|]. split; [done|]. change ((y :: z :: l1) ++ l2) with (y :: (z :: l1) ++ l2). cbn [chain].
    split; [done|]. split; [done|]. exists g. split; [|done]. rewrite lookup_insert_ne; [done|]. intros ->. apply Hyl. apply elem_of_app. by left.
Qed.

(** What a removal leaves: list number [i] without [p], and everything else. *)
Record removed (s : table) (p : Z) (i : nat) (l : list Z) (fh' : list Z) (h' : gmap Z foo) : Prop := {
  rm_len : length fh' = length (fh s);
  rm_fh : ∀ j, j ≠ i → fh' !! j = fh s !! j;
  rm_chain : chain h' (default 0 (fh' !! i)) l;
  rm_heap : ∀ q g', q ≠ p → h' !! q = Some g' → ∃ g, heap s !! q = Some g ∧ f_count g' = f_count g ∧ f_lock g' = f_lock g ∧ f_id g' = f_id g ∧ (f_next g' = f_next g ∨ q ∈ l);
  rm_dom : ∀ q, is_Some (heap s !! q) → is_Some (h' !! q) }.

Lemma unlink_run s p f l1 l2 : let i := HASH (f_id f) in
  heap s !! p = Some f → (i < length (fh s))%nat → chain (heap s) (default 0 (fh s !! i)) (l1 ++ p :: l2) → NoDup (l1 ++ p :: l2) →
  ∃ fh' h', unlink p s = (Table fh' h' (hashlock s), Done tt) ∧ removed s p i (l1 ++ l2) fh' h' ∧ h' !! p = Some f.
Proof.
  intros i Hp Hi Hc Hd. unfold unlink. rewrite bind_get, (bind_done _ _ _ _ _ (foo_load_run _ _ _ Hp)). unfold bucket. rewrite bind_gets. fold i.
  destruct l1 as [|x l1].
  - destruct Hc as (E & _ & f0 & Hf0 & Hc). assert (f0 = f) as -> by congruence. rewrite E, Z.eqb_refl.
    exists (<[i := f_next f]> (fh s)), (heap s). split; [done|]. split; [|done]. split.
    + by rewrite length_insert.
    + intros j Hj. by rewrite list_lookup_insert_ne.
    + by rewrite list_lookup_insert_eq.
    + intros q g' _ Hg. exists g'. by split_and!; [..|left].
    + done.
  - pose proof (chain_length _ _ _ Hc Hd) as Hlen. rewrite length_app in Hlen. cbn [length] in Hlen.
    destruct (unlink_loop_run p f l2 (x :: l1) (size (heap s)) _ s Hc Hd) as (y & g & Hy & Hg & E & Hc'); [done|done|cbn; lia|].
    assert (Hne : default 0 (fh s !! i) ≠ p).
    { destruct Hc as (-> & _). intros ->. cbn [app] in Hd. apply NoDup_cons in Hd as [Hx _]. apply Hx. apply elem_of_app. right. by left. }
    rewrite (proj2 (Z.eqb_neq _ _) Hne), E. eexists _, _. split; [done|]. assert (y ≠ p).
    { intros ->. apply NoDup_app in Hd as (_ & Hdis & _). apply (Hdis p Hy). by left. }
    split; [|by rewrite lookup_insert_ne]. split; [done|done|exact Hc'| |].
    + intros q g' _ Hq. apply lookup_insert_Some in Hq as [[<- <-]|[_ Hq]]; [|exists g'; by split_and!; [..|left]].
      exists g. split_and!; [done..|]. right. apply elem_of_app. by left.
    + intros q Hq. rewrite lookup_insert. by case_decide.
Qed.

(** The removed object itself may have been changed before. *)
Lemma removed_touch s p g i l fh' h' : is_Some (heap s !! p) → removed (put s p g) p i l fh' h' → removed s p i l fh' h'.
Proof.
  intros Hp [H1 H2 H3 H4 H5]. split; [done..| |].
  - intros q g' Hq Hg. destruct (H4 q g' Hq Hg) as (g0 & Hg0 & ?). cbn in Hg0. rewrite lookup_insert_ne in Hg0 by done. by exists g0.
  - intros q Hq. apply H5. cbn. rewrite lookup_insert. case_decide; eauto.
Qed.

(** The last reference is dropped and the object leaves the table. *)
Section remove.
Variables (C : nat → list Z) (w : world) (t : nat) (p : Z) (f f2 : foo) (l1 l2 fh' : list Z) (h' : gmap Z foo).
Let i := HASH (f_id f).
Let C' := <[i := l1 ++ l2]> C.
Let h2 := <[p := f2]> h'.
Hypothesis Hi : inv C w.
Hypothesis Hp : heap (sh w) !! p = Some f.
Hypothesis HC : C i = l1 ++ p :: l2.
Hypothesis Hr : (t, p) ∈ refs w.
Hypothesis Hn : nrefs p (refs w) = 1.
Hypothesis Hrm : removed (sh w) p i (l1 ++ l2) fh' h'.

Lemma rm_nodup : (p ∉ l1 ++ l2) ∧ NoDup (l1 ++ l2).
Proof using All.
  destruct (v_chain C w Hi i (HASH_lt _)) as [_ Hd]. rewrite HC in Hd. apply NoDup_app in Hd as (H1 & H2 & [H3 H4]%NoDup_cons). split.
  - rewrite elem_of_app. intros [H|H]; [by apply (H2 p H); left|done].
  - apply NoDup_app. split_and!; [done| |done]. intros q Hq Hq2. apply (H2 q Hq). by right.
Qed.

Lemma rm_sub j q : (j < NHASH)%nat → q ∈ C' j → q ∈ C j ∧ q ≠ p.
Proof using All.
  intros Hj Hq. unfold C' in Hq. destruct (decide (j = i)) as [->|Hne].
  - rewrite fn_lookup_insert in Hq. rewrite HC. split; [|intros ->; by apply rm_nodup].
    apply elem_of_app in Hq. rewrite elem_of_app, elem_of_cons. tauto.
  - rewrite fn_lookup_insert_ne in Hq by done. split; [done|]. intros ->. destruct (v_obj C w Hi j p Hj Hq) as (f0 & ? & ? & _).
    apply Hne. unfold i. congruence.
Qed.

Lemma rm_listed q : listed C q → q ≠ p → listed C' q.
Proof using All.
  intros (j & Hj & Hq) Hne. exists j. split; [done|]. unfold C'. destruct (decide (j = i)) as [->|Hji]; [rewrite fn_lookup_insert|by rewrite fn_lookup_insert_ne].
  rewrite HC, elem_of_app, elem_of_cons in Hq. apply elem_of_app. naive_solver.
Qed.

Lemma rm_not_listed : ¬ listed C' p.
Proof using All. intros (j & Hj & Hq). by destruct (rm_sub j p Hj Hq). Qed.
Lemma rm_was_listed : listed C p.
Proof using All. exists i. split; [apply HASH_lt|]. rewrite HC. apply elem_of_app. right. by left. Qed.

Lemma rm_other t' q : (t', q) ∈ drop_ref (t, p) (refs w) → q ≠ p.
Proof using All.
  intros Hq ->. pose proof (nrefs_drop p (t, p) (refs w) Hr) as E. cbn in E. rewrite Z.eqb_refl in E.
  assert (1 <= nrefs p (drop_ref (t, p) (refs w))) by (apply nrefs_pos; by exists t'). lia.
Qed.
Lemma rm_kept t' q : t' ≠ t → (t', q) ∈ refs w → (t', q) ∈ drop_ref (t, p) (refs w).
Proof using All. intros. apply drop_ref_other; congruence. Qed.

Lemma rm_get q g' : q ≠ p → h2 !! q = Some g' →
  ∃ g, heap (sh w) !! q = Some g ∧ f_count g' = f_count g ∧ f_lock g' = f_lock g ∧ f_id g' = f_id g.
Proof using All.
  intros Hq. unfold h2. rewrite lookup_insert_ne by done. intros Hg. destruct (rm_heap _ _ _ _ _ _ Hrm q g' Hq Hg) as (g & ? & ? & ? & ? & _). by exists g.
Qed.
Lemma rm_set q : is_Some (heap (sh w) !! q) → is_Some (h2 !! q).
Proof using All. intros Hq. unfold h2. rewrite lookup_insert. case_decide; [by eauto|]. by apply (rm_dom _ _ _ _ _ _ Hrm). Qed.

Lemma rm_chains j : (j < NHASH)%nat → chain h2 (default 0 (fh' !! j)) (C' j) ∧ NoDup (C' j).
Proof using All.
  intros Hj. assert (Hfrom : ∀ x l, chain h' x l → (p ∉ l) → chain h2 x l).
  { intros x l Hc Hpl. eapply chain_mono; [|exact Hc]. intros q g Hq Hg. exists g. split; [|done]. unfold h2. rewrite lookup_insert_ne; [done|]. by intros ->. }
  unfold C'. destruct (decide (j = i)) as [->|Hji].
  - rewrite fn_lookup_insert. split; [|apply rm_nodup]. apply Hfrom; [apply (rm_chain _ _ _ _ _ _ Hrm)|apply rm_nodup].
  - rewrite fn_lookup_insert_ne, (rm_fh _ _ _ _ _ _ Hrm) by done. destruct (v_chain C w Hi j Hj) as [Hc Hd]. split; [|done].
    assert (Hin : ∀ q, q ∈ C j → q ∉ C i).
    { intros q H1 H2. destruct (v_obj C w Hi j q Hj H1) as (f1 & E1 & Eh1 & _). destruct (v_obj C w Hi i q (HASH_lt _) H2) as (f3 & E3 & Eh3 & _). congruence. }
    apply Hfrom; [|intros Hpj; apply (Hin p Hpj); rewrite HC; apply elem_of_app; right; by left]. eapply chain_mono; [|exact Hc].
    intros q g Hq Hg. destruct (rm_dom _ _ _ _ _ _ Hrm q) as [g' Hg']; [by eauto|]. exists g'. split; [done|].
    destruct (rm_heap _ _ _ _ _ _ Hrm q g') as (g0 & E0 & _ & _ & _ & [En|Hl]); [by intros ->; apply (Hin p Hq); rewrite HC; apply elem_of_app; right; left|done|congruence|]. exfalso. apply (Hin q Hq). rewrite HC.
    apply elem_of_app in Hl. rewrite elem_of_app, elem_of_cons. tauto.
Qed.

Lemma inv_remove : f_lock f2 = None → (∀ q, pc w t ≠ Freeing q) → (∀ q, pc w t ≠ Init q) → (∀ t', pc w t' ≠ Found p) →
  inv C' (World (Table fh' h2 (hash_after w t (Freeing p))) (<[t := Freeing p]> (pc w)) (drop_ref (t, p) (refs w))).
Proof using All.
  intros Hl2 Hnf Hni Hnfo.
  assert (Hpc : ∀ t' q, pc w t' = Freeing q → q ≠ p).
  { intros t' q E ->. pose proof (v_pc C w Hi t') as H. rewrite E in H. destruct H as [_ H]. apply H, rm_was_listed. }
  split; cbn [sh pc refs fh heap hashlock].
  - rewrite (rm_len _ _ _ _ _ _ Hrm). apply (v_len C w Hi).
  - apply rm_chains.
  - intros j q Hj Hq. destruct (rm_sub j q Hj Hq) as [Hq' Hne]. destruct (v_obj C w Hi j q Hj Hq') as (g & Hg & Hid & Hc & H1).
    destruct (rm_set q) as [g' Hg']; [by eauto|]. exists g'. split; [done|]. destruct (rm_get q g' Hne Hg') as (g0 & ? & ? & _ & ?).
    rewrite nrefs_drop by done. cbn [snd]. rewrite (proj2 (Z.eqb_neq p q)) by done. split_and!; [congruence|lia || (assert (g0 = g) by congruence; subst; lia)|lia].
  - intros q [g' Hg']. destruct (decide (q = p)) as [->|Hne].
    + split; [apply (v_heap C w Hi p); by eauto|]. right. exists t. by rewrite fn_lookup_insert.
    + destruct (rm_get q g' Hne Hg') as (g & Hg & _). destruct (v_heap C w Hi q) as [H0 Hor]; [by eauto|]. split; [done|].
      destruct Hor as [Hl|[t' Ht']]; [left; by apply rm_listed|right]. exists t'. rewrite fn_lookup_insert_ne; [done|]. intros ->. by destruct (Hnf q).
  - intros t' q Hq. apply rm_listed; [|by eapply rm_other]. apply drop_ref_in in Hq. by apply (v_refs C w Hi) in Hq.
  - intros q g' t' Hg' El. destruct (decide (q = p)) as [->|Hne]; [unfold h2 in Hg'; rewrite lookup_insert_eq in Hg'; congruence|].
    destruct (rm_get q g' Hne Hg') as (g & Hg & _ & Egl & _). pose proof (v_lock C w Hi q g t' Hg ltac:(congruence)) as H.
    rewrite fn_lookup_insert_ne; [done|]. intros ->. by destruct (Hni q).
  - by apply (hash_after_ok C).
  - intros t'. destruct (decide (t' = t)) as [->|Hne]; [rewrite fn_lookup_insert|rewrite fn_lookup_insert_ne by done].
    { split; [|apply rm_not_listed]. exists f2. split; [apply lookup_insert_eq|done]. }
    pose proof (v_pc C w Hi t') as H. destruct (pc w t') as [|q|q|q|q|q] eqn:E; [done| | |by apply rm_kept..|].
    + destruct H as [Hq (g & Hg & Hgl)]. pose proof (rm_kept t' q Hne Hq) as Hk. split; [done|]. destruct (rm_set q) as [g' Hg']; [by eauto|].
      exists g'. split; [done|]. destruct (rm_get q g' (rm_other _ _ Hk) Hg') as (g0 & ? & _ & ? & _). congruence.
    + apply rm_listed; [done|]. intros ->. by destruct (Hnfo t').
    + destruct H as [(g & Hg & Hgl) Hnl]. split.
      * destruct (rm_set q) as [g' Hg']; [by eauto|]. exists g'. split; [done|]. destruct (rm_get q g' (Hpc t' q E) Hg') as (g0 & ? & _ & ? & _). congruence.
      * intros (j & Hj & Hq). apply Hnl. exists j. split; [done|]. by destruct (rm_sub j q Hj Hq).
  - intros t1 t2 q. destruct (decide (t1 = t)) as [->|H1], (decide (t2 = t)) as [->|H2]; rewrite ?fn_lookup_insert, ?fn_lookup_insert_ne by done; try done.
    + intros [= <-] E. by destruct (Hpc t2 p E).
    + intros E [= <-]. by destruct (Hpc t1 p E).
    + apply (v_free C w Hi).
Qed.
End remove.

(** A new object at the head of its list. *)
Lemma alloc_run t p id s : 
  foo_alloc_insert t p id s = match hashlock s with
    | None => (Table (<[HASH id := p]> (fh s)) (<[p := Object 1 (Some t) id (default 0 (fh s !! HASH id))]> (heap s)) None, Done tt)
    | Some _ => (put s p (Object 1 None id 0), Fail Blocked) end.
Proof.
  unfold foo_alloc_insert, store. rewrite bind_modify. fold (put s p (Object 1 None id 0)). set (s1 := put s p _).
  unfold bind at 1. rewrite lock_hash_run. change (hashlock s1) with (hashlock s). destruct (hashlock s); [done|]. cbn beta iota.
  unfold bucket. rewrite bind_gets. unfold set_next. rewrite bind_assoc.
  rewrite (bind_done _ _ _ _ _ (foo_load_run p (Object 1 None id 0) (with_hash s1 (Some t)) (put_lookup _ _ _))). unfold store. rewrite bind_modify.
  unfold set_bucket. rewrite bind_modify. cbn [fh heap hashlock with_hash s1 put f_count f_lock f_id].
  unfold bind at 1. erewrite lock_run by apply lookup_insert_eq. cbn [f_lock]. unfold unlock_hash, set_hashlock, modify, put, with_lock. cbn.
  by rewrite !insert_insert_eq.
Qed.

Lemma inv_fresh C w p : inv C w → heap (sh w) !! p = None → ¬ listed C p ∧ nrefs p (refs w) = 0 ∧ ∀ t, pc w t ≠ Freeing p.
Proof.
  intros Hi Hp. assert (Hl : ¬ listed C p) by (intros (i & Hlt & Hin); destruct (v_obj C w Hi i p Hlt Hin) as (f & ? & _); congruence).
  split; [done|]. split.
  - pose proof (nrefs_nonneg p (refs w)). destruct (decide (nrefs p (refs w) = 0)) as [|Hne]; [done|]. exfalso.
    assert (∃ t, (t, p) ∈ refs w) as [t Ht] by (apply nrefs_pos; lia). by apply (v_refs C w Hi) in Ht.
  - intros t E. pose proof (v_pc C w Hi t) as H. rewrite E in H. destruct H as [(f & ? & _) _]. congruence.
Qed.

Lemma inv_insert C w t p id : inv C w → pc w t = Idle → p ≠ 0 → heap (sh w) !! p = None → hashlock (sh w) = None →
  inv (<[HASH id := p :: C (HASH id)]> C)
    (World (Table (<[HASH id := p]> (fh (sh w))) (<[p := Object 1 (Some t) id (default 0 (fh (sh w) !! HASH id))]> (heap (sh w))) None)
       (<[t := Init p]> (pc w)) ((t, p) :: refs w)).
Proof.
  intros Hi Hpc Hp0 Hp Hh. destruct (inv_fresh C w p Hi Hp) as (Hnl & Hn & Hnf). set (i := HASH id). set (C' := <[i := _]> C). set (f := Object _ _ _ _).
  assert (Hlt : (i < NHASH)%nat) by apply HASH_lt.
  assert (HC : ∀ j q, q ∈ C' j ↔ q ∈ C j ∨ j = i ∧ q = p).
  { intros j q. unfold C'. destruct (decide (j = i)) as [->|Hne]; [rewrite fn_lookup_insert, elem_of_cons|rewrite fn_lookup_insert_ne by done]; naive_solver. }
  assert (Hl : ∀ q, listed C q → listed C' q) by (intros q (j & Hj & Hq); exists j; split; [done|apply HC; by left]).
  assert (Hl' : ∀ q, listed C' q → listed C q ∨ q = p) by (intros q (j & Hj & [Hq|[_ ->]]%HC); [left; by exists j|by right]).
  assert (Hne : ∀ q, is_Some (heap (sh w) !! q) → q ≠ p) by (intros q [g Hg] ->; congruence).
  split; cbn [sh pc refs fh heap hashlock].
  - rewrite length_insert. apply (v_len C w Hi).
  - intros j Hj. destruct (v_chain C w Hi j Hj) as [Hc Hd].
    assert (Hc' : chain (<[p := f]> (heap (sh w))) (default 0 (fh (sh w) !! j)) (C j)).
    { eapply chain_mono; [|exact Hc]. intros q g _ Hg. exists g. split; [|done]. rewrite lookup_insert_ne; [done|]. intros ->. congruence. }
    unfold C'. destruct (decide (j = i)) as [->|Hji].
    + rewrite fn_lookup_insert, list_lookup_insert_eq by (by rewrite (v_len C w Hi)). split.
      * split; [done|]. split; [done|]. exists f. split; [apply lookup_insert_eq|done].
      * apply NoDup_cons. split; [|done]. intros Hin. apply Hnl. by exists i.
    + by rewrite fn_lookup_insert_ne, list_lookup_insert_ne by done.
  - intros j q Hj [Hq|[-> ->]]%HC.
    + destruct (v_obj C w Hi j q Hj Hq) as (g & Hg & Hid & Hc & H1). exists g. assert (q ≠ p) by (apply Hne; by eauto).
      rewrite lookup_insert_ne by done. cbn [nrefs snd]. rewrite (proj2 (Z.eqb_neq p q)) by done. split_and!; [done|done|lia|lia].
    + exists f. rewrite lookup_insert_eq. cbn [nrefs snd]. rewrite Z.eqb_refl, Hn. split_and!; [done..|lia].
  - intros q. rewrite lookup_insert. case_decide as E.
    { subst q. intros _. split; [done|]. left. exists i. split; [done|]. apply HC. by right. }
    intros Hq. destruct (v_heap C w Hi q Hq) as [H0 [Hor|[t' Ht']]]; (split; [done|]); [left; by apply Hl|right]. exists t'.
    rewrite fn_lookup_insert_ne; [done|]. intros ->. congruence.
  - intros t' q [[= -> ->]|Hq]%elem_of_cons; [exists i; split; [done|]; apply HC; by right|]. apply Hl. by apply (v_refs C w Hi) in Hq.
  - intros q g t'. rewrite lookup_insert. case_decide as E; [subst q; intros [= <-] [= <-]; by rewrite fn_lookup_insert|]. intros Hg El.
    pose proof (v_lock C w Hi q g t' Hg El) as H. rewrite fn_lookup_insert_ne; [done|]. intros ->. congruence.
  - intros t'. pose proof (v_hash C w Hi t') as H. rewrite Hh in H. destruct (decide (t' = t)) as [->|Ht]; [by rewrite fn_lookup_insert|by rewrite fn_lookup_insert_ne].
  - intros t'. destruct (decide (t' = t)) as [->|Ht]; [rewrite fn_lookup_insert|rewrite fn_lookup_insert_ne by done].
    { split; [by left|]. exists f. by rewrite lookup_insert_eq. }
    pose proof (v_pc C w Hi t') as H. destruct (pc w t') as [|q|q|q|q|q] eqn:E; [done| |by apply Hl|by right..|].
    + destruct H as [Hq (g & Hg & ?)]. split; [by right|]. exists g. rewrite lookup_insert_ne; [done|]. intros ->. congruence.
    + destruct H as [(g & Hg & ?) Hnq]. split; [exists g; rewrite lookup_insert_ne; [done|]; intros ->; congruence|].
      intros [?| ->]%Hl'; [done|]. congruence.
  - intros t1 t2 q. destruct (decide (t1 = t)) as [->|H1], (decide (t2 = t)) as [->|H2]; rewrite ?fn_lookup_insert, ?fn_lookup_insert_ne by done; try done.
    apply (v_free C w Hi).
Qed.

(** Only one listed object changes, in its count or lock. *)
Lemma inv_touch C w t x p f f' refs' : inv C w → listed C p → heap (sh w) !! p = Some f →
  f_next f' = f_next f → f_id f' = f_id f →
  f_lock f' = f_lock f ∧ pc w t ≠ Init p ∨ f_lock f' = None ∧ f_lock f = Some t →
  (∀ q, pc w t = Init q → q = p) → (∀ q, pc w t ≠ Freeing q) →
  f_count f' = nrefs p refs' → 1 <= nrefs p refs' → (∀ q, q ≠ p → nrefs q refs' = nrefs q (refs w)) →
  (∀ t' q, (t', q) ∈ refs' → (t', q) ∈ refs w ∨ q = p) →
  (∀ t' q, t' ≠ t → (t', q) ∈ refs w → (t', q) ∈ refs') →
  (holds x = true → hashlock (sh w) = None ∨ holds (pc w t) = true) →
  match x with Idle => True | Found q => listed C q | Last q | LastLocked q => (t, q) ∈ refs' | _ => False end →
  inv C (World (Table (fh (sh w)) (<[p := f']> (heap (sh w))) (hash_after w t x)) (<[t := x]> (pc w)) refs').
Proof.
  intros Hi Hl Hf En Ei Elk HInit Hnf Hc H1 Hoth Hsub Hkeep Hhold Hx.
  assert (Hget : ∀ q g', <[p := f']> (heap (sh w)) !! q = Some g' → q = p ∧ g' = f' ∨ q ≠ p ∧ heap (sh w) !! q = Some g').
  { intros q g' [[<- <-]|[? ?]]%lookup_insert_Some; [by left|by right]. }
  apply inv_update; try done.
  - intros q g' [[-> ->]|[Hq Hg]]%Hget.
    + exists f. split_and!; [done..|]. destruct Elk as [?|[? _]]; [by left|by right].
    + exists g'. split_and!; [done..|]. left. split; [done|]. intros E. by apply HInit in E.
  - intros q Hq. rewrite lookup_insert. case_decide; eauto.
  - intros q g g' Hg [[-> ->]|[Hq Hg']]%Hget Hn; [|left; congruence]. assert (g = f) as -> by congruence.
    destruct Elk as [[E _]|[_ E]]; [left; congruence|by right].
  - intros q g' [[-> ->]|[Hq Hg]]%Hget Hlq; [done|]. rewrite Hoth by done. destruct Hlq as (i & Hlt & Hin).
    destruct (v_obj C w Hi i q Hlt Hin) as (g & Hg' & _ & ? & ?). assert (g = g') as -> by congruence. done.
  - intros t' q [Hq| ->]%Hsub; [by apply (v_refs C w Hi) in Hq|done].
Qed.

(** Nothing but the thread, the lock of the table and the owners of the references changes. *)
Lemma inv_move C w t x refs' : inv C w → (∀ q, pc w t ≠ Init q) → (∀ q, pc w t ≠ Freeing q) →
  (∀ q, nrefs q refs' = nrefs q (refs w)) → (∀ t' q, t' ≠ t → (t', q) ∈ refs w → (t', q) ∈ refs') →
  (holds x = true → hashlock (sh w) = None ∨ holds (pc w t) = true) →
  match x with Idle => True | Found q => listed C q | Last q | LastLocked q => (t, q) ∈ refs' | _ => False end →
  inv C (World (Table (fh (sh w)) (heap (sh w)) (hash_after w t x)) (<[t := x]> (pc w)) refs').
Proof.
  intros Hi HInit Hnf Hn Hkeep Hhold Hx. apply inv_update; try done.
  - intros q g Hg. exists g. split_and!; [done..|]. by left.
  - intros q f f' Hf Hf' El. left. congruence.
  - intros q g Hg (i & Hlt & Hin). destruct (v_obj C w Hi i q Hlt Hin) as (g' & ? & _ & ? & ?). rewrite Hn. assert (g = g') as -> by congruence. done.
  - intros t' q Hq. assert (∃ t0, (t0, q) ∈ refs w) as [t0 H0] by (apply nrefs_pos; rewrite <- Hn; apply nrefs_pos; by exists t').
    by apply (v_refs C w Hi) in H0.
Qed.

Lemma inv_free C w t p : inv C w → pc w t = Freeing p →
  inv C (World (Table (fh (sh w)) (delete p (heap (sh w))) (hashlock (sh w))) (<[t := Idle]> (pc w)) (refs w)).
Proof.
  intros Hi Hpc. pose proof (v_pc C w Hi t) as Ht. rewrite Hpc in Ht. destruct Ht as [(f & Hf & Hlk) Hnl].
  assert (Hne : ∀ q, listed C q → q ≠ p) by (by intros q Hq ->).
  assert (Hget : ∀ q g, q ≠ p → heap (sh w) !! q = Some g → delete p (heap (sh w)) !! q = Some g) by (intros; by rewrite lookup_delete_ne).
  assert (Hown : ∀ t' q, t' ≠ t → pc w t' = Freeing q → q ≠ p) by (intros t' q Ht E ->; by apply Ht, (v_free C w Hi t' t p)).
  split; cbn [sh pc refs fh heap hashlock].
  - apply (v_len C w Hi).
  - intros i Hlt. destruct (v_chain C w Hi i Hlt) as [Hc Hd]. split; [|done]. eapply chain_mono; [|exact Hc].
    intros q g Hq Hg. exists g. split; [|done]. apply Hget; [|done]. apply Hne. by exists i.
  - intros i q Hlt Hq. destruct (v_obj C w Hi i q Hlt Hq) as (g & Hg & ?). exists g. split; [|done]. apply Hget; [|done]. apply Hne. by exists i.
  - intros q [g [? Hg]%lookup_delete_Some]. destruct (v_heap C w Hi q) as [H0 [?|[t' Ht']]]; [by eauto|by auto|]. split; [done|]. right. exists t'.
    rewrite fn_lookup_insert_ne; [done|]. intros ->. congruence.
  - apply (v_refs C w Hi).
  - intros q g t' [? Hg]%lookup_delete_Some El. pose proof (v_lock C w Hi q g t' Hg El). rewrite fn_lookup_insert_ne; [done|]. intros ->. congruence.
  - intros t'. pose proof (v_hash C w Hi t') as H. destruct (decide (t' = t)) as [->|Hn]; [rewrite fn_lookup_insert|by rewrite fn_lookup_insert_ne].
    by rewrite Hpc in H.
  - intros t'. destruct (decide (t' = t)) as [->|Hn]; [by rewrite fn_lookup_insert|rewrite fn_lookup_insert_ne by done].
    pose proof (v_pc C w Hi t') as H. destruct (pc w t') as [|q|q|q|q|q] eqn:E; try done.
    + destruct H as [Hq (g & Hg & ?)]. split; [done|]. exists g. split; [|done]. apply Hget; [|done]. apply Hne. by apply (v_refs C w Hi) in Hq.
    + destruct H as [(g & Hg & ?) ?]. split; [|done]. exists g. split; [|done]. apply Hget; [|done]. by eapply Hown.
  - intros t1 t2 q. destruct (decide (t1 = t)) as [->|H1], (decide (t2 = t)) as [->|H2]; rewrite ?fn_lookup_insert, ?fn_lookup_insert_ne by done; try done.
    apply (v_free C w Hi).
Qed.

(** A listed object. *)
Lemma inv_listed C w p : inv C w → listed C p →
  ∃ f, heap (sh w) !! p = Some f ∧ p ∈ C (HASH (f_id f)) ∧ f_count f = nrefs p (refs w) ∧ 1 <= nrefs p (refs w).
Proof. intros Hi (i & Hlt & Hin). destruct (v_obj C w Hi i p Hlt Hin) as (f & Hf & <- & ?). by exists f. Qed.

Lemma unlink_inv C w p f g o : inv C w → heap (sh w) !! p = Some f → listed C p → f_id g = f_id f → f_next g = f_next f →
  ∃ l1 l2 fh' h', C (HASH (f_id f)) = l1 ++ p :: l2 ∧ unlink p (with_hash (put (sh w) p g) o) = (Table fh' h' o, Done tt) ∧
    removed (sh w) p (HASH (f_id f)) (l1 ++ l2) fh' h' ∧ h' !! p = Some g.
Proof.
  intros Hi Hf Hl Ei En. destruct (inv_listed C w p Hi Hl) as (f0 & Hf0 & Hin & _). assert (f0 = f) as -> by congruence.
  apply list_elem_of_split in Hin as (l1 & l2 & HC). destruct (v_chain C w Hi (HASH (f_id f)) (HASH_lt _)) as [Hc Hd]. rewrite HC in Hc, Hd.
  destruct (unlink_run (with_hash (put (sh w) p g) o) p g l1 l2) as (fh' & h' & E & Hrm & Hg).
  - cbn. apply lookup_insert_eq.
  - cbn. rewrite (v_len C w Hi). apply HASH_lt.
  - cbn [fh heap with_hash put]. rewrite Ei. eapply chain_mono; [|exact Hc]. intros q q' _ Hq. rewrite lookup_insert.
    case_decide as E; [subst q; exists g; split; [done|]; congruence|by exists q'].
  - done.
  - exists l1, l2, fh', h'. split; [done|]. split; [exact E|]. split; [|done]. rewrite Ei in Hrm. apply (removed_touch (sh w) p g); [by eauto|].
    destruct Hrm as [? ? ? ? ?]. by split.
Qed.

Lemma i32_count n d : 1 <= n → -1 <= d <= 1 → n + d <= INT_MAX → i32 (n + d) = n + d.
Proof. intros. apply i32_id. unfold INT_MAX in *. lia. Qed.

(** [foo_rele] of mutex3.c. *)
Lemma rele3_run C w t p f : inv C w → listed C p → heap (sh w) !! p = Some f → hashlock (sh w) = None → nrefs p (refs w) <= INT_MAX →
  if nrefs p (refs w) =? 1 then
    ∃ l1 l2 fh' h', C (HASH (f_id f)) = l1 ++ p :: l2 ∧ Three.foo_rele_drop t p (sh w) = (Table fh' (<[p := with_count 0 f]> h') None, Done true) ∧
      removed (sh w) p (HASH (f_id f)) (l1 ++ l2) fh' h'
  else Three.foo_rele_drop t p (sh w) = (Table (fh (sh w)) (<[p := with_count (nrefs p (refs w) - 1) f]> (heap (sh w))) None, Done false).
Proof.
  intros Hi Hl Hf Hh Hb. destruct (inv_listed C w p Hi Hl) as (f0 & Hf0 & _ & Hc & H1). assert (f0 = f) as -> by congruence.
  assert (E : Three.foo_rele_drop t p (sh w) = (if nrefs p (refs w) - 1 =? 0 then unlink p;;; unlock_hash;;; ret true else unlock_hash;;; ret false)
    (with_hash (put (sh w) p (with_count (nrefs p (refs w) - 1) f)) (Some t))).
  { unfold Three.foo_rele_drop, bind at 1. rewrite lock_hash_run, Hh. rewrite (bind_done _ _ _ _ _ (count_run p (-1) f (with_hash (sh w) (Some t)) Hf)).
    rewrite Hc, i32_count by lia. rewrite (bind_done _ _ _ _ _ (foo_load_run _ _ _ (put_lookup _ _ _))). cbn [f_count with_count]. done. }
  rewrite E. destruct (Z.eqb_spec (nrefs p (refs w)) 1) as [En|En].
  - rewrite En. change (1 - 1) with 0. cbn [Z.eqb]. destruct (unlink_inv C w p f (with_count 0 f) (Some t) Hi Hf Hl eq_refl eq_refl) as (l1 & l2 & fh' & h' & HC & Eu & Hrm & Hg).
    exists l1, l2, fh', h'. split; [done|]. split; [|done]. rewrite (bind_done _ _ _ _ _ Eu). rewrite insert_id by done. done.
  - rewrite (proj2 (Z.eqb_neq _ _)) by lia. done.
Qed.

(** The section of [foo_rele] of mutex2.c with both locks. *)
Lemma last2_run C w t p f : inv C w → listed C p → heap (sh w) !! p = Some f → nrefs p (refs w) <= INT_MAX →
  match f_lock f with
  | Some _ => Two.foo_rele_last t p (sh w) = (sh w, Fail Blocked)
  | None =>
    if nrefs p (refs w) =? 1 then
      ∃ l1 l2 fh' h', C (HASH (f_id f)) = l1 ++ p :: l2 ∧ Two.foo_rele_last t p (sh w) = (Table fh' (<[p := f]> h') None, Done true) ∧
        removed (sh w) p (HASH (f_id f)) (l1 ++ l2) fh' h'
    else Two.foo_rele_last t p (sh w) = (Table (fh (sh w)) (<[p := with_count (nrefs p (refs w) - 1) f]> (heap (sh w))) None, Done false)
  end.
Proof.
  intros Hi Hl Hf Hb. destruct (inv_listed C w p Hi Hl) as (f0 & Hf0 & _ & Hc & H1). assert (f0 = f) as -> by congruence.
  pose proof (lock_run p t f (sh w) Hf) as El. unfold Two.foo_rele_last. destruct (f_lock f) eqn:Elk; [unfold bind; by rewrite El|].
  rewrite (bind_done _ _ _ _ _ El).
  rewrite (bind_done _ _ _ _ _ (foo_load_run _ _ _ (put_lookup _ _ _))). cbn [f_count with_lock]. rewrite Hc.
  destruct (Z.eqb_spec (nrefs p (refs w)) 1) as [En|En]; cbn [negb].
  - destruct (unlink_inv C w p f (with_lock (Some t) f) (hashlock (sh w)) Hi Hf Hl eq_refl eq_refl) as (l1 & l2 & fh' & h' & HC & Eu & Hrm & Hg).
    exists l1, l2, fh', h'. split; [done|]. split; [|done]. change (with_hash (put _ _ _) _) with (put (sh w) p (with_lock (Some t) f)) in Eu.
    rewrite (bind_done _ _ _ _ _ Eu). unfold unlock_hash, set_hashlock. rewrite bind_modify.
    rewrite (bind_done _ _ _ _ _ (unlock_run p _ (Table fh' h' None) Hg)). unfold ret, put. cbn [fh heap hashlock].
    do 4 f_equal. unfold with_lock. cbn. destruct f. cbn in *. by subst.
  - rewrite (bind_done _ _ _ _ _ (count_run _ _ _ _ (put_lookup _ _ _))), put_put. cbn [f_count with_lock]. rewrite Hc, i32_count by lia.
    rewrite (bind_done _ _ _ _ _ (unlock_run _ _ _ (put_lookup _ _ _))), put_put. unfold unlock_hash, set_hashlock. rewrite bind_modify. unfold ret, put. cbn [fh heap hashlock].
    do 4 f_equal. unfold with_lock, with_count. cbn. by rewrite Elk.
Qed.

Lemma find_run C w id found o : inv C w → let s := with_hash (sh w) o in
  (∃ q f, listed C q ∧ heap (sh w) !! q = Some f ∧ f_id f = id ∧ find id found s = (found q;;; ret q) s) ∨
  find id found s = (s, Done 0) ∧ ∀ q f, listed C q → heap (sh w) !! q = Some f → f_id f ≠ id.
Proof.
  intros Hi s. destruct (v_chain C w Hi (HASH id) (HASH_lt _)) as [Hc Hd]. pose proof (chain_length _ _ _ Hc Hd) as Hlen.
  unfold find. rewrite bind_get. unfold bucket. rewrite bind_gets. cbn [fh heap s with_hash].
  destruct (foo_find_loop_run id found (C (HASH id)) (S (size (heap (sh w)))) (default 0 (fh (sh w) !! HASH id)) s Hc ltac:(lia))
    as [(q & f & Hin & Hf & Hid & E)|[E Hno]]; [left|right].
  - exists q, f. split; [by exists (HASH id)|done].
  - split; [done|]. intros q f (i & Hlt & Hin) Hf Hid. destruct (v_obj C w Hi i q Hlt Hin) as (f' & Hf' & Eh & _).
    assert (f' = f) as -> by congruence. rewrite Hid in Eh. subst i. by apply (Hno q f Hin Hf).
Qed.
