(* ===== verification/FooProps.v ===== *)
(** Reference counting is right under every interleaving of the threads. *)
From stdpp Require Import base tactics functions numbers list gmap relations.
From Stdlib Require Import ZArith Lia.
From S2P Require Import Prelude Foo FooThms.
Local Open Scope Z_scope.

Lemma holder_none C w t : inv C w → hashlock (sh w) = None → holds (pc w t) = false.
Proof. intros Hi Hh. pose proof (v_hash C w Hi t) as H. rewrite Hh in H. destruct (holds (pc w t)); [|done]. discriminate (proj2 H eq_refl). Qed.

Lemma hash_idle w t : holds (pc w t) = false → hash_after w t Idle = hashlock (sh w).
Proof. unfold hash_after. cbn. by intros ->. Qed.

Lemma nrefs_cons_ne q t p l : q ≠ p → nrefs q ((t, p) :: l) = nrefs q l.
Proof. intros H. cbn [nrefs snd]. rewrite (proj2 (Z.eqb_neq p q)) by done. lia. Qed.
Lemma nrefs_cons_eq t p l : nrefs p ((t, p) :: l) = nrefs p l + 1.
Proof. cbn [nrefs snd]. rewrite Z.eqb_refl. lia. Qed.
Lemma nrefs_drop_ne q t p l : (t, p) ∈ l → q ≠ p → nrefs q (drop_ref (t, p) l) = nrefs q l.
Proof. intros Hin H. rewrite nrefs_drop by done. cbn [snd]. rewrite (proj2 (Z.eqb_neq p q)) by done. lia. Qed.
Lemma nrefs_drop_eq t p l : (t, p) ∈ l → nrefs p (drop_ref (t, p) l) = nrefs p l - 1.
Proof. intros Hin. rewrite nrefs_drop by done. cbn [snd]. rewrite Z.eqb_refl. lia. Qed.

(** A thread gets one more reference to an object. *)
Lemma inv_more C w t p f : inv C w → listed C p → heap (sh w) !! p = Some f → nrefs p (refs w) < INT_MAX →
  (∀ q, pc w t ≠ Init q) → (∀ q, pc w t ≠ Freeing q) →
  inv C (World (Table (fh (sh w)) (<[p := with_count (i32 (f_count f + 1)) f]> (heap (sh w))) (hash_after w t Idle))
           (<[t := Idle]> (pc w)) ((t, p) :: refs w)).
Proof.
  intros Hi Hl Hf Hb Hni Hnf. destruct (inv_listed C w p Hi Hl) as (f0 & Hf0 & _ & Hc & H1). assert (f0 = f) as -> by congruence.
  apply (inv_touch C w t Idle p f); try done; rewrite ?nrefs_cons_eq.
  - by left.
  - intros q E. by destruct (Hni q).
  - cbn [f_count with_count]. rewrite Hc. apply i32_count; lia.
  - lia.
  - intros q Hq. by apply nrefs_cons_ne.
  - intros t' q [[= -> ->]|?]%elem_of_cons; auto.
  - intros t' q _ ?. by right.
Qed.

(** A thread drops a reference that is not the last one. *)
Lemma inv_less C w t p f : inv C w → (t, p) ∈ refs w → heap (sh w) !! p = Some f → nrefs p (refs w) ≠ 1 →
  (∀ q, pc w t ≠ Init q) → (∀ q, pc w t ≠ Freeing q) →
  inv C (World (Table (fh (sh w)) (<[p := with_count (nrefs p (refs w) - 1) f]> (heap (sh w))) (hash_after w t Idle))
           (<[t := Idle]> (pc w)) (drop_ref (t, p) (refs w))).
Proof.
  intros Hi Hr Hf Hn Hni Hnf. pose proof (v_refs C w Hi t p Hr) as Hl. destruct (inv_listed C w p Hi Hl) as (f0 & Hf0 & _ & Hc & H1).
  assert (f0 = f) as -> by congruence. apply (inv_touch C w t Idle p f); try done; rewrite ?nrefs_drop_eq by done.
  - by left.
  - intros q E. by destruct (Hni q).
  - done.
  - lia.
  - intros q Hq. by apply nrefs_drop_ne.
  - intros t' q ?%drop_ref_in. by left.
  - intros t' q Hne ?. apply drop_ref_other; [congruence|done].
Qed.

(** A reference changes hands. *)
Lemma inv_give C w t t' p : inv C w → pc w t = Idle → (t, p) ∈ refs w →
  inv C (World (sh w) (<[t := Idle]> (pc w)) ((t', p) :: drop_ref (t, p) (refs w))).
Proof.
  intros Hi Hpc Hr. pose proof (inv_move C w t Idle ((t', p) :: drop_ref (t, p) (refs w)) Hi) as H.
  rewrite hash_idle in H by (by rewrite Hpc). replace (Table _ _ _) with (sh w) in H by (by destruct (sh w)). apply H; try (by rewrite Hpc).
  - intros q. cbn [nrefs snd]. rewrite nrefs_drop by done. cbn [snd]. lia.
  - intros t1 q Hne Hin. right. apply drop_ref_other; [congruence|done].
  - done.
Qed.

(** The object is initialised. *)
Lemma inv_finish C w t p s : inv C w → pc w t = Init p → foo_alloc_finish p (sh w) = (s, Done tt) →
  inv C (World s (<[t := Idle]> (pc w)) (refs w)).
Proof.
  intros Hi Hpc E. pose proof (v_pc C w Hi t) as Ht. rewrite Hpc in Ht. destruct Ht as [Hr (f & Hf & Hl)].
  pose proof (v_refs C w Hi t p Hr) as Hlist. destruct (inv_listed C w p Hi Hlist) as (f0 & Hf0 & _ & Hc & H1). assert (f0 = f) as -> by congruence.
  unfold foo_alloc_finish in E. rewrite (unlock_run _ _ _ Hf) in E. injection E as <-.
  pose proof (inv_touch C w t Idle p f (with_lock None f) (refs w) Hi Hlist Hf eq_refl eq_refl) as H. rewrite hash_idle in H by (by rewrite Hpc).
  apply H; try done; [by right|intros q; rewrite Hpc; congruence|by rewrite Hpc|auto].
Qed.

(** ** Steps keep the invariant *)

Definition small (w : world) : Prop := Z.of_nat (length (refs w)) < INT_MAX.
Lemma small_nrefs w p : small w → nrefs p (refs w) < INT_MAX.
Proof. unfold small. pose proof (nrefs_length p (refs w)). lia. Qed.

Lemma inv_alloc C w t p id s : inv C w → pc w t = Idle → p ≠ 0 → heap (sh w) !! p = None → foo_alloc_insert t p id (sh w) = (s, Done tt) →
  inv (<[HASH id := p :: C (HASH id)]> C) (World s (<[t := Init p]> (pc w)) ((t, p) :: refs w)).
Proof.
  intros Hi Hpc Hp Hf E. rewrite alloc_run in E. destruct (hashlock (sh w)) eqn:Eh; [done|]. injection E as <-. by apply inv_insert.
Qed.

Lemma inv_freed C w t p s : inv C w → pc w t = Freeing p → free_foo p (sh w) = (s, Done tt) → inv C (World s (<[t := Idle]> (pc w)) (refs w)).
Proof.
  intros Hi Hpc E. pose proof (v_pc C w Hi t) as Ht. rewrite Hpc in Ht. destruct Ht as [(f & Hf & Hl) _].
  unfold free_foo in E. rewrite (bind_done _ _ _ _ _ (foo_load_run _ _ _ Hf)), Hl in E. injection E as <-. by apply inv_free.
Qed.

Lemma inv_hold3 C w t p s : inv C w → small w → pc w t = Idle → (t, p) ∈ refs w → Three.foo_hold t p (sh w) = (s, Done tt) →
  inv C (World s (<[t := Idle]> (pc w)) ((t, p) :: refs w)).
Proof.
  intros Hi Hs Hpc Hr E. pose proof (v_refs C w Hi t p Hr) as Hl. destruct (inv_listed C w p Hi Hl) as (f & Hf & _).
  rewrite (hold3_run t p f (sh w) Hf) in E. destruct (hashlock (sh w)) eqn:Eh; [done|]. injection E as <-.
  pose proof (inv_more C w t p f Hi Hl Hf (small_nrefs w p Hs)) as H. rewrite hash_idle, Eh in H by (by rewrite Hpc). apply H; by rewrite Hpc.
Qed.

Lemma inv_find3 C w t id p s : inv C w → small w → pc w t = Idle → Three.foo_find t id (sh w) = (s, Done p) →
  inv C (World s (<[t := Idle]> (pc w)) (if p =? 0 then refs w else (t, p) :: refs w)).
Proof.
  intros Hi Hs Hpc E. unfold Three.foo_find, bind at 1 in E. rewrite lock_hash_run in E. destruct (hashlock (sh w)) eqn:Eh; [done|].
  destruct (find_run C w id (λ p, count p 1) (Some t) Hi) as [(q & f & Hl & Hf & Hid & Er)|[Er _]]; unfold bind at 1 in E; rewrite Er in E.
  - rewrite (bind_done _ _ _ _ _ (count_run q 1 f (with_hash (sh w) (Some t)) Hf)) in E. injection E as <- <-.
    assert (q ≠ 0) as Hq by (apply (v_heap C w Hi); by eauto). rewrite (proj2 (Z.eqb_neq _ _) Hq).
    pose proof (inv_more C w t q f Hi Hl Hf (small_nrefs w q Hs)) as H. rewrite hash_idle, Eh in H by (by rewrite Hpc). apply H; by rewrite Hpc.
  - injection E as <- <-. cbn [Z.eqb]. pose proof (inv_move C w t Idle (refs w) Hi) as H. rewrite hash_idle, Eh in H by (by rewrite Hpc).
    apply H; try done; by rewrite Hpc.
Qed.

(** The end of a reference with the lock of the table, in both versions. *)
Lemma inv_last C w t p f f2 l1 l2 fh' h' : inv C w → (t, p) ∈ refs w → heap (sh w) !! p = Some f → f_lock f2 = None →
  nrefs p (refs w) = 1 → C (HASH (f_id f)) = l1 ++ p :: l2 → removed (sh w) p (HASH (f_id f)) (l1 ++ l2) fh' h' →
  (∀ q, pc w t ≠ Freeing q) → (∀ q, pc w t ≠ Init q) → hashlock (sh w) = None ∨ holds (pc w t) = true ∧ pc w t ≠ Found p →
  ∃ C', inv C' (World (Table fh' (<[p := f2]> h') None) (<[t := Freeing p]> (pc w)) (drop_ref (t, p) (refs w))).
Proof.
  intros Hi Hr Hf Hl2 Hn HC Hrm Hnf Hni Hh. exists (<[HASH (f_id f) := l1 ++ l2]> C).
  pose proof (inv_remove C w t p f f2 l1 l2 fh' h' Hi Hf HC Hr Hn Hrm Hl2 Hnf Hni) as H.
  assert (hash_after w t (Freeing p) = None) as E.
  { unfold hash_after. cbn. destruct Hh as [Hh|[Hh _]]; [by rewrite (holder_none C w t Hi Hh)|by rewrite Hh]. }
  rewrite E in H. apply H. intros t' Ht'. destruct Hh as [Hh|[Hh Hne]]; [by pose proof (holder_none C w t' Hi Hh) as Hx; rewrite Ht' in Hx|].
  assert (hashlock (sh w) = Some t) as E1 by (by apply (v_hash C w Hi)). assert (hashlock (sh w) = Some t') as E2 by (apply (v_hash C w Hi); by rewrite Ht').
  congruence.
Qed.

(** The lock of an object that is free for a thread that releases it. *)
Lemma last_unlocked C w t p f : inv C w → (t, p) ∈ refs w → heap (sh w) !! p = Some f → nrefs p (refs w) = 1 → (∀ q, pc w t ≠ Init q) → f_lock f = None.
Proof.
  intros Hi Hr Hf Hn Hni. destruct (f_lock f) as [t'|] eqn:E; [|done]. exfalso. pose proof (v_lock C w Hi p f t' Hf E) as Hpc.
  pose proof (v_pc C w Hi t') as Ht. rewrite Hpc in Ht. destruct Ht as [Hr' _]. assert (t' ≠ t) as Hne by (intros ->; by destruct (Hni p)).
  assert (1 <= nrefs p (drop_ref (t, p) (refs w))) by (apply nrefs_pos; exists t'; apply drop_ref_other; [congruence|done]).
  rewrite nrefs_drop_eq in H by done. lia.
Qed.

Lemma inv_rele3 C w t p b s : inv C w → small w → pc w t = Idle → (t, p) ∈ refs w → Three.foo_rele_drop t p (sh w) = (s, Done b) →
  ∃ C', inv C' (World s (<[t := if b then Freeing p else Idle]> (pc w)) (drop_ref (t, p) (refs w))).
Proof.
  intros Hi Hs Hpc Hr E. pose proof (v_refs C w Hi t p Hr) as Hl. destruct (inv_listed C w p Hi Hl) as (f & Hf & _).
  destruct (hashlock (sh w)) eqn:Eh; [unfold Three.foo_rele_drop, bind at 1 in E; by rewrite lock_hash_run, Eh in E|].
  pose proof (small_nrefs w p Hs). pose proof (rele3_run C w t p f Hi Hl Hf Eh ltac:(lia)) as H3. destruct (Z.eqb_spec (nrefs p (refs w)) 1) as [En|En].
  - destruct H3 as (l1 & l2 & fh' & h' & HC & Er & Hrm). rewrite Er in E. injection E as <- <-.
    eapply (inv_last C w t p f (with_count 0 f)); try done; try (by rewrite Hpc); [|by left].
    cbn. eapply (last_unlocked C w t p f); try done. by rewrite Hpc.
  - rewrite H3 in E. injection E as <- <-. exists C. pose proof (inv_less C w t p f Hi Hr Hf En) as H'. rewrite hash_idle, Eh in H' by (by rewrite Hpc).
    apply H'; by rewrite Hpc.
Qed.

Lemma step3_inv C w w' : inv C w → small w → step3 w w' → (∃ C', inv C' w') ∧ (length (refs w') <= S (length (refs w)))%nat.
Proof.
  intros Hi Hs Hst. destruct Hst; cbn [refs]; (split; [|try lia]).
  - eexists. by eapply inv_alloc.
  - done.
  - exists C. by eapply inv_finish.
  - exists C. by eapply inv_hold3.
  - done.
  - exists C. by eapply inv_find3.
  - case_match; cbn; lia.
  - by eapply inv_rele3.
  - pose proof (length_drop_ref (t, fp) (refs w) H0). lia.
  - exists C. by eapply inv_freed.
  - exists C. by eapply inv_give.
  - cbn. pose proof (length_drop_ref (t, fp) (refs w) H0). lia.
Qed.

Lemma with_hash_eq s o : with_hash s o = Table (fh s) (heap s) o.
Proof. done. Qed.

Lemma inv_lookup2 C w t id p s : inv C w → pc w t = Idle → Two.foo_find_lookup t id (sh w) = (s, Done p) →
  inv C (World s (<[t := if p =? 0 then Idle else Found p]> (pc w)) (refs w)).
Proof.
  intros Hi Hpc E. unfold Two.foo_find_lookup, bind at 1 in E. rewrite lock_hash_run in E. destruct (hashlock (sh w)) eqn:Eh; [done|].
  destruct (find_run C w id (λ _, ret tt) (Some t) Hi) as [(q & f & Hl & Hf & Hid & Er)|[Er _]]; unfold bind at 1 in E; rewrite Er in E.
  - assert (q ≠ 0) as Hq by (apply (v_heap C w Hi); by eauto). rewrite bind_ret in E. cbn [ret] in E.
    rewrite (proj2 (Z.eqb_neq _ _) Hq), bind_ret in E. injection E as <- <-. rewrite (proj2 (Z.eqb_neq _ _) Hq).
    apply (inv_move C w t (Found q) (refs w) Hi); try done; try (by rewrite Hpc). intros _. by left.
  - cbn [Z.eqb] in E. injection E as <- <-. cbn [Z.eqb]. pose proof (inv_move C w t Idle (refs w) Hi) as H.
    rewrite hash_idle, Eh in H by (by rewrite Hpc). apply H; try done; by rewrite Hpc.
Qed.

Lemma inv_hold2 C w t p s : inv C w → small w → listed C p → (∀ q, pc w t ≠ Init q) → (∀ q, pc w t ≠ Freeing q) →
  Two.foo_hold t p (sh w) = (s, Done tt) → inv C (World (with_hash s (hash_after w t Idle)) (<[t := Idle]> (pc w)) ((t, p) :: refs w)) ∧ hashlock s = hashlock (sh w).
Proof.
  intros Hi Hs Hl Hni Hnf E. destruct (inv_listed C w p Hi Hl) as (f & Hf & _). rewrite (hold2_run t p f (sh w) Hf) in E.
  destruct (f_lock f); [done|]. injection E as <-. split; [|done]. by apply (inv_more C w t p f Hi Hl Hf (small_nrefs w p Hs)).
Qed.

Lemma inv_try2 C w t p b s : inv C w → small w → pc w t = Idle → (t, p) ∈ refs w → Two.foo_rele_try t p (sh w) = (s, Done b) →
  inv C (World s (<[t := if b then Last p else Idle]> (pc w)) (if b then refs w else drop_ref (t, p) (refs w))).
Proof.
  intros Hi Hs Hpc Hr E. pose proof (v_refs C w Hi t p Hr) as Hl. destruct (inv_listed C w p Hi Hl) as (f & Hf & _ & Hc & H1).
  rewrite (try2_run t p f (sh w) Hf) in E. destruct (f_lock f); [done|]. rewrite Hc in E. destruct (Z.eqb_spec (nrefs p (refs w)) 1) as [En|En]; injection E as <- <-.
  - pose proof (inv_move C w t (Last p) (refs w) Hi) as H. unfold hash_after in H. rewrite Hpc in H. cbn in H.
    replace (Table _ _ _) with (sh w) in H by (by destruct (sh w)). apply H; done.
  - replace (i32 (nrefs p (refs w) - 1)) with (nrefs p (refs w) - 1) by (symmetry; apply (i32_count _ (-1)); pose proof (small_nrefs w p Hs); lia). pose proof (inv_less C w t p f Hi Hr Hf En) as H.
    rewrite hash_idle in H by (by rewrite Hpc). apply H; by rewrite Hpc.
Qed.

Lemma inv_last2 C w t p b s : inv C w → small w → pc w t = LastLocked p → Two.foo_rele_last t p (sh w) = (s, Done b) →
  ∃ C', inv C' (World s (<[t := if b then Freeing p else Idle]> (pc w)) (drop_ref (t, p) (refs w))).
Proof.
  intros Hi Hs Hpc E. pose proof (v_pc C w Hi t) as Hr. rewrite Hpc in Hr. pose proof (v_refs C w Hi t p Hr) as Hl.
  destruct (inv_listed C w p Hi Hl) as (f & Hf & _). pose proof (small_nrefs w p Hs). pose proof (last2_run C w t p f Hi Hl Hf ltac:(lia)) as H2.
  destruct (f_lock f) eqn:El; [congruence|]. destruct (Z.eqb_spec (nrefs p (refs w)) 1) as [En|En].
  - destruct H2 as (l1 & l2 & fh' & h' & HC & Er & Hrm). rewrite Er in E. injection E as <- <-.
    eapply (inv_last C w t p f f); try done; try (by rewrite Hpc). right. by rewrite Hpc.
  - rewrite H2 in E. injection E as <- <-. exists C. pose proof (inv_less C w t p f Hi Hr Hf En) as H'. unfold hash_after in H'. rewrite Hpc in H'. cbn in H'.
    apply H'; done.
Qed.

Lemma step2_inv C w w' : inv C w → small w → step2 w w' → (∃ C', inv C' w') ∧ (length (refs w') <= S (length (refs w)))%nat.
Proof.
  intros Hi Hs Hst. destruct Hst as [? t fp id s Hpc|? t fp s Hpc|? t fp s Hpc Hr E|? t id fp s Hpc E|? t fp s Hpc E|? t fp b s Hpc Hr E|? t fp s Hpc E|? t fp b s Hpc E|? t fp s Hpc|? t t' fp Hpc Hr];
    cbn [refs]; (split; [|try done; try lia]).
  - eexists. by eapply inv_alloc.
  - exists C. by eapply inv_finish.
  - exists C. destruct (inv_hold2 C w t fp s Hi Hs (v_refs C w Hi t fp Hr)) as [H Eh]; try done; try (by rewrite Hpc).
    rewrite hash_idle, <- Eh in H by (by rewrite Hpc). by replace (with_hash s (hashlock s)) with s in H by (by destruct s).
  - exists C. by eapply inv_lookup2.
  - exists C. pose proof (v_pc C w Hi t) as Hl. rewrite Hpc in Hl. unfold Two.foo_find_hold, bind at 1 in E.
    destruct (Two.foo_hold t fp (sh w)) as [s1 [[]|e]] eqn:E1; [|done]. injection E as <-.
    destruct (inv_hold2 C w t fp s1 Hi Hs Hl) as [H _]; try done; try (by rewrite Hpc). unfold hash_after in H. by rewrite Hpc in H.
  - exists C. by eapply inv_try2.
  - destruct b; [lia|]. pose proof (length_drop_ref (t, fp) (refs w) Hr). lia.
  - exists C. rewrite lock_hash_run in E. destruct (hashlock (sh w)) eqn:Eh; [done|]. injection E as <-. pose proof (v_pc C w Hi t) as Hr. rewrite Hpc in Hr.
    apply (inv_move C w t (LastLocked fp) (refs w) Hi); try done; try (by rewrite Hpc). intros _. by left.
  - by eapply inv_last2.
  - pose proof (v_pc C w Hi t) as Hr. rewrite Hpc in Hr. pose proof (length_drop_ref (t, fp) (refs w) Hr). lia.
  - exists C. by eapply inv_freed.
  - exists C. by eapply inv_give.
  - cbn. pose proof (length_drop_ref (t, fp) (refs w) Hr). lia.
Qed.

Lemma foo_initial_inv : inv (λ _, []) initial.
Proof.
  split; unfold initial; cbn [sh pc refs fh heap hashlock holds]; try done.
  - intros i Hi. rewrite lookup_replicate_2 by done. split; [done|constructor].
  - intros i p _ ?%elem_of_nil. done.
  - intros p [f Hf]. done.
  - intros t p ?%elem_of_nil. done.
Qed.

Lemma steps_inv_gen (R : relation world) n w :
  (∀ C w w', inv C w → small w → R w w' → (∃ C', inv C' w') ∧ (length (refs w') <= S (length (refs w)))%nat) →
  nsteps R n initial w → Z.of_nat n <= INT_MAX → ∃ C, inv C w ∧ (length (refs w) <= n)%nat.
Proof.
  intros HR. revert w. induction n as [|n IH]; intros w Hst Hn.
  - inversion Hst; subst. exists (λ _, []). split; [apply foo_initial_inv|done].
  - apply nsteps_inv_r in Hst as (w1 & Hst & Hlast). destruct (IH w1 Hst ltac:(lia)) as (C & Hi & Hl).
    destruct (HR C w1 w Hi ltac:(unfold small; lia) Hlast) as [[C' Hi'] Hl']. exists C'. split; [done|lia].
Qed.

(** ** Safety *)

(** The call returned, or waits for a lock. *)
Definition no_fault {A} (r : table * outcome fault A) : Prop :=
  match snd r with Done _ | Fail Blocked => True | Fail _ => False end.

(** What a run of either program guarantees for the objects. *)
Record accounted (w : world) : Prop := {
  a_refs : ∀ t p, (t, p) ∈ refs w → ∃ f, heap (sh w) !! p = Some f ∧ f_count f = nrefs p (refs w);
  a_heap : ∀ p, is_Some (heap (sh w) !! p) → (∃ t, (t, p) ∈ refs w) ∨ ∃ t, pc w t = Freeing p ∧ ∀ t', pc w t' = Freeing p → t' = t;
  a_free : ∀ t t' p, pc w t = Freeing p → (t', p) ∉ refs w }.

Lemma nrefs_in p l : 1 <= nrefs p l → ∃ t, (t, p) ∈ l.
Proof.
  induction l as [|[t q] l IH]; [done|]. destruct (decide (q = p)) as [->|Hn].
  - intros _. exists t. by left.
  - rewrite nrefs_cons_ne by done. intros [t' ?]%IH. exists t'. by right.
Qed.

Lemma inv_accounted C w : inv C w → accounted w.
Proof.
  intros Hi. split.
  - intros t p Hr. destruct (inv_listed C w p Hi (v_refs C w Hi t p Hr)) as (f & Hf & _ & Hc & _). by exists f.
  - intros p Hp. destruct (v_heap C w Hi p Hp) as [_ [Hl|[t Ht]]].
    + left. destruct (inv_listed C w p Hi Hl) as (f & _ & _ & _ & H1). by apply nrefs_in.
    + right. exists t. split; [done|]. intros t' Ht'. by apply (v_free C w Hi t' t p).
  - intros t t' p Ht Hr. pose proof (v_pc C w Hi t) as Hp. rewrite Ht in Hp. apply Hp. by apply (v_refs C w Hi t').
Qed.

Lemma finish_safe C w t p : inv C w → pc w t = Init p → ∃ s, foo_alloc_finish p (sh w) = (s, Done tt).
Proof.
  intros Hi Hpc. pose proof (v_pc C w Hi t) as Hp. rewrite Hpc in Hp. destruct Hp as (_ & f & Hf & _).
  eexists. by apply unlock_run.
Qed.

Lemma free_safe C w t p : inv C w → pc w t = Freeing p → ∃ s, free_foo p (sh w) = (s, Done tt).
Proof.
  intros Hi Hpc. pose proof (v_pc C w Hi t) as Hp. rewrite Hpc in Hp. destruct Hp as ((f & Hf & El) & _).
  unfold free_foo. rewrite (bind_done _ _ _ _ _ (foo_load_run _ _ _ Hf)), El. by eexists.
Qed.

(** Between the pieces of mutex3.c the table is not locked. *)
Lemma step3_unlocked w w' : (∀ t, holds (pc w t) = false) → step3 w w' → ∀ t, holds (pc w' t) = false.
Proof.
  intros H Hst u. destruct Hst as [? t|? t|? t|? t|? t ? b|? t|? t]; cbn [pc];
    (destruct (decide (u = t)) as [->|]; [rewrite fn_lookup_insert|by rewrite fn_lookup_insert_ne]); try done. by destruct b.
Qed.

Lemma steps3_unlocked n w C : nsteps step3 n initial w → inv C w → hashlock (sh w) = None.
Proof.
  intros Hst Hi. assert (∀ t, holds (pc w t) = false) as H.
  { clear Hi. revert w Hst. induction n as [|n IH]; intros w Hst; [by inversion Hst; subst|].
    apply nsteps_inv_r in Hst as (w1 & Hst & Hlast). by eapply step3_unlocked; [apply IH|]. }
  destruct (hashlock (sh w)) as [t|] eqn:E; [|done]. apply (v_hash C w Hi) in E. by rewrite H in E.
Qed.

Lemma hold3_safe C w t p : inv C w → hashlock (sh w) = None → (t, p) ∈ refs w → ∃ s, Three.foo_hold t p (sh w) = (s, Done tt).
Proof.
  intros Hi Eh Hr. destruct (inv_listed C w p Hi (v_refs C w Hi t p Hr)) as (f & Hf & _). rewrite (hold3_run t p f (sh w) Hf), Eh. by eexists.
Qed.

Lemma rele3_safe C w t p : inv C w → hashlock (sh w) = None → small w → (t, p) ∈ refs w →
  ∃ s, Three.foo_rele_drop t p (sh w) = (s, Done (nrefs p (refs w) =? 1)).
Proof.
  intros Hi Eh Hs Hr. pose proof (v_refs C w Hi t p Hr) as Hl. destruct (inv_listed C w p Hi Hl) as (f & Hf & _). pose proof (small_nrefs w p Hs).
  pose proof (rele3_run C w t p f Hi Hl Hf Eh ltac:(lia)) as E. destruct (_ =? 1); [destruct E as (? & ? & ? & ? & _ & -> & _)|rewrite E]; by eexists.
Qed.

Lemma hold2_safe C w t p : inv C w → listed C p → no_fault (Two.foo_hold t p (sh w)).
Proof.
  intros Hi Hl. destruct (inv_listed C w p Hi Hl) as (f & Hf & _). rewrite (hold2_run t p f (sh w) Hf). by destruct (f_lock f).
Qed.

Lemma try2_safe C w t p : inv C w → (t, p) ∈ refs w → no_fault (Two.foo_rele_try t p (sh w)).
Proof.
  intros Hi Hr. destruct (inv_listed C w p Hi (v_refs C w Hi t p Hr)) as (f & Hf & _). rewrite (try2_run t p f (sh w) Hf).
  destruct (f_lock f); [done|]. by destruct (_ =? 1).
Qed.

Lemma lookup2_safe C w t id : inv C w → no_fault (Two.foo_find_lookup t id (sh w)).
Proof.
  intros Hi. unfold Two.foo_find_lookup, bind at 1. rewrite lock_hash_run. destruct (hashlock (sh w)); [done|].
  destruct (find_run C w id (λ _, ret tt) (Some t) Hi) as [(q & f & Hl & Hf & Hid & Er)|[Er _]]; unfold bind at 1; rewrite Er; [|done].
  rewrite bind_ret. cbn [ret]. by destruct (q =? 0).
Qed.

(** The calls wait for the object only while another thread initialises it. *)
Lemma found2_safe C w t p : inv C w → pc w t = Found p →
  (∃ s, Two.foo_find_hold t p (sh w) = (s, Done tt)) ∨ Two.foo_find_hold t p (sh w) = (sh w, Fail Blocked) ∧ ∃ t', pc w t' = Init p.
Proof.
  intros Hi Hpc. pose proof (v_pc C w Hi t) as Hl. rewrite Hpc in Hl. destruct (inv_listed C w p Hi Hl) as (f & Hf & _).
  unfold Two.foo_find_hold, bind. rewrite (hold2_run t p f (sh w) Hf). destruct (f_lock f) as [t'|] eqn:El; [|left; by eexists].
  right. split; [done|]. exists t'. by apply (v_lock C w Hi p f).
Qed.

Lemma last2_safe C w t p : inv C w → small w → pc w t = LastLocked p →
  (∃ s b, Two.foo_rele_last t p (sh w) = (s, Done b)) ∨ Two.foo_rele_last t p (sh w) = (sh w, Fail Blocked) ∧ ∃ t', pc w t' = Init p.
Proof.
  intros Hi Hs Hpc. pose proof (v_pc C w Hi t) as Hr. rewrite Hpc in Hr. pose proof (v_refs C w Hi t p Hr) as Hl.
  destruct (inv_listed C w p Hi Hl) as (f & Hf & _). pose proof (small_nrefs w p Hs). pose proof (last2_run C w t p f Hi Hl Hf ltac:(lia)) as H2.
  destruct (f_lock f) as [t'|] eqn:El; [right; split; [done|]; exists t'; by apply (v_lock C w Hi p f)|]. left.
  destruct (_ =? 1); [destruct H2 as (? & ? & ? & ? & _ & -> & _)|rewrite H2]; by eauto.
Qed.


(** In every such state [foo_find] of mutex3.c returns.  The result is the null pointer when
    no object has the identifier, but for those that are being freed, and the table is unchanged.
    Otherwise it is an object with the identifier that some thread refers to, and its count grew
    by one. *)
Theorem foo3_find n w t id : nsteps step3 n initial w → Z.of_nat n < INT_MAX →
  (Three.foo_find t id (sh w) = (sh w, Done 0) ∧
     ∀ q f, heap (sh w) !! q = Some f → f_id f = id → ∃ t', pc w t' = Freeing q) ∨
  ∃ q f t', q ≠ 0 ∧ heap (sh w) !! q = Some f ∧ f_id f = id ∧ (t', q) ∈ refs w ∧
    Three.foo_find t id (sh w) = (Table (fh (sh w)) (<[q := Object (f_count f + 1) (f_lock f) id (f_next f)]> (heap (sh w))) None, Done q).
Proof.
  intros Hst Hn. destruct (steps_inv_gen step3 n w step3_inv Hst ltac:(lia)) as (C & Hi & Hl).
  assert (small w) as Hs by (unfold small; lia). pose proof (steps3_unlocked n w C Hst Hi) as Eh.
  assert (∀ X (k : unit → TM X), (let! x := lock_hash t in k x) (sh w) = k tt (with_hash (sh w) (Some t))) as Hlk by (intros; unfold bind; by rewrite lock_hash_run, Eh).
  unfold Three.foo_find. rewrite Hlk.
  destruct (find_run C w id (λ fp, count fp 1) (Some t) Hi) as [(q & f & Hq & Hf & Hid & Er)|[Er Hno]].
  - right. destruct (inv_listed C w q Hi Hq) as (f' & Hf' & _ & Hc & H1). assert (f' = f) as -> by congruence.
    destruct (nrefs_in q (refs w) H1) as [t' Ht']. exists q, f, t'. split; [apply (v_heap C w Hi); by eauto|]. split; [done|]. split; [done|]. split; [done|].
    rewrite (bind_done _ _ _ _ _ (count_run q 1 f (with_hash (sh w) (Some t)) Hf)) in Er. rewrite (bind_done _ _ _ _ _ Er), Hc, i32_count by (pose proof (small_nrefs w q Hs); lia). by rewrite <- Hid.
  - left. rewrite (bind_done _ _ _ _ _ Er). split; [cbn; f_equal; destruct (sh w); cbn in *; by subst|].
    intros q f Hf Hid. destruct (v_heap C w Hi q ltac:(by eexists)) as [_ [Hq|[t' Ht']]]; [by destruct (Hno q f Hq Hf)|by exists t'].
Qed.

(** C30: the same for mutex2.c, where the count has its own lock and [foo_rele] gives that lock up
    before it takes the one of the table. *)
Theorem foo2_safe n w : nsteps step2 n initial w → Z.of_nat n < INT_MAX →
  accounted w ∧
  (∀ t id, no_fault (Two.foo_find_lookup t id (sh w))) ∧
  (∀ t p, (t, p) ∈ refs w → no_fault (Two.foo_hold t p (sh w)) ∧ no_fault (Two.foo_rele_try t p (sh w))) ∧
  (∀ t p, pc w t = Found p → no_fault (Two.foo_find_hold t p (sh w))) ∧
  (∀ t p, pc w t = LastLocked p → no_fault (Two.foo_rele_last t p (sh w))) ∧
  (∀ t p, pc w t = Init p → ∃ s, foo_alloc_finish p (sh w) = (s, Done tt)) ∧
  (∀ t p, pc w t = Freeing p → ∃ s, free_foo p (sh w) = (s, Done tt)).
Proof.
  intros Hst Hn. destruct (steps_inv_gen step2 n w step2_inv Hst ltac:(lia)) as (C & Hi & Hl).
  assert (small w) as Hs by (unfold small; lia). split; [by eapply inv_accounted|]. split; [intros; by eapply lookup2_safe|].
  split; [intros t p Hr; split; [eapply hold2_safe; [done|by eapply (v_refs C w Hi)]|by eapply try2_safe]|].
  split; [intros t p Hpc; destruct (found2_safe C w t p Hi Hpc) as [[s ->]|[-> _]]; done|].
  split; [intros t p Hpc; destruct (last2_safe C w t p Hi Hs Hpc) as [(s & b & ->)|[-> _]]; done|].
  split; intros t p Hpc; [by eapply finish_safe|by eapply free_safe].
Qed.

(** Some thread that is inside a function of mutex2.c can go on. *)
Definition can_go (w : world) : Prop :=
  ∃ t w', pc w t ≠ Idle ∧ step2 w w' ∧ (∀ t', t' ≠ t → pc w' t' = pc w t') ∧ pc w' t ≠ pc w t.

Lemma go_on w t s x r : step2 w (World s (<[t := x]> (pc w)) r) → pc w t ≠ Idle → x ≠ pc w t → can_go w.
Proof.
  intros Hstep Ht Hx. exists t. eexists. split; [done|]. split; [exact Hstep|]. cbn [pc]. split; [|by rewrite fn_lookup_insert].
  intros t' ?. by rewrite fn_lookup_insert_ne.
Qed.

Lemma init_goes C w t p : inv C w → pc w t = Init p → can_go w.
Proof.
  intros Hi Ht. destruct (finish_safe C w t p Hi Ht) as [s E]. eapply (go_on w t); [by eapply Finish2|by rewrite Ht|by rewrite Ht].
Qed.

Lemma holder_goes C w t : inv C w → small w → holds (pc w t) = true → can_go w.
Proof.
  intros Hi Hs. destruct (pc w t) as [|p|p|p|p|p] eqn:Ht; try done; intros _.
  - destruct (found2_safe C w t p Hi Ht) as [[s E]|[_ [t' Ht']]]; [|by eapply init_goes].
    eapply (go_on w t); [by eapply Found2|by rewrite Ht|by rewrite Ht].
  - destruct (last2_safe C w t p Hi Hs Ht) as [(s & b & E)|[_ [t' Ht']]]; [|by eapply init_goes].
    eapply (go_on w t); [by eapply Last2|by rewrite Ht|]. rewrite Ht. by destruct b.
Qed.

(** C31: the two locks of mutex2.c cannot deadlock.  Whenever some thread is inside a function,
    some thread inside a function can go on. *)
Theorem foo2_progress n w : nsteps step2 n initial w → Z.of_nat n < INT_MAX → (∃ t, pc w t ≠ Idle) →
  ∃ t w', pc w t ≠ Idle ∧ step2 w w' ∧ (∀ t', t' ≠ t → pc w' t' = pc w t') ∧ pc w' t ≠ pc w t.
Proof.
  intros Hst Hn [t Ht]. destruct (steps_inv_gen step2 n w step2_inv Hst ltac:(lia)) as (C & Hi & Hl).
  assert (small w) as Hs by (unfold small; lia). change (can_go w). destruct (pc w t) as [|p|p|p|p|p] eqn:Hpc; try done.
  - by eapply init_goes.
  - apply (holder_goes C w t); rewrite ?Hpc; done.
  - destruct (hashlock (sh w)) as [u|] eqn:Eh; [apply (holder_goes C w u); [done|done|]; by apply (v_hash C w Hi)|].
    eapply (go_on w t); [eapply Lock2; [done|rewrite lock_hash_run, Eh; done]|by rewrite Hpc|by rewrite Hpc].
  - apply (holder_goes C w t); rewrite ?Hpc; done.
  - destruct (free_safe C w t p Hi Hpc) as [s E]. eapply (go_on w t); [by eapply Free2|by rewrite Hpc|by rewrite Hpc].
Qed.

(** ** Concrete runs *)

(** Two objects of one bucket, of which another thread finds the older one. *)
Definition demo3 : world :=
  World (Table (<[5%nat := 200]> (replicate NHASH 0)) (<[100 := Object 2 None 5 0]> {[200 := Object 1 None 34 100]}) None)
    (<[1%nat := Idle]> (<[0%nat := Idle]> (<[0%nat := Init 200]> (<[0%nat := Idle]> (<[0%nat := Init 100]> (λ _, Idle))))))
    [(1%nat, 100); (0%nat, 200); (0%nat, 100)].

Lemma demo3_run : nsteps step3 5 initial demo3.
Proof.
  eapply nsteps_l; [apply (Alloc3 initial 0 100 5); [done|done|done|vm_compute; reflexivity]|].
  eapply nsteps_l; [eapply (Finish3 _ 0 100); [done|vm_compute; reflexivity]|].
  eapply nsteps_l; [eapply (Alloc3 _ 0 200 34); [done|done|vm_compute; reflexivity|vm_compute; reflexivity]|].
  eapply nsteps_l; [eapply (Finish3 _ 0 200); [done|vm_compute; reflexivity]|].
  eapply nsteps_l; [eapply (Find3 _ 1 5 100); [done|vm_compute; reflexivity]|].
  cbn [refs Z.eqb]. constructor.
Qed.


Lemma foo3_find_witness : Three.foo_find 7 6 (sh demo3) = (sh demo3, Done 0) ∧
  ∃ s, Three.foo_find 7 5 (sh demo3) = (s, Done 100).
Proof.
  split.
  - destruct (foo3_find 5 demo3 7 6 demo3_run ltac:(vm_compute; reflexivity)) as [[H _]|(q & f & t' & _ & Hf & Hid & _)]; [exact H|].
    exfalso. cbn [demo3 sh heap] in Hf. apply lookup_insert_Some in Hf as [[_ <-]|[_ Hf]]; [done|]. apply lookup_singleton_Some in Hf as [_ <-]. done.
  - eexists. vm_compute. reflexivity.
Defined.

(** The only reference is being released. *)
Definition demo2 : world :=
  World (Table (<[5%nat := 100]> (replicate NHASH 0)) {[100 := Object 1 None 5 0]} None)
    (<[0%nat := Last 100]> (<[0%nat := Idle]> (<[0%nat := Init 100]> (λ _, Idle)))) [(0%nat, 100)].

Lemma demo2_run : nsteps step2 3 initial demo2.
Proof.
  eapply nsteps_l; [apply (Alloc2 initial 0 100 5); [done|done|done|vm_compute; reflexivity]|].
  eapply nsteps_l; [eapply (Finish2 _ 0 100); [done|vm_compute; reflexivity]|].
  eapply nsteps_l; [eapply (Try2 _ 0 100 true); [done|by left|vm_compute; reflexivity]|].
  constructor.
Qed.

Lemma foo2_safe_witness : accounted demo2 ∧ no_fault (Two.foo_find_lookup 1 5 (sh demo2)).
Proof.
  destruct (foo2_safe 3 demo2 demo2_run ltac:(vm_compute; reflexivity)) as (Ha & Hf & _). split; [exact Ha|apply Hf].
Defined.

Lemma foo2_progress_witness : ∃ t w', pc demo2 t ≠ Idle ∧ step2 demo2 w' ∧ (∀ t', t' ≠ t → pc w' t' = pc demo2 t') ∧ pc w' t ≠ pc demo2 t.
Proof.
  apply (foo2_progress 3 demo2 demo2_run ltac:(vm_compute; reflexivity)). exists 0%nat. done.
Defined.
