(* ===== verification/Strcli.v ===== *)
(** The echo client that never blocks in a read or a write: unpv13e/nonblock/strclinonb.c.

    A pointer into a buffer is an offset.  What the kernel answers in one turn of the loop is a
    record; the bytes that the client moves, and its half-close of the connection, are logged. *)
From stdpp Require Import base tactics numbers list.
From Stdlib Require Import ZArith Lia.
From S2P Require Import Prelude.
Local Open Scope Z_scope.

Definition MAXLINE : nat := Z.to_nat 4096.
Definition EWOULDBLOCK : Z := 11.

(** What was read from standard input, written to the socket, read from the socket and written
    to standard output; [Fin] is the call of [Shutdown]. *)
Inductive channel := In | Snd | Rcv | Out.
#[global] Instance channel_eq_dec : EqDecision channel. Proof. solve_decision. Defined.
Inductive event := Moved (c : channel) (bs : list Z) | Fin.
#[global] Instance event_eq_dec : EqDecision event. Proof. solve_decision. Defined.

(** A buffer with the offsets of its pointers: bytes are put at [iptr] and taken at [optr]. *)
Record buffer := Buffer { mem : list Z; iptr : nat; optr : nat }.
Definition pending (b : buffer) : list Z := take (iptr b - optr b) (drop (optr b) (mem b)).
Definition put (bs : list Z) (b : buffer) : buffer :=
  Buffer (list_inserts (iptr b) bs (mem b)) (iptr b + length bs) (optr b).
(** After a write of [n] bytes; both pointers return to the start when nothing is left. *)
Definition taken (n : nat) (b : buffer) : buffer :=
  let b := Buffer (mem b) (iptr b) (optr b + n) in
  if (optr b =? iptr b)%nat then Buffer (mem b) 0 0 else b.

Record client := Client { to : buffer; fr : buffer; stdineof : bool; log : list event }.

Definition set_to (b : buffer) (s : client) := Client b (fr s) (stdineof s) (log s).
Definition set_fr (b : buffer) (s : client) := Client (to s) b (stdineof s) (log s).
Definition set_eof (s : client) := Client (to s) (fr s) true (log s).
Definition add_log (e : event) (s : client) := Client (to s) (fr s) (stdineof s) (log s ++ [e]).

(** A read gives bytes, none of them at the end of the file, or sets [errno]; it never gives
    more than was asked for.  A write takes some of the bytes. *)
Inductive rd := Got (bs : list Z) | RdErr (errno : Z).
Inductive wr := Put (n : nat) | WrErr (errno : Z).
(** The members [sel_] say which descriptors are ready; [Select] and [Shutdown] may fail. *)
Record answers := Answers {
  sel_ok : bool; sel_in : bool; sel_rcv : bool; sel_out : bool; sel_snd : bool;
  rd_in : rd; rd_sock : rd; wr_out : wr; wr_sock : wr; shut_ok : bool }.

Inductive stop := SysError | ServerTerminated.
Abbreviation CM := (M client stop).

(** [FD_SET] of a descriptor after [select] is the result of a part: whether it will be tried. *)
Definition Shutdown (a : answers) : CM unit :=
  modify (add_log Fin);;; if shut_ok a then ret tt else fail SysError.

(** The part for standard input; whether there is something new to write to the socket. *)
Definition read_stdin (a : answers) : CM bool :=
  let! b := gets to in
  match rd_in a with
  | RdErr e => if e =? EWOULDBLOCK then ret false else fail SysError
  | Got bs =>
      match take (MAXLINE - iptr b) bs with
      | [] => modify set_eof;;; (if (optr b =? iptr b)%nat then Shutdown a else ret tt);;; ret false
      | bs => modify (set_to (put bs b));;; modify (add_log (Moved In bs));;; ret true
      end
  end.

(** The part for the socket: [None] is the return from [str_cli]. *)
Definition read_sock (a : answers) : CM (option bool) :=
  let! b := gets fr in
  match rd_sock a with
  | RdErr e => if e =? EWOULDBLOCK then ret (Some false) else fail SysError
  | Got bs =>
      match take (MAXLINE - iptr b) bs with
      | [] => let! eof := gets stdineof in if eof : bool then ret None else fail ServerTerminated
      | bs => modify (set_fr (put bs b));;; modify (add_log (Moved Rcv bs));;; ret (Some true)
      end
  end.

Definition write_stdout (a : answers) : CM unit :=
  let! b := gets fr in
  if (0 <? iptr b - optr b)%nat then
    match wr_out a with
    | WrErr e => if e =? EWOULDBLOCK then ret tt else fail SysError
    | Put n =>
        let n := Nat.min n (iptr b - optr b) in
        modify (add_log (Moved Out (take n (pending b))));;; modify (set_fr (taken n b))
    end
  else ret tt.

Definition write_sock (a : answers) : CM unit :=
  let! b := gets to in
  if (0 <? iptr b - optr b)%nat then
    match wr_sock a with
    | WrErr e => if e =? EWOULDBLOCK then ret tt else fail SysError
    | Put n =>
        let n := Nat.min n (iptr b - optr b) in
        modify (add_log (Moved Snd (take n (pending b))));;;
        modify (set_to (taken n b));;;
        let! eof := gets stdineof in
        if (optr b + n =? iptr b)%nat && eof then Shutdown a else ret tt
    end
  else ret tt.

(** One turn of the loop; whether it goes on. *)
Definition turn (a : answers) : CM bool :=
  let! s := get in
  let rin := negb (stdineof s) && (iptr (to s) <? MAXLINE)%nat in
  let rsock := (iptr (fr s) <? MAXLINE)%nat in
  let wsock := negb (optr (to s) =? iptr (to s))%nat in
  let wout := negb (optr (fr s) =? iptr (fr s))%nat in
  if negb (sel_ok a) then fail SysError else
  let! more := (if rin && sel_in a then read_stdin a else ret false) in
  let wsock := (wsock && sel_snd a) || more in
  let! got := (if rsock && sel_rcv a then read_sock a else ret (Some false)) in
  match got with
  | None => ret false
  | Some more =>
      let wout := (wout && sel_out a) || more in
      (if wout then write_stdout a else ret tt);;;
      (if wsock then write_sock a else ret tt);;;
      ret true
  end.

(** The loop over the answers of the kernel: whether the client still runs after them. *)
Fixpoint turns (l : list answers) : CM bool :=
  match l with
  | [] => ret true
  | a :: l => let! more := turn a in if more : bool then turns l else ret false
  end.

Definition empty_buffer : buffer := Buffer (replicate MAXLINE 0) 0 0.
Definition start : client := Client empty_buffer empty_buffer false [].
Definition str_cli (l : list answers) : client * outcome stop bool := turns l start.
