(* ===== verification/StrcliProps.v ===== *)
(** The non-blocking client moves every byte once and in order, inside its buffers. *)
From stdpp Require Import base tactics numbers list.
From Stdlib Require Import ZArith Lia.
From S2P Require Import Prelude Strcli.
Local Open Scope Z_scope.

Lemma maxline_pos : (0 < MAXLINE)%nat.
Proof. unfold MAXLINE. lia. Qed.
#[local] Opaque MAXLINE.

(** The bytes that a log moves on a channel. *)
Definition said (c : channel) (l : list event) : list Z :=
  flat_map (λ e, match e with Moved c' bs => if decide (c' = c) then bs else [] | Fin => [] end) l.

Lemma said_app c l1 l2 : said c (l1 ++ l2) = said c l1 ++ said c l2.
Proof. apply flat_map_app. Qed.
Lemma said_moved c bs : said c [Moved c bs] = bs.
Proof. cbn. rewrite decide_True by done. by rewrite app_nil_r. Qed.
Lemma said_other c c' bs : c' ≠ c → said c [Moved c' bs] = [].
Proof. intros H. cbn. by rewrite decide_False. Qed.

(** ** Buffers *)

(** An empty buffer has its pointers at the start. *)
Definition bounded (b : buffer) : Prop :=
  length (mem b) = MAXLINE ∧ (optr b <= iptr b <= MAXLINE ∧ (optr b = iptr b → iptr b = 0))%nat.

Lemma length_pending b : bounded b → length (pending b) = (iptr b - optr b)%nat.
Proof. intros [Hl Hb]. unfold pending. rewrite length_take, length_drop. lia. Qed.

Lemma bounded_put bs b : bounded b → (length bs <= MAXLINE - iptr b)%nat → bounded (put bs b).
Proof. intros [Hl Hb] Hn. split; cbn; [by rewrite length_inserts|lia]. Qed.

Lemma pending_put bs b : bounded b → (length bs <= MAXLINE - iptr b)%nat → pending (put bs b) = pending b ++ bs.
Proof.
  intros [Hl Hb] Hn. unfold pending, put. cbn [iptr optr mem]. apply list_eq. intros i.
  assert (length (take (iptr b - optr b) (drop (optr b) (mem b))) = (iptr b - optr b)%nat) as Hlen by (rewrite length_take, length_drop; lia).
  destruct (decide (i < iptr b - optr b)%nat) as [Hi|Hi].
  - rewrite lookup_app_l, !lookup_take_lt, !lookup_drop by lia. rewrite list_lookup_inserts_lt by lia. done.
  - rewrite lookup_app_r, Hlen by lia. destruct (decide (i < iptr b + length bs - optr b)%nat).
    + rewrite lookup_take_lt, lookup_drop by lia. rewrite list_lookup_inserts by lia. f_equal. lia.
    + rewrite lookup_take_ge, lookup_ge_None_2 by lia. done.
Qed.

Lemma bounded_taken n b : bounded b → (n <= iptr b - optr b)%nat → bounded (taken n b).
Proof. intros [Hl Hb] Hn. unfold taken. cbn. destruct (Nat.eqb_spec (optr b + n) (iptr b)); split; cbn; lia. Qed.

Lemma pending_taken n b : bounded b → (n <= iptr b - optr b)%nat → pending b = take n (pending b) ++ pending (taken n b).
Proof.
  intros Hb Hn. transitivity (take n (pending b) ++ drop n (pending b)); [by rewrite take_drop|]. f_equal.
  unfold taken. cbn [optr iptr mem]. destruct (Nat.eqb_spec (optr b + n) (iptr b)) as [E|E].
  - apply nil_length_inv. rewrite length_drop, (length_pending b Hb). lia.
  - unfold pending. cbn [optr iptr mem]. rewrite skipn_firstn_comm, drop_drop. f_equal. lia.
Qed.

Lemma taken_empty n b : (optr (taken n b) =? iptr (taken n b))%nat = (optr b + n =? iptr b)%nat.
Proof. unfold taken. cbn. by destruct (Nat.eqb_spec (optr b + n) (iptr b)) as [|E%Nat.eqb_neq]. Qed.

(** ** The invariant *)

(** Nothing is sent after the only call of [Shutdown]. *)
Definition closed (l : list event) : Prop :=
  ∃ l1 l2, l = l1 ++ Fin :: l2 ∧ (Fin ∉ l1) ∧ (Fin ∉ l2) ∧ said In l2 = [] ∧ said Snd l2 = [].

Record inv (s : client) : Prop := {
  i_to : bounded (to s);
  i_fr : bounded (fr s);
  i_sent : said In (log s) = said Snd (log s) ++ pending (to s);
  i_shown : said Rcv (log s) = said Out (log s) ++ pending (fr s);
  i_fin : if stdineof s && (optr (to s) =? iptr (to s))%nat then closed (log s) else Fin ∉ log s }.

Lemma closed_snoc c bs l : closed l → c = Rcv ∨ c = Out → closed (l ++ [Moved c bs]).
Proof.
  intros (l1 & l2 & -> & H1 & H2 & H3 & H4) Hc. exists l1, (l2 ++ [Moved c bs]). rewrite <- app_assoc.
  assert (said In [Moved c bs] = [] ∧ said Snd [Moved c bs] = []) as [E1 E2] by (destruct Hc; by subst).
  rewrite !said_app, H3, H4, E1, E2. repeat split; try done. intros [?|?%list_elem_of_singleton]%elem_of_app; done.
Qed.
Lemma fin_snoc c bs l : Fin ∉ l → Fin ∉ l ++ [Moved c bs].
Proof. intros H [?|?%list_elem_of_singleton]%elem_of_app; done. Qed.
Lemma closed_fin l : Fin ∉ l → closed (l ++ [Fin]).
Proof. intros H. exists l, []. repeat split; try done. by intros ?%elem_of_nil. Qed.

(** [m] keeps the invariant, also where it ends the program. *)
Definition keeps {A} (m : CM A) : Prop := ∀ s, inv s → inv (fst (m s)).

Lemma client_keeps_ret {A} (a : A) : keeps (ret a).
Proof. by intros s. Qed.
Lemma client_keeps_fail {A} e : keeps (A:=A) (fail e).
Proof. by intros s. Qed.
Lemma client_keeps_bind {A B} (m : CM A) (k : A → CM B) : keeps m → (∀ a, keeps (k a)) → keeps (bind m k).
Proof. intros Hm Hk s Hs. unfold bind. specialize (Hm s Hs). destruct (m s) as [s' [a|e]]; [by apply Hk|done]. Qed.

Lemma pending_nil b : bounded b → (optr b =? iptr b)%nat = true → pending b = [].
Proof. intros Hb E%Nat.eqb_eq. apply nil_length_inv. rewrite length_pending by done. lia. Qed.

Lemma fst_shutdown a s : fst (Shutdown a s) = add_log Fin s.
Proof. unfold Shutdown. rewrite bind_modify. by destruct (shut_ok a). Qed.

Lemma inv_moved_to s bs : inv s → stdineof s = false → (length bs <= MAXLINE - iptr (to s))%nat →
  inv (add_log (Moved In bs) (set_to (put bs (to s)) s)).
Proof.
  intros [H1 H2 H3 H4 H5] He Hn. rewrite He in H5. split; cbn [to fr stdineof log add_log set_to]; rewrite ?said_app, ?said_moved, ?said_other, ?app_nil_r by done.
  - by apply bounded_put.
  - done.
  - by rewrite pending_put, app_assoc, H3.
  - done.
  - rewrite He. by apply fin_snoc.
Qed.

Lemma inv_eof s : inv s → stdineof s = false →
  inv (if (optr (to s) =? iptr (to s))%nat then add_log Fin (set_eof s) else set_eof s).
Proof.
  intros [H1 H2 H3 H4 H5] He. rewrite He in H5. destruct (optr (to s) =? iptr (to s))%nat eqn:E; split;
    cbn [to fr stdineof log add_log set_eof]; rewrite ?said_app, ?app_nil_r; try done; rewrite E; [by apply closed_fin|done].
Qed.

Lemma read_stdin_inv a s : inv s → stdineof s = false → inv (fst (read_stdin a s)).
Proof.
  intros Hi He. unfold read_stdin. rewrite bind_gets. destruct (rd_in a) as [bs|e]; [|by destruct (e =? EWOULDBLOCK)].
  destruct (take (MAXLINE - iptr (to s)) bs) as [|b bs'] eqn:E.
  - rewrite bind_modify. pose proof (inv_eof s Hi He) as H. destruct (optr (to s) =? iptr (to s))%nat; [|done].
    unfold bind. pose proof (fst_shutdown a (set_eof s)) as Hs. destruct (Shutdown a (set_eof s)) as [s' [[]|e]]; cbn in *; by subst.
  - rewrite !bind_modify. cbn [fst ret]. apply (inv_moved_to s (b :: bs') Hi He). rewrite <- E, length_take. lia.
Qed.

Lemma read_sock_inv a : keeps (read_sock a).
Proof.
  intros s Hi. unfold read_sock. rewrite bind_gets. destruct (rd_sock a) as [bs|e]; [|by destruct (e =? EWOULDBLOCK)].
  destruct (take (MAXLINE - iptr (fr s)) bs) as [|b bs'] eqn:E; [rewrite bind_gets; by destruct (stdineof s)|].
  rewrite !bind_modify. cbn [fst ret]. assert (length (b :: bs') <= MAXLINE - iptr (fr s))%nat as Hn by (rewrite <- E, length_take; lia).
  destruct Hi as [H1 H2 H3 H4 H5]. split; cbn [to fr stdineof log add_log set_fr]; rewrite ?said_app, ?said_moved, ?said_other, ?app_nil_r by done.
  - done.
  - by apply bounded_put.
  - done.
  - by rewrite pending_put, app_assoc, H4.
  - destruct (_ && _); [apply closed_snoc; auto|by apply fin_snoc].
Qed.

Lemma write_stdout_inv a : keeps (write_stdout a).
Proof.
  intros s Hi. unfold write_stdout. rewrite bind_gets. destruct (_ <? _)%nat; [|done]. destruct (wr_out a) as [n|e]; [|by destruct (e =? EWOULDBLOCK)].
  rewrite bind_modify. cbn [fst modify]. set (k := Nat.min n _). assert (k <= iptr (fr s) - optr (fr s))%nat as Hk by lia.
  destruct Hi as [H1 H2 H3 H4 H5]. split; cbn [to fr stdineof log add_log set_fr]; rewrite ?said_app, ?said_moved, ?said_other, ?app_nil_r by done.
  - done.
  - by apply bounded_taken.
  - done.
  - by rewrite <- app_assoc, <- pending_taken.
  - destruct (_ && _); [apply closed_snoc; auto|by apply fin_snoc].
Qed.

Lemma write_sock_inv a : keeps (write_sock a).
Proof.
  intros s Hi. unfold write_sock. rewrite bind_gets. destruct (Nat.ltb_spec 0 (iptr (to s) - optr (to s))) as [Hlt|]; [|done].
  destruct (wr_sock a) as [n|e]; [|by destruct (e =? EWOULDBLOCK)].
  rewrite !bind_modify, bind_gets. cbn [stdineof set_to add_log to]. set (k := Nat.min n _). assert (k <= iptr (to s) - optr (to s))%nat as Hk by lia.
  destruct Hi as [H1 H2 H3 H4 H5]. assert ((optr (to s) =? iptr (to s))%nat = false) as E by (apply Nat.eqb_neq; lia). rewrite E, andb_false_r in H5.
  destruct ((optr (to s) + k =? iptr (to s))%nat && stdineof s) eqn:Ef.
  - rewrite fst_shutdown. apply andb_true_iff in Ef as [Ek He].
    split; cbn [to fr stdineof log add_log set_to]; rewrite ?said_app, ?said_moved, ?said_other, ?app_nil_r by done; try done.
    + by apply bounded_taken.
    + rewrite <- app_assoc, <- pending_taken; done.
    + rewrite He, taken_empty, Ek. cbn. apply closed_fin. by apply fin_snoc.
  - cbn [fst ret]. split; cbn [to fr stdineof log add_log set_to]; rewrite ?said_app, ?said_moved, ?said_other, ?app_nil_r by done; try done.
    + by apply bounded_taken.
    + rewrite <- app_assoc, <- pending_taken; done.
    + rewrite taken_empty, andb_comm, Ef. by apply fin_snoc.
Qed.

Lemma turn_inv a : keeps (turn a).
Proof.
  intros s Hi. unfold turn. rewrite bind_get. destruct (negb (sel_ok a)); [done|].
  assert (inv (fst ((if negb (stdineof s) && (iptr (to s) <? MAXLINE)%nat && sel_in a then read_stdin a else ret false) s))) as H1.
  { destruct (stdineof s) eqn:He; [done|]. destruct (_ && _); [by apply read_stdin_inv|done]. }
  unfold bind at 1. destruct ((if _ && sel_in a then read_stdin a else ret false) s) as [s1 [more|e]]; [|done]. cbn [fst] in H1. revert s1 H1. apply client_keeps_bind.
  - destruct (_ && sel_rcv a); [apply read_sock_inv|apply client_keeps_ret].
  - intros [m2|]; [|apply client_keeps_ret]. apply client_keeps_bind; [destruct (_ || m2); [apply write_stdout_inv|apply client_keeps_ret]|].
    intros []. apply client_keeps_bind; [destruct (_ || more); [apply write_sock_inv|apply client_keeps_ret]|]. intros []. apply client_keeps_ret.
Qed.

Lemma turns_inv l : keeps (turns l).
Proof.
  induction l as [|a l IH]; cbn [turns]; [apply client_keeps_ret|]. apply client_keeps_bind; [apply turn_inv|]. intros [|]; [done|apply client_keeps_ret].
Qed.

Lemma start_inv : inv start.
Proof.
  assert (bounded empty_buffer) as Hb by (split; cbn; [apply length_replicate|lia]).
  split; try done; cbn [log start to fr]; try (by rewrite pending_nil). by intros ?%elem_of_nil.
Qed.

(** A return is a return with standard input at its end. *)
Lemma turn_return a s s' : turn a s = (s', Done false) → stdineof s' = true.
Proof.
  unfold turn. rewrite bind_get. destruct (negb (sel_ok a)); [done|]. unfold bind at 1.
  destruct ((if _ && sel_in a then read_stdin a else ret false) s) as [s1 [more|e]]; [|done].
  unfold bind at 1. destruct ((if _ && sel_rcv a then read_sock a else ret (Some false)) s1) as [s2 [[m2|]|e]] eqn:E; [|intros [= <-]|done].
  - unfold bind. destruct ((if _ || m2 then write_stdout a else ret tt) s2) as [s3 [[]|e]]; [|done].
    destruct ((if _ || more then write_sock a else ret tt) s3) as [s4 [[]|e]]; done.
  - destruct (_ && sel_rcv a); [|done]. unfold read_sock in E. rewrite bind_gets in E. destruct (rd_sock a) as [bs|e]; [|by destruct (e =? EWOULDBLOCK)].
    destruct (take _ bs); [|done]. rewrite bind_gets in E. destruct (stdineof s1) eqn:Es; [|done]. by injection E as <-.
Qed.

Lemma turns_return l : ∀ s s', turns l s = (s', Done false) → stdineof s' = true.
Proof.
  induction l as [|a l IH]; intros s s'; cbn [turns]; [done|]. unfold bind. destruct (turn a s) as [s1 [[|]|e]] eqn:E; [apply IH| |done].
  intros [= <-]. by eapply turn_return.
Qed.


(** ** The end of the input *)

(** Standard input is at its end, the socket takes at least one byte when it is asked to, and no
    call fails; the server need not send anything. *)
Definition draining (a : answers) : Prop :=
  sel_ok a = true ∧ sel_in a = true ∧ sel_snd a = true ∧ shut_ok a = true ∧
  rd_in a = Got [] ∧ rd_sock a = RdErr EWOULDBLOCK ∧ (∃ n, wr_out a = Put n) ∧ ∃ n, (1 <= n)%nat ∧ wr_sock a = Put n.

(** What is left to do for the direction to the server. *)
Definition todo (s : client) : nat := length (pending (to s)) + if stdineof s then 0 else 1.

Lemma drain_stdin a s : draining a → read_stdin a s =
  (if (optr (to s) =? iptr (to s))%nat then add_log Fin (set_eof s) else set_eof s, Done false).
Proof.
  intros (_ & _ & _ & Hs & Hr & _). unfold read_stdin. rewrite bind_gets, Hr. rewrite take_nil, bind_modify.
  destruct (_ =? _)%nat; [|done]. unfold Shutdown. rewrite Hs. done.
Qed.

Lemma drain_stdout a s : draining a → ∃ s', write_stdout a s = (s', Done tt) ∧ to s' = to s ∧ stdineof s' = stdineof s ∧
  said In (log s') = said In (log s).
Proof.
  intros (_ & _ & _ & _ & _ & _ & [n Hw] & _). unfold write_stdout. rewrite bind_gets, Hw. destruct (_ <? _)%nat; [|by exists s].
  rewrite bind_modify. eexists. split; [done|]. cbn [to stdineof log set_fr add_log]. by rewrite said_app, said_other, app_nil_r.
Qed.

Lemma drain_sock a s : draining a → inv s → (optr (to s) ≠ iptr (to s)) → ∃ s', write_sock a s = (s', Done tt) ∧
  (length (pending (to s')) < length (pending (to s)))%nat ∧ stdineof s' = stdineof s ∧ said In (log s') = said In (log s).
Proof.
  intros (_ & _ & _ & Hsh & _ & _ & _ & n & Hn & Hw) Hi Hne. pose proof (i_to s Hi) as Hb. unfold write_sock. rewrite bind_gets, Hw.
  rewrite (proj2 (Nat.ltb_lt _ _)) by (destruct Hb; lia). rewrite !bind_modify, bind_gets. cbn [stdineof set_to add_log to].
  set (k := Nat.min n _). assert (1 <= k <= iptr (to s) - optr (to s))%nat as Hk by (destruct Hb; lia).
  assert (length (pending (taken k (to s))) < length (pending (to s)))%nat as Hlt.
  { pose proof (f_equal length (pending_taken k (to s) Hb ltac:(lia))) as E. rewrite length_app, length_take, (length_pending _ Hb) in E. rewrite (length_pending _ Hb). lia. }
  destruct (_ && _); unfold Shutdown; rewrite ?Hsh; (eexists; split; [done|]); cbn [to stdineof log set_to add_log];
    (split; [done|]); (split; [done|]); rewrite ?said_app, ?said_other, ?app_nil_r by done; done.
Qed.

Lemma turn_drains a s : draining a → inv s → ∃ s', turn a s = (s', Done true) ∧ (todo s' <= todo s - 1)%nat ∧ said In (log s') = said In (log s).
Proof.
  intros Ha Hi. pose proof (i_to s Hi) as Hb. unfold turn. rewrite bind_get.
  destruct (Ha) as (Hok & Hin & Hsnd & _ & _ & Hrs & _). rewrite Hok, Hin, Hsnd. cbn [negb]. rewrite !andb_true_r.
  set (b1 := negb (stdineof s) && (iptr (to s) <? MAXLINE)%nat).
  assert (∃ s1, (if b1 then read_stdin a else ret false) s = (s1, Done false) ∧ inv s1 ∧ to s1 = to s ∧
    stdineof s1 = (stdineof s || b1) ∧ said In (log s1) = said In (log s)) as (s1 & E1 & Hi1 & Et & Ee & El).
  { unfold b1. destruct (stdineof s) eqn:He; [exists s; by rewrite He|]. destruct (_ <? _)%nat; [|exists s; by rewrite He]. cbn [negb andb].
    eexists. split; [by apply drain_stdin|]. split; [by apply inv_eof|]. destruct (_ =? _)%nat; cbn [add_log set_eof to stdineof log orb]; [|done].
    rewrite said_app. by replace (said In [Fin]) with (@nil Z) by done; rewrite app_nil_r. }
  rewrite (bind_done _ _ _ _ _ E1). 
  assert (∀ b : bool, (if b then read_sock a else ret (Some false)) s1 = (s1, Done (Some false))) as Er.
  { intros [|]; [|done]. unfold read_sock. by rewrite bind_gets, Hrs. }
  rewrite (bind_done _ _ _ _ _ (Er _)).
  destruct (drain_stdout a s1 Ha) as (s2 & E2 & Et2 & Ee2 & El2).
  assert (∃ s2', (if negb (optr (fr s) =? iptr (fr s))%nat && sel_out a || false then write_stdout a else ret tt) s1 = (s2', Done tt) ∧ inv s2' ∧
    to s2' = to s ∧ stdineof s2' = (stdineof s || b1) ∧ said In (log s2') = said In (log s)) as (s3 & E3 & Hi3 & Et3 & Ee3 & El3).
  { destruct (_ || false); [exists s2|exists s1; done]. pose proof (write_stdout_inv a s1 Hi1) as H. rewrite E2 in H. cbn in H.
    rewrite El2, El, Ee2, Et2, Et, Ee. done. }
  rewrite (bind_done _ _ _ _ _ E3). unfold b1 in *. destruct (Nat.eqb_spec (optr (to s)) (iptr (to s))) as [En|En]; cbn [negb orb].
  - exists s3. split; [done|]. split; [|done]. unfold todo. rewrite Et3, Ee3, pending_nil by (done || by apply Nat.eqb_eq). destruct (stdineof s); cbn [orb negb andb length]; [lia|].
    destruct (Nat.ltb_spec (iptr (to s)) MAXLINE); [lia|]. pose proof maxline_pos. destruct Hb as [_ Hb]. lia.
  - destruct (drain_sock a s3 Ha Hi3 ltac:(by rewrite Et3)) as (s4 & E4 & Hlt & Ee4 & El4). rewrite (bind_done _ _ _ _ _ E4).
    exists s4. split; [done|]. split; [|by rewrite El4]. unfold todo. rewrite Et3 in Hlt. rewrite Ee4, Ee3. destruct (stdineof s), (_ <? _)%nat; cbn [orb negb andb]; lia.
Qed.

Lemma turns_drain l : ∀ s, Forall draining l → inv s → ∃ s', turns l s = (s', Done true) ∧ inv s' ∧ (todo s' <= todo s - length l)%nat ∧
  said In (log s') = said In (log s).
Proof.
  induction l as [|a l IH]; intros s Hl Hi; [exists s; split; [done|]; split; [done|]; split; [cbn; lia|done]|]. inversion_clear Hl as [|?? Ha Hl'].
  destruct (turn_drains a s Ha Hi) as (s1 & E1 & Ht1 & El1). pose proof (turn_inv a s Hi) as Hi1. rewrite E1 in Hi1. cbn [fst] in Hi1.
  destruct (IH s1 Hl' Hi1) as (s2 & E2 & Hi2 & Ht2 & El2). exists s2. cbn [turns]. rewrite (bind_done _ _ _ _ _ E1). split; [done|]. split; [done|].
  split; [cbn [length]; lia|by rewrite El2].
Qed.

Lemma turns_app l1 l2 s s1 : turns l1 s = (s1, Done true) → turns (l1 ++ l2) s = turns l2 s1.
Proof.
  revert s. induction l1 as [|a l1 IH]; intros s; cbn [turns app]; [by intros [= ->]|]. unfold bind. destruct (turn a s) as [s' [[|]|e]]; [apply IH|done|done].
Qed.

(** After the end of standard input, every byte that was read is sent and the connection is
    half-closed, in at most one turn more than there are bytes left, whatever happened before:
    the client does not come to rest with data in its buffer. *)
Theorem strcli_drains l1 l2 s : str_cli l1 = (s, Done true) → Forall draining l2 → (length (pending (to s)) < length l2)%nat →
  ∃ s', str_cli (l1 ++ l2) = (s', Done true) ∧ said Snd (log s') = said In (log s) ∧ closed (log s').
Proof.
  intros E Hl Hn. pose proof (turns_inv l1 start start_inv) as Hi. unfold str_cli in *. rewrite E in Hi. cbn [fst] in Hi.
  destruct (turns_drain l2 s Hl Hi) as (s' & E' & Hi' & Ht & El). exists s'. rewrite (turns_app l1 l2 start s E). split; [done|].
  unfold todo in Ht. assert (pending (to s') = [] ∧ stdineof s' = true) as [Hp He].
  { destruct (stdineof s'), (stdineof s); (split; [apply nil_length_inv|]); (done || lia). }
  pose proof (i_sent s' Hi') as H3. rewrite Hp, app_nil_r in H3. split; [by rewrite <- H3|]. pose proof (i_fin s' Hi') as H5. rewrite He in H5.
  pose proof (length_pending _ (i_to s' Hi')) as Hlp. rewrite Hp in Hlp. cbn in Hlp. pose proof (i_to s' Hi') as [_ Hb].
  rewrite (proj2 (Nat.eqb_eq _ _)) in H5 by lia. done.
Qed.

(** ** Concrete runs *)

(** Three bytes come from standard input, of which the socket takes one; the server has answered
    two bytes while standard output takes none. *)
Definition demo_turn : answers := Answers true true true true true (Got [1; 2; 3]) (Got [8; 9]) (WrErr EWOULDBLOCK) (Put 1) true.
(** The end of the input; the socket takes one byte. *)
Definition demo_drain : answers := Answers true true false false true (Got []) (RdErr EWOULDBLOCK) (Put 0) (Put 1) true.
(** The server closes the connection. *)
Definition demo_close : answers := Answers true false true false false (Got []) (Got []) (Put 0) (Put 0) true.


Lemma strcli_drains_witness : ∃ s', str_cli ([demo_turn] ++ [demo_drain; demo_drain; demo_drain]) = (s', Done true) ∧ said Snd (log s') = [1; 2; 3] ∧ closed (log s').
Proof.
  destruct (str_cli [demo_turn]) as [s o] eqn:E. assert (o = Done true) as -> by (apply (f_equal snd) in E; by vm_compute in E).
  assert (said In (log s) = [1; 2; 3]) as El by (apply (f_equal (λ x, said In (log (fst x)))) in E; by vm_compute in E).
  assert (pending (to s) = [2; 3]) as Ep by (apply (f_equal (λ x, pending (to (fst x)))) in E; by vm_compute in E).
  rewrite <- El. apply (strcli_drains _ _ s E); [|rewrite Ep; cbn; lia].
  assert (draining demo_drain) by (repeat split; try done; [by eexists|by exists 1%nat]). do 3 (constructor; [done|]). constructor.
Defined.

(** [str_cli] returns when the server closes the connection although two bytes of its answer
    were not written to standard output. *)
Lemma strcli_loses_output :
  let '(s, o) := str_cli [demo_turn; demo_drain; demo_drain; demo_drain; demo_close] in
  o = Done false ∧ said Rcv (log s) = [8; 9] ∧ said Out (log s) = [] ∧ stdineof s = true.
Proof. vm_compute. done. Qed.
