(* ===== verification/Echo.v ===== *)
(** The two echo servers that serve all their clients in one process:
    unpv13e/tcpcliserv/tcpservselect01.c and tcpservpoll01.c.

    What the kernel answers in one turn of the main loop is a record.  A descriptor set is a
    finite set of numbers; setting a bit outside of [FD_SETSIZE], like an index outside of an
    array, is an outcome of its own, and so is the use of a member that was never assigned. *)
From stdpp Require Import base tactics numbers list gmap.
From Stdlib Require Import ZArith Lia.
From S2P Require Import Prelude.
Local Open Scope Z_scope.

Definition MAXLINE : nat := Z.to_nat 4096.
Definition FD_SETSIZE : nat := Z.to_nat 1024.
Definition POLLRDNORM : Z := 64.
Definition POLLERR : Z := 8.
Definition POLLHUP : Z := 16.
Definition ECONNRESET : Z := 104.

Inductive event := Accepted (fd : Z) | Echoed (fd : Z) (bs : list Z) | Closed (fd : Z).
Inductive stop := SysError | TooManyClients | Overrun | Unassigned.

(** Which descriptors [select] finds ready, and the events that [poll] finds; the new connection;
    for each connection the result of a read, which is empty at the end of the file, and whether
    all of a write succeeds. *)
Inductive rd := Got (bs : list Z) | RdErr (errno : Z).
Record answers := Answers {
  sel_ok : bool; ready : gset Z; events : Z → Z; newfd : option Z; rd_sock : Z → rd; wr_ok : Z → bool }.

(** The first free entry of [client], from index [i] on. *)
Fixpoint free_slot (i : nat) (client : list Z) : option nat :=
  match client with
  | [] => None
  | fd :: l => if fd <? 0 then Some i else free_slot (S i) l
  end.

(** The loop that both servers have over the indices of their clients. *)
Section loop.
Context {S : Type} (client : S → list Z) (isset : nat → Z → M S stop bool) (handle : nat → Z → M S stop unit).
Fixpoint check_clients (l : list nat) (nready : Z) : M S stop unit :=
  match l with
  | [] => ret tt
  | i :: l =>
      let! c := gets client in
      match c !! i with
      | None => fail Overrun
      | Some sockfd =>
          if sockfd <? 0 then check_clients l nready else
          let! b := isset i sockfd in
          if b : bool then
            handle i sockfd;;;
            if nready - 1 <=? 0 then ret tt else check_clients l (nready - 1)
          else check_clients l nready
      end
  end.
End loop.

(** ** tcpservselect01.c *)

Module Select.
Record server := Server { client : list Z; maxi : Z; maxfd : Z; allset : gset Z; log : list event }.
Abbreviation SM := (M server stop).

Definition add_log (e : event) : SM unit :=
  modify (λ s, Server (client s) (maxi s) (maxfd s) (allset s) (log s ++ [e])).
Definition set_client (i : nat) (fd : Z) : SM unit :=
  modify (λ s, Server (<[i := fd]> (client s)) (maxi s) (maxfd s) (allset s) (log s)).
Definition FD_SET (fd : Z) : SM unit :=
  if (0 <=? fd) && (fd <? Z.of_nat FD_SETSIZE)
  then modify (λ s, Server (client s) (maxi s) (maxfd s) ({[fd]} ∪ allset s) (log s)) else fail Overrun.
Definition FD_CLR (fd : Z) : SM unit :=
  modify (λ s, Server (client s) (maxi s) (maxfd s) (allset s ∖ {[fd]}) (log s)).

Definition start (listenfd : Z) : server :=
  Server (replicate FD_SETSIZE (-1)) (-1) listenfd {[listenfd]} [].

Definition new_client (a : answers) : SM unit :=
  match newfd a with
  | None => fail SysError
  | Some connfd =>
      add_log (Accepted connfd);;;
      let! c := gets client in
      match free_slot 0 c with
      | None => fail TooManyClients
      | Some i =>
          set_client i connfd;;;
          FD_SET connfd;;;
          modify (λ s, Server (client s) (Z.max (maxi s) (Z.of_nat i)) (Z.max (maxfd s) connfd) (allset s) (log s))
      end
  end.

Definition serve (a : answers) (i : nat) (sockfd : Z) : SM unit :=
  match rd_sock a sockfd with
  | RdErr _ => fail SysError
  | Got bs =>
      match take MAXLINE bs with
      | [] => add_log (Closed sockfd);;; FD_CLR sockfd;;; set_client i (-1)
      | bs => if wr_ok a sockfd then add_log (Echoed sockfd bs) else fail SysError
      end
  end.

(** [select] looks at the descriptors up to [maxfd]. *)
Definition turn (listenfd : Z) (a : answers) : SM unit :=
  let! s := get in
  if negb (sel_ok a) then fail SysError else
  let rset := filter (λ fd, fd <= maxfd s) (ready a ∩ allset s) in
  let nready := Z.of_nat (size rset) in
  let! nready :=
    (if bool_decide (listenfd ∈ rset) then new_client a;;; ret (nready - 1) else ret nready) in
  if bool_decide (listenfd ∈ rset) && (nready <=? 0) then ret tt else
  let! s := get in
  check_clients client (λ _ fd, ret (bool_decide (fd ∈ rset))) (serve a) (seq 0 (Z.to_nat (maxi s + 1))) nready.
End Select.

(** ** tcpservpoll01.c *)

Module Poll.
(** [revents] is not assigned before [poll] has looked at the entry. *)
Record server := Server { client : list Z; revents : list (option Z); maxi : Z; log : list event }.
Abbreviation SM := (M server stop).

Definition add_log (e : event) : SM unit :=
  modify (λ s, Server (client s) (revents s) (maxi s) (log s ++ [e])).
Definition set_client (i : nat) (fd : Z) : SM unit :=
  modify (λ s, Server (<[i := fd]> (client s)) (revents s) (maxi s) (log s)).

(** The number of entries, which limits.h gives, is an argument. *)
Definition start (OPEN_MAX : nat) (listenfd : Z) : server :=
  Server (listenfd :: replicate (OPEN_MAX - 1) (-1)) (replicate OPEN_MAX None) 0 [].

(** [poll] assigns [revents] of the first [n] entries, 0 for a negative descriptor, and returns
    how many of them are not 0. *)
Definition found (a : answers) (fd : Z) : Z := if fd <? 0 then 0 else events a fd.
Definition Poll (a : answers) (n : nat) : SM Z :=
  if negb (sel_ok a) then fail SysError else
  let! s := get in
  modify (λ s, Server (client s) ((Some ∘ found a <$> take n (client s)) ++ drop n (revents s)) (maxi s) (log s));;;
  ret (Z.of_nat (length (filter (λ fd, found a fd ≠ 0) (take n (client s))))).

Definition has_events (i : nat) (mask : Z) : SM bool :=
  let! r := gets revents in
  match r !! i with
  | None => fail Overrun
  | Some None => fail Unassigned
  | Some (Some e) => ret (negb (Z.land e mask =? 0))
  end.

Definition new_client (a : answers) : SM unit :=
  match newfd a with
  | None => fail SysError
  | Some connfd =>
      add_log (Accepted connfd);;;
      let! c := gets client in
      match free_slot 1 (drop 1 c) with
      | None => fail TooManyClients
      | Some i =>
          set_client i connfd;;;
          modify (λ s, Server (client s) (revents s) (Z.max (maxi s) (Z.of_nat i)) (log s))
      end
  end.

Definition serve (a : answers) (i : nat) (sockfd : Z) : SM unit :=
  match rd_sock a sockfd with
  | RdErr e => if e =? ECONNRESET then add_log (Closed sockfd);;; set_client i (-1) else fail SysError
  | Got bs =>
      match take MAXLINE bs with
      | [] => add_log (Closed sockfd);;; set_client i (-1)
      | bs => if wr_ok a sockfd then add_log (Echoed sockfd bs) else fail SysError
      end
  end.

Definition turn (a : answers) : SM unit :=
  let! n := gets (λ s, Z.to_nat (maxi s + 1)) in
  let! nready := Poll a n in
  let! b := has_events 0 POLLRDNORM in
  let! nready := (if b : bool then new_client a;;; ret (nready - 1) else ret nready) in
  if b && (nready <=? 0) then ret tt else
  let! s := get in
  check_clients client (λ i _, has_events i (Z.lor POLLRDNORM POLLERR)) (serve a) (seq 1 (Z.to_nat (maxi s))) nready.
End Poll.
