(* ===== verification/EchoProps.v ===== *)
(** The echo servers keep track of their connections and serve each one that is ready once. *)
From stdpp Require Import base tactics numbers list gmap.
From Stdlib Require Import ZArith Lia.
From S2P Require Import Prelude Echo.
Local Open Scope Z_scope.

(** ** The loop over the clients *)

Section loop.
Context {S : Type} (client : S → list Z) (isset : nat → Z → M S stop bool) (handle : nat → Z → M S stop unit).
Context (P : S → Prop) (polled : nat → Prop) (hit : nat → Z → bool) (eff : nat * Z → S → S).

(** The entries that are served, with their indices. *)
Definition hit_at (s : S) (i : nat) : option (nat * Z) :=
  match client s !! i with Some fd => if (0 <=? fd) && hit i fd then Some (i, fd) else None | None => None end.
Definition hits (s : S) (l : list nat) : list (nat * Z) := omap (hit_at s) l.

Hypothesis isset_ok : ∀ i fd s, P s → polled i → isset i fd s = (s, Done (hit i fd)).
Hypothesis handle_ok : ∀ i fd s, P s → client s !! i = Some fd → 0 <= fd → hit i fd = true → handle i fd s = (eff (i, fd) s, Done tt).
Hypothesis eff_P : ∀ x s, P s → P (eff x s).
Hypothesis eff_client : ∀ i fd j s, j ≠ i → client (eff (i, fd) s) !! j = client s !! j.

Lemma hits_cons s i l : hits s (i :: l) = match hit_at s i with Some x => x :: hits s l | None => hits s l end.
Proof. done. Qed.

Lemma hits_eff i fd s l : (i ∉ l) → hits (eff (i, fd) s) l = hits s l.
Proof using eff_client.
  clear isset_ok handle_ok eff_P. induction l as [|j l IH]; [done|]. intros [Hj Hl]%not_elem_of_cons. rewrite !hits_cons, IH by done.
  unfold hit_at. by rewrite eff_client.
Qed.

(** The count of the ready descriptors never ends the loop too early.  When it is exact, the
    loop does not look at the entries behind the last one that is served. *)
Lemma check_clients_run l2 l1 : ∀ nready s, P s → NoDup l1 → (∀ i, i ∈ l1 → polled i ∧ is_Some (client s !! i)) →
  Z.of_nat (length (hits s l1)) <= nready → l2 = [] ∨ (Z.of_nat (length (hits s l1)) = nready ∧ 1 <= nready) →
  check_clients client isset handle (l1 ++ l2) nready s = (foldl (flip eff) s (hits s l1), Done tt).
Proof using All.
  induction l1 as [|i l1 IH]; intros nready s HP Hnd Hin Hn Hl2.
  - destruct Hl2 as [->|[H1 H2]]; [done|]. cbn in H1. lia.
  - apply NoDup_cons in Hnd as [Hi Hnd]. destruct (Hin i ltac:(by left)) as [Hp [fd Hfd]].
    assert (∀ j, j ∈ l1 → polled j ∧ is_Some (client s !! j)) as Hin' by (intros; apply Hin; by right).
    cbn [check_clients app]. rewrite bind_gets, Hfd. assert (hits s (i :: l1) = (if (0 <=? fd) && hit i fd then [(i, fd)] else []) ++ hits s l1) as Eh.
    { rewrite hits_cons. unfold hit_at. rewrite Hfd. by destruct (_ && _). }
    rewrite Eh in Hn, Hl2 |- *. destruct (Z.ltb_spec fd 0) as [Hneg|Hpos].
    { rewrite (proj2 (Z.leb_gt 0 fd)) in * by lia. by apply IH. }
    rewrite (proj2 (Z.leb_le 0 fd)) in * by lia. rewrite (bind_done _ _ _ _ _ (isset_ok i fd s HP Hp)). cbn [andb] in *.
    destruct (hit i fd) eqn:Hh; [|by apply IH]. rewrite (bind_done _ _ _ _ _ (handle_ok i fd s HP Hfd Hpos Hh)). cbn [app length foldl flip] in *.
    destruct (Z.leb_spec (nready - 1) 0) as [Hle|Hgt].
    { rewrite (nil_length_inv (hits s l1)) by lia. done. }
    rewrite <- (hits_eff i fd s l1 Hi) in *. apply IH; [by apply eff_P|done| |lia|].
    + intros j Hj. destruct (Hin' j Hj) as [? ?]. split; [done|]. rewrite eff_client; [done|]. by intros ->.
    + destruct Hl2 as [->|[H1 H2]]; [by left|right; lia].
Qed.
End loop.

(** ** The table of clients *)

(** The entries of [c] that are in use are those up to [maxi] that are not negative; they hold
    the descriptors of [D], each once. *)
Record slots (c : list Z) (maxi : Z) (D : gset Z) : Prop := {
  sl_inj : ∀ i j fd, c !! i = Some fd → c !! j = Some fd → 0 <= fd → i = j;
  sl_used : ∀ i fd, c !! i = Some fd → 0 <= fd → Z.of_nat i <= maxi ∧ fd ∈ D;
  sl_all : ∀ fd, fd ∈ D → 0 <= fd ∧ ∃ i, c !! i = Some fd }.

Lemma slots_add c maxi D i x fd : slots c maxi D → c !! i = Some x → x < 0 → (fd ∉ D) → 0 <= fd →
  slots (<[i := fd]> c) (Z.max maxi (Z.of_nat i)) ({[fd]} ∪ D).
Proof.
  intros [H1 H2 H3] Hi Hx Hfd H0. assert (i < length c)%nat as Hlen by (by eapply lookup_lt_Some). split.
  - intros j k y [(-> & <- & _)|[Hj Ej]]%list_lookup_insert_Some [(<- & E & _)|[Hk Ek]]%list_lookup_insert_Some Hy; try done.
    + destruct Hfd. by eapply H2.
    + subst y. destruct Hfd. by eapply H2.
    + by eapply H1.
  - intros j y [(-> & <- & _)|[Hj Ej]]%list_lookup_insert_Some Hy; [split; [lia|set_solver]|].
    destruct (H2 j y Ej Hy). split; [lia|set_solver].
  - intros y [->%elem_of_singleton|Hy]%elem_of_union; [split; [done|]; exists i; by apply list_lookup_insert_eq|].
    destruct (H3 y Hy) as [Hy0 [j Hj]]. split; [done|]. exists j. rewrite list_lookup_insert_ne; [done|]. intros ->. rewrite Hi in Hj. injection Hj as ->. lia.
Qed.

Lemma slots_del c maxi D i fd : slots c maxi D → c !! i = Some fd → 0 <= fd → slots (<[i := -1]> c) maxi (D ∖ {[fd]}).
Proof.
  intros [H1 H2 H3] Hi H0. assert (i < length c)%nat as Hlen by (by eapply lookup_lt_Some). split.
  - intros j k y [(-> & <- & _)|[Hj Ej]]%list_lookup_insert_Some [(<- & E & _)|[Hk Ek]]%list_lookup_insert_Some Hy; try lia. by eapply H1.
  - intros j y [(-> & <- & _)|[Hj Ej]]%list_lookup_insert_Some Hy; [lia|]. destruct (H2 j y Ej Hy). split; [done|].
    apply elem_of_difference. split; [done|]. intros ->%elem_of_singleton. by destruct (Hj (H1 i j fd Hi Ej H0)).
  - intros y [Hy Hne]%elem_of_difference. destruct (H3 y Hy) as [Hy0 [j Hj]]. split; [done|]. exists j. rewrite list_lookup_insert_ne; [done|].
    intros ->. rewrite Hi in Hj. injection Hj as ->. set_solver.
Qed.

Lemma free_slot_some c : ∀ k i, free_slot k c = Some i → (k <= i)%nat ∧ ∃ x, c !! (i - k)%nat = Some x ∧ x < 0.
Proof.
  induction c as [|x c IH]; intros k i; cbn [free_slot]; [done|]. destruct (Z.ltb_spec x 0).
  - intros [= ->]. split; [lia|]. exists x. by rewrite Nat.sub_diag.
  - intros (Hk & y & Hy & ?)%IH. split; [lia|]. exists y. replace (i - k)%nat with (Datatypes.S (i - Datatypes.S k)) by lia. done.
Qed.
Lemma free_slot_none c : ∀ k, free_slot k c = None → Forall (Z.le 0) c.
Proof. induction c as [|x c IH]; intros k; cbn [free_slot]; [constructor|]. destruct (Z.ltb_spec x 0); [done|]. intros ?%IH. by constructor. Qed.

(** Descriptors are numbers below the size of the table, so that a new one finds a free entry. *)
Lemma slots_full c maxi D fd : slots c maxi D → Forall (Z.le 0) c → (∀ x, x ∈ {[fd]} ∪ D → 0 <= x < Z.of_nat (length c)) → fd ∈ D.
Proof.
  intros [H1 H2 _] Hall Hr. destruct (decide (fd ∈ D)) as [|Hfd]; [done|]. exfalso.
  assert (∀ i x, c !! i = Some x → 0 <= x ∧ x ∈ D) as Hc.
  { intros i x Hi. assert (0 <= x) by (rewrite Forall_lookup in Hall; by eapply Hall). split; [done|]. by eapply H2. }
  assert (NoDup (fd :: c)) as Hnd.
  { constructor; [intros [i Hi]%list_elem_of_lookup; by apply Hc in Hi as []|]. apply NoDup_alt. intros i j x Hi Hj. eapply H1; [done|done|by eapply Hc]. }
  assert (fd :: c ⊆+ seqZ 0 (Z.of_nat (length c))) as Hsub.
  { apply NoDup_submseteq; [done|]. intros x Hx. apply elem_of_seqZ. assert (x ∈ ({[fd]} ∪ D : gset Z)) as Hin.
    { apply elem_of_cons in Hx as [->|[i Hi]%list_elem_of_lookup]; [set_solver|]. apply Hc in Hi. set_solver. }
    apply Hr in Hin. lia. }
  apply submseteq_length in Hsub. rewrite length_seqZ in Hsub. cbn in Hsub. lia.
Qed.

Lemma hits_in {S} (client : S → list Z) hit s l i x : (i, x) ∈ hits client hit s l → client s !! i = Some x ∧ 0 <= x ∧ hit i x = true.
Proof.
  unfold hits. rewrite list_elem_of_omap. intros (j & _ & E). unfold hit_at in E. destruct (client s !! j) as [fd|] eqn:Ej; [|done].
  destruct (Z.leb_spec 0 fd); [|done]. destruct (hit j fd) eqn:Eh; [|done]. by injection E as <- <-.
Qed.

Lemma hits_indices {S} (client : S → list Z) hit s l : NoDup l → NoDup (hits client hit s l).*1.
Proof.
  assert (∀ i j x, hit_at client hit s i = Some (j, x) → j = i) as Hix.
  { intros i j x. unfold hit_at. destruct (client s !! i); [|done]. by destruct (_ && _); [intros [= <- _]|]. }
  induction l as [|i l IH]; [constructor|]. intros [Hi Hl]%NoDup_cons. rewrite hits_cons. destruct (hit_at client hit s i) as [[j x]|] eqn:E; [|by apply IH].
  rewrite fmap_cons. constructor; [|by apply IH]. apply Hix in E as ->. cbn. intros ([k y] & -> & (m & Hm & Em)%list_elem_of_omap)%list_elem_of_fmap.
  apply Hix in Em. cbn in Hi. by subst.
Qed.

(** The descriptors that are served, as a set. *)
Lemma hits_elements {S} (client : S → list Z) hit s k n maxi D (R : gset Z) :
  slots (client s) maxi D → (∀ i fd, client s !! i = Some fd → fd ∈ R → Z.of_nat k <= Z.of_nat i < Z.of_nat (k + n)) →
  (∀ i fd, client s !! i = Some fd → 0 <= fd → (k <= i)%nat → hit i fd = true ↔ fd ∈ R) → R ⊆ D →
  (hits client hit s (seq k n)).*2 ≡ₚ elements R.
Proof.
  intros Hs Hn Hhit HR.
  assert (∀ i x, (i, x) ∈ hits client hit s (seq k n) → (k <= i)%nat) as Hk.
  { intros i x (j & Hj%elem_of_seq & E)%list_elem_of_omap. unfold hit_at in E. destruct (client s !! j) as [fd|]; [|done]. destruct (_ && _); [|done]. injection E as <- <-. lia. }
  apply NoDup_Permutation; [|apply NoDup_elements|].
  - apply NoDup_fmap_2_strong; [|apply (NoDup_fmap_1 fst), hits_indices, NoDup_seq].
    intros [i x] [j y] (E1 & H0 & _)%hits_in (E2 & _)%hits_in [= ->]. by rewrite (sl_inj _ _ _ Hs i j y E1 E2 H0).
  - intros fd. rewrite elem_of_elements, list_elem_of_fmap. split.
    + intros ([i x] & -> & Hix). pose proof (hits_in _ _ _ _ _ _ Hix) as (E & H0 & Hh). cbn. apply (Hhit i); try done. by eapply Hk.
    + intros Hfd. destruct (sl_all _ _ _ Hs fd (HR fd Hfd)) as [H0 [i Hi]]. exists (i, fd). split; [done|]. unfold hits. apply list_elem_of_omap.
      pose proof (Hn i fd Hi Hfd) as Hb. exists i. split; [apply elem_of_seq; lia|]. unfold hit_at. rewrite Hi.
      by rewrite (proj2 (Z.leb_le 0 fd)), (proj2 (Hhit i fd Hi H0 ltac:(lia))).
Qed.

(** What serving a descriptor does. *)
Definition served (a : answers) (fd : Z) : event :=
  match rd_sock a fd with Got bs => match take MAXLINE bs with [] => Closed fd | bs => Echoed fd bs end | RdErr _ => Closed fd end.
Definition ends (e : event) : bool := match e with Closed _ => true | _ => false end.

Lemma served_closed a fd (hs : list Z) : Closed fd ∈ (served a <$> hs) ↔ fd ∈ hs ∧ ends (served a fd) = true.
Proof.
  assert (∀ x y, served a x = Closed y → x = y) as Hs by (intros x y; unfold served; destruct (rd_sock a x) as [bs|]; [destruct (take MAXLINE bs)|]; congruence).
  rewrite list_elem_of_fmap. split.
  - intros (x & E & Hx). symmetry in E. pose proof (Hs _ _ E) as ->. by rewrite E.
  - intros [Hx He]. exists fd. split; [|done]. destruct (served a fd) eqn:E; try done. by rewrite (Hs _ _ E).
Qed.

(** ** tcpservselect01.c *)

Module SelectThms.
Import Select.
#[local] Opaque FD_SETSIZE MAXLINE.

Definition eff (a : answers) (x : nat * Z) (s : server) : server :=
  if ends (served a (snd x)) then Server (<[fst x := -1]> (client s)) (maxi s) (maxfd s) (allset s ∖ {[snd x]}) (log s ++ [served a (snd x)])
  else Server (client s) (maxi s) (maxfd s) (allset s) (log s ++ [served a (snd x)]).

Record inv (listenfd : Z) (s : server) : Prop := {
  v_len : length (client s) = FD_SETSIZE;
  v_slots : slots (client s) (maxi s) (allset s ∖ {[listenfd]});
  v_listen : listenfd ∈ allset s;
  v_range : ∀ fd, fd ∈ allset s → 0 <= fd < Z.of_nat FD_SETSIZE ∧ fd <= maxfd s;
  v_maxi : -1 <= maxi s < Z.of_nat FD_SETSIZE }.

(** No call fails, and [accept] returns a descriptor that was not open and that fits a set. *)
Record fine (listenfd : Z) (a : answers) (s : server) : Prop := {
  f_sel : sel_ok a = true;
  f_new : listenfd ∈ ready a → ∃ fd, newfd a = Some fd ∧ (fd ∉ allset s) ∧ 0 <= fd < Z.of_nat FD_SETSIZE;
  f_rd : ∀ fd, fd ∈ allset s → fd ∈ ready a → fd ≠ listenfd → (∃ bs, rd_sock a fd = Got bs) ∧ wr_ok a fd = true }.

Lemma select_start_inv listenfd : 0 <= listenfd < Z.of_nat FD_SETSIZE → inv listenfd (start listenfd).
Proof.
  intros H. split; cbn [client allset start maxi maxfd].
  - apply length_replicate.
  - split; [|intros i fd [-> _]%lookup_replicate; lia|set_solver]. intros i j fd [-> _]%lookup_replicate. lia.
  - set_solver.
  - intros fd ->%elem_of_singleton. lia.
  - lia.
Qed.

Lemma select_eff_log a l : ∀ s, log (foldl (flip (eff a)) s l) = log s ++ (served a <$> l.*2).
Proof.
  induction l as [|x l IH]; intros s; cbn [foldl flip]; [by rewrite app_nil_r|]. rewrite IH. unfold eff. rewrite fmap_cons.
  destruct (ends _); cbn [log]; by rewrite <- app_assoc.
Qed.
Lemma select_eff_allset a l : ∀ s fd, fd ∈ allset (foldl (flip (eff a)) s l) ↔ fd ∈ allset s ∧ ¬ (fd ∈ l.*2 ∧ ends (served a fd) = true).
Proof.
  induction l as [|[i x] l IH]; intros s fd; cbn [foldl flip]; [cbn; rewrite elem_of_nil; tauto|]. rewrite IH, fmap_cons, elem_of_cons. unfold eff. cbn [fst snd].
  destruct (ends (served a x)) eqn:E; cbn [allset].
  - rewrite elem_of_difference, elem_of_singleton. split; [|naive_solver]. intros [[? ?] ?]. naive_solver.
  - split; [|naive_solver]. intros [? H]. split; [done|]. intros [[->|?] ?]; [congruence|naive_solver].
Qed.
Lemma select_eff_inv listenfd a l : ∀ s, inv listenfd s → (listenfd ∉ l.*2) → NoDup l.*1 → (∀ x, x ∈ l → client s !! fst x = Some (snd x) ∧ 0 <= snd x) →
  inv listenfd (foldl (flip (eff a)) s l).
Proof.
  induction l as [|[i fd] l IH]; intros s Hi Hl Hnd Hin; [done|]. change (NoDup (i :: l.*1)) in Hnd. change (listenfd ∉ fd :: l.*2) in Hl. apply NoDup_cons in Hnd as [Hni Hnd].
  apply not_elem_of_cons in Hl as [Hfd Hl]. destruct (Hin (i, fd) ltac:(by left)) as [Hc H0]. cbn in Hc, H0.
  cbn [foldl flip]. apply IH; try done.
  - unfold eff. cbn [fst snd]. destruct Hi as [H1 H2 H3 H4 H5]. destruct (ends _); [|by split]. split; cbn [client allset maxi maxfd].
    + by rewrite length_insert.
    + replace (allset s ∖ {[fd]} ∖ {[listenfd]}) with (allset s ∖ {[listenfd]} ∖ {[fd]}) by set_solver. by apply slots_del.
    + set_solver.
    + intros x [? _]%elem_of_difference. by apply H4.
    + done.
  - intros [j y] Hx. destruct (Hin (j, y) ltac:(by right)) as [Hj ?]. split; [|done]. unfold eff. cbn [fst snd] in *. destruct (ends _); [|done]. cbn [client].
    rewrite list_lookup_insert_ne; [done|]. intros ->. apply Hni. apply list_elem_of_fmap. by exists (j, y).
Qed.

Lemma select_serve_run listenfd a s s0 i fd : fine listenfd a s0 → fd ∈ allset s0 → fd ∈ ready a → fd ≠ listenfd → serve a i fd s = (eff a (i, fd) s, Done tt).
Proof.
  intros Hf Hs Hr Hl. destruct (f_rd _ _ _ Hf fd Hs Hr Hl) as [[bs Hb] Hw]. unfold serve, eff, served. cbn [fst snd]. rewrite Hb, Hw.
  by destruct (take MAXLINE bs).
Qed.

Lemma select_new_client_run listenfd a s fd : inv listenfd s → newfd a = Some fd → (fd ∉ allset s) → 0 <= fd < Z.of_nat FD_SETSIZE →
  ∃ s', new_client a s = (s', Done tt) ∧ inv listenfd s' ∧ log s' = log s ++ [Accepted fd] ∧ allset s' = {[fd]} ∪ allset s.
Proof.
  intros [H1 H2 H3 H4 H5] En Hfd Hr. unfold new_client. rewrite En. unfold add_log at 1. rewrite bind_modify, bind_gets. cbn [client].
  assert (fd ≠ listenfd) as Hne by (by intros ->).
  destruct (free_slot 0 (client s)) as [i|] eqn:Ef.
  - apply free_slot_some in Ef as (_ & x & Hi & Hx). rewrite Nat.sub_0_r in Hi. unfold set_client. rewrite bind_modify. unfold FD_SET.
    rewrite (proj2 (Z.leb_le 0 fd)), (proj2 (Z.ltb_lt fd _)) by lia. cbn [andb]. rewrite bind_modify. unfold modify. eexists. split; [done|]. cbn [client maxi maxfd allset log].
    assert (i < length (client s))%nat by (by eapply lookup_lt_Some). split; [|done]. split; cbn [client maxi maxfd allset].
    + by rewrite length_insert.
    + replace (({[fd]} ∪ allset s) ∖ {[listenfd]}) with ({[fd]} ∪ allset s ∖ {[listenfd]}) by set_solver. eapply slots_add; try done; [set_solver|lia].
    + set_solver.
    + intros y [->%elem_of_singleton|Hy]%elem_of_union; [lia|]. apply H4 in Hy. lia.
    + lia.
  - exfalso. apply free_slot_none in Ef. assert (fd ∈ allset s ∖ {[listenfd]}); [|set_solver]. eapply slots_full; [done|done|].
    rewrite H1. intros x [->%elem_of_singleton|Hx]%elem_of_union; [done|]. apply elem_of_difference in Hx as [Hx _]. apply H4 in Hx. lia.
Qed.

(** The loop after a possible new connection. *)
Lemma select_clients_run listenfd a s0 s rset : inv listenfd s0 → inv listenfd s → fine listenfd a s0 → rset = ready a ∩ allset s0 → allset s0 ⊆ allset s →
  ∃ s' hs, check_clients client (λ _ fd, ret (bool_decide (fd ∈ rset))) (serve a) (seq 0 (Z.to_nat (maxi s + 1))) (Z.of_nat (size (rset ∖ {[listenfd]}))) s = (s', Done tt) ∧
    inv listenfd s' ∧ hs ≡ₚ elements (rset ∖ {[listenfd]}) ∧ log s' = log s ++ (served a <$> hs) ∧
    ∀ fd, fd ∈ allset s' ↔ fd ∈ allset s ∧ ¬ (fd ∈ hs ∧ ends (served a fd) = true).
Proof.
  intros Hi0 Hi Hf -> Hsub. set (rset := ready a ∩ allset s0). set (n := Z.to_nat (maxi s + 1)). pose proof (v_maxi _ _ Hi) as Hm. pose proof (v_len _ _ Hi) as Hlen.
  assert (∀ s i, inv listenfd s → client s !! i ≠ Some listenfd) as Hnl.
  { intros s1 i H1 E. destruct (sl_used _ _ _ (v_slots _ _ H1) i listenfd E); [|set_solver]. by apply (v_range _ _ H1), (v_listen _ _ H1). }
  set (hit := λ (i : nat) (fd : Z), bool_decide (fd ∈ rset)). set (hs := hits client hit s (seq 0 n)).
  assert (hs.*2 ≡ₚ elements (rset ∖ {[listenfd]})) as Hperm.
  { eapply hits_elements; [apply (v_slots _ _ Hi)| | |set_solver].
    { intros i fd E Hfd. destruct (sl_used _ _ _ (v_slots _ _ Hi) i fd E); [|lia]. apply (v_range _ _ Hi0). set_solver. }
    intros i fd E _ _. unfold hit. rewrite bool_decide_eq_true.
    assert (fd ≠ listenfd) by (intros ->; by apply (Hnl s i Hi)). set_solver. }
  assert (∀ x, x ∈ hs → client s !! fst x = Some (snd x) ∧ 0 <= snd x) as Hhs.
  { intros [i fd] (E & H0 & _)%hits_in. done. }
  assert (length hs = size (rset ∖ {[listenfd]})) as Hlh by (unfold size, set_size; cbn; by rewrite <- Hperm, length_fmap).
  exists (foldl (flip (eff a)) s hs), hs.*2.
  split; [|split; [|split; [done|split; [apply select_eff_log|apply select_eff_allset]]]].
  - pose proof (check_clients_run client (λ _ fd, ret (bool_decide (fd ∈ rset))) (serve a) (λ s, ∀ i, client s !! i ≠ Some listenfd) (λ _, True) hit (eff a)) as H.
    specialize (H ltac:(done)). rewrite <- (app_nil_r (seq 0 n)). apply H; clear H.
    + intros i fd s1 Hs1 E H0 Hh. apply bool_decide_eq_true in Hh. eapply select_serve_run; [done|set_solver|set_solver|]. intros ->. by apply (Hs1 i).
    + intros [i fd] s1 Hs1 j. unfold eff. cbn [fst snd]. destruct (ends _); [|apply Hs1]. cbn [client]. intros [(-> & E & _)|[_ E]]%list_lookup_insert_Some; [|by apply (Hs1 j)].
      pose proof (v_range _ _ Hi0 listenfd (v_listen _ _ Hi0)). lia.
    + intros i fd j s1 Hj. unfold eff. cbn [fst snd]. destruct (ends _); [|done]. cbn [client]. by rewrite list_lookup_insert_ne.
    + intros i. by apply Hnl.
    + apply NoDup_seq.
    + intros i Hin%elem_of_seq. split; [done|]. apply lookup_lt_is_Some. lia.
    + fold hs. lia.
    + by left.
  - apply select_eff_inv; [done| | |done].
    + rewrite Hperm, elem_of_elements. set_solver.
    + apply hits_indices, NoDup_seq.
Qed.

(** The states of the server at the start of its loop. *)
Inductive reach (listenfd : Z) : server → Prop :=
| reach_start : reach listenfd (start listenfd)
| reach_turn s a s' : reach listenfd s → fine listenfd a s → turn listenfd a s = (s', Done tt) → reach listenfd s'.

Lemma select_turn_run listenfd a s : inv listenfd s → fine listenfd a s → ∃ s' hs, turn listenfd a s = (s', Done tt) ∧ inv listenfd s' ∧
  hs ≡ₚ elements ((ready a ∩ allset s) ∖ {[listenfd]}) ∧
  log s' = log s ++ (if bool_decide (listenfd ∈ ready a) then [Accepted (default 0 (newfd a))] else []) ++ (served a <$> hs) ∧
  ∀ fd, fd ∈ allset s' ↔ (fd ∈ allset s ∨ (listenfd ∈ ready a ∧ newfd a = Some fd)) ∧ ¬ (fd ∈ hs ∧ ends (served a fd) = true).
Proof.
  intros Hi Hf. unfold turn. rewrite bind_get, (f_sel _ _ _ Hf). cbn [negb]. set (rset := ready a ∩ allset s).
  assert (filter (λ fd, fd <= maxfd s) rset = rset) as ->.
  { apply leibniz_equiv. intros fd. rewrite elem_of_filter. split; [tauto|]. intros H. split; [|done]. apply (v_range _ _ Hi). set_solver. }
  assert (listenfd ∈ rset ↔ listenfd ∈ ready a) as Hl by (pose proof (v_listen _ _ Hi); set_solver).
  destruct (decide (listenfd ∈ ready a)) as [Hr|Hr].
  - rewrite !bool_decide_true by tauto. destruct (f_new _ _ _ Hf Hr) as (fd & En & Hfd & Hrange).
    destruct (select_new_client_run listenfd a s fd Hi En Hfd Hrange) as (s1 & E1 & Hi1 & El1 & Ea1). rewrite bind_assoc, (bind_done _ _ _ _ _ E1), bind_ret.
    assert (Z.of_nat (size rset) - 1 = Z.of_nat (size (rset ∖ {[listenfd]}))) as ->.
    { rewrite size_difference by set_solver. rewrite size_singleton. assert (size ({[listenfd]} : gset Z) <= size rset)%nat as Hs by (apply subseteq_size; set_solver).
      rewrite size_singleton in Hs. lia. }
    destruct (select_clients_run listenfd a s s1 rset Hi Hi1 Hf eq_refl ltac:(set_solver)) as (s' & hs & E & Hi' & Hp & El & Ea). cbn [andb].
    assert (∀ x, x ∈ allset s' ↔ (x ∈ allset s ∨ (listenfd ∈ ready a ∧ newfd a = Some x)) ∧ ¬ (x ∈ hs ∧ ends (served a x) = true)) as Ha.
    { intros x. rewrite Ea, Ea1, En. set_solver. }
    assert (log s' = log s ++ [Accepted (default 0 (newfd a))] ++ (served a <$> hs)) as Hlog by (rewrite El, El1, En, <- app_assoc; done).
    destruct (Z.leb_spec (Z.of_nat (size (rset ∖ {[listenfd]}))) 0) as [H0|H0]; [|exists s', hs; by rewrite bind_get].
    assert (rset ∖ {[listenfd]} = ∅) as Hem by (apply leibniz_equiv, size_empty_inv; lia). rewrite Hem, elements_empty in Hp. apply Permutation_nil_r in Hp as ->.
    exists s1, []. split; [done|]. split; [done|]. split; [by rewrite Hem, elements_empty|]. split; [by rewrite El1, En|]. intros x. rewrite Ea1, En. set_solver.
  - rewrite !bool_decide_false by tauto. rewrite bind_ret. cbn [andb]. rewrite bind_get.
    destruct (select_clients_run listenfd a s s rset Hi Hi Hf eq_refl ltac:(done)) as (s' & hs & E & Hi' & Hp & El & Ea). exists s', hs.
    replace (rset ∖ {[listenfd]}) with rset in * by set_solver. split; [done|]. split; [done|]. split; [done|]. split; [done|]. intros x. rewrite Ea. tauto.
Qed.

Lemma select_reach_inv listenfd s : 0 <= listenfd < Z.of_nat FD_SETSIZE → reach listenfd s → inv listenfd s.
Proof.
  intros Hl. induction 1 as [|s a s' _ IH Hf E]; [by apply select_start_inv|]. destruct (select_turn_run listenfd a s IH Hf) as (s1 & hs & E1 & Hi1 & _). congruence.
Qed.

End SelectThms.

(** ** tcpservpoll01.c *)

Lemma slots_NoDup c (Q : Z → Prop) `{∀ x, Decision (Q x)} : (∀ i j fd, c !! i = Some fd → c !! j = Some fd → 0 <= fd → i = j) →
  (∀ x, Q x → 0 <= x) → NoDup (filter Q c).
Proof.
  intros Hinj HQ. induction c as [|x c IH]; [constructor|].
  assert (NoDup (filter Q c)) as Hnd by (apply IH; intros i j fd Hi Hj H0; by injection (Hinj (Datatypes.S i) (Datatypes.S j) fd Hi Hj H0)).
  rewrite filter_cons. destruct (decide (Q x)) as [Hx|]; [|done]. constructor; [|done].
  intros [_ [i Hi]%list_elem_of_lookup]%list_elem_of_filter. by discriminate (Hinj 0%nat (Datatypes.S i) x eq_refl Hi (HQ x Hx)).
Qed.

Module PollThms.
Import Poll.
#[local] Opaque MAXLINE.

(** The descriptors of the table, that of the listening socket among them. *)
Definition fds (s : server) : gset Z := list_to_set (filter (λ fd, 0 <= fd) (client s)).
Definition mask : Z := Z.lor POLLRDNORM POLLERR.

Lemma slots_fds c m D s : slots c m D → client s = c → fds s = D.
Proof.
  intros Hs <-. apply leibniz_equiv. intros fd. unfold fds. rewrite elem_of_list_to_set, list_elem_of_filter. split.
  - intros [H0 [i Hi]%list_elem_of_lookup]. by eapply (sl_used _ _ _ Hs).
  - intros Hfd. destruct (sl_all _ _ _ Hs fd Hfd) as [H0 [i Hi]]. split; [done|]. by eapply list_elem_of_lookup_2.
Qed.

Definition eff (a : answers) (x : nat * Z) (s : server) : server :=
  if ends (served a (snd x)) then Server (<[fst x := -1]> (client s)) (revents s) (maxi s) (log s ++ [served a (snd x)])
  else Server (client s) (revents s) (maxi s) (log s ++ [served a (snd x)]).

Record inv (N : nat) (listenfd : Z) (s : server) : Prop := {
  v_len : length (client s) = N ∧ length (revents s) = N;
  v_slots : slots (client s) (maxi s) (fds s);
  v_listen : client s !! 0%nat = Some listenfd ∧ 0 <= listenfd;
  v_range : ∀ fd, fd ∈ fds s → 0 <= fd < Z.of_nat N;
  v_maxi : 0 <= maxi s < Z.of_nat N }.

(** No call fails, but for connections that were reset; [poll] reports an event of a connection
    only together with [POLLRDNORM] or [POLLERR]; [accept] returns a descriptor that was not
    open and is less than the limit of open files. *)
Record fine (N : nat) (listenfd : Z) (a : answers) (s : server) : Prop := {
  f_sel : sel_ok a = true;
  f_events : ∀ fd, fd ∈ fds s → fd ≠ listenfd → events a fd ≠ 0 → Z.land (events a fd) mask ≠ 0;
  f_new : Z.land (events a listenfd) POLLRDNORM ≠ 0 → ∃ fd, newfd a = Some fd ∧ (fd ∉ fds s) ∧ 0 <= fd < Z.of_nat N;
  f_rd : ∀ fd, fd ∈ fds s → fd ≠ listenfd → events a fd ≠ 0 →
           ((∃ bs, rd_sock a fd = Got bs) ∨ rd_sock a fd = RdErr ECONNRESET) ∧ wr_ok a fd = true }.

Lemma poll_start_inv N listenfd : 0 <= listenfd < Z.of_nat N → inv N listenfd (start N listenfd).
Proof.
  intros H. assert (slots (client (start N listenfd)) 0 {[listenfd]}) as Hs.
  { cbn [client start]. split.
    - intros [|i] [|j] fd; cbn [lookup list_lookup]; try done.
      + intros [= ->] [-> _]%lookup_replicate. lia.
      + intros [-> _]%lookup_replicate. lia.
      + intros [-> _]%lookup_replicate. lia.
    - intros [|i] fd; cbn [lookup list_lookup]; [intros [= ->] _; split; [done|set_solver]|]. intros [-> _]%lookup_replicate. lia.
    - intros fd ->%elem_of_singleton. split; [lia|]. by exists 0%nat. }
  pose proof (slots_fds _ _ _ (start N listenfd) Hs eq_refl) as Ef. split; rewrite ?Ef; try done.
  - split; cbn; rewrite length_replicate; lia.
  - split; [done|lia].
  - intros fd ->%elem_of_singleton. done.
  - cbn. lia.
Qed.

Lemma poll_eff_log a l : ∀ s, log (foldl (flip (eff a)) s l) = log s ++ (served a <$> l.*2).
Proof.
  induction l as [|x l IH]; intros s; cbn [foldl flip]; [by rewrite app_nil_r|]. rewrite IH. unfold eff. rewrite fmap_cons.
  destruct (ends _); cbn [log]; by rewrite <- app_assoc.
Qed.

Lemma poll_eff_inv N listenfd a l : ∀ s, inv N listenfd s → (0%nat ∉ l.*1) → NoDup l.*1 → (∀ x, x ∈ l → client s !! fst x = Some (snd x) ∧ 0 <= snd x) →
  inv N listenfd (foldl (flip (eff a)) s l) ∧
  ∀ fd, fd ∈ fds (foldl (flip (eff a)) s l) ↔ fd ∈ fds s ∧ ¬ (fd ∈ l.*2 ∧ ends (served a fd) = true).
Proof.
  induction l as [|[i fd] l IH]; intros s Hi Hl Hnd Hin; [split; [done|]; cbn; intros; rewrite elem_of_nil; tauto|]. change (NoDup (i :: l.*1)) in Hnd. change (0%nat ∉ i :: l.*1) in Hl.
  apply NoDup_cons in Hnd as [Hni Hnd]. apply not_elem_of_cons in Hl as [Hi0 Hl]. destruct (Hin (i, fd) ltac:(by left)) as [Hc H0]. cbn in Hc, H0.
  cbn [foldl flip]. set (s1 := eff a (i, fd) s). assert (fds s1 = (if ends (served a fd) then fds s ∖ {[fd]} else fds s) ∧ inv N listenfd s1) as [Ef Hi1].
  { unfold s1, eff. cbn [fst snd]. destruct (ends _); [|split; [done|]; by destruct Hi; split]. pose proof (slots_del _ _ _ i fd (v_slots _ _ _ Hi) Hc H0) as Hs.
    set (s2 := Server _ _ _ _). pose proof (slots_fds _ _ _ s2 Hs eq_refl) as Ef. split; [done|]. destruct Hi as [H1 H2 H3 H4 H5].
    split; rewrite ?Ef; cbn [client revents maxi s2]; [by rewrite length_insert|done|by rewrite list_lookup_insert_ne|set_solver|done]. }
  destruct (IH s1 Hi1 Hl Hnd) as [Hi' Hf'].
  - intros [j y] Hx. destruct (Hin (j, y) ltac:(by right)) as [Hj ?]. split; [|done]. unfold s1, eff. cbn [fst snd] in *. destruct (ends _); [|done]. cbn [client].
    rewrite list_lookup_insert_ne; [done|]. intros ->. apply Hni. apply list_elem_of_fmap. by exists (j, y).
  - split; [done|]. intros x. rewrite Hf', Ef. change (((i, fd) :: l).*2) with (fd :: l.*2). rewrite elem_of_cons. destruct (decide (x = fd)) as [->|Hx].
    + destruct (ends (served a fd)) eqn:E; [rewrite elem_of_difference, elem_of_singleton; tauto|]. split; [|tauto]. intros [? _]. split; [done|]. intros [_ ?]. done.
    + destruct (ends (served a fd)); [rewrite elem_of_difference, elem_of_singleton|]; tauto.
Qed.

(** The connections of which [poll] reports an event. *)
Definition active (listenfd : Z) (a : answers) (s : server) : gset Z := filter (λ fd, events a fd ≠ 0) (fds s ∖ {[listenfd]}).

Lemma poll_count N listenfd a s : inv N listenfd s →
  length (filter (λ fd, found a fd ≠ 0) (take (Z.to_nat (maxi s + 1)) (client s))) = (size (active listenfd a s) + if decide (events a listenfd = 0%Z) then 0 else 1)%nat.
Proof.
  intros Hi. pose proof (v_slots _ _ _ Hi) as Hs. destruct (v_listen _ _ _ Hi) as [Hl Hl0]. assert (listenfd ∈ fds s) as Hlf by (by eapply (sl_used _ _ _ Hs)).
  set (l := filter _ _). assert (l ≡ₚ elements (filter (λ fd, events a fd ≠ 0) (fds s))) as Hp.
  { assert (∀ x, found a x ≠ 0 ↔ 0 <= x ∧ events a x ≠ 0) as Hf by (intros x; unfold found; destruct (Z.ltb_spec x 0); lia).
    apply NoDup_Permutation; [|apply NoDup_elements|].
    - apply slots_NoDup; [|intros x Hx; by apply Hf]. intros i j fd [Ei _]%lookup_take_Some [Ej _]%lookup_take_Some. by apply (sl_inj _ _ _ Hs).
    - intros x. unfold l. rewrite elem_of_elements, elem_of_filter, list_elem_of_filter, Hf. split.
      + intros [[H0 He] [i [Ei _]%lookup_take_Some]%list_elem_of_lookup]. split; [done|]. by eapply (sl_used _ _ _ Hs).
      + intros [He Hx]. destruct (sl_all _ _ _ Hs x Hx) as [H0 [i Ei]]. split; [done|]. apply list_elem_of_lookup. exists i. apply lookup_take_Some. split; [done|].
        destruct (sl_used _ _ _ Hs i x Ei H0). lia. }
  rewrite Hp. change (length (elements ?X)) with (size X). unfold active. destruct (decide (events a listenfd = 0)) as [E|E].
  - rewrite Nat.add_0_r. f_equal. apply leibniz_equiv. intros x. rewrite !elem_of_filter, elem_of_difference, elem_of_singleton. split; [|tauto].
    intros [? ?]. split; [done|]. split; [done|]. by intros ->.
  - rewrite <- (size_singleton (C:=gset Z) listenfd), <- size_union by set_solver. f_equal. apply leibniz_equiv. intros x.
    rewrite elem_of_union, !elem_of_filter, elem_of_difference, elem_of_singleton. destruct (decide (x = listenfd)) as [->|]; tauto.
Qed.

Lemma poll_serve_run N listenfd a s s0 i fd : fine N listenfd a s0 → fd ∈ active listenfd a s0 → serve a i fd s = (eff a (i, fd) s, Done tt).
Proof.
  intros Hf (He & [Hs Hl]%elem_of_difference)%elem_of_filter. assert (fd ≠ listenfd) as Hne by set_solver. destruct (f_rd _ _ _ _ Hf fd Hs Hne He) as [Hb Hw].
  unfold serve, eff, served. cbn [fst snd]. destruct Hb as [[bs ->]| ->]; [|done]. rewrite Hw. by destruct (take MAXLINE bs).
Qed.

Lemma poll_new_client_run N listenfd a s fd : inv N listenfd s → newfd a = Some fd → (fd ∉ fds s) → 0 <= fd < Z.of_nat N →
  ∃ s' i x, new_client a s = (s', Done tt) ∧ inv N listenfd s' ∧ log s' = log s ++ [Accepted fd] ∧ fds s' = {[fd]} ∪ fds s ∧
    client s !! i = Some x ∧ x < 0 ∧ client s' = <[i := fd]> (client s) ∧ revents s' = revents s ∧ maxi s' = Z.max (maxi s) (Z.of_nat i).
Proof.
  intros Hi En Hfd Hr. destruct (Hi) as [[H1 H1'] H2 [H3 H3'] H4 H5]. unfold new_client. rewrite En. unfold add_log at 1. rewrite bind_modify, bind_gets. cbn [client].
  destruct (client s) as [|c0 c] eqn:Ec; [done|]. injection H3 as ->. change (drop 1 (listenfd :: c)) with c. destruct (free_slot 1 c) as [i|] eqn:Ef.
  - apply free_slot_some in Ef as (Hi1 & x & Ex & Hx). unfold set_client. rewrite bind_modify. unfold modify. set (s' := Server _ _ _ _). exists s', i, x.
    assert ((listenfd :: c) !! i = Some x) as Hix by (destruct i as [|i]; [lia|]; cbn in *; by rewrite Nat.sub_0_r in Ex).
    assert (i < length (listenfd :: c))%nat as Hil by (by eapply lookup_lt_Some).
    pose proof (slots_add _ _ _ i x fd H2 Hix Hx Hfd ltac:(lia)) as Hs. assert (client s' = <[i := fd]> (listenfd :: c)) as Ec' by done.
    pose proof (slots_fds _ _ _ s' Hs Ec') as Ef. split; [done|]. split; [|by cbn; rewrite ?Ec].
    split; rewrite ?Ef, ?Ec'; cbn [revents maxi s'].
    + by rewrite length_insert.
    + done.
    + split; [|done]. rewrite list_lookup_insert_ne by lia. done.
    + intros y [->%elem_of_singleton|Hy]%elem_of_union; [lia|by apply H4].
    + lia.
  - exfalso. apply free_slot_none in Ef. apply Hfd. eapply slots_full; [done|by constructor|].
    rewrite H1. intros x [->%elem_of_singleton|Hx]%elem_of_union; [done|by apply H4].
Qed.

(** The members [revents] after [poll]. *)
Definition polled_events (a : answers) (s : server) : list (option Z) :=
  let n := Z.to_nat (maxi s + 1) in (Some ∘ found a <$> take n (client s)) ++ drop n (revents s).

Lemma polled_lookup N listenfd a s i fd : inv N listenfd s → Z.of_nat i <= maxi s → client s !! i = Some fd →
  polled_events a s !! i = Some (Some (found a fd)).
Proof.
  intros Hi Hle Hc. unfold polled_events. pose proof (lookup_lt_Some _ _ _ Hc). rewrite lookup_app_l by (rewrite length_fmap, length_take; lia).
  rewrite list_lookup_fmap, lookup_take_lt, Hc by lia. done.
Qed.

Lemma land_mask e : Z.land e POLLRDNORM ≠ 0 → e ≠ 0.
Proof. by intros H ->. Qed.

Section loop.
Context (N : nat) (listenfd : Z) (a : answers) (s s1 : server).
Hypothesis Hi : inv N listenfd s.
Hypothesis Hi1 : inv N listenfd s1.
Hypothesis Hf : fine N listenfd a s.
Hypothesis Hrev : revents s1 = polled_events a s.
Hypothesis Hold : ∀ j y, client s1 !! j = Some y → 0 <= y → client s !! j = Some y ∨ (y ∉ fds s) ∧ ∃ x, client s !! j = Some x ∧ x < 0.
Hypothesis Hsub : fds s ⊆ fds s1.
Hypothesis Hmax : maxi s <= maxi s1.

Definition hit (i : nat) (fd : Z) : bool :=
  bool_decide ((1 <= i)%nat ∧ Z.of_nat i <= maxi s) &&
  match polled_events a s !! i with Some (Some e) => negb (Z.land e mask =? 0) | _ => false end.

Lemma hit_active i fd : client s1 !! i = Some fd → 0 <= fd → (1 <= i)%nat → hit i fd = true ↔ fd ∈ active listenfd a s.
Proof using Hi Hf Hold.
  clear Hi1 Hrev Hsub Hmax. intros Hc H0 H1. unfold hit, active. rewrite elem_of_filter, elem_of_difference, elem_of_singleton.
  destruct (v_listen _ _ _ Hi) as [Hl Hl0]. destruct (Hold i fd Hc H0) as [Hcs|(Hnew & x & Hcs & Hx)].
  - destruct (sl_used _ _ _ (v_slots _ _ _ Hi) i fd Hcs H0) as [Him Hfd]. assert (fd ≠ listenfd) as Hne.
    { intros ->. pose proof (sl_inj _ _ _ (v_slots _ _ _ Hi) i 0%nat listenfd Hcs Hl H0). lia. }
    rewrite (polled_lookup N listenfd a s i fd Hi Him Hcs), bool_decide_true by done. cbn [andb]. unfold found.
    rewrite (proj2 (Z.ltb_ge fd 0)) by lia. rewrite negb_true_iff, Z.eqb_neq. split; [|intros (He & _); by apply (f_events _ _ _ _ Hf)].
    intros He. split; [|done]. intros E. by rewrite E in He.
  - split; [|intros (_ & ? & _); done]. intros Hh. exfalso. apply andb_true_iff in Hh as [[_ Him]%bool_decide_eq_true Hh].
    rewrite (polled_lookup N listenfd a s i x Hi Him Hcs) in Hh. unfold found in Hh. by rewrite (proj2 (Z.ltb_lt x 0)) in Hh.
Qed.

Lemma poll_clients_run nready : Z.of_nat (size (active listenfd a s)) <= nready →
  maxi s1 = maxi s ∨ (Z.of_nat (size (active listenfd a s)) = nready ∧ 1 <= nready) →
  ∃ s' hs, check_clients client (λ i _, has_events i mask) (serve a) (seq 1 (Z.to_nat (maxi s1))) nready s1 = (s', Done tt) ∧
    inv N listenfd s' ∧ hs ≡ₚ elements (active listenfd a s) ∧ log s' = log s1 ++ (served a <$> hs) ∧
    ∀ fd, fd ∈ fds s' ↔ fd ∈ fds s1 ∧ ¬ (fd ∈ hs ∧ ends (served a fd) = true).
Proof using All.
  intros Hn Hl2. set (n := Z.to_nat (maxi s)). pose proof (v_maxi _ _ _ Hi) as Hm. pose proof (v_maxi _ _ _ Hi1) as Hm1. destruct (v_len _ _ _ Hi1) as [Hlen Hlenr].
  set (hs := hits client hit s1 (seq 1 n)). assert (hs.*2 ≡ₚ elements (active listenfd a s)) as Hperm.
  { eapply hits_elements; [apply (v_slots _ _ _ Hi1)| |apply hit_active|].
    - intros i fd Hc (He & [Hfd Hne]%elem_of_difference)%elem_of_filter. assert (0 <= fd) as H0 by (by apply (v_range _ _ _ Hi)).
      destruct (Hold i fd Hc H0) as [Hcs|(Hnew & _)]; [|done]. destruct (sl_used _ _ _ (v_slots _ _ _ Hi) i fd Hcs H0) as [Him _].
      assert (i ≠ 0%nat); [|lia]. intros ->. destruct (v_listen _ _ _ Hi) as [Hl _]. rewrite Hl in Hcs. injection Hcs as ->. set_solver.
    - intros fd (_ & [Hfd _]%elem_of_difference)%elem_of_filter. by apply Hsub. }
  assert (length hs = size (active listenfd a s)) as Hlh by (unfold size, set_size; cbn; by rewrite <- Hperm, length_fmap).
  exists (foldl (flip (eff a)) s1 hs), hs.*2.
  destruct (poll_eff_inv N listenfd a hs s1 Hi1) as [Hi' Hfds].
  { intros ([i fd] & E & (j & Hj%elem_of_seq & Ej)%list_elem_of_omap)%list_elem_of_fmap. cbn in E. subst i. unfold hit_at in Ej.
    destruct (client s1 !! j); [|done]. destruct (_ && _); [|done]. injection Ej as -> ->. lia. }
  { apply hits_indices, NoDup_seq. }
  { intros [i fd] (E & H0 & _)%hits_in. done. }
  split; [|split; [done|split; [done|split; [apply poll_eff_log|done]]]].
  replace (Z.to_nat (maxi s1)) with (n + Z.to_nat (maxi s1 - maxi s))%nat by lia. rewrite seq_app.
  apply (check_clients_run client (λ i _, has_events i mask) (serve a)
    (λ s', revents s' = polled_events a s ∧ ∀ i fd, client s' !! i = Some fd → 0 <= fd → hit i fd = true → fd ∈ active listenfd a s)
    (λ i, (1 <= i)%nat ∧ Z.of_nat i <= maxi s) hit (eff a)).
  - intros i fd s' [Hr _] [H1 Him]. unfold has_events. rewrite bind_gets, Hr. destruct (lookup_lt_is_Some_2 (client s) i) as [x Hx].
    { destruct (v_len _ _ _ Hi). lia. }
    unfold hit. rewrite (polled_lookup N listenfd a s i x Hi Him Hx), bool_decide_true by done. done.
  - intros i fd s' [_ Hr] Hc H0 Hh. eapply poll_serve_run; [done|]. by eapply Hr.
  - intros [i fd] s' [Hr Hc]. unfold eff. cbn [fst snd]. destruct (ends _); [|done]. split; [done|]. cbn [client].
    intros j x [(-> & <- & _)|[_ E]]%list_lookup_insert_Some H0; [lia|]. by apply Hc.
  - intros i fd j s' Hj. unfold eff. cbn [fst snd]. destruct (ends _); [|done]. cbn [client]. by rewrite list_lookup_insert_ne.
  - split; [done|]. intros i fd Hc H0 Hh. apply (hit_active i); try done. unfold hit in Hh. by apply andb_true_iff in Hh as [[? _]%bool_decide_eq_true _].
  - apply NoDup_seq.
  - intros i Hin%elem_of_seq. split; [lia|]. apply lookup_lt_is_Some. lia.
  - fold hs. lia.
  - fold hs. destruct Hl2 as [E|E]; [left; rewrite E, Z.sub_diag; done|right; lia].
Qed.
End loop.

Inductive reach (N : nat) (listenfd : Z) : server → Prop :=
| reach_start : reach N listenfd (start N listenfd)
| reach_turn s a s' : reach N listenfd s → fine N listenfd a s → turn a s = (s', Done tt) → reach N listenfd s'.

Lemma poll_turn_run N listenfd a s : inv N listenfd s → fine N listenfd a s → let b := negb (Z.land (events a listenfd) POLLRDNORM =? 0) in
  ∃ s' hs, turn a s = (s', Done tt) ∧ inv N listenfd s' ∧ hs ≡ₚ elements (active listenfd a s) ∧
  log s' = log s ++ (if b then [Accepted (default 0 (newfd a))] else []) ++ (served a <$> hs) ∧
  ∀ fd, fd ∈ fds s' ↔ (fd ∈ fds s ∨ (b = true ∧ newfd a = Some fd)) ∧ ¬ (fd ∈ hs ∧ ends (served a fd) = true).
Proof.
  intros Hi Hf b. destruct (v_listen _ _ _ Hi) as [Hl Hl0]. pose proof (v_maxi _ _ _ Hi) as Hm. unfold turn. rewrite bind_gets. unfold Poll. rewrite (f_sel _ _ _ _ Hf).
  cbn [negb]. rewrite bind_assoc, bind_get, bind_assoc, bind_modify, bind_ret. rewrite (poll_count N listenfd a s Hi).
  change ((Some ∘ found a <$> _) ++ _) with (polled_events a s). set (sp := Server (client s) (polled_events a s) (maxi s) (log s)).
  assert (inv N listenfd sp) as Hip.
  { destruct Hi as [[H1 H1'] H2 H3 H4 H5]. split; try done. split; [done|]. cbn [revents sp]. unfold polled_events. rewrite length_app, length_fmap, length_take, length_drop. lia. }
  assert (has_events 0 POLLRDNORM sp = (sp, Done b)) as Eb.
  { unfold has_events. rewrite bind_gets. cbn [revents sp]. rewrite (polled_lookup N listenfd a s 0 listenfd Hi ltac:(lia) Hl). unfold found.
    rewrite (proj2 (Z.ltb_ge listenfd 0)) by lia. done. }
  rewrite (bind_done _ _ _ _ _ Eb). destruct b eqn:Hb; unfold b in Hb.
  - rewrite negb_true_iff, Z.eqb_neq in Hb. destruct (f_new _ _ _ _ Hf Hb) as (fd & En & Hfd & Hr). rewrite decide_False by (by apply land_mask).
    destruct (poll_new_client_run N listenfd a sp fd Hip En Hfd Hr) as (s1 & i & x & E1 & Hi1 & El1 & Ef1 & Hx & Hx0 & Ec & Er & Em).
    rewrite bind_assoc, (bind_done _ _ _ _ _ E1), bind_ret. cbn [andb]. replace (Z.of_nat _ - 1) with (Z.of_nat (size (active listenfd a s))) by lia.
    assert (∀ s' hs, log s' = log s1 ++ (served a <$> hs) → (∀ y, y ∈ fds s' ↔ y ∈ fds s1 ∧ ¬ (y ∈ hs ∧ ends (served a y) = true)) →
      log s' = log s ++ [Accepted (default 0 (newfd a))] ++ (served a <$> hs) ∧
      ∀ y, y ∈ fds s' ↔ (y ∈ fds s ∨ (true = true ∧ newfd a = Some y)) ∧ ¬ (y ∈ hs ∧ ends (served a y) = true)) as Hfin.
    { intros s' hs El Ea. split; [rewrite El, El1, En, <- app_assoc; done|]. intros y. rewrite Ea, Ef1, En, elem_of_union, elem_of_singleton.
      change (fds sp) with (fds s). split; (intros [H ?]; split; [|done]); [destruct H as [->|]; auto|]. destruct H as [|[_ [= ->]]]; auto. }
    destruct (Z.leb_spec (Z.of_nat (size (active listenfd a s))) 0) as [H0|H0].
    + assert (active listenfd a s = ∅) as Hem by (apply leibniz_equiv, size_empty_inv; lia). exists s1, []. split; [done|]. split; [done|].
      split; [by rewrite Hem, elements_empty|]. apply Hfin; [by rewrite app_nil_r|]. intros y. rewrite elem_of_nil. tauto.
    + rewrite bind_get. destruct (poll_clients_run N listenfd a s s1 Hi Hi1 Hf Er) with (nready := Z.of_nat (size (active listenfd a s))) as (s' & hs & E & Hi' & Hp & El & Ea).
      * intros j y. rewrite Ec. intros [(-> & <- & _)|[_ Hc]]%list_lookup_insert_Some Hy; [right; by eauto|by left].
      * rewrite Ef1. change (fds sp) with (fds s). set_solver.
      * rewrite Em. cbn [maxi sp]. lia.
      * done.
      * right. lia.
      * exists s', hs. split; [done|]. split; [done|]. split; [done|]. by apply Hfin.
  - rewrite bind_ret. cbn [andb]. rewrite bind_get.
    destruct (poll_clients_run N listenfd a s sp Hi Hip Hf eq_refl) with (nready := Z.of_nat (size (active listenfd a s) + if decide (events a listenfd = 0%Z) then 0 else 1)) as (s' & hs & E & Hi' & Hp & El & Ea).
    * intros j y Hc _. by left.
    * done.
    * done.
    * lia.
    * by left.
    * exists s', hs. split; [done|]. split; [done|]. split; [done|]. split; [done|]. intros y. rewrite Ea. change (fds sp) with (fds s).
      split; (intros [H ?]; split; [|done]); [by left|]. by destruct H as [|[? _]].
Qed.

Lemma poll_reach_inv N listenfd s : 0 <= listenfd < Z.of_nat N → reach N listenfd s → inv N listenfd s.
Proof.
  intros Hl. induction 1 as [|s a s' _ IH Hf E]; [by apply poll_start_inv|]. destruct (poll_turn_run N listenfd a s IH Hf) as (s1 & hs & E1 & Hi1 & _). congruence.
Qed.

End PollThms.

(** ** Concrete turns *)

(** A connection is accepted; in the next turn another one is, and the first has sent data. *)
Definition demo_first : answers := Answers true {[3]} (λ fd, if fd =? 3 then POLLRDNORM else 0) (Some 5) (λ _, Got []) (λ _, true).
Definition demo_next : answers := Answers true {[3; 5]} (λ _, POLLRDNORM) (Some 6) (λ _, Got [104; 105]) (λ _, true).
Definition demo_select : Select.server := fst (Select.turn 3 demo_first (Select.start 3)).
Definition demo_poll : Poll.server := fst (Poll.turn demo_first (Poll.start 8 3)).

Lemma demo_select_reach : SelectThms.reach 3 demo_select.
Proof.
  eapply (SelectThms.reach_turn 3 _ demo_first); [apply SelectThms.reach_start| |vm_compute; reflexivity].
  split; [done| |intros; split; [by eexists|done]]. intros _. exists 5. split; [done|]. split; [apply (bool_decide_unpack _); vm_compute; exact I|vm_compute; split; done].
Qed.


Lemma demo_poll_reach : PollThms.reach 8 3 demo_poll.
Proof.
  eapply (PollThms.reach_turn 8 3 _ demo_first); [apply PollThms.reach_start| |vm_compute; reflexivity]. split; [done| | |intros; split; [left; by eexists|done]].
  - intros fd _ Hne. cbn. by rewrite (proj2 (Z.eqb_neq fd 3)).
  - intros _. exists 5. split; [done|]. split; [apply (bool_decide_unpack _); vm_compute; exact I|lia].
Qed.


(** When [poll] reports [POLLHUP] alone for a connection while a new one arrives, the server tests
    [revents] of the new entry, which was never assigned. *)
Lemma poll_unassigned : snd (Poll.turn (Answers true ∅ (λ fd, if fd =? 3 then POLLRDNORM else POLLHUP) (Some 6) (λ _, Got []) (λ _, true)) demo_poll) = Fail Unassigned.
Proof. vm_compute. reflexivity. Qed.

(** A descriptor that does not fit a set is added to it before the table of clients is full. *)
Lemma select_overrun : snd (Select.turn 3 (Answers true {[3]} (λ _, 0) (Some 1024) (λ _, Got []) (λ _, true)) demo_select) = Fail Overrun.
Proof. vm_compute. reflexivity. Qed.
