(* ===== verification/Web.v ===== *)
(** The client that fetches several files at once over non-blocking connections:
    unpv13e/nonblock/web.c with start_connect.c, write_get_cmd.c and web.h.

    The kernel is an environment: [sock] chooses the descriptor of a new socket when those of a
    set are open, [conn] is the result of [connect] for the file with an index, [wr_ok] says
    whether the request can be written.  What a server will still send for a file is part of the
    state, in the pieces that the reads return.  The answers of [select] are the input. *)
From stdpp Require Import base tactics functions numbers list gmap.
From Stdlib Require Import ZArith Lia.
From S2P Require Import Prelude.
Local Open Scope Z_scope.

Definition MAXLINE : Z := 4096.
Definition MAXFILES : nat := 20.
Definition FD_SETSIZE : Z := 1024.
Definition F_CONNECTING : Z := 1.
Definition F_READING : Z := 2.
Definition F_DONE : Z := 4.

Record file := File { f_name : list Z; f_fd : Z; f_flags : Z }.

Inductive event := Request (i : nat) (bs : list Z) | Data (i : nat) (bs : list Z) | Eof (i : nat).
Record web := Web {
  files : list file; nconn : Z; nlefttoconn : Z; nlefttoread : Z; maxfd : Z; rset : gset Z; wset : gset Z;
  replies : nat → list (list Z); log : list event }.

Inductive stop := Usage | SysError | NothingFound | BadIndex | OverRead | Overrun | NoFuel.
Abbreviation WM := (M web stop).

Inductive connected := Now | InProgress | ConnErr.
Record env := Env { sock : gset Z → Z; conn : nat → connected; wr_ok : nat → bool }.

Definition upd (f : web → web) : WM unit := modify f.
Definition set_files l s := Web l (nconn s) (nlefttoconn s) (nlefttoread s) (maxfd s) (rset s) (wset s) (replies s) (log s).
Definition set_counts c lc lr s := Web (files s) c lc lr (maxfd s) (rset s) (wset s) (replies s) (log s).
Definition set_sets m r w s := Web (files s) (nconn s) (nlefttoconn s) (nlefttoread s) m r w (replies s) (log s).
Definition set_kernel r l s := Web (files s) (nconn s) (nlefttoconn s) (nlefttoread s) (maxfd s) (rset s) (wset s) r l.

Definition get_file (i : nat) : WM file := λ s,
  match files s !! i with Some f => (s, Done f) | None => (s, Fail BadIndex) end.
Definition set_file (i : nat) (f : file) : WM unit := upd (λ s, set_files (<[i := f]> (files s)) s).

Definition in_set (fd : Z) : bool := (0 <=? fd) && (fd <? FD_SETSIZE).
Definition FD_SET_r (fd : Z) : WM unit :=
  if in_set fd then upd (λ s, set_sets (maxfd s) ({[fd]} ∪ rset s) (wset s) s) else fail Overrun.
Definition FD_SET_w (fd : Z) : WM unit :=
  if in_set fd then upd (λ s, set_sets (maxfd s) (rset s) ({[fd]} ∪ wset s) s) else fail Overrun.
Definition raise_maxfd (fd : Z) : WM unit := upd (λ s, set_sets (Z.max (maxfd s) fd) (rset s) (wset s) s).
Definition say (e : event) : WM unit := upd (λ s, set_kernel (replies s) (log s ++ [e]) s).

(** [GET_CMD]: the text that [snprintf] would store; it stores what fits and returns the length
    of all.  A length above the size of [line] makes [Writen] read behind the array. *)
Definition GET_CMD (name : list Z) : list Z :=
  [71; 69; 84; 32] ++ name ++ [32; 72; 84; 84; 80; 47; 49; 46; 48; 13; 10; 13; 10].

Definition write_get_cmd (e : env) (i : nat) : WM unit :=
  let! f := get_file i in
  let text := GET_CMD (f_name f) in
  let n := Z.of_nat (length text) in
  if MAXLINE <? n then fail OverRead
  else if negb (wr_ok e i) then fail SysError
  else
    say (Request i (if n <? MAXLINE then text else take (Z.to_nat (MAXLINE - 1)) text ++ [0]));;;
    set_file i (File (f_name f) (f_fd f) F_READING);;;
    FD_SET_r (f_fd f);;;
    raise_maxfd (f_fd f).

Definition start_connect (e : env) (i : nat) : WM unit :=
  let! f := get_file i in
  let! fd := gets (λ s, sock e (rset s)) in
  set_file i (File (f_name f) fd (f_flags f));;;
  match conn e i with
  | ConnErr => fail SysError
  | InProgress =>
      set_file i (File (f_name f) fd F_CONNECTING);;;
      FD_SET_r fd;;;
      FD_SET_w fd;;;
      raise_maxfd fd
  | Now => write_get_cmd e i
  end.

(** The search for a file to read. *)
Fixpoint find_unread (i : nat) (l : list file) : option nat :=
  match l with
  | [] => None
  | f :: l => if f_flags f =? 0 then Some i else find_unread (S i) l
  end.

(** The loop that starts connections. *)
Fixpoint connect_loop (fuel : nat) (e : env) (maxnconn : Z) : WM unit :=
  let! s := get in
  if (nconn s <? maxnconn) && (0 <? nlefttoconn s) then
    match fuel with
    | O => fail NoFuel
    | S fuel =>
        match find_unread 0 (files s) with
        | None => fail NothingFound
        | Some i =>
            start_connect e i;;;
            upd (λ s, set_counts (nconn s + 1) (nlefttoconn s - 1) (nlefttoread s) s);;;
            connect_loop fuel e maxnconn
        end
    end
  else ret tt.

(** [Read]: the next piece of the reply, or none at its end. *)
Definition read_reply (i : nat) : WM (list Z) :=
  let! r := gets (λ s, replies s i) in
  match r with
  | [] => ret []
  | c :: r => upd (λ s, set_kernel (<[i := r]> (replies s)) (log s) s);;; ret c
  end.

(** The body of the loop over the files, after [select] has returned [rs] and [ws]. *)
Definition check_file (e : env) (rs ws : gset Z) (i : nat) : WM unit :=
  let! f := get_file i in
  let flags := f_flags f in
  let fd := f_fd f in
  if (flags =? 0) || negb (Z.land flags F_DONE =? 0) then ret tt
  else if negb (Z.land flags F_CONNECTING =? 0) && (bool_decide (fd ∈ rs) || bool_decide (fd ∈ ws)) then
    upd (λ s, set_sets (maxfd s) (rset s) (wset s ∖ {[fd]}) s);;;
    write_get_cmd e i
  else if negb (Z.land flags F_READING =? 0) && bool_decide (fd ∈ rs) then
    let! bs := read_reply i in
    match bs with
    | [] =>
        say (Eof i);;;
        set_file i (File (f_name f) fd F_DONE);;;
        upd (λ s, set_sets (maxfd s) (rset s ∖ {[fd]}) (wset s) s);;;
        upd (λ s, set_counts (nconn s - 1) (nlefttoconn s) (nlefttoread s - 1) s)
    | _ => say (Data i bs)
    end
  else ret tt.

Fixpoint check_files (e : env) (rs ws : gset Z) (l : list nat) : WM unit :=
  match l with
  | [] => ret tt
  | i :: l => check_file e rs ws i;;; check_files e rs ws l
  end.

(** What [select] finds readable and writable of the two sets that it is given. *)
Definition selection := gset Z → gset Z → gset Z * gset Z.

(** One turn of the main loop; [select] looks at the sets up to [maxfd]. *)
Definition turn (e : env) (maxnconn : Z) (a : selection) : WM unit :=
  let! n := gets (λ s, Z.to_nat (nlefttoconn s)) in
  connect_loop n e maxnconn;;;
  let! s := get in
  let r := filter (λ fd, fd <= maxfd s) (rset s) in
  let w := filter (λ fd, fd <= maxfd s) (wset s) in
  check_files e (fst (a r w) ∩ r) (snd (a r w) ∩ w) (seq 0 (length (files s))).

(** Whether the program has come to its [exit]. *)
Fixpoint main_loop (e : env) (maxnconn : Z) (l : list selection) : WM bool :=
  let! s := get in
  if 0 <? nlefttoread s then
    match l with
    | [] => ret false
    | a :: l => turn e maxnconn a;;; main_loop e maxnconn l
    end
  else ret true.

Definition start (names : list (list Z)) (r : nat → list (list Z)) : web :=
  let l := (λ n, File n 0 0) <$> take MAXFILES names in
  let n := Z.of_nat (length l) in
  Web l 0 n n (-1) ∅ ∅ r [].

(** [names] are the arguments behind the home page. *)
Definition main (e : env) (maxnconn : Z) (names : list (list Z)) (r : nat → list (list Z)) (l : list selection) :
  web * outcome stop bool :=
  match names with
  | [] => (start names r, Fail Usage)
  | _ => main_loop e maxnconn l (start names r)
  end.
