(* ===== verification/WebProps.v ===== *)
(** The client for several files counts its connections right, fetches every file and ends. *)
From stdpp Require Import base tactics functions numbers list gmap.
From Stdlib Require Import ZArith Lia.
From S2P Require Import Prelude Web.
Local Open Scope Z_scope.

(** ** Sums over the files *)

Definition total (w : nat → file → nat) (l : list file) : nat := sum_list (imap w l).

Lemma sum_cons x l : sum_list (x :: l) = (x + sum_list l)%nat.
Proof. done. Qed.

Lemma total_cons w f l : total w (f :: l) = (w 0%nat f + total (λ i, w (Datatypes.S i)) l)%nat.
Proof. done. Qed.
Lemma total_length l : total (λ _ _, 1%nat) l = length l.
Proof. induction l as [|f l IH]; [done|]. rewrite total_cons, IH. done. Qed.
Lemma total_zero l : total (λ _ _, 0%nat) l = 0%nat.
Proof. induction l as [|f l IH]; [done|]. rewrite total_cons, IH. done. Qed.

Lemma total_change w w' l i f f' : (∀ j g, j ≠ i → w' j g = w j g) → l !! i = Some f →
  (total w' (<[i := f']> l) + w i f = total w l + w' i f')%nat.
Proof.
  unfold total. revert w w' i. induction l as [|g l IH]; intros w w' i Hw Hi; [done|]. destruct i as [|i].
  - injection Hi as ->. cbn [insert list_insert imap]. rewrite !sum_cons.
    rewrite (imap_ext (w' ∘ Datatypes.S) (w ∘ Datatypes.S)); [lia|]. intros j g _. apply Hw. lia.
  - change (<[Datatypes.S i := f']> (g :: l)) with (g :: <[i := f']> l). cbn [imap]. rewrite !sum_cons, (Hw 0%nat g) by done.
    assert (∀ j h, j ≠ i → (w' ∘ Datatypes.S) j h = (w ∘ Datatypes.S) j h) as Hw' by (intros j h Hj; apply Hw; congruence).
    pose proof (IH (w ∘ Datatypes.S) (w' ∘ Datatypes.S) i Hw' Hi) as E. unfold compose in *. lia.
Qed.

Lemma total_same w l i f f' : l !! i = Some f → (total w (<[i := f']> l) + w i f = total w l + w i f')%nat.
Proof. by apply total_change. Qed.

Lemma total_pos w l : (0 < total w l)%nat → ∃ i f, l !! i = Some f ∧ (0 < w i f)%nat.
Proof.
  unfold total. revert w. induction l as [|g l IH]; intros w; cbn [imap]; [cbn; lia|]. rewrite !sum_cons. intros H.
  destruct (decide (0 < w 0%nat g)%nat) as [Hg|Hg]; [by exists 0%nat, g|]. destruct (IH (w ∘ Datatypes.S)) as (i & f & Hi & Hf); [lia|]. by exists (Datatypes.S i), f.
Qed.

Lemma total_ge w l i f : l !! i = Some f → (w i f <= total w l)%nat.
Proof.
  unfold total. revert w i. induction l as [|g l IH]; intros w i Hi; [done|]. cbn [imap]. rewrite sum_cons. destruct i as [|i]; [injection Hi as ->; lia|].
  pose proof (IH (w ∘ Datatypes.S) i Hi). unfold compose in *. lia.
Qed.

Lemma total_le w w' l : (∀ i f, l !! i = Some f → (w i f <= w' i f)%nat) → (total w l <= total w' l)%nat.
Proof.
  unfold total. revert w w'. induction l as [|g l IH]; intros w w' H; [done|]. cbn [imap]. rewrite !sum_cons.
  pose proof (H 0%nat g eq_refl). pose proof (IH (w ∘ Datatypes.S) (w' ∘ Datatypes.S) (λ i f Hi, H (Datatypes.S i) f Hi)). lia.
Qed.

Lemma total_eq w w' l : (∀ i f, l !! i = Some f → w i f = w' i f) → total w l = total w' l.
Proof. intros H. apply Nat.le_antisymm; apply total_le; intros i f Hi; by rewrite (H i f Hi). Qed.

Lemma total_add w w' l : (total w l + total w' l = total (λ i f, w i f + w' i f)%nat l)%nat.
Proof.
  unfold total. revert w w'. induction l as [|g l IH]; intros w w'; [done|]. cbn [imap]. rewrite !sum_cons.
  pose proof (IH (w ∘ Datatypes.S) (w' ∘ Datatypes.S)) as E. change ((λ i f, (w i f + w' i f)%nat) ∘ Datatypes.S) with (λ i f, ((w ∘ Datatypes.S) i f + (w' ∘ Datatypes.S) i f)%nat). lia.
Qed.

(** ** The descriptor sets *)

Definition active (f : file) : bool := (f_flags f =? F_CONNECTING) || (f_flags f =? F_READING).
Definition connecting (f : file) : bool := f_flags f =? F_CONNECTING.

(** [X] has the descriptors of the files with [p]. *)
Definition opened (p : file → bool) (l : list file) (X : gset Z) : Prop :=
  ∀ fd, fd ∈ X ↔ ∃ i f, l !! i = Some f ∧ p f = true ∧ f_fd f = fd.

Record sets (l : list file) (R W : gset Z) : Prop := {
  s_inj : ∀ i j f g, l !! i = Some f → l !! j = Some g → active f = true → active g = true → f_fd f = f_fd g → i = j;
  s_r : opened active l R;
  s_w : opened connecting l W }.

Lemma connecting_active f : connecting f = true → active f = true.
Proof. unfold connecting, active. by intros ->. Qed.

Lemma opened_update (p : file → bool) l X i f f' : opened p l X → l !! i = Some f → (p f = true → f_fd f' = f_fd f) →
  (∀ j g, j ≠ i → l !! j = Some g → p g = true → f_fd g ≠ f_fd f') →
  opened p (<[i := f']> l) (if p f' then {[f_fd f']} ∪ X else X ∖ {[f_fd f']}).
Proof.
  intros HX Hi Hp Hdis fd. pose proof (lookup_lt_Some _ _ _ Hi) as Hlen.
  assert ((∃ j g, <[i:=f']> l !! j = Some g ∧ p g = true ∧ f_fd g = fd) ↔
    (p f' = true ∧ f_fd f' = fd) ∨ ∃ j g, j ≠ i ∧ l !! j = Some g ∧ p g = true ∧ f_fd g = fd) as ->.
  { split.
    - intros (j & g & [(<- & <- & _)|[Hj Ej]]%list_lookup_insert_Some & Ha & E); [by left|]. right. exists j, g. done.
    - intros [[Ha E]|(j & g & Hj & Ej & Ha & E)]; [exists i, f'; by rewrite list_lookup_insert_eq|exists j, g; by rewrite list_lookup_insert_ne]. }
  destruct (decide (fd = f_fd f')) as [->|Hne].
  - destruct (p f'); [set_solver|]. split; [set_solver|]. intros [[? _]|(j & g & Hj & Ej & Ha & E)]; [done|]. by destruct (Hdis j g Hj Ej Ha).
  - assert (fd ∈ X ↔ ∃ j g, j ≠ i ∧ l !! j = Some g ∧ p g = true ∧ f_fd g = fd) as HR.
    { rewrite (HX fd). split; intros (j & g & H); [|exists j, g; by destruct H]. exists j, g. split; [|done]. intros ->. destruct H as (Ej & Ha & E).
      rewrite Hi in Ej. injection Ej as <-. by rewrite Hp in Hne. }
    rewrite <- HR. destruct (p f'); set_solver.
Qed.

Lemma sets_update l R W i f f' : sets l R W → l !! i = Some f → (active f = true → f_fd f' = f_fd f) →
  (active f = false → f_fd f' ∉ R) →
  sets (<[i := f']> l) (if active f' then {[f_fd f']} ∪ R else R ∖ {[f_fd f']}) (if connecting f' then {[f_fd f']} ∪ W else W ∖ {[f_fd f']}).
Proof.
  intros [H1 H2 H3] Hi Hact Hnew.
  assert (∀ j g, j ≠ i → l !! j = Some g → active g = true → f_fd g ≠ f_fd f') as Hdis.
  { intros j g Hj Hg Ha E. destruct (active f) eqn:Ef.
    - apply Hj. apply (H1 j i g f); try done. by rewrite E, Hact.
    - apply (Hnew eq_refl). apply H2. by exists j, g. }
  split.
  - intros j k g h [(<- & <- & _)|[Hj Ej]]%list_lookup_insert_Some [(<- & <- & _)|[Hk Ek]]%list_lookup_insert_Some Ha Hb E; try done.
    + by destruct (Hdis k h (not_eq_sym Hk) Ek Hb).
    + by destruct (Hdis j g (not_eq_sym Hj) Ej Ha).
    + by eapply H1.
  - by apply (opened_update active _ _ _ f).
  - apply (opened_update connecting _ _ _ f); [done|done|by intros ?%connecting_active; apply Hact|]. intros j g Hj Hg Ha%connecting_active. by apply (Hdis j).
Qed.

(** ** The invariant *)

(** What the log has for the file with index [i]. *)
Definition data (i : nat) (l : list event) : list Z :=
  flat_map (λ e, match e with Data j bs => if decide (j = i) then bs else [] | _ => [] end) l.
Definition requests (i : nat) (l : list event) : list (list Z) :=
  omap (λ e, match e with Request j bs => if decide (j = i) then Some bs else None | _ => None end) l.

Lemma data_app i l1 l2 : data i (l1 ++ l2) = data i l1 ++ data i l2.
Proof. apply flat_map_app. Qed.
Lemma requests_app i l1 l2 : requests i (l1 ++ l2) = requests i l1 ++ requests i l2.
Proof. apply omap_app. Qed.

Definition b2n (b : bool) : nat := if b then 1 else 0.

(** What holds for the file [f] with index [i], of which the server sends [r0]. *)
Definition file_ok (r0 : list (list Z)) (s : web) (i : nat) (f : file) : Prop :=
  Forall (λ c, c ≠ []) (replies s i) ∧ concat r0 = data i (log s) ++ concat (replies s i) ∧
  (f_flags f = F_DONE → replies s i = []) ∧
  requests i (log s) = if (f_flags f =? F_READING) || (f_flags f =? F_DONE) then [GET_CMD (f_name f)] else [].

Section inv.
Context (maxnconn : Z) (names : list (list Z)) (r0 : nat → list (list Z)).

Record inv (s : web) : Prop := {
  w_names : f_name <$> files s = take MAXFILES names;
  w_flags : ∀ i f, files s !! i = Some f → f_flags f = 0 ∨ f_flags f = F_CONNECTING ∨ f_flags f = F_READING ∨ f_flags f = F_DONE;
  w_sets : sets (files s) (rset s) (wset s);
  w_fds : ∀ fd, fd ∈ rset s → 0 <= fd < FD_SETSIZE ∧ fd <= maxfd s;
  w_nconn : nconn s = Z.of_nat (total (λ _ f, b2n (active f)) (files s)) ∧ nconn s <= Z.max 0 maxnconn;
  w_conn : nlefttoconn s = Z.of_nat (total (λ _ f, b2n (f_flags f =? 0)) (files s));
  w_read : nlefttoread s = Z.of_nat (total (λ _ f, b2n (negb (f_flags f =? F_DONE))) (files s));
  w_file : ∀ i f, files s !! i = Some f → file_ok (r0 i) s i f }.

Lemma inv_change s s' i f f' : inv s → files s !! i = Some f → files s' = <[i := f']> (files s) → f_name f' = f_name f →
  f_flags f' = 0 ∨ f_flags f' = F_CONNECTING ∨ f_flags f' = F_READING ∨ f_flags f' = F_DONE →
  (active f = true → f_fd f' = f_fd f) → (active f = false → f_fd f' ∉ rset s) →
  rset s' = (if active f' then {[f_fd f']} ∪ rset s else rset s ∖ {[f_fd f']}) →
  wset s' = (if connecting f' then {[f_fd f']} ∪ wset s else wset s ∖ {[f_fd f']}) →
  maxfd s <= maxfd s' → (active f' = true → 0 <= f_fd f' < FD_SETSIZE ∧ f_fd f' <= maxfd s') →
  nconn s' = nconn s + Z.of_nat (b2n (active f')) - Z.of_nat (b2n (active f)) → nconn s' <= Z.max 0 maxnconn →
  nlefttoconn s' = nlefttoconn s + Z.of_nat (b2n (f_flags f' =? 0)) - Z.of_nat (b2n (f_flags f =? 0)) →
  nlefttoread s' = nlefttoread s + Z.of_nat (b2n (negb (f_flags f' =? F_DONE))) - Z.of_nat (b2n (negb (f_flags f =? F_DONE))) →
  (∀ j g, j ≠ i → file_ok (r0 j) s j g → file_ok (r0 j) s' j g) → file_ok (r0 i) s' i f' → inv s'.
Proof.
  intros Hi Hf Ef En Hfl Hold Hnew Er Ew Hm Hfd Hnc Hmx Hlc Hlr Hoth Hok. pose proof (lookup_lt_Some _ _ _ Hf) as Hlen. split; rewrite ?Ef.
  - rewrite list_fmap_insert, En, list_insert_id; [by apply (w_names s Hi)|]. by rewrite list_lookup_fmap, Hf.
  - intros j g [(<- & <- & _)|[_ Ej]]%list_lookup_insert_Some; [done|by apply (w_flags s Hi j)].
  - rewrite Er, Ew. by apply (sets_update _ _ _ i f), Hnew; [apply (w_sets s Hi)| |].
  - intros fd. rewrite Er. destruct (active f'); [|intros [H _]%elem_of_difference; pose proof (w_fds s Hi fd H); lia].
    intros [->%elem_of_singleton|H]%elem_of_union; [by apply Hfd|]. pose proof (w_fds s Hi fd H). lia.
  - destruct (w_nconn s Hi) as [H _]. pose proof (total_same (λ _ f, b2n (active f)) (files s) i f f' Hf). lia.
  - pose proof (w_conn s Hi). pose proof (total_same (λ _ f, b2n (f_flags f =? 0)) (files s) i f f' Hf). lia.
  - pose proof (w_read s Hi). pose proof (total_same (λ _ f, b2n (negb (f_flags f =? F_DONE))) (files s) i f f' Hf). lia.
  - intros j g [(<- & <- & _)|[Hj Ej]]%list_lookup_insert_Some; [done|]. by apply Hoth, (w_file s Hi).
Qed.

(** Fewer descriptors are open than there are entries. *)
Lemma rset_size s : inv s → (size (rset s) <= MAXFILES)%nat.
Proof.
  intros Hi. assert (elements (rset s) ⊆+ f_fd <$> files s) as Hsub.
  { apply NoDup_submseteq; [apply NoDup_elements|]. intros fd. rewrite elem_of_elements, (s_r _ _ _ (w_sets s Hi) fd), list_elem_of_fmap.
    intros (i & f & Hf & _ & <-). exists f. split; [done|]. by eapply list_elem_of_lookup_2. }
  apply submseteq_length in Hsub. change (length (elements (rset s))) with (size (rset s)) in Hsub. rewrite length_fmap in Hsub.
  pose proof (f_equal length (w_names s Hi)) as Hl. rewrite length_fmap, length_take in Hl. lia.
Qed.
End inv.

(** ** The operations *)

(** [socket] returns a descriptor that is not open and fits a set, no call fails, and the names
    leave room for the rest of the request. *)
Record env_ok (e : env) (names : list (list Z)) : Prop := {
  e_sock : ∀ X, (size X <= MAXFILES)%nat → (sock e X ∉ X) ∧ 0 <= sock e X < FD_SETSIZE;
  e_conn : ∀ i, conn e i ≠ ConnErr;
  e_wr : ∀ i, wr_ok e i = true;
  e_names : ∀ n, n ∈ names → Z.of_nat (length n) + 17 < MAXLINE }.

Lemma get_file_run i f s : files s !! i = Some f → get_file i s = (s, Done f).
Proof. unfold get_file. by intros ->. Qed.

Lemma in_set_ok fd : 0 <= fd < FD_SETSIZE → in_set fd = true.
Proof. intros H. unfold in_set. by rewrite (proj2 (Z.leb_le 0 fd)), (proj2 (Z.ltb_lt fd _)) by lia. Qed.

Lemma length_get_cmd n : length (GET_CMD n) = (length n + 17)%nat.
Proof. unfold GET_CMD. rewrite !length_app. cbn. lia. Qed.

Lemma write_get_cmd_run e i f s : files s !! i = Some f → wr_ok e i = true → Z.of_nat (length (f_name f)) + 17 < MAXLINE → 0 <= f_fd f < FD_SETSIZE →
  write_get_cmd e i s = (Web (<[i := File (f_name f) (f_fd f) F_READING]> (files s)) (nconn s) (nlefttoconn s) (nlefttoread s) (Z.max (maxfd s) (f_fd f))
    ({[f_fd f]} ∪ rset s) (wset s) (replies s) (log s ++ [Request i (GET_CMD (f_name f))]), Done tt).
Proof.
  intros Hf Hw Hn Hfd. unfold write_get_cmd. rewrite (bind_done _ _ _ _ _ (get_file_run i f s Hf)), length_get_cmd, Hw.
  rewrite (proj2 (Z.ltb_ge _ _)), (proj2 (Z.ltb_lt _ MAXLINE)) by lia. cbn [negb]. unfold say, set_file, upd. rewrite !bind_modify.
  unfold FD_SET_r, raise_maxfd, upd. rewrite (in_set_ok _ Hfd), bind_modify. done.
Qed.

Section run.
Context (e : env) (maxnconn : Z) (names : list (list Z)) (r0 : nat → list (list Z)).
Hypothesis He : env_ok e names.
Let good := inv maxnconn names r0.

(** What is left to do: at most that many turns are needed. *)
Definition weight (s : web) (i : nat) (f : file) : nat :=
  if f_flags f =? 0 then 3 + length (replies s i) else if f_flags f =? F_CONNECTING then 2 + length (replies s i)
  else if f_flags f =? F_READING then 1 + length (replies s i) else 0.
Definition left_to_do (s : web) : nat := total (weight s) (files s).

Lemma left_less s s' i f f' : files s !! i = Some f → files s' = <[i := f']> (files s) → (∀ j, j ≠ i → replies s' j = replies s j) →
  (weight s' i f' < weight s i f)%nat → (left_to_do s' < left_to_do s)%nat.
Proof.
  intros Hf Ef Hr Hw. unfold left_to_do. rewrite Ef. assert (∀ j g, j ≠ i → weight s' j g = weight s j g) as H by (intros j g Hj; unfold weight; by rewrite Hr).
  pose proof (total_change (weight s) (weight s') (files s) i f f' H Hf). lia.
Qed.

Lemma name_short s i f : good s → files s !! i = Some f → Z.of_nat (length (f_name f)) + 17 < MAXLINE.
Proof.
  intros Hi Hf. apply (e_names e names He). assert (f_name f ∈ take MAXFILES names) as H; [|rewrite <- (take_drop MAXFILES names); apply elem_of_app; by left].
  rewrite <- (w_names _ _ _ s Hi). apply list_elem_of_fmap. exists f. split; [done|]. by eapply list_elem_of_lookup_2.
Qed.

Lemma file_other s s' i : replies s' = replies s → (∃ bs, log s' = log s ++ [Request i bs]) ∨ log s' = log s →
  ∀ j g, j ≠ i → file_ok (r0 j) s j g → file_ok (r0 j) s' j g.
Proof.
  intros Er Hl j g Hj (H1 & H2 & H3 & H4). unfold file_ok. rewrite Er. destruct Hl as [[bs ->]| ->]; [|done].
  rewrite data_app, requests_app. cbn. rewrite decide_False, !app_nil_r by done. done.
Qed.

(** A connection is started and counted. *)
Lemma start_run s i f : good s → files s !! i = Some f → f_flags f = 0 → nconn s < maxnconn →
  ∃ s', (start_connect e i;;; upd (λ s, set_counts (nconn s + 1) (nlefttoconn s - 1) (nlefttoread s) s)) s = (s', Done tt) ∧
    good s' ∧ (left_to_do s' < left_to_do s)%nat ∧ nlefttoconn s' = nlefttoconn s - 1 ∧ nlefttoread s' = nlefttoread s.
Proof using All.
  intros Hi Hf H0 Hmax. pose proof (name_short s i f Hi Hf) as Hn. destruct (e_sock e names He (rset s) (rset_size _ _ _ s Hi)) as [Hnew Hfd].
  pose proof (w_file _ _ _ s Hi i f Hf) as (K1 & K2 & _ & K4). assert (active f = false) as Hna by (unfold active; by rewrite H0).
  rewrite H0 in K4. cbn in K4. unfold start_connect. rewrite bind_assoc, (bind_done _ _ _ _ _ (get_file_run i f s Hf)), bind_assoc, bind_gets, bind_assoc.
  pose proof (lookup_lt_Some _ _ _ Hf) as Hlen. set (fd := sock e (rset s)) in *. unfold set_file at 1, upd at 1. rewrite bind_modify.
  assert (fd ∉ wset s) as Hnw by (intros H; apply Hnew; apply (s_r _ _ _ (w_sets _ _ _ s Hi)); apply (s_w _ _ _ (w_sets _ _ _ s Hi)) in H as (j & g & Hj & Hc%connecting_active & E); by exists j, g).
  destruct (conn e i) eqn:Ec; [| |by destruct (e_conn e names He i)].
  - rewrite (bind_done _ _ _ _ _ (write_get_cmd_run e i (File (f_name f) fd (f_flags f)) (set_files (<[i:=File (f_name f) fd (f_flags f)]> (files s)) s)
      ltac:(cbn; by rewrite list_lookup_insert_eq) (e_wr e names He i) Hn Hfd)). cbn [set_files files f_name f_fd nconn nlefttoconn nlefttoread maxfd rset wset replies log].
    rewrite list_insert_insert_eq. eexists. split; [done|]. cbn [nlefttoconn set_counts]. split; [|split; [|done]].
    + apply (inv_change _ _ _ s _ i f (File (f_name f) fd F_READING) Hi Hf); cbn [set_counts set_sets set_files files f_name f_flags f_fd rset wset maxfd nconn nlefttoconn nlefttoread]; try done; try lia; auto.
      * by rewrite Hna.
      * replace (connecting _) with false by done. set_solver.
      * rewrite Hna. cbn. lia.
      * rewrite H0. cbn. lia.
      * rewrite H0. cbn. lia.
      * apply (file_other _ _ i); [done|]. left. by eexists.
      * unfold file_ok. cbn [set_counts replies log f_flags f_name]. rewrite data_app, requests_app, K4. cbn. rewrite decide_True, app_nil_r by done. done.
    + eapply (left_less s _ i f); [done|reflexivity|done|]. unfold weight. rewrite H0. cbn. lia.
  - unfold set_file, upd. rewrite bind_assoc, bind_modify. unfold FD_SET_r, FD_SET_w, raise_maxfd, upd. rewrite (in_set_ok fd Hfd), !bind_assoc, !bind_modify.
    cbn [set_files set_sets set_counts files nconn nlefttoconn nlefttoread maxfd rset wset replies log modify]. rewrite list_insert_insert_eq. unfold modify.
    eexists. split; [done|]. cbn [nlefttoconn set_counts]. split; [|split; [|done]].
    + apply (inv_change _ _ _ s _ i f (File (f_name f) fd F_CONNECTING) Hi Hf); cbn [set_counts set_sets set_files files f_name f_flags f_fd rset wset maxfd nconn nlefttoconn nlefttoread]; try done; try lia; auto.
      * by rewrite Hna.
      * rewrite Hna. cbn. lia.
      * rewrite H0. cbn. lia.
      * rewrite H0. cbn. lia.
    + eapply (left_less s _ i f); [done|reflexivity|done|]. unfold weight. rewrite H0. cbn. lia.
Qed.

Lemma find_unread_some l : ∀ k, (∃ i f, l !! i = Some f ∧ f_flags f = 0) → ∃ i f, find_unread k l = Some (k + i)%nat ∧ l !! i = Some f ∧ f_flags f = 0.
Proof.
  induction l as [|g l IH]; intros k (i & f & Hi & Hf); [done|]. cbn [find_unread]. destruct (Z.eqb_spec (f_flags g) 0) as [Hg|Hg].
  - exists 0%nat, g. by rewrite Nat.add_0_r.
  - destruct i as [|i]; [injection Hi as ->; done|]. destruct (IH (S k)) as (j & h & Ej & Hj & Hh); [by exists i, f|]. exists (S j), h. by rewrite Nat.add_succ_r.
Qed.

(** The loop ends, and always finds the file that the count promises. *)
Lemma connect_loop_run fuel : ∀ s, good s → nlefttoconn s <= Z.of_nat fuel → ∃ s', connect_loop fuel e maxnconn s = (s', Done tt) ∧ good s' ∧
  (left_to_do s' <= left_to_do s)%nat ∧ (maxnconn <= nconn s' ∨ nlefttoconn s' = 0) ∧ nlefttoread s' = nlefttoread s.
Proof using All.
  induction fuel as [|fuel IH]; intros s Hi Hfuel; pose proof (w_conn _ _ _ s Hi) as Hc; cbn [connect_loop]; rewrite bind_get.
  - rewrite (proj2 (Z.ltb_ge 0 _)), andb_false_r by lia. exists s. split_and!; try done. right. lia.
  - destruct (Z.ltb_spec (nconn s) maxnconn) as [Hn|Hn]; [|exists s; split_and!; auto]. destruct (Z.ltb_spec 0 (nlefttoconn s)) as [Hl|Hl]; [|exists s; split_and!; try done; right; lia].
    cbn [andb]. destruct (total_pos (λ _ f, b2n (f_flags f =? 0)) (files s)) as (i0 & f0 & Hi0 & Hf0); [lia|].
    destruct (find_unread_some (files s) 0) as (i & f & E & Hf & H0).
    { exists i0, f0. split; [done|]. destruct (Z.eqb_spec (f_flags f0) 0); [done|cbn in Hf0; lia]. }
    rewrite E. cbn [Nat.add]. destruct (start_run s i f Hi Hf H0 Hn) as (s1 & E1 & Hi1 & Hd1 & Hc1 & Hr1).
    rewrite <- bind_assoc, (bind_done _ _ _ _ _ E1). destruct (IH s1 Hi1 ltac:(lia)) as (s2 & E2 & Hi2 & Hd2 & Hx & Hr2). exists s2. split_and!; try done; [lia|congruence].
Qed.

(** [select] has found something for the file. *)
Definition selected (rs ws : gset Z) (f : file) : bool :=
  connecting f && (bool_decide (f_fd f ∈ rs) || bool_decide (f_fd f ∈ ws)) || (f_flags f =? F_READING) && bool_decide (f_fd f ∈ rs).

Lemma read_done s i f bs r : good s → files s !! i = Some f → f_flags f = F_READING → replies s i = bs :: r →
  good (set_kernel (<[i := r]> (replies s)) (log s ++ [Data i bs]) s).
Proof using Type.
  intros Hi Hf Hfl Hr. destruct (Hi) as [H1 H2 H3 H4 H5 H6 H7 H8]. split; try done. intros j g Hj. cbn [set_kernel files] in Hj.
  destruct (H8 j g Hj) as (K1 & K2 & K3 & K4). unfold file_ok. cbn [set_kernel replies log]. rewrite data_app, requests_app. destruct (decide (j = i)) as [->|Hne].
  - assert (g = f) as -> by congruence. rewrite fn_lookup_insert. rewrite Hr in K1, K2. cbn. rewrite decide_True, !app_nil_r by done. inversion_clear K1.
    split; [done|]. split; [by rewrite <- app_assoc|]. split; [by rewrite Hfl|done].
  - rewrite fn_lookup_insert_ne by done. cbn. rewrite decide_False, !app_nil_r by done. done.
Qed.

(** Evaluates the tests of the flags. *)
Ltac flag_tests :=
  repeat match goal with
  | |- context [negb (Z.land ?a ?b =? 0)] => let v := eval vm_compute in (negb (Z.land a b =? 0)) in change (negb (Z.land a b =? 0)) with v
  | |- context [?a =? ?b] => let v := eval vm_compute in (a =? b) in lazymatch v with true => idtac | false => idtac end; change (a =? b) with v
  end.

Lemma check_file_run rs ws s i f : good s → files s !! i = Some f → ∃ s', check_file e rs ws i s = (s', Done tt) ∧ good s' ∧
  (∀ j, j ≠ i → files s' !! j = files s !! j) ∧ length (files s') = length (files s) ∧
  if selected rs ws f then (left_to_do s' < left_to_do s)%nat else s' = s.
Proof using All.
  intros Hi Hf. unfold check_file. rewrite (bind_done _ _ _ _ _ (get_file_run i f s Hf)). pose proof (w_file _ _ _ s Hi i f Hf) as (K1 & K2 & _ & K4).
  destruct (w_nconn _ _ _ s Hi) as [Hc Hmx]. unfold selected. destruct (w_flags _ _ _ s Hi i f Hf) as [E|[E|[E|E]]]; rewrite ?E; flag_tests; cbn [orb andb].
  - replace (connecting f) with false by (unfold connecting; by rewrite E). by exists s.
  - assert (connecting f = true) as Hcf by (unfold connecting; by rewrite E). pose proof (connecting_active f Hcf) as Ha. rewrite Hcf. cbn [andb orb].
    assert (f_fd f ∈ rset s) as Hin by (apply (s_r _ _ _ (w_sets _ _ _ s Hi)); by exists i, f). destruct (w_fds _ _ _ s Hi _ Hin) as [Hfd Hm].
    rewrite orb_false_r. destruct (bool_decide (f_fd f ∈ rs) || bool_decide (f_fd f ∈ ws)); [|exists s; by split_and!]. unfold upd. rewrite bind_modify. rewrite (write_get_cmd_run e i f); cbn [set_sets files]; try done; [|by apply (e_wr e names He)|by eapply name_short].
    eexists. split; [done|]. cbn [set_sets files nconn nlefttoconn nlefttoread maxfd rset wset replies log]. split; [|split; [|split]].
    + apply (inv_change _ _ _ s _ i f (File (f_name f) (f_fd f) F_READING) Hi Hf); cbn [set_kernel set_counts set_sets set_files files f_name f_flags f_fd rset wset maxfd nconn nlefttoconn nlefttoread]; try done; try lia; auto.
      * by rewrite Ha.
      * rewrite Ha. cbn. lia.
      * rewrite E. cbn. lia.
      * rewrite E. cbn. lia.
      * apply (file_other _ _ i); [done|]. left. by eexists.
      * unfold file_ok. cbn [set_kernel set_counts set_sets set_files replies log f_flags f_name]. rewrite data_app, requests_app, K4, E. cbn. rewrite decide_True, app_nil_r by done. done.
    + intros j Hj. by rewrite list_lookup_insert_ne.
    + by rewrite length_insert.
    + eapply (left_less s _ i f); [done|reflexivity|done|]. unfold weight. rewrite E. cbn. lia.
  - replace (connecting f) with false by (unfold connecting; by rewrite E). assert (active f = true) as Ha by (unfold active; by rewrite E). cbn [andb orb].
    destruct (bool_decide (f_fd f ∈ rs)); [|by exists s]. unfold read_reply. rewrite bind_assoc, bind_gets. destruct (replies s i) as [|bs r] eqn:Er.
    + rewrite bind_ret. unfold say, set_file, upd. rewrite !bind_modify. unfold modify. eexists. split; [done|].
      cbn [set_kernel set_files set_sets set_counts files nconn nlefttoconn nlefttoread maxfd rset wset replies log]. split; [|split; [|split]].
      * apply (inv_change _ _ _ s _ i f (File (f_name f) (f_fd f) F_DONE) Hi Hf); cbn [set_kernel set_counts set_sets set_files files f_name f_flags f_fd rset wset maxfd nconn nlefttoconn nlefttoread]; try done; try lia; auto.
        -- by rewrite Ha.
        -- replace (connecting _) with false by done. assert (f_fd f ∉ wset s); [|set_solver]. intros (j & g & Hj & Hg & Eg)%(s_w _ _ _ (w_sets _ _ _ s Hi)).
           assert (j = i) as -> by (by apply (s_inj _ _ _ (w_sets _ _ _ s Hi) j i g f); try done; apply connecting_active). rewrite Hf in Hj. injection Hj as <-.
           unfold connecting in Hg. by rewrite E in Hg.
        -- rewrite Ha. cbn. lia.
        -- rewrite E. cbn. lia.
        -- rewrite E. cbn. lia.
        -- intros j g Hj (L1 & L2 & L3 & L4). unfold file_ok. cbn [set_kernel set_counts set_sets set_files replies log]. rewrite data_app, requests_app. cbn. by rewrite !app_nil_r.
        -- unfold file_ok. cbn [set_kernel set_counts set_sets set_files replies log f_flags f_name]. rewrite data_app, requests_app, Er, K4, E. cbn. rewrite app_nil_r. split; [constructor|]. done.
      * intros j Hj. by rewrite list_lookup_insert_ne.
      * by rewrite length_insert.
      * eapply (left_less s _ i f); [done|reflexivity|done|]. unfold weight. rewrite E. cbn. lia.
    + rewrite bind_assoc. unfold upd. rewrite bind_modify, bind_ret. inversion_clear K1 as [|?? Hbs _]. destruct bs as [|b bs]; [done|].
      unfold say, upd, modify. eexists. split; [done|]. split; [by apply (read_done s i f)|]. split; [done|]. split; [done|].
      eapply (left_less s _ i f f); [done|by rewrite list_insert_id| |]; cbn [set_kernel replies]; [intros j Hj; by rewrite fn_lookup_insert_ne|].
      unfold weight. rewrite E. cbn [set_kernel replies]. rewrite fn_lookup_insert, Er. cbn. lia.
  - replace (connecting f) with false by (unfold connecting; by rewrite E). by exists s.
Qed.

Lemma check_files_run rs ws l : ∀ s, good s → NoDup l → (∀ i, i ∈ l → is_Some (files s !! i)) → ∃ s', check_files e rs ws l s = (s', Done tt) ∧ good s' ∧
  (left_to_do s' <= left_to_do s)%nat ∧
  ((∃ i f, i ∈ l ∧ files s !! i = Some f ∧ selected rs ws f = true) → (left_to_do s' < left_to_do s)%nat) ∧
  ((∀ i f, i ∈ l → files s !! i = Some f → selected rs ws f = false) → s' = s).
Proof using All.
  induction l as [|i l IH]; intros s Hi Hnd Hin; [exists s; split_and!; try done; intros (i & f & ?%elem_of_nil & _); done|].
  apply NoDup_cons in Hnd as [Hil Hnd]. destruct (Hin i ltac:(by left)) as [f Hf]. destruct (check_file_run rs ws s i f Hi Hf) as (s1 & E1 & Hi1 & Hoth & Hlen & Hd).
  destruct (IH s1 Hi1 Hnd) as (s2 & E2 & Hi2 & Hle & Hlt & Hsame).
  { intros j Hj. rewrite Hoth by (by intros ->). apply Hin. by right. }
  exists s2. cbn [check_files]. rewrite (bind_done _ _ _ _ _ E1). assert (left_to_do s1 <= left_to_do s)%nat as Hle1 by (destruct (selected rs ws f); [lia|by subst]).
  split_and!; try done; [lia| |].
  - intros (j & g & [->|Hj]%elem_of_cons & Hg & Hs).
    + assert (g = f) as -> by congruence. rewrite Hs in Hd. lia.
    + assert (left_to_do s2 < left_to_do s1)%nat; [|lia]. apply Hlt. exists j, g. rewrite Hoth by (by intros ->). done.
  - intros Hno. rewrite (Hno i f ltac:(by left) Hf) in Hd. subst s1. apply Hsame. intros j g Hj. apply Hno. by right.
Qed.

(** [select] returns when one of its descriptors is ready. *)
Definition useful (a : selection) : Prop :=
  ∀ R W : gset Z, R ∪ W ≠ ∅ → (fst (a R W) ∩ R) ∪ (snd (a R W) ∩ W) ≠ ∅.

Lemma counts_add s : good s → total (λ _ f, b2n (negb (f_flags f =? F_DONE))) (files s) =
  Nat.add (total (λ _ f, b2n (active f)) (files s)) (total (λ _ f, b2n (f_flags f =? 0)) (files s)).
Proof using Type.
  intros Hi. rewrite total_add. apply total_eq. intros i f Hf. unfold active. destruct (w_flags _ _ _ s Hi i f Hf) as [E|[E|[E|E]]]; by rewrite E.
Qed.

Lemma turn_run a s : good s → ∃ s', turn e maxnconn a s = (s', Done tt) ∧ good s' ∧
  (useful a → 0 < maxnconn → 0 < nlefttoread s → (left_to_do s' < left_to_do s)%nat).
Proof using All.
  intros Hi. unfold turn. rewrite bind_gets. destruct (connect_loop_run (Z.to_nat (nlefttoconn s)) s Hi ltac:(lia)) as (s1 & E1 & Hi1 & Hd1 & Hx & Hr1).
  rewrite (bind_done _ _ _ _ _ E1), bind_get.
  assert (∀ X : gset Z, X ⊆ rset s1 → filter (λ fd, fd <= maxfd s1) X = X) as Hfil.
  { intros X HX. apply leibniz_equiv. intros fd. rewrite elem_of_filter. split; [tauto|]. intros H. split; [|done]. by apply (w_fds _ _ _ s1 Hi1), HX. }
  pose proof (w_sets _ _ _ s1 Hi1) as Hs. assert (wset s1 ⊆ rset s1) as Hw.
  { intros fd (i & f & Hf & Hc%connecting_active & Ef)%(s_w _ _ _ Hs). apply (s_r _ _ _ Hs). by exists i, f. }
  rewrite (Hfil (rset s1)), (Hfil (wset s1)) by done. set (rs := fst _ ∩ rset s1). set (ws := snd _ ∩ wset s1).
  destruct (check_files_run rs ws (seq 0 (length (files s1))) s1 Hi1) as (s2 & E2 & Hi2 & Hle & Hlt & _).
  { apply NoDup_seq. } { intros i Hin%elem_of_seq. apply lookup_lt_is_Some. lia. }
  exists s2. split; [done|]. split; [done|]. intros Hu Hmax Hleft. assert (left_to_do s2 < left_to_do s1)%nat; [|lia]. apply Hlt.
  assert (0 < nconn s1) as Hn.
  { destruct Hx as [|Hx]; [lia|]. rewrite <- Hr1, (w_read _ _ _ s1 Hi1) in Hleft. rewrite (w_conn _ _ _ s1 Hi1) in Hx. destruct (w_nconn _ _ _ s1 Hi1) as [-> _].
    pose proof (counts_add s1 Hi1). lia. }
  destruct (w_nconn _ _ _ s1 Hi1) as [Hc _]. destruct (total_pos (λ _ f, b2n (active f)) (files s1)) as (i & f & Hf & Ha); [lia|].
  assert (rset s1 ∪ wset s1 ≠ ∅) as Hne.
  { assert (f_fd f ∈ rset s1); [|set_solver]. apply (s_r _ _ _ Hs). exists i, f. destruct (active f) eqn:E; [done|cbn in Ha; lia]. }
  apply (Hu (rset s1) (wset s1)), set_choose_L in Hne as [fd [Hfd|Hfd]%elem_of_union].
  - assert (fd ∈ rset s1) as (j & g & Hg & Hga & Eg)%(s_r _ _ _ Hs) by set_solver. exists j, g. split; [apply elem_of_seq; pose proof (lookup_lt_Some _ _ _ Hg); lia|]. split; [done|].
    unfold selected. rewrite Eg, (bool_decide_true (fd ∈ rs)) by done. cbn [orb]. by rewrite !andb_true_r.
  - assert (fd ∈ wset s1) as (j & g & Hg & Hgc & Eg)%(s_w _ _ _ Hs) by set_solver. exists j, g. split; [apply elem_of_seq; pose proof (lookup_lt_Some _ _ _ Hg); lia|]. split; [done|].
    unfold selected. rewrite Eg, (bool_decide_true (fd ∈ ws)), Hgc, orb_true_r by done. done.
Qed.

(** More turns than there is to do end the program. *)
Lemma main_loop_run l : ∀ s, good s → ∃ s' b, main_loop e maxnconn l s = (s', Done b) ∧ good s' ∧
  (b = true → nlefttoread s' = 0) ∧ (Forall useful l → 0 < maxnconn → (left_to_do s <= length l)%nat → b = true).
Proof using All.
  induction l as [|a l IH]; intros s Hi; pose proof (w_read _ _ _ s Hi) as Hr; cbn [main_loop]; rewrite bind_get; destruct (Z.ltb_spec 0 (nlefttoread s)) as [Hl|Hl];
    try (exists s, true; split_and!; try done; lia).
  - exists s, false. split_and!; try done. intros _ _ Hd. exfalso. destruct (total_pos (λ _ f, b2n (negb (f_flags f =? F_DONE))) (files s)) as (i & f & Hf & Hb); [lia|].
    cbn in Hd. assert (weight s i f <= left_to_do s)%nat as Hwi.
    { apply (total_ge (weight s) (files s) i f Hf). }
    unfold weight in Hwi. destruct (w_flags _ _ _ s Hi i f Hf) as [E|[E|[E|E]]]; rewrite E in Hwi, Hb; cbn in Hwi, Hb; lia.
  - destruct (turn_run a s Hi) as (s1 & E1 & Hi1 & Hlt). rewrite (bind_done _ _ _ _ _ E1). destruct (IH s1 Hi1) as (s2 & b & E2 & Hi2 & Hb & Hend).
    exists s2, b. split_and!; try done. intros Hu Hm Hd. inversion_clear Hu. apply Hend; try done. specialize (Hlt ltac:(done) Hm Hl). cbn in Hd. lia.
Qed.
End run.

Lemma web_start_inv maxnconn names r : (∀ i, Forall (λ c, c ≠ []) (r i)) → inv maxnconn names r (start names r).
Proof.
  intros Hr. assert (∀ i f, files (start names r) !! i = Some f → f_flags f = 0) as H0.
  { intros i f. cbn [start files]. rewrite list_lookup_fmap. destruct (take MAXFILES names !! i); [|done]. by intros [= <-]. }
  assert (∀ (p q : file → bool), (∀ f, f_flags f = 0 → p f = q f) → total (λ _ f, b2n (p f)) (files (start names r)) = total (λ _ f, b2n (q f)) (files (start names r))) as Hpq.
  { intros p q Hpq. apply total_eq. intros i f Hf. by rewrite (Hpq f (H0 i f Hf)). }
  split.
  - cbn [start files]. rewrite <- list_fmap_compose. by rewrite list_fmap_id.
  - intros i f Hf. left. by eapply H0.
  - assert (∀ (p : file → bool) i f, (f_flags f = 0 → p f = false) → files (start names r) !! i = Some f → p f = true → False) as Hno by (intros p i f Hp Hf; by rewrite (Hp (H0 i f Hf))).
    split.
    + intros i j f g Hf _ Ha. destruct (Hno active i f); try done. unfold active. by intros ->.
    + intros fd. cbn [start rset]. split; [set_solver|]. intros (i & f & Hf & Ha & _). destruct (Hno active i f); try done. unfold active. by intros ->.
    + intros fd. cbn [start wset]. split; [set_solver|]. intros (i & f & Hf & Ha & _). destruct (Hno connecting i f); try done. unfold connecting. by intros ->.
  - cbn [start rset]. set_solver.
  - cbn [start nconn]. rewrite (Hpq active (λ _, false)), total_zero; [lia|]. unfold active. by intros f ->.
  - rewrite (Hpq (λ f, f_flags f =? 0) (λ _, true)), total_length; [done|]. by intros f ->.
  - rewrite (Hpq (λ f, negb (f_flags f =? F_DONE)) (λ _, true)), total_length; [done|]. by intros f ->.
  - intros i f Hf. unfold file_ok. cbn [start replies log]. rewrite (H0 i f Hf). cbn. split; [done|]. split; [done|]. split; [|done]. done.
Qed.

(** The number of open connections. *)
Lemma open_count maxnconn names r s : inv maxnconn names r s → nconn s = Z.of_nat (size (rset s)).
Proof.
  intros Hi. destruct (w_nconn _ _ _ s Hi) as [-> _]. f_equal. pose proof (w_sets _ _ _ s Hi) as Hs.
  assert (elements (rset s) ≡ₚ f_fd <$> filter (λ f, active f = true) (files s)) as Hp.
  { apply NoDup_Permutation; [apply NoDup_elements| |].
    - assert (∀ i j f g, files s !! i = Some f → files s !! j = Some g → active f = true → active g = true → f_fd f = f_fd g → i = j) as Hinj by apply (s_inj _ _ _ Hs).
      revert Hinj. generalize (files s). intros l. induction l as [|f l IH]; intros Hinj; [constructor|].
      assert (NoDup (f_fd <$> filter (λ f, active f = true) l)) as Hnd by (apply IH; intros i j g h Hg Hh ?? ?; by injection (Hinj (S i) (S j) g h Hg Hh ltac:(done) ltac:(done) ltac:(done))).
      rewrite filter_cons. destruct (decide (active f = true)) as [Ha|]; [|done]. rewrite fmap_cons. constructor; [|done].
      intros (g & E & [Hg [j Hj]%list_elem_of_lookup]%list_elem_of_filter)%list_elem_of_fmap. by discriminate (Hinj 0%nat (S j) f g eq_refl Hj Ha Hg E).
    - intros fd. rewrite elem_of_elements, (s_r _ _ _ Hs fd), list_elem_of_fmap. split.
      + intros (i & f & Hf & Ha & <-). exists f. split; [done|]. apply list_elem_of_filter. split; [done|]. by eapply list_elem_of_lookup_2.
      + intros (f & -> & [Ha [i Hi']%list_elem_of_lookup]%list_elem_of_filter). by exists i, f. }
  change (size (rset s)) with (length (elements (rset s))). rewrite Hp, length_fmap. clear. induction (files s) as [|f l IH]; [done|].
  rewrite total_cons, filter_cons, IH. by destruct (active f).
Qed.

(** Whatever [select] reports, the client never stops with an error of its own: the file that
    the count of unstarted ones promises is always found, and no set overflows.  The count of
    connections is the number of open ones and at most the number given.  Of every file exactly one request is sent, once its connection is
    made, and what was received so far is the start of the server's reply, in order. *)
Theorem web_safe e maxnconn names r l : env_ok e names → names ≠ [] → (∀ i, Forall (λ c, c ≠ []) (r i)) →
  ∃ s b, main e maxnconn names r l = (s, Done b) ∧ nconn s = Z.of_nat (size (rset s)) ∧ nconn s <= Z.max 0 maxnconn ∧
    ∀ i name, take MAXFILES names !! i = Some name → ∃ f, files s !! i = Some f ∧ concat (r i) = data i (log s) ++ concat (replies s i) ∧
      requests i (log s) = if (f_flags f =? F_READING) || (f_flags f =? F_DONE) then [GET_CMD name] else [].
Proof.
  intros He Hn Hr. destruct (main_loop_run e maxnconn names r He l (start names r) (web_start_inv _ _ _ Hr)) as (s & b & E & Hi & _).
  exists s, b. split; [unfold main; by destruct names|]. split; [by eapply open_count|]. split; [by apply (w_nconn _ _ _ s Hi)|].
  intros i name Hname. rewrite <- (w_names _ _ _ s Hi), list_lookup_fmap in Hname. destruct (files s !! i) as [f|] eqn:Hf; [|done]. injection Hname as <-.
  exists f. split; [done|]. pose proof (w_file _ _ _ s Hi i f Hf) as (_ & ? & _ & ?). done.
Qed.

(** C25: with room for at least one connection, and if every [select] returns with something ready,
    the client ends after a bounded number of turns, three for each file and one for each piece
    of a reply.  Then every file was requested once and received completely. *)
Theorem web_fetches e maxnconn names r l : env_ok e names → names ≠ [] → (∀ i, Forall (λ c, c ≠ []) (r i)) → 0 < maxnconn →
  Forall useful l → (sum_list ((λ i, 3 + length (r i)) <$> seq 0 (Nat.min MAXFILES (length names))) <= length l)%nat →
  ∃ s, main e maxnconn names r l = (s, Done true) ∧
    ∀ i name, take MAXFILES names !! i = Some name → data i (log s) = concat (r i) ∧ requests i (log s) = [GET_CMD name].
Proof.
  intros He Hn Hr Hm Hu Hlen. destruct (main_loop_run e maxnconn names r He l (start names r) (web_start_inv _ _ _ Hr)) as (s & b & E & Hi & Hb & Hend).
  assert (b = true) as ->.
  { apply Hend; try done. etrans; [|exact Hlen]. apply Nat.eq_le_incl. unfold left_to_do, total. f_equal. cbn [start files]. apply list_eq. intros i.
    rewrite list_lookup_imap, !list_lookup_fmap. destruct (decide (i < Nat.min MAXFILES (length names))%nat) as [Hlt|Hge].
    - rewrite lookup_seq_lt by done. destruct (lookup_lt_is_Some_2 (take MAXFILES names) i) as [n ->]; [rewrite length_take; lia|]. done.
    - rewrite lookup_seq_ge by lia. by rewrite lookup_ge_None_2 by (rewrite length_take; lia). }
  exists s. split; [unfold main; by destruct names|]. intros i name Hname. rewrite <- (w_names _ _ _ s Hi), list_lookup_fmap in Hname.
  destruct (files s !! i) as [f|] eqn:Hf; [|done]. injection Hname as <-. pose proof (w_file _ _ _ s Hi i f Hf) as (_ & K2 & K3 & K4).
  assert (f_flags f = F_DONE) as Hd.
  { specialize (Hb eq_refl). rewrite (w_read _ _ _ s Hi) in Hb. pose proof (total_ge (λ _ f, b2n (negb (f_flags f =? F_DONE))) (files s) i f Hf) as Hg. cbn in Hg.
    destruct (Z.eqb_spec (f_flags f) F_DONE); [done|cbn in Hg; lia]. }
  rewrite (K3 Hd), app_nil_r in K2. rewrite K4, Hd. done.
Qed.

(** Without room for a connection the client waits for ever. *)
Lemma web_stuck e maxnconn names r l : env_ok e names → names ≠ [] → (∀ i, Forall (λ c, c ≠ []) (r i)) → maxnconn <= 0 →
  main e maxnconn names r l = (start names r, Done false).
Proof.
  intros He Hn Hr Hm. assert (0 < nlefttoread (start names r)) as Hl by (cbn; rewrite length_fmap, length_take; destruct names; cbn; [done|lia]).
  transitivity (main_loop e maxnconn l (start names r)); [unfold main; by destruct names|]. pose proof (web_start_inv maxnconn names r Hr) as Hi.
  induction l as [|a l IH]; cbn [main_loop]; rewrite bind_get, (proj2 (Z.ltb_lt 0 _) Hl); [done|].
  assert (turn e maxnconn a (start names r) = (start names r, Done tt)) as E; [|by rewrite (bind_done _ _ _ _ _ E)].
  unfold turn. rewrite bind_gets. assert (∀ k, connect_loop k e maxnconn (start names r) = (start names r, Done tt)) as Ec.
  { intros k. assert ((nconn (start names r) <? maxnconn) = false) as Hc by (cbn; apply Z.ltb_ge; lia). destruct k; cbn [connect_loop]; by rewrite bind_get, Hc. }
  rewrite (bind_done _ _ _ _ _ (Ec _)), bind_get.
  match goal with |- check_files e ?rs ?ws ?l ?s = _ => destruct (check_files_run e maxnconn names r He rs ws l s Hi (NoDup_seq _ _)) as (s' & E & _ & _ & _ & Hs) end.
  { intros i Hin%elem_of_seq. apply lookup_lt_is_Some. lia. }
  rewrite E, Hs; [done|]. intros i f _ Hf. cbn [start files] in Hf. rewrite list_lookup_fmap in Hf. destruct (take MAXFILES names !! i); [|done]. by injection Hf as <-.
Qed.

(** ** A concrete run *)

(** The lowest descriptor from 3 on that is not open. *)
Definition demo_sock (X : gset Z) : Z := default 3 (head (filter (λ fd, fd ∉ X) (seqZ 3 21))).
Definition demo_env : env := Env demo_sock (λ i, if (i =? 0)%nat then Now else InProgress) (λ _, true).
Definition demo_names : list (list Z) := [[97]; [98]; [99]].
Definition demo_replies (i : nat) : list (list Z) := [[Z.of_nat i; 7]; [8]].
Definition demo_select : selection := λ R W, (R, W).

Lemma demo_env_ok : env_ok demo_env demo_names.
Proof.
  split.
  - intros X HX. cbn [sock demo_env]. unfold demo_sock. destruct (filter (λ fd, fd ∉ X) (seqZ 3 21)) as [|fd l] eqn:E.
    + exfalso. assert (seqZ 3 21 ⊆+ elements X) as Hsub.
      { apply NoDup_submseteq; [apply NoDup_seqZ|]. intros x Hx. apply elem_of_elements. destruct (decide (x ∈ X)) as [|Hn]; [done|].
        assert (x ∈ filter (λ fd, fd ∉ X) (seqZ 3 21)) as H by (by apply list_elem_of_filter). by rewrite E in H; apply elem_of_nil in H. }
      apply submseteq_length in Hsub. rewrite length_seqZ in Hsub. change (length (elements X)) with (size X) in Hsub. unfold MAXFILES in HX. lia.
    + assert (fd ∈ filter (λ fd, fd ∉ X) (seqZ 3 21)) as [Hn Hin%elem_of_seqZ]%list_elem_of_filter by (rewrite E; by left). cbn. unfold FD_SETSIZE. split; [done|lia].
  - intros i. cbn. by destruct (i =? 0)%nat.
  - done.
  - intros n Hn. unfold demo_names, MAXLINE in *. repeat (apply elem_of_cons in Hn as [->|Hn]; [cbn; lia|]). by apply elem_of_nil in Hn.
Qed.
Lemma demo_replies_ok i : Forall (λ c, c ≠ []) (demo_replies i).
Proof. by repeat constructor. Qed.
Lemma demo_useful : useful demo_select.
Proof. intros R W H. cbn. by rewrite !intersection_idemp_L. Qed.

Lemma web_safe_witness : ∃ s b, main demo_env 2 demo_names demo_replies (replicate 3 demo_select) = (s, Done b) ∧ nconn s <= 2.
Proof.
  destruct (web_safe demo_env 2 demo_names demo_replies (replicate 3 demo_select) demo_env_ok ltac:(done) demo_replies_ok) as (s & b & E & _ & H & _).
  exists s, b. split; [exact E|exact H].
Defined.

Lemma web_fetches_witness : ∃ s, main demo_env 2 demo_names demo_replies (replicate 15 demo_select) = (s, Done true) ∧ data 1 (log s) = [1; 7; 8].
Proof.
  destruct (web_fetches demo_env 2 demo_names demo_replies (replicate 15 demo_select) demo_env_ok ltac:(done) demo_replies_ok ltac:(lia)) as (s & E & H).
  - apply Forall_replicate, demo_useful.
  - cbn. lia.
  - exists s. split; [exact E|]. exact (proj1 (H 1%nat [98] eq_refl)).
Defined.

(** The length that [snprintf] returns for a long name makes the write read behind the array. *)
Lemma web_overread : snd (main demo_env 1 [replicate (Z.to_nat 4090) 97] demo_replies [demo_select]) = Fail OverRead.
Proof. vm_compute. reflexivity. Qed.
