(* ===== verification/Proxy.v ===== *)
(** The concurrent web proxy: c-proxy/my/proxy.c.

    A socket is two descriptors of [Rio], one for what is read and one for what is written.  A
    character array is a C string or a list of bytes; what an array holds before it is assigned
    is an argument.  Writing behind an array, following a null pointer, the end of the process in
    [Open_clientfd] and exhausted fuel are outcomes. *)
From Stdlib Require Import ZArith Lia String.
From stdpp Require Import base tactics numbers list.
From S2P Require Import Prelude Cio ByteOrder Rio.
Local Open Scope Z_scope.

Definition MAXLINE : nat := Z.to_nat 8192.
Definition MAXNCLI : nat := 32.
Definition NTHREADS : nat := 10.
(** [sizeof(header)] *)
Definition HEADER_SIZE : nat := Z.to_nat 5000.

Inductive fault := Overflow | NullPointer | Exit | NoFuel.
Abbreviation stop := (λ e, Fail e).

(** ** The address in a request *)

Definition lower (c : Z) : Z := if (65 <=? c) && (c <=? 90) then c + 32 else c.
(** [strncasecmp(a, b, n) == 0] *)
Definition casecmp (n : nat) (a b : list Z) : bool := bool_decide (lower <$> take n a = lower <$> take n b).
(** [strpbrk] as an index; the string of characters ends at its first 0. *)
Fixpoint strpbrk (l accept : list Z) : option nat :=
  match l with
  | [] => None
  | c :: l => if bool_decide (c ∈ accept) then Some O else S <$> strpbrk l accept
  end.

(** [NotHttp]: -1 was returned, [hostname] is empty and the port is not assigned.  [NullHost]: a
    null pointer was used. *)
Inductive parsed := NotHttp | Parsed (hostname pathname : list Z) (port : Z) | NullHost.

Definition parse_uri (uri : list Z) : parsed :=
  if negb (casecmp 7 uri (bytes "http://")) then NotHttp
  else
    let hostbegin := drop 7 uri in
    match strpbrk hostbegin (cstr [32; 58; 47; 13; 10; 0]) with
    | None => NullHost
    | Some len =>
        let hostend := drop len hostbegin in
        let port := match hostend with c :: p => if c =? 58 then i32 (atol p) else 80 | [] => 80 end in
        let pathname := match strchr hostbegin 47 with None => [] | Some i => drop (S i) hostbegin end in
        Parsed (take len hostbegin) pathname port
    end.

(** ** The wrappers of Rio *)

Definition Rio_readlineb_w (rp : rio_t) (maxlen : nat) : option (rio_t * list Z * Z) :=
  match rio_readlineb rp maxlen with
  | Some (rp, data, rc) => Some (rp, data, if rc <? 0 then 0 else rc)
  | None => None
  end.
Definition Rio_writen_w (s : io) (data : list Z) : option io := fst <$> rio_writen s data.

(** ** client *)

(** The loop that passes the response on: the server, the browser, [response_body] and
    [readsize]. *)
Fixpoint relay (fuel : nat) (rp : rio_t) (fd : io) (body : list Z) (readsize : Z) : outcome fault (rio_t * io * Z) :=
  match fuel with
  | O => stop NoFuel
  | S fuel =>
      match Rio_readlineb_w rp (Z.to_nat 2048) with
      | None => stop NoFuel
      | Some (rp, data, lines) =>
          let body := store data body in
          if lines =? 0 then Done (rp, fd, readsize)
          else
            match rio_writen fd (take (Z.to_nat lines) body) with
            | None => stop NoFuel
            | Some (fd, status) =>
                let readsize := i32 (readsize + lines) in
                if status =? -1 then Done (rp, fd, readsize) else relay fuel rp fd body readsize
            end
      end
  end.

(** One [sprintf] into [request] and its [Rio_writen_w]. *)
Definition send (s : io) (text : list Z) : outcome fault io :=
  if (MAXLINE <? length text + 1)%nat then stop Overflow
  else match Rio_writen_w s text with Some s => Done s | None => stop NoFuel end.

Definition CRLF : list Z := [13; 10].
Definition request_line (uri : list Z) : list Z := bytes "GET " ++ uri ++ bytes " HTTP/1.0" ++ CRLF.
Definition close_line : list Z := bytes "Connection: close" ++ CRLF.
Definition host_line (hostname : list Z) : list Z := bytes "Host: " ++ hostname ++ bytes " " ++ CRLF ++ CRLF.

(** What the arrays of the functions hold before they are assigned. *)
Record garbage := Garbage {
  g_buf : list Z; g_uri : list Z; g_port : Z; g_line : list Z; g_header : list Z; g_body : list Z; g_rio : list Z; g_lstring : list Z }.

(** The end server: what [Open_clientfd] connects to; both directions of the connection. *)
Definition dialer := list Z → Z → option (io * io).

(** The result is the connection to the server, the browser and the size of the response. *)
Definition client (dial : dialer) (g : garbage) (uri hostname : list Z) (port : Z) (fd : io) : outcome fault (io * rio_t * io * Z) :=
  match dial hostname port with
  | None => stop Exit
  | Some (sv_out, sv_in) =>
      match send sv_out (request_line uri) with
      | Fail e => stop e
      | Done sv_out =>
          match send sv_out close_line with
          | Fail e => stop e
          | Done sv_out =>
              match send sv_out (host_line hostname) with
              | Fail e => stop e
              | Done sv_out =>
                  match relay (S (length (rest sv_in))) (rio_readinitb (g_rio g) sv_in) fd (g_body g) 0 with
                  | Fail e => stop e
                  | Done (rp, fd, readsize) => Done (sv_out, rp, fd, readsize)
                  end
              end
          end
      end
  end.

(** ** server *)

(** [sscanf(buf, "%s %s %s", ...)]: the second word, if there is one. *)
Fixpoint nonspace (l : list Z) : list Z * list Z :=
  match l with
  | [] => ([], [])
  | c :: l' => if is_space c then ([], l) else let '(a, b) := nonspace l' in (c :: a, b)
  end.
Definition scan_uri (buf : list Z) : option (list Z) :=
  match nonspace (skip_space buf) with
  | ([], _) => None
  | (_, l) => match nonspace (skip_space l) with ([], _) => None | (uri, _) => Some uri end
  end.

(** [strstr(l, t) != NULL] *)
Fixpoint strstr (l t : list Z) : bool :=
  bool_decide (take (length t) l = t) || match l with [] => false | _ :: l => strstr l t end.

Definition strcat (header t : list Z) : outcome fault (list Z) :=
  if (HEADER_SIZE <? length (header ++ t) + 1)%nat then stop Overflow else Done (header ++ t).

(** What one line adds to [header]. *)
Definition header_text (hostname line : list Z) : list Z :=
  if strstr line (bytes "Connection: keep-alive") then bytes "Connection: close" ++ [10]
  else if strstr line (bytes "Host:") then bytes "Host:" ++ hostname ++ [10]
  else line.

(** The loop over the header lines; [hin] is [request_header_in]. *)
Fixpoint header_loop (fuel : nat) (rp : rio_t) (hostname hin header : list Z) : outcome fault (rio_t * list Z) :=
  if bool_decide (cstr hin = CRLF) then Done (rp, header)
  else
    match fuel with
    | O => stop NoFuel
    | S fuel =>
        match Rio_readlineb_w rp MAXLINE with
        | None => stop NoFuel
        | Some (rp, data, _) =>
            let hin := store data hin in
            match strcat header (header_text hostname (cstr hin)) with
            | Fail e => stop e
            | Done header => header_loop fuel rp hostname hin header
            end
        end
    end.

(** [sockaddr] is the address in network byte order; [time_str] comes from [strftime]. *)
Definition format_log_entry (time_str : list Z) (sockaddr : Z) (uri : list Z) (size : Z) : list Z :=
  let host := htonl sockaddr in
  time_str ++ bytes ": " ++ dec (Z.land (Z.shiftr host 24) 255) ++ [46] ++ dec (Z.land (Z.shiftr host 16) 255) ++ [46] ++
  dec (Z.land (Z.shiftr host 8) 255) ++ [46] ++ dec (Z.land host 255) ++ [32] ++ uri ++ [32] ++ dec size.

(** What the log file gets: [sizeof(lstring)] bytes, from the entry and a newline on. *)
Definition log_record (g : garbage) (entry : list Z) : outcome fault (list Z) :=
  if (MAXLINE <? length entry + 2)%nat then stop Overflow
  else Done (take MAXLINE (store (entry ++ [10; 0]) (g_lstring g))).

(** The host and port that were connected to are part of the result, with the data for the
    server, the connection to the browser and what was logged. *)
Record served := Served { s_host : list Z; s_port : Z; s_server : io; s_browser : io; s_log : list Z }.

Definition server (fuel : nat) (dial : dialer) (g : garbage) (time_str : list Z) (clientaddr : Z) (rp : rio_t) (fd : io) : outcome fault served :=
  match Rio_readlineb_w rp MAXLINE with
  | None => stop NoFuel
  | Some (rp, data, _) =>
      let buf := cstr (store data (g_buf g)) in
      let uri := default (g_uri g) (scan_uri buf) in
      match (match parse_uri uri with
             | NotHttp => Done ([], g_port g)
             | Parsed hostname _ port => Done (hostname, port)
             | NullHost => stop NullPointer
             end) with
      | Fail e => stop e
      | Done (hostname, port) =>
          match header_loop fuel rp hostname (g_line g) (cstr (g_header g)) with
          | Fail e => stop e
          | Done (rp, header) =>
              match client dial g uri hostname port fd with
              | Fail e => stop e
              | Done (sv, _, fd, size) =>
                  if 0 <? size then
                    match log_record g (format_log_entry time_str clientaddr uri size) with
                    | Fail e => stop e
                    | Done r => Done (Served hostname port sv fd r)
                    end
                  else Done (Served hostname port sv fd [])
              end
          end
      end
  end.

(** ** The queue of connections *)

Record queue := Queue { clifd : list Z; iget : nat; iput : nat }.
Definition next (i : nat) : nat := if (S i =? MAXNCLI)%nat then 0%nat else S i.
(** In [main], with the mutex. *)
Definition put (connfd : Z) (q : queue) : queue := Queue (<[iput q := connfd]> (clifd q)) (iget q) (next (iput q)).
(** In [thread_main]: [None] if it waits. *)
Definition get (q : queue) : option (Z * queue) :=
  if (iget q =? iput q)%nat then None else Some (default 0 (clifd q !! iget q), Queue (clifd q) (next (iget q)) (iput q)).

(** A thread is about to lock the mutex, waits for the condition, or serves a connection. *)
Inductive worker := Ready | Waiting | Busy (fd : Z).
#[global] Instance worker_eq_dec : EqDecision worker. Proof. solve_decision. Defined.
Record world := World { wq : queue; workers : list worker; accepted : list Z; taken : list Z }.

Inductive step : world → world → Prop :=
| Accept_signal w fd i : workers w !! i = Some Waiting →
    step w (World (put fd (wq w)) (<[i := Ready]> (workers w)) (accepted w ++ [fd]) (taken w))
| Accept_busy w fd : Waiting ∉ workers w → step w (World (put fd (wq w)) (workers w) (accepted w ++ [fd]) (taken w))
| Take w i fd q : workers w !! i = Some Ready → get (wq w) = Some (fd, q) →
    step w (World q (<[i := Busy fd]> (workers w)) (accepted w) (taken w ++ [fd]))
| Wait w i : workers w !! i = Some Ready → get (wq w) = None →
    step w (World (wq w) (<[i := Waiting]> (workers w)) (accepted w) (taken w))
| Spurious w i : workers w !! i = Some Waiting → step w (World (wq w) (<[i := Ready]> (workers w)) (accepted w) (taken w))
| Finish w i fd : workers w !! i = Some (Busy fd) → step w (World (wq w) (<[i := Ready]> (workers w)) (accepted w) (taken w)).

Definition initial : world := World (Queue (replicate MAXNCLI 0) 0 0) (replicate NTHREADS Ready) [] [].
