(* ===== verification/ProxyProps.v ===== *)
(** What the proxy reads, sends and passes on, and that its queue loses no connection as long as
    it is not full. *)
From Stdlib Require Import ZArith Lia String.
From stdpp Require Import base tactics numbers list relations.
From S2P Require Import Prelude Cio ByteOrder Rio RioProps Proxy.
Local Open Scope Z_scope.

#[local] Opaque MAXLINE HEADER_SIZE RIO_BUFSIZE.

(** ** parse_uri *)

Definition special : list Z := [32; 58; 47; 13; 10].

Lemma strpbrk_app l c k acc : Forall (λ x, x ∉ acc) l → c ∈ acc → strpbrk (l ++ c :: k) acc = Some (length l).
Proof.
  induction l as [|x l IH]; intros Hl Hc; cbn [strpbrk app]; [by rewrite bool_decide_true|]. inversion_clear Hl.
  rewrite bool_decide_false by done. by rewrite IH.
Qed.
Lemma strpbrk_none l acc : strpbrk l acc = None ↔ Forall (λ x, x ∉ acc) l.
Proof.
  induction l as [|x l IH]; cbn [strpbrk]; [by split; [constructor|]|]. case_bool_decide as Hx.
  - split; [done|]. intros H. by inversion_clear H.
  - rewrite fmap_None, IH. split; [by constructor|]. intros H. by inversion_clear H.
Qed.

Lemma casecmp_scheme scheme l : lower <$> scheme = bytes "http://" → casecmp 7 (scheme ++ l) (bytes "http://") = true ∧ drop 7 (scheme ++ l) = l.
Proof.
  intros E. assert (length scheme = 7%nat) as Hl by (apply (f_equal length) in E; rewrite length_fmap in E; exact E).
  split; [|by apply drop_app_length']. unfold casecmp. apply bool_decide_true. rewrite take_app_length' by done. rewrite E. vm_compute. reflexivity.
Qed.

Lemma host_start host c k : Forall (λ x, x ∉ special) host → c ∈ special →
  strpbrk (host ++ c :: k) (cstr [32; 58; 47; 13; 10; 0]) = Some (length host).
Proof. intros Hh Hc. change (cstr _) with special. by apply strpbrk_app. Qed.

Lemma special_no host c : Forall (λ x, x ∉ special) host → c ∈ special → c ∉ host.
Proof. intros Hh Hc Hin. rewrite Forall_forall in Hh. by apply (Hh c). Qed.

Lemma drop_after {A} (l : list A) c k : drop (S (length l)) (l ++ c :: k) = k.
Proof. induction l; [done|]. cbn in *. done. Qed.

(** C23: [parse_uri] takes host, port and path of an address apart, whatever the case of the
    scheme is; the port is 80 if none is given.  It returns -1 exactly for other schemes.  The
    null pointer that [strpbrk] returns is used exactly if nothing ends the name of the host. *)
Theorem parse_uri_correct scheme host path port : lower <$> scheme = bytes "http://" →
  Forall (λ x, x ∉ special) host → no_nul host → 0 <= port < 2 ^ 31 →
  parse_uri (scheme ++ host ++ 47 :: path) = Parsed host path 80 ∧
  parse_uri (scheme ++ host ++ 58 :: dec port ++ 47 :: path) = Parsed host path port ∧
  parse_uri (scheme ++ host) = NullHost ∧
  ∀ uri, (parse_uri uri = NotHttp ↔ lower <$> take 7 uri ≠ bytes "http://") ∧
    (parse_uri uri = NullHost ↔ lower <$> take 7 uri = bytes "http://" ∧ Forall (λ x, x ∉ special) (drop 7 uri)).
Proof.
  intros Hs Hh Hn Hp. assert (∀ c, c ∈ special → c ∉ host) as Hno by (intros; by apply special_no).
  assert (47 ∈ special ∧ 58 ∈ special) as [H47 H58] by (split; repeat constructor).
  assert (0 <= port < dec_max) as Hpm by (unfold dec_max; lia). split; [|split; [|split]].
  - destruct (casecmp_scheme scheme (host ++ 47 :: path) Hs) as [E1 E2]. unfold parse_uri. rewrite E1, E2. cbn [negb].
    rewrite host_start by done. rewrite take_app_length, drop_app_length, strchr_app by (done || by apply Hno). cbn [Z.eqb]. by rewrite drop_after.
  - destruct (casecmp_scheme scheme (host ++ 58 :: dec port ++ 47 :: path) Hs) as [E1 E2]. unfold parse_uri. rewrite E1, E2. cbn [negb].
    rewrite host_start by done. rewrite take_app_length, drop_app_length. cbn [Z.eqb Pos.eqb].
    replace (host ++ 58 :: dec port ++ 47 :: path) with ((host ++ 58 :: dec port) ++ 47 :: path) by (by rewrite <- app_assoc).
    destruct (dec_spec port Hpm) as [Hd Hv]. rewrite atol_digits by (done || (intros E; pose proof (dec_length_pos port ltac:(lia)) as Hl; rewrite E in Hl; cbn in Hl; lia)).
    rewrite Hv, i32_id, strchr_app, drop_after; [done|apply Forall_app; split; [done|constructor; [done|by apply dec_no_nul]]| |done|lia].
    rewrite elem_of_app, elem_of_cons. intros [?|[?|?]]; [by apply (Hno 47)|done|by apply (dec_no 47 port Hpm eq_refl)].
  - destruct (casecmp_scheme scheme host Hs) as [E1 E2]. unfold parse_uri. rewrite E1, E2. cbn [negb].
    by rewrite (proj2 (strpbrk_none host _)).
  - intros uri. unfold parse_uri, casecmp. change (lower <$> take 7 (bytes "http://")) with (bytes "http://"). case_bool_decide as Hc; cbn [negb].
    + change (cstr _) with special. rewrite <- strpbrk_none. destruct (strpbrk (drop 7 uri) special) as [n|]; (split; [by split|]); [|done]. split; [done|]. by intros [_ ?].
    + split; [by split|]. split; [done|]. by intros [? _].
Qed.

(** ** Lines *)

Lemma take_line_nl l k m : (10 ∉ l) → (length l < m)%nat → take_line m (l ++ 10 :: k) = l ++ [10].
Proof.
  revert m. induction l as [|c l IH]; intros m Hl Hm; destruct m as [|m]; cbn [length] in Hm; try lia; [done|].
  apply not_elem_of_cons in Hl as [Hc Hl]. cbn [app take_line]. rewrite (proj2 (Z.eqb_neq c 10)) by (by intros ->). by rewrite IH by (done || lia).
Qed.

Lemma take_line_prefix m l : l = take_line m l ++ drop (length (take_line m l)) l.
Proof. revert l. induction m as [|m IH]; intros [|c l]; try done. cbn [take_line]. destruct (c =? 10); [done|]. cbn. by rewrite <- IH. Qed.

Lemma ends_nl_snoc l : ends_nl (l ++ [10]) = true.
Proof. unfold ends_nl. by rewrite last_snoc. Qed.

(** What [Rio_readlineb_w] reads and returns. *)
Lemma readline_w_run maxlen rp : (2 <= maxlen)%nat → rio_ok rp → no_err (rio_fd rp) → let line := take_line (maxlen - 1) (stream rp) in
  ∃ rp', Rio_readlineb_w rp maxlen = Some (rp', if decide (line = []) then [] else line ++ [0],
      if ends_nl line then Z.of_nat (length line) else if decide (line = []) then 0 else Z.of_nat (length line) + 1) ∧
    rio_ok rp' ∧ no_err (rio_fd rp') ∧ stream rp = line ++ stream rp'.
Proof.
  intros Hm Hok Hs line. destruct (rio_readlineb_loop_ok (maxlen - 1) rp 1 [] Hok Hs ltac:(lia)) as (rp' & E & Ho & Hn & Hst).
  exists rp'. split; [|done]. unfold Rio_readlineb_w, rio_readlineb. rewrite E. fold line. cbn [app]. unfold rio_line_rc.
  destruct (decide (line = [])) as [El|El].
  - rewrite El. rewrite !decide_True by (split_and!; [done|done|lia]). done.
  - rewrite !decide_False by naive_solver. destruct (ends_nl line).
    + rewrite (proj2 (Z.ltb_ge _ 0)) by lia. do 2 f_equal. lia.
    + rewrite (proj2 (Z.ltb_ge _ 0)) by lia. do 2 f_equal. lia.
Qed.

Lemma writen_loop_wok fuel s n b s' r : rio_writen_loop fuel s n b = Some (s', r) → wok s → wok s'.
Proof.
  revert s b. induction fuel as [|fuel IH]; intros s b; [done|]. cbn [rio_writen_loop]. destruct (_ <? _)%nat; [|by intros [= <- _]].
  intros E Hs. assert (wok (fst (write s b))) as Hw.
  { unfold write, wok in *. destruct (sched s) as [|[k| |e] q]; cbn; try done; by inversion_clear Hs. }
  destruct (write s b) as [s1 [[|k]|]]; cbn [fst] in Hw; [destruct (_ =? _)|..|destruct (_ =? _)]; eauto; by injection E as <- _.
Qed.

Lemma writen_run s data : wok s → ∃ s', rio_writen s data = Some (s', Z.of_nat (length data)) ∧ out s' = out s ++ data ∧ wok s'.
Proof.
  intros Hs. destruct (rio_writen_loop_ok (length (sched s) + 2) s (length data) data) as (s' & E & Ho & _); [done|unfold wneed; case_decide; lia|].
  exists s'. split; [done|]. split; [done|]. by eapply writen_loop_wok.
Qed.

(** ** Passing the response on *)

(** The pieces in which the response is read. *)
Fixpoint pieces (fuel : nat) (l : list Z) : list (list Z) :=
  match fuel with
  | O => []
  | S fuel => match take_line (Z.to_nat 2047) l with [] => [] | p => p :: pieces fuel (drop (length p) l) end
  end.
(** What the browser gets for a piece. *)
Definition passed_on (p : list Z) : list Z := if ends_nl p then p else p ++ [0].
Definition response (l : list Z) : list Z := concat (passed_on <$> pieces (length l) l).

Lemma pieces_fuel n m l : (length l <= n)%nat → (length l <= m)%nat → pieces n l = pieces m l.
Proof.
  revert m l. induction n as [|n IH]; intros m l Hn Hm.
  - destruct l; [|cbn in Hn; lia]. destruct m; [done|]. by destruct (Z.to_nat 2047).
  - destruct m as [|m]; [destruct l; [|cbn in Hm; lia]; by destruct (Z.to_nat 2047)|]. cbn [pieces]. destruct (take_line (Z.to_nat 2047) l) as [|c p] eqn:E; [done|].
    f_equal. pose proof (f_equal length (take_line_prefix (Z.to_nat 2047) l)) as Hl. rewrite E, length_app, length_drop in Hl. cbn [length] in *. apply IH; rewrite length_drop; lia.
Qed.

Lemma relay_run fuel : ∀ rp fd body size, rio_ok rp → no_err (rio_fd rp) → wok fd → (length (stream rp) < fuel)%nat → 0 <= size →
  size + Z.of_nat (length (response (stream rp))) < 2 ^ 31 →
  ∃ rp' fd', relay fuel rp fd body size = Done (rp', fd', size + Z.of_nat (length (response (stream rp)))) ∧
    out fd' = out fd ++ response (stream rp) ∧ wok fd'.
Proof.
  induction fuel as [|fuel IH]; intros rp fd body size Hok Hs Hw Hf H0 Hmax; [lia|]. cbn [relay].
  destruct (readline_w_run (Z.to_nat 2048) rp ltac:(lia) Hok Hs) as (rp1 & E & Hok1 & Hs1 & Hst). rewrite E.
  replace (Z.to_nat 2048 - 1)%nat with (Z.to_nat 2047) in * by lia. set (line := take_line (Z.to_nat 2047) (stream rp)) in *.
  destruct (decide (line = [])) as [El|El].
  { assert (response (stream rp) = []) as Er.
    { unfold response. destruct (length (stream rp)) eqn:En; [done|]. cbn [pieces]. fold line. by rewrite El. }
    rewrite Er in *. rewrite El in *. cbn. exists rp1, fd. rewrite Z.add_0_r, app_nil_r. done. }
  assert (response (stream rp) = passed_on line ++ response (stream rp1)) as Er.
  { unfold response. assert (length (stream rp) = length line + length (stream rp1))%nat as Hlen by (rewrite Hst at 1; by rewrite length_app).
    assert (0 < length line)%nat as Hpos by (destruct line; [done|cbn; lia]). destruct (length (stream rp)) as [|n] eqn:En; [lia|]. cbn [pieces]. fold line.
    assert (drop (length line) (stream rp) = stream rp1) as Ed by (rewrite Hst; by rewrite drop_app_length). destruct line as [|c p]; [done|].
    rewrite Ed. cbn [fmap list_fmap concat]. do 2 f_equal. f_equal. apply pieces_fuel; lia. }
  set (lines := if ends_nl line then _ else _) in *. assert (lines = Z.of_nat (length (passed_on line))) as Elines.
  { unfold lines, passed_on. destruct (ends_nl line); [done|]. rewrite length_app. cbn. lia. }
  assert (take (Z.to_nat lines) (store (line ++ [0]) body) = passed_on line) as Et.
  { rewrite Elines, Nat2Z.id. unfold store, passed_on. destruct (ends_nl line); [rewrite <- app_assoc; by rewrite take_app_length|by rewrite take_app_length]. }
  assert (0 < length (passed_on line))%nat as Hp by (unfold passed_on; destruct (ends_nl line); destruct line; try done; cbn; lia).
  rewrite (proj2 (Z.eqb_neq lines 0)) by lia. rewrite Et. destruct (writen_run fd (passed_on line) Hw) as (fd1 & Ew & Ho & Hw1). rewrite Ew, (proj2 (Z.eqb_neq _ (-1))) by lia.
  rewrite Er, length_app in Hmax. rewrite i32_id by lia.
  destruct (IH rp1 fd1 (store (line ++ [0]) body) (size + lines) Hok1 Hs1 Hw1) as (rp' & fd' & E' & Ho' & Hw').
  { rewrite Hst, length_app in Hf. assert (0 < length line)%nat by (destruct line; [done|cbn; lia]). lia. } { lia. } { lia. }
  exists rp', fd'. rewrite E', Ho', Ho, Er, length_app, <- app_assoc. split; [|done]. do 2 f_equal. lia.
Qed.

(** ** The request *)

Lemma maxline_2 : (2 <= MAXLINE)%nat.
Proof. apply Nat.leb_le. vm_compute. reflexivity. Qed.

(** A line of a request: it ends with its only newline and fits the buffer. *)
Definition line_ok (l : list Z) : Prop := no_nul l ∧ (∃ k, l = k ++ [10] ∧ (10 ∉ k)) ∧ (length l < MAXLINE)%nat.

Lemma readline_ok rp l more buf : line_ok l → rio_ok rp → no_err (rio_fd rp) → stream rp = l ++ more →
  ∃ rp' data rc, Rio_readlineb_w rp MAXLINE = Some (rp', data, rc) ∧ cstr (store data buf) = l ∧ rio_ok rp' ∧ no_err (rio_fd rp') ∧ stream rp' = more.
Proof.
  intros (Hn & (k & El & Hk) & Hlen) Hok Hs Hst. destruct (readline_w_run MAXLINE rp maxline_2 Hok Hs) as (rp' & E & Ho & He & Hst').
  assert (take_line (MAXLINE - 1) (stream rp) = l) as Et.
  { rewrite Hst, El, <- app_assoc. apply take_line_nl; [done|]. rewrite El, length_app in Hlen. cbn in Hlen. lia. }
  rewrite Et in *. assert (l ≠ []) as Hne by (rewrite El; by destruct k). rewrite decide_False in E by done. eexists rp', _, _. split; [exact E|].
  split; [|split; [done|split; [done|]]].
  - unfold store. rewrite <- app_assoc. by apply cstr_app.
  - rewrite Hst in Hst'. by apply app_inv_head in Hst'.
Qed.

Definition header_size (hostname : list Z) (hdrs : list (list Z)) : nat := length (concat (header_text hostname <$> hdrs)).

Lemma crlf_ok : line_ok CRLF.
Proof.
  split; [by repeat constructor|]. split; [exists [13]; split; [done|]; by intros ?%list_elem_of_singleton|]. apply Nat.ltb_lt. vm_compute. reflexivity.
Qed.

Lemma header_loop_run hdrs : ∀ fuel rp hostname hin header more, Forall line_ok hdrs → rio_ok rp → no_err (rio_fd rp) →
  stream rp = concat hdrs ++ CRLF ++ more → (length hdrs < fuel)%nat →
  (length header + header_size hostname (hdrs ++ [CRLF]) < HEADER_SIZE)%nat →
  ∃ rp' header', header_loop fuel rp hostname hin header = Done (rp', header').
Proof.
  induction hdrs as [|l hdrs IH]; intros fuel rp hostname hin header more Hh Hok Hs Hst Hf Hsz; (destruct fuel as [|fuel]; [cbn in Hf; lia|]); cbn [header_loop];
    (destruct (bool_decide (cstr hin = CRLF)); [by eauto|]).
  - destruct (readline_ok rp CRLF more hin crlf_ok Hok Hs Hst) as (rp' & data & rc & E & Hc & _). rewrite E, Hc.
    unfold strcat. rewrite (proj2 (Nat.ltb_ge HEADER_SIZE _)). 2: { unfold header_size in Hsz. cbn [app fmap list_fmap concat] in Hsz. rewrite app_nil_r in Hsz. rewrite length_app. lia. }
    destruct fuel; cbn [header_loop]; rewrite Hc, bool_decide_true by done; by eauto.
  - inversion_clear Hh as [|?? Hl Hh']. cbn [concat] in Hst. rewrite <- app_assoc in Hst.
    destruct (readline_ok rp l _ hin Hl Hok Hs Hst) as (rp' & data & rc & E & Hc & Hok' & Hs' & Hst'). rewrite E, Hc. unfold strcat.
    unfold header_size in Hsz. cbn [app fmap list_fmap concat] in Hsz. rewrite length_app in Hsz. rewrite (proj2 (Nat.ltb_ge HEADER_SIZE _)) by (rewrite length_app; lia).
    eapply IH; try done; [cbn in Hf; lia|]. unfold header_size. rewrite length_app. lia.
Qed.

(** A word of the request line. *)
Definition word (l : list Z) : Prop := l ≠ [] ∧ Forall (λ c, is_space c = false) l.

Lemma nonspace_word w c k : word w → is_space c = true → nonspace (skip_space (w ++ c :: k)) = (w, c :: k).
Proof.
  intros [Hne Hw] Hc. assert (skip_space (w ++ c :: k) = w ++ c :: k) as -> by (destruct w as [|x w]; [done|]; inversion_clear Hw as [|?? Hx _]; cbn; by rewrite Hx).
  clear Hne. induction w as [|x w IH]; cbn [app nonspace]; [by rewrite Hc|]. inversion_clear Hw as [|?? Hx Hw']. by rewrite Hx, IH.
Qed.

Lemma scan_uri_run meth uri k : word meth → word uri → scan_uri (meth ++ 32 :: uri ++ 32 :: k) = Some uri.
Proof.
  intros Hm Hu. unfold scan_uri. rewrite nonspace_word by done. destruct meth; [by destruct Hm|].
  change (skip_space (32 :: uri ++ 32 :: k)) with (skip_space (uri ++ 32 :: k)). rewrite nonspace_word by done. by destruct uri; [destruct Hu|].
Qed.

Definition request (uri hostname : list Z) : list Z := request_line uri ++ close_line ++ host_line hostname.

Lemma send_run s text : wok s → (length text < MAXLINE)%nat → ∃ s', send s text = Done s' ∧ out s' = out s ++ text ∧ wok s'.
Proof.
  intros Hw Hl. unfold send. rewrite (proj2 (Nat.ltb_ge MAXLINE _)) by lia. destruct (writen_run s text Hw) as (s' & E & Ho & Hw').
  exists s'. unfold Rio_writen_w. by rewrite E.
Qed.

Lemma close_line_short : (length close_line < MAXLINE)%nat.
Proof. apply Nat.ltb_lt. vm_compute. reflexivity. Qed.

Lemma client_run dial g uri hostname port fd sv_out sv_in : dial hostname port = Some (sv_out, sv_in) → wok sv_out → no_err sv_in → wok fd →
  length (g_rio g) = RIO_BUFSIZE → (length (request_line uri) < MAXLINE)%nat → (length (host_line hostname) < MAXLINE)%nat →
  Z.of_nat (length (response (rest sv_in))) < 2 ^ 31 →
  ∃ sv rp' fd', client dial g uri hostname port fd = Done (sv, rp', fd', Z.of_nat (length (response (rest sv_in)))) ∧
    out sv = out sv_out ++ request uri hostname ∧ out fd' = out fd ++ response (rest sv_in).
Proof.
  intros Hd Hwo Hni Hw Hg Hu Hh Hr. unfold client. rewrite Hd. destruct (send_run sv_out (request_line uri) Hwo Hu) as (s1 & E1 & O1 & W1). rewrite E1.
  destruct (send_run s1 close_line W1 close_line_short) as (s2 & E2 & O2 & W2). rewrite E2. destruct (send_run s2 (host_line hostname) W2 Hh) as (s3 & E3 & O3 & W3). rewrite E3.
  assert (rio_ok (rio_readinitb (g_rio g) sv_in) ∧ stream (rio_readinitb (g_rio g) sv_in) = rest sv_in) as [Hok Hst].
  { unfold rio_readinitb. split; [split; [done|]; cbn; lia|]. unfold stream. by rewrite unread_empty. }
  destruct (relay_run (S (length (rest sv_in))) (rio_readinitb (g_rio g) sv_in) fd (g_body g) 0 Hok) as (rp' & fd' & E & Ho & _); rewrite ?Hst; try done; [lia|].
  rewrite Hst in E, Ho. rewrite E. exists s3, rp', fd'. split; [done|]. split; [|done]. rewrite O3, O2, O1. unfold request. by rewrite !app_assoc.
Qed.

Lemma parse_host_short uri host path port : parse_uri uri = Parsed host path port → (length host <= length uri)%nat.
Proof.
  unfold parse_uri. destruct (negb _); [done|]. destruct (strpbrk _ _) as [n|]; [|done]. intros [= <- _ _]. rewrite length_take, length_drop. lia.
Qed.

Lemma dec_byte_no_nul x k : no_nul (dec (Z.land x 255)) ∧ (0 <= k < 2 ^ 31 → no_nul (dec k)).
Proof.
  assert (0 <= Z.land x 255 < 256) as H.
  { change 255 with (Z.ones 8). rewrite Z.land_ones by lia. apply Z.mod_pos_bound. lia. }
  split; intros; apply dec_no_nul; unfold dec_max; lia.
Qed.

Lemma entry_no_nul time_str addr uri size : no_nul time_str → no_nul uri → 0 <= size < 2 ^ 31 → no_nul (format_log_entry time_str addr uri size).
Proof.
  intros Ht Hu Hs. unfold format_log_entry. assert (∀ x, no_nul (dec (Z.land x 255))) as Hb by (intros x; apply (dec_byte_no_nul x 0)).
  pose proof (proj2 (dec_byte_no_nul 0 size) Hs) as Hd. assert (no_nul (bytes ": ") ∧ no_nul [46] ∧ no_nul [32]) as (H1 & H2 & H3) by (split_and!; by repeat constructor).
  unfold no_nul in *. by rewrite !Forall_app.
Qed.

Lemma log_record_run g entry : no_nul entry → (length entry + 2 <= MAXLINE)%nat → length (g_lstring g) = MAXLINE →
  ∃ r, log_record g entry = Done r ∧ length r = MAXLINE ∧ cstr r = entry ++ [10].
Proof.
  intros Hn Hl Hg. unfold log_record. rewrite (proj2 (Nat.ltb_ge MAXLINE _)) by done. eexists. split; [done|]. unfold store. split.
  - rewrite length_take, !length_app, length_drop. cbn [length]. lia.
  - replace (entry ++ [10; 0]) with ((entry ++ [10]) ++ [0]) by (by rewrite <- app_assoc). rewrite <- (app_assoc (entry ++ [10])).
    rewrite take_app_ge by (rewrite length_app; cbn; lia). rewrite length_app. cbn [length]. replace (MAXLINE - (length entry + 1))%nat with (S (MAXLINE - (length entry + 2))) by lia.
    cbn [app take firstn]. apply cstr_app. apply Forall_app. split; [done|by repeat constructor].
Qed.


(** A response of which every line ends with a newline and has at most 2047 bytes reaches the
    browser unchanged.  In general the browser gets a 0 behind every piece that does not end with
    a newline: behind each 2047 bytes without one, and at the end of the response. *)
Theorem response_text lines : Forall (λ l, ∃ k, l = k ++ [10] ∧ (10 ∉ k) ∧ (length l <= Z.to_nat 2047)%nat) lines →
  response (concat lines) = concat lines ∧
  ∀ tail, (10 ∉ tail) → (0 < length tail <= Z.to_nat 2047)%nat → response (concat lines ++ tail) = concat lines ++ tail ++ [0].
Proof.
  intros Hl. assert (∀ tail, pieces (length (concat lines ++ tail)) (concat lines ++ tail) = lines ++ pieces (length tail) tail) as Hp.
  { intros tail. induction Hl as [|l lines (k & -> & Hk & Hlen) _ IH]; [done|]. cbn [concat]. rewrite <- !app_assoc. rewrite length_app in Hlen. cbn [length] in Hlen.
    rewrite length_app. replace (length k + _)%nat with (S (length k + length (concat lines ++ tail))) by (cbn; lia). cbn [pieces app].
    rewrite take_line_nl by (done || lia). destruct (k ++ [10]) as [|c p] eqn:E; [by destruct k|]. rewrite <- E. clear E.
    replace (k ++ 10 :: concat lines ++ tail) with ((k ++ [10]) ++ concat lines ++ tail) by (by rewrite <- app_assoc). rewrite drop_app_length. f_equal. rewrite <- IH. apply pieces_fuel; lia. }
  assert (concat (passed_on <$> lines) = concat lines) as Hc.
  { clear Hp. induction Hl as [|l lines (k & -> & _) _ IH]; [done|]. cbn [fmap list_fmap concat]. unfold passed_on at 1. by rewrite ends_nl_snoc, IH. }
  split.
  - pose proof (Hp []) as H. rewrite !app_nil_r in H. unfold response. by rewrite H.
  - intros tail Ht Hlen. unfold response. rewrite Hp, fmap_app, concat_app, Hc. f_equal.
    assert (∀ m, (length tail <= m)%nat → take_line m tail = tail) as Htl.
    { clear - Ht. induction tail as [|c t IH]; intros m Hm; (destruct m as [|m]; [done || (cbn in Hm; lia)|]); [done|]. apply not_elem_of_cons in Ht as [Hc Ht].
      cbn [take_line]. rewrite (proj2 (Z.eqb_neq c 10)) by (by intros ->). f_equal. apply IH; [done|cbn in Hm; lia]. }
    destruct (length tail) as [|n] eqn:En; [lia|]. cbn [pieces]. rewrite Htl by lia. destruct tail as [|c t]; [done|]. rewrite drop_ge by lia.
    assert (pieces n [] = []) as -> by (destruct n; [done|]; cbn [pieces]; by destruct (Z.to_nat 2047)). cbn [fmap list_fmap concat]. rewrite app_nil_r. unfold passed_on.
    assert (ends_nl (c :: t) = false) as ->; [|done]. unfold ends_nl. apply Z.eqb_neq. destruct (last (c :: t)) as [x|] eqn:El; [|done]. cbn. intros ->. apply Ht. by apply last_Some_elem_of.
Qed.

(** ** The queue *)

Definition idx (i k : nat) : nat := if (i + k <? MAXNCLI)%nat then (i + k)%nat else (i + k - MAXNCLI)%nat.

(** The array holds the connections [l] that wait, the first one at [iget]. *)
Record holds (q : queue) (l : list Z) : Prop := {
  h_len : length (clifd q) = MAXNCLI;
  h_get : (iget q < MAXNCLI)%nat;
  h_few : (length l < MAXNCLI)%nat;
  h_put : iput q = idx (iget q) (length l);
  h_at : ∀ k x, l !! k = Some x → clifd q !! idx (iget q) k = Some x }.

Lemma idx_S i k : (i < MAXNCLI)%nat → (k < MAXNCLI)%nat → idx (next i) k = idx i (S k) ∧ idx i (S k) = next (idx i k).
Proof.
  intros Hi Hk. unfold idx, next. destruct (Nat.eqb_spec (S i) MAXNCLI), (Nat.ltb_spec (i + S k) MAXNCLI), (Nat.ltb_spec (i + k) MAXNCLI);
    repeat (case_match; rewrite ?Nat.eqb_eq, ?Nat.eqb_neq, ?Nat.ltb_lt, ?Nat.ltb_ge in *); unfold MAXNCLI in *; lia.
Qed.

Lemma idx_inj i j k : (i < MAXNCLI)%nat → (j < MAXNCLI)%nat → (k < MAXNCLI)%nat → idx i j = idx i k → j = k.
Proof. intros Hi Hj Hk. unfold idx. destruct (Nat.ltb_spec (i + j) MAXNCLI), (Nat.ltb_spec (i + k) MAXNCLI); lia. Qed.

Lemma idx_lt i k : (i < MAXNCLI)%nat → (k < MAXNCLI)%nat → (idx i k < MAXNCLI)%nat.
Proof. intros. unfold idx. destruct (Nat.ltb_spec (i + k) MAXNCLI); lia. Qed.

Lemma put_holds q l fd : holds q l → (length l + 1 < MAXNCLI)%nat → holds (put fd q) (l ++ [fd]).
Proof.
  intros [H1 H2 H3 H4 H5] Hn. unfold put. split; cbn [clifd iget iput].
  - by rewrite length_insert.
  - done.
  - rewrite length_app. cbn. lia.
  - rewrite length_app. cbn [length]. rewrite Nat.add_1_r, H4. by rewrite (proj2 (idx_S (iget q) (length l) H2 H3)).
  - intros k x. rewrite H4. destruct (decide (k = length l)) as [->|Hk].
    + rewrite list_lookup_middle by done. intros [= ->]. apply list_lookup_insert_eq. rewrite H1. by apply idx_lt.
    + intros Hx. assert (k < length l)%nat as Hlt by (apply lookup_lt_Some in Hx; rewrite length_app in Hx; cbn in Hx; lia).
      rewrite lookup_app_l in Hx by done. rewrite list_lookup_insert_ne; [by apply H5|]. intros E. apply idx_inj in E; lia.
Qed.

Lemma get_holds q l : holds q l → match l with
  | [] => get q = None
  | fd :: l' => ∃ q', get q = Some (fd, q') ∧ holds q' l' end.
Proof.
  intros [H1 H2 H3 H4 H5]. unfold get. assert (iget q = idx (iget q) 0) as E0 by (unfold idx; rewrite Nat.add_0_r; by rewrite (proj2 (Nat.ltb_lt _ _) H2)).
  destruct l as [|fd l]; [by rewrite H4, E0 at 1; rewrite Nat.eqb_refl|].
  destruct (Nat.eqb_spec (iget q) (iput q)) as [E|E].
  { rewrite H4, E0 in E at 1. apply idx_inj in E; cbn [length] in *; lia. }
  pose proof (H5 0%nat fd eq_refl) as Hfd. rewrite <- E0 in Hfd. rewrite Hfd. eexists. split; [done|]. cbn [length] in *. split; cbn [clifd iget iput].
  - done.
  - unfold next. destruct (Nat.eqb_spec (S (iget q)) MAXNCLI); unfold MAXNCLI in *; lia.
  - lia.
  - rewrite H4. symmetry. apply idx_S; lia.
  - intros k x Hx. rewrite (proj1 (idx_S (iget q) k H2 ltac:(apply lookup_lt_Some in Hx; lia))). by apply H5.
Qed.

(** Fewer than [MAXNCLI] connections wait. *)
Definition room (w : world) : Prop := (length (accepted w) < length (taken w) + MAXNCLI)%nat.

Record queue_inv (w : world) (l : list Z) : Prop := {
  q_log : accepted w = taken w ++ l;
  q_holds : holds (wq w) l;
  q_awake : l ≠ [] → ∃ i x, workers w !! i = Some x ∧ x ≠ Waiting }.

Lemma awake_insert (ws : list worker) i x y : ws !! i = Some x → y ≠ Waiting → ∃ j z, <[i := y]> ws !! j = Some z ∧ z ≠ Waiting.
Proof. intros Hi Hy. exists i, y. split; [|done]. apply list_lookup_insert_eq. by eapply lookup_lt_Some. Qed.

Lemma step_queue w w' l : queue_inv w l → workers w ≠ [] → step w w' → room w' → ∃ l', queue_inv w' l'.
Proof.
  intros [H1 H2 H3] Hne Hst Hr. unfold room in Hr. destruct Hst as [w fd i Hi|w fd Hn|w i fd q Hi Hg|w i Hi Hg|w i Hi|w i fd Hi]; cbn [accepted taken workers wq] in *.
  - exists (l ++ [fd]). rewrite H1, !length_app in Hr. split; cbn [accepted taken workers wq]; [by rewrite H1, app_assoc|apply put_holds; [done|cbn in Hr; lia]|].
    intros _. by eapply awake_insert.
  - exists (l ++ [fd]). rewrite H1, !length_app in Hr. split; cbn [accepted taken workers wq]; [by rewrite H1, app_assoc|apply put_holds; [done|cbn in Hr; lia]|].
    intros _. destruct (workers w) as [|x ws]; [done|]. exists 0%nat, x. split; [done|]. intros ->. apply Hn. by left.
  - pose proof (get_holds _ _ H2) as Hq. destruct l as [|x l]; [congruence|]. destruct Hq as (q' & E & Hh). assert (x = fd ∧ q' = q) as [-> ->] by (rewrite Hg in E; by injection E).
    exists l. split; cbn [accepted taken workers wq]; [by rewrite H1, <- app_assoc|done|]. intros _. by eapply awake_insert.
  - exists l. split; cbn [accepted taken workers wq]; [done|done|]. intros Hl. exfalso. pose proof (get_holds _ _ H2) as Hq. destruct l; [done|]. destruct Hq as (q' & E & _). congruence.
  - exists l. split; cbn [accepted taken workers wq]; [done|done|]. intros _. by eapply awake_insert.
  - exists l. split; cbn [accepted taken workers wq]; [done|done|]. intros _. by eapply awake_insert.
Qed.

Lemma step_workers w w' : step w w' → length (workers w') = length (workers w).
Proof. destruct 1; cbn [workers]; by rewrite ?length_insert. Qed.


(** ** Concrete requests *)

Definition demo_garbage : garbage :=
  Garbage (replicate MAXLINE 0) [] 0 (replicate MAXLINE 0) (replicate HEADER_SIZE 0) [] (replicate RIO_BUFSIZE 0) (replicate MAXLINE 0).
Definition demo_uri : list Z := bytes "http://a.se:81/x".
(** The server answers the bytes [r]. *)
Definition demo_dial (r : list Z) : dialer := λ _ _, Some (Io [] [] [Part 3] 0, Io r [] [Intr; Part 2] 0).
Definition demo_stream : list Z := (bytes "POST " ++ demo_uri ++ bytes " HTTP/1.1" ++ CRLF) ++ (bytes "Host: b.se" ++ CRLF) ++ CRLF.
Definition demo_browser : rio_t := rio_readinitb (replicate RIO_BUFSIZE 0) (Io demo_stream [] [Part 7; Intr] 0).

Lemma parse_uri_correct_witness : parse_uri demo_uri = Parsed (bytes "a.se") (bytes "x") 81.
Proof.
  destruct (parse_uri_correct (bytes "http://") (bytes "a.se") (bytes "x") 81) as (_ & H & _).
  - reflexivity.
  - apply (bool_decide_unpack _). vm_compute. exact I.
  - apply (bool_decide_unpack _). vm_compute. exact I.
  - lia.
  - exact H.
Defined.

Lemma response_text_witness : response (concat [[104; 10]; [105; 10]]) = [104; 10; 105; 10].
Proof.
  apply (proj1 (response_text [[104; 10]; [105; 10]] ltac:(constructor; [exists [104]|constructor; [exists [105]|constructor]]; (split; [reflexivity|]; split; [apply (bool_decide_unpack _); vm_compute; exact I|cbn; lia])))).
Defined.


Lemma bufsize_ok : length (replicate RIO_BUFSIZE 0) = RIO_BUFSIZE ∧ length (replicate MAXLINE 0) = MAXLINE.
Proof. by rewrite !length_replicate. Qed.


(** ** Flaws *)

(** With 32 connections waiting the queue looks empty: all of them are lost. *)
Lemma proxy_queue_full : get (foldl (flip put) (wq initial) (Z.of_nat <$> seq 4 32)) = None.
Proof. vm_compute. reflexivity. Qed.

(** When the browser closes the connection before the empty line, the last line is appended again
    and again, until [header] overflows. *)
Lemma proxy_header_overflow : server 2000 (demo_dial []) demo_garbage [] 0
  (rio_readinitb (replicate RIO_BUFSIZE 0) (Io (bytes "GET http://a.se/ HTTP/1.0" ++ CRLF ++ bytes "Accept: */*" ++ CRLF) [] [] 0)) (Io [] [] [] 0) = Fail Overflow.
Proof. vm_compute. reflexivity. Qed.

(** An address without a path follows a null pointer. *)
Lemma proxy_null_host : server 5 (demo_dial []) demo_garbage [] 0
  (rio_readinitb (replicate RIO_BUFSIZE 0) (Io (bytes "GET http://a.se HTTP/1.0" ++ CRLF ++ CRLF) [] [] 0)) (Io [] [] [] 0) = Fail NullPointer.
Proof. vm_compute. reflexivity. Qed.
